(** * Wall editor: the wall registry and the drawing gesture

    A shallow embedding of the wall editor's interaction code:
    - [Viewer]            the monolithic viewer (registry, selection, hover,
                          two-click drawing gesture, zoom to fit);
    - [Document2D] and [CreateWallCommand]
                          the document/command variant (press-drag-release
                          gesture).

    JavaScript numbers are IEEE 754 binary64 values: they are modelled by
    Rocq's primitive floats, whose [+ - * / sqrt] round exactly as
    JavaScript's do; a number kept in a [Float32Array] is its
    single-precision rounding, [Math.fround].  Objects mutated in place
    become explicit state passing; an uncaught [TypeError] is an explicit
    result. *)

From Stdlib Require Import List String Ascii Bool Arith ZArith Lia.
From Stdlib Require Import PrimFloat.
From Stdlib Require SpecFloat FloatOps.
From Stdlib Require Import Decimal DecimalString DecimalNat DecimalZ.
Import ListNotations.

Set Warnings "-inexact-float".

(* ------------------------------------------------------------------ *)
(** ** The fragment of the JavaScript [Math] object used by the source *)

Module Math.

(** [Math.sqrt] is required to be correctly rounded. *)
Definition sqrt (a : float) : float := PrimFloat.sqrt a.

(** [Math.min] and [Math.max]: [NaN] is contagious and [-0] is below [+0]. *)
Definition min (a b : float) : float :=
  if (is_nan a || is_nan b)%bool then nan
  else if (a <? b)%float then a
  else if (b <? a)%float then b
  else if get_sign a then a else b.

Definition max (a b : float) : float :=
  if (is_nan a || is_nan b)%bool then nan
  else if (b <? a)%float then a
  else if (a <? b)%float then b
  else if get_sign a then b else a.

(** [Math.atan2(y, x)] is "implementation-approximated": ECMA-262 does not fix
    its value bit for bit.  The model therefore keeps the result as the call
    that produced it; the editor only ever stores it and hands it to the
    renderer as a rotation. *)
Inductive Radians : Type :=
| atan2 (y x : float).

(** [Math.fround]: the nearest single-precision number (binary32: 24 bits
    of precision, ties to even, overflow to an infinity), which every
    double represents exactly.  Storing a number into a [Float32Array]
    converts it the same way. *)
Definition fround (a : float) : float :=
  match FloatOps.Prim2SF a with
  | SpecFloat.S754_finite s m e =>
      FloatOps.SF2Prim (SpecFloat.binary_round 24 128 s m e)
  | _ => a
  end.

End Math.

(* ------------------------------------------------------------------ *)
(** ** The fragment of three.js used by the source *)

Module Vector2.

Record t : Type := new { x : float; y : float }.

Definition length (v : t) : float := Math.sqrt (x v * x v + y v * y v).
Definition sub (a b : t) : t := new (x a - x b) (y a - y b).
Definition add (a b : t) : t := new (x a + x b) (y a + y b).
Definition multiplyScalar (v : t) (s : float) : t := new (x v * s) (y v * s).
Definition min (a b : t) : t := new (Math.min (x a) (x b)) (Math.min (y a) (y b)).
Definition max (a b : t) : t := new (Math.max (x a) (x b)) (Math.max (y a) (y b)).

End Vector2.

Module Vector3.

Record t : Type := new { x : float; y : float; z : float }.

(** [clone] copies the three numbers; values are immutable here. *)
Definition clone (v : t) : t := new (x v) (y v) (z v).

Definition distanceToSquared (a b : t) : float :=
  let dx := (x a - x b)%float in
  let dy := (y a - y b)%float in
  let dz := (z a - z b)%float in
  (dx * dx + dy * dy + dz * dz)%float.

Definition distanceTo (a b : t) : float := Math.sqrt (distanceToSquared a b).

End Vector3.

Module Box2.

Record t : Type := new { min : Vector2.t; max : Vector2.t }.

Definition makeEmpty : t :=
  new (Vector2.new infinity infinity) (Vector2.new neg_infinity neg_infinity).

Definition expandByPoint (b : t) (p : Vector2.t) : t :=
  new (Vector2.min (min b) p) (Vector2.max (max b) p).

Definition setFromPoints (ps : list Vector2.t) : t :=
  fold_left expandByPoint ps makeEmpty.

Definition isEmpty (b : t) : bool :=
  ((Vector2.x (max b) <? Vector2.x (min b))%float
   || (Vector2.y (max b) <? Vector2.y (min b))%float)%bool.

Definition getSize (b : t) : Vector2.t :=
  if isEmpty b then Vector2.new 0 0 else Vector2.sub (max b) (min b).

Definition getCenter (b : t) : Vector2.t :=
  if isEmpty b then Vector2.new 0 0
  else Vector2.multiplyScalar (Vector2.add (min b) (max b)) 0.5.

Definition expandByVector (b : t) (v : Vector2.t) : t :=
  new (Vector2.sub (min b) v) (Vector2.add (max b) v).

End Box2.

(** An orthographic camera.  [left], [right], [top] and [bottom] bound the
    view volume in the camera's own frame, whose origin is [position]; the
    2D camera looks down the z axis with its x and y axes parallel to the
    world's. *)
Module OrthographicCamera.

Record t : Type := new {
  left : float;
  right : float;
  top : float;
  bottom : float;
  position : Vector3.t;
  zoom : float
}.

(** [updateProjectionMatrix] builds the projection from these four planes. *)
Definition planeLeft (c : t) : float :=
  ((right c + left c) / 2 - (right c - left c) / (2 * zoom c))%float.
Definition planeRight (c : t) : float :=
  ((right c + left c) / 2 + (right c - left c) / (2 * zoom c))%float.
Definition planeTop (c : t) : float :=
  ((top c + bottom c) / 2 + (top c - bottom c) / (2 * zoom c))%float.
Definition planeBottom (c : t) : float :=
  ((top c + bottom c) / 2 - (top c - bottom c) / (2 * zoom c))%float.

(** A world point is drawn when, moved into the camera's frame (the view
    matrix subtracts [position]), it lies between the four planes. *)
Definition shows (c : t) (p : Vector2.t) : bool :=
  let cx := (Vector2.x p - Vector3.x (position c))%float in
  let cy := (Vector2.y p - Vector3.y (position c))%float in
  ((planeLeft c <=? cx)%float && (cx <=? planeRight c)%float
   && (planeBottom c <=? cy)%float && (cy <=? planeTop c)%float)%bool.

End OrthographicCamera.

(* ------------------------------------------------------------------ *)
(** ** Walls *)

Module Wall.

(** [interface Wall].  The constant tag [type: 'wall'] is omitted; the
    optional flags [selected?] and [highlighted?] are absent ([None]) on the
    walls that [Document2D.drawWall] builds. *)
Record t : Type := new {
  start : Vector3.t;
  end_ : Vector3.t;
  angle : Math.Radians;
  length : float;
  id : string;
  selected : option bool;
  highlighted : option bool
}.

Definition set_selected (b : bool) (w : t) : t :=
  new (start w) (end_ w) (angle w) (length w) (id w) (Some b) (highlighted w).

Definition set_highlighted (b : bool) (w : t) : t :=
  new (start w) (end_ w) (angle w) (length w) (id w) (selected w) (Some b).

(** JavaScript truthiness of an optional boolean field. *)
Definition truthy (f : option bool) : bool :=
  match f with Some true => true | _ => false end.

Definition isSelected (w : t) : bool := truthy (selected w).
Definition isHighlighted (w : t) : bool := truthy (highlighted w).

(** The fields fixed when the wall is created. *)
Definition geometry (w : t) : string * Vector3.t * Vector3.t * Math.Radians * float :=
  (id w, start w, end_ w, angle w, length w).

End Wall.

(** The template literal [`wall_${n}`] for an integer-valued number. *)
Definition wallId (n : nat) : string :=
  ("wall_" ++ NilEmpty.string_of_uint (Nat.to_uint n))%string.

(** [`wall_${Date.now()}`]: the clock reads an integer count of
    milliseconds. *)
Definition wallIdAt (now : Z) : string :=
  ("wall_" ++ NilEmpty.string_of_int (Z.to_int now))%string.

(** What the pointer handlers learn from the renderer for one event.
    [wallHits] are the [userData.wallId] of the objects returned by
    [getWallIntersection], nearest first; [unprojected] is the pointer at
    depth 0.5 unprojected through the 2D camera; [planeHit] is the result of
    intersecting the 3D camera's pick ray with the plane z = 0, [None] when
    the ray misses the plane. *)
Record Pick : Type := {
  wallHits : list string;
  unprojected : Vector3.t;
  planeHit : option Vector3.t
}.

Record MouseEvent : Type := {
  button : Z;
  shiftKey : bool;
  clientX : float;
  clientY : float
}.

(** [getBoundingClientRect()] of the container. *)
Record DOMRect : Type := {
  rect_left : float;
  rect_top : float;
  rect_width : float;
  rect_height : float
}.

(** The target of an event on the wall list: its tag name and its
    [data-wall-id] attribute. *)
Record ListTarget : Type := {
  tagName : string;
  dataset_wallId : option string
}.

(** [target.tagName === 'LI' && target.dataset.wallId]: the attribute must be
    present and non-empty. *)
Definition listItemWallId (t : ListTarget) : option string :=
  if (tagName t =? "LI")%string then
    match dataset_wallId t with
    | Some s => if (s =? "")%string then None else Some s
    | None => None
    end
  else None.

(** The position attribute of a [BufferGeometry] is a [Float32Array]: the
    numbers put into it are kept in single precision. *)
Module BufferGeometry.

(** JavaScript's [a || 0] for a number: [0], [-0] and [NaN] are falsy. *)
Definition orZero (a : float) : float :=
  if (is_zero a || is_nan a)%bool then 0%float else a.

(** [setFromPoints]: a point contributes [x], [y] and [z || 0] to the new
    attribute. *)
Definition fromPoint (p : Vector3.t) : Vector3.t :=
  Vector3.new (Math.fround (Vector3.x p)) (Math.fround (Vector3.y p))
              (Math.fround (orZero (Vector3.z p))).

(** The three writes [positions[i] = p.x], [positions[i+1] = p.y],
    [positions[i+2] = p.z] into the attribute's array. *)
Definition written (p : Vector3.t) : Vector3.t :=
  Vector3.new (Math.fround (Vector3.x p)) (Math.fround (Vector3.y p))
              (Math.fround (Vector3.z p)).

End BufferGeometry.

(** A [Line] of the preview: its identity as a scene object and the two
    points of its position attribute, as the attribute's array holds
    them. *)
Record Line : Type := {
  objectId : nat;
  from : Vector3.t;
  to : Vector3.t
}.

(* ------------------------------------------------------------------ *)
(** ** The viewer *)

Module Viewer.

(** The fields of [class Viewer] that the editing logic reads or writes.
    [scene2D] lists the preview lines that are children of the 2D scene and
    [disposed] the lines whose geometry and material were released; the
    other scene children (grid, lights, wall meshes, dimension lines), the
    3D camera and the DOM widgets are drawn from this state and never read
    back by the code below, apart from the picks of [Pick].  [wallCounter]
    is an integer-valued number, exact below 2^53. *)
Record t : Type := new {
  clientWidth : float;
  clientHeight : float;
  is2D : bool;
  walls : list Wall.t;
  wallCounter : nat;
  isDrawing : bool;
  startPoint : option Vector3.t;
  previewLine : option Line;
  selectedWall : option string;
  isDrawingMode : bool;
  camera2D : OrthographicCamera.t;
  controls2D_target : Vector3.t;
  scene2D : list nat;
  disposed : list nat;
  nextObjectId : nat
}.

(** A handler either completes or throws a [TypeError]; in every throwing
    path below nothing has been written before the throw. *)
Inductive result : Type :=
| Ok (st : t)
| TypeError.

Definition set_size (w h : float) (s : t) : t :=
  new w h (is2D s) (walls s) (wallCounter s) (isDrawing s) (startPoint s)
      (previewLine s) (selectedWall s) (isDrawingMode s) (camera2D s)
      (controls2D_target s) (scene2D s) (disposed s) (nextObjectId s).

Definition set_is2D (b : bool) (s : t) : t :=
  new (clientWidth s) (clientHeight s) b (walls s) (wallCounter s) (isDrawing s)
      (startPoint s) (previewLine s) (selectedWall s) (isDrawingMode s)
      (camera2D s) (controls2D_target s) (scene2D s) (disposed s) (nextObjectId s).

Definition set_walls (ws : list Wall.t) (s : t) : t :=
  new (clientWidth s) (clientHeight s) (is2D s) ws (wallCounter s) (isDrawing s)
      (startPoint s) (previewLine s) (selectedWall s) (isDrawingMode s)
      (camera2D s) (controls2D_target s) (scene2D s) (disposed s) (nextObjectId s).

Definition set_wallCounter (n : nat) (s : t) : t :=
  new (clientWidth s) (clientHeight s) (is2D s) (walls s) n (isDrawing s)
      (startPoint s) (previewLine s) (selectedWall s) (isDrawingMode s)
      (camera2D s) (controls2D_target s) (scene2D s) (disposed s) (nextObjectId s).

Definition set_isDrawing (b : bool) (s : t) : t :=
  new (clientWidth s) (clientHeight s) (is2D s) (walls s) (wallCounter s) b
      (startPoint s) (previewLine s) (selectedWall s) (isDrawingMode s)
      (camera2D s) (controls2D_target s) (scene2D s) (disposed s) (nextObjectId s).

Definition set_startPoint (p : option Vector3.t) (s : t) : t :=
  new (clientWidth s) (clientHeight s) (is2D s) (walls s) (wallCounter s)
      (isDrawing s) p (previewLine s) (selectedWall s) (isDrawingMode s)
      (camera2D s) (controls2D_target s) (scene2D s) (disposed s) (nextObjectId s).

Definition set_previewLine (l : option Line) (s : t) : t :=
  new (clientWidth s) (clientHeight s) (is2D s) (walls s) (wallCounter s)
      (isDrawing s) (startPoint s) l (selectedWall s) (isDrawingMode s)
      (camera2D s) (controls2D_target s) (scene2D s) (disposed s) (nextObjectId s).

Definition set_selectedWall (i : option string) (s : t) : t :=
  new (clientWidth s) (clientHeight s) (is2D s) (walls s) (wallCounter s)
      (isDrawing s) (startPoint s) (previewLine s) i (isDrawingMode s)
      (camera2D s) (controls2D_target s) (scene2D s) (disposed s) (nextObjectId s).

Definition set_isDrawingMode (b : bool) (s : t) : t :=
  new (clientWidth s) (clientHeight s) (is2D s) (walls s) (wallCounter s)
      (isDrawing s) (startPoint s) (previewLine s) (selectedWall s) b
      (camera2D s) (controls2D_target s) (scene2D s) (disposed s) (nextObjectId s).

Definition set_camera2D (c : OrthographicCamera.t) (target : Vector3.t) (s : t) : t :=
  new (clientWidth s) (clientHeight s) (is2D s) (walls s) (wallCounter s)
      (isDrawing s) (startPoint s) (previewLine s) (selectedWall s)
      (isDrawingMode s) c target (scene2D s) (disposed s) (nextObjectId s).

Definition set_scene2D (o : list nat) (s : t) : t :=
  new (clientWidth s) (clientHeight s) (is2D s) (walls s) (wallCounter s)
      (isDrawing s) (startPoint s) (previewLine s) (selectedWall s)
      (isDrawingMode s) (camera2D s) (controls2D_target s) o (disposed s)
      (nextObjectId s).

Definition set_disposed (o : list nat) (s : t) : t :=
  new (clientWidth s) (clientHeight s) (is2D s) (walls s) (wallCounter s)
      (isDrawing s) (startPoint s) (previewLine s) (selectedWall s)
      (isDrawingMode s) (camera2D s) (controls2D_target s) (scene2D s) o
      (nextObjectId s).

Definition set_nextObjectId (n : nat) (s : t) : t :=
  new (clientWidth s) (clientHeight s) (is2D s) (walls s) (wallCounter s)
      (isDrawing s) (startPoint s) (previewLine s) (selectedWall s)
      (isDrawingMode s) (camera2D s) (controls2D_target s) (scene2D s)
      (disposed s) n.

(** *** Construction *)

Definition createCamera2D (w h : float) : OrthographicCamera.t :=
  let aspect := (w / h)%float in
  let frustumSize := 500%float in
  OrthographicCamera.new
    ((- frustumSize) * aspect / 2)
    (frustumSize * aspect / 2)
    (frustumSize / 2)
    ((- frustumSize) / 2)
    (Vector3.new 0 0 50)
    1.

(** *** The registry *)

(** [addWall]: the meshes, the dimension line and the list widget built from
    the new wall are presentation and leave the fields below untouched. *)
Definition addWall (start end_ : Vector3.t) (s : t) : Wall.t * t :=
  let length := Vector3.distanceTo start end_ in
  let angle :=
    Math.atan2 (Vector3.y end_ - Vector3.y start) (Vector3.x end_ - Vector3.x start) in
  let wall :=
    Wall.new (Vector3.clone start) (Vector3.clone end_) angle length
             (wallId (wallCounter s)) (Some false) (Some false) in
  (wall, set_wallCounter (S (wallCounter s)) (set_walls (walls s ++ [wall]) s)).

Definition highlightWall (id : string) (s : t) : t :=
  set_walls
    (map (fun wall =>
            if ((Wall.id wall =? id)%string && negb (Wall.isHighlighted wall))%bool
            then Wall.set_highlighted true wall
            else if (negb (Wall.id wall =? id)%string && Wall.isHighlighted wall)%bool
            then Wall.set_highlighted false wall
            else wall)
         (walls s))
    s.

Definition clearWallStates (s : t) : t :=
  set_selectedWall None
    (set_walls
       (map (fun wall => Wall.set_highlighted false (Wall.set_selected false wall))
            (walls s))
       s).

Definition selectWall (id : string) (s : t) : t :=
  let s := clearWallStates s in
  let selectedWall' :=
    if existsb (fun wall => (Wall.id wall =? id)%string) (walls s)
    then Some id else selectedWall s in
  set_selectedWall selectedWall'
    (set_walls
       (map (fun wall =>
               if (Wall.id wall =? id)%string
               then Wall.set_selected true wall
               else Wall.set_selected false wall)
            (walls s))
       s).

Definition clearHighlight (s : t) : t :=
  set_walls
    (map (fun wall =>
            if (Wall.isHighlighted wall && negb (Wall.isSelected wall))%bool
            then Wall.set_highlighted false wall
            else wall)
         (walls s))
    s.

(** *** Zoom to fit *)

Definition padded (box : Box2.t) : Box2.t :=
  let padding := Vector2.multiplyScalar (Box2.getSize box) 0.1 in
  Box2.expandByVector box padding.

(** The box that [zoomExtend] frames in the 2D view. *)
Definition targetBox (s : t) : Box2.t :=
  if (0 <? List.length (walls s))%nat then
    let positions := flat_map (fun wall => [Wall.start wall; Wall.end_ wall]) (walls s) in
    padded (Box2.setFromPoints
              (map (fun p => Vector2.new (Vector3.x p) (Vector3.y p)) positions))
  else
    let gridExtent := 100%float in
    padded (Box2.new (Vector2.new ((- gridExtent) / 2) ((- gridExtent) / 2))
                     (Vector2.new (gridExtent / 2) (gridExtent / 2))).

(** [zoomExtend].  In the 3D view it moves the perspective camera only,
    which is not part of this state.  In the 2D view the definition follows
    the method up to its closing [this.controls2D.update()]: the frustum
    planes and the zoom written here are final, while the controls then
    recompute the camera's position and their target from the orbit's
    angles, through [Math.sin], [Math.cos], [Math.acos] and [Math.atan2],
    which can move them by rounding errors (the camera's y by about 3e-15
    when it stands 50 above a centre with y = 0).  That write is the
    controls', an [orbitControlsChange] below; the fields here hold what
    the method itself assigns. *)
Definition zoomExtend (s : t) : t :=
  if is2D s then
    let targetBox := targetBox s in
    let center := Box2.getCenter targetBox in
    let size := Box2.getSize targetBox in
    let aspect := (clientWidth s / clientHeight s)%float in
    let viewWidth := Vector2.x size in
    let viewHeight := Vector2.y size in
    let '(viewWidth, viewHeight) :=
      if (viewHeight <? viewWidth / aspect)%float
      then (viewWidth, (viewWidth / aspect)%float)
      else ((viewHeight * aspect)%float, viewHeight) in
    let halfViewWidth := (viewWidth / 2)%float in
    let halfViewHeight := (viewHeight / 2)%float in
    set_camera2D
      (OrthographicCamera.new
         (Vector2.x center - halfViewWidth)
         (Vector2.x center + halfViewWidth)
         (Vector2.y center + halfViewHeight)
         (Vector2.y center - halfViewHeight)
         (Vector3.new (Vector2.x center) (Vector2.y center)
                      (Vector3.z (OrthographicCamera.position (camera2D s))))
         1)
      (Vector3.new (Vector2.x center) (Vector2.y center) 0)
      s
  else s.

Definition create (w h : float) : t :=
  zoomExtend
    (new w h true [] 0 false None None None true (createCamera2D w h)
         (Vector3.new 0 0 0) [] [] 0).

Definition onWindowResize (w h : float) (s : t) : t :=
  let s := set_size w h s in
  let aspect := (clientWidth s / clientHeight s)%float in
  let frustumSize := 500%float in
  set_camera2D
    (OrthographicCamera.new
       ((- frustumSize) * aspect / 2)
       (frustumSize * aspect / 2)
       (frustumSize / 2)
       ((- frustumSize) / 2)
       (OrthographicCamera.position (camera2D s))
       (OrthographicCamera.zoom (camera2D s)))
    (controls2D_target s)
    s.

Definition setView (b : bool) (s : t) : t := set_is2D b s.

(** The [OrbitControls] made by [createControls2D] pan and zoom the 2D
    camera when the user drags or scrolls, and recompute the camera's
    position whenever their [update()] runs (at construction, in
    [setView(true)] and at the end of [zoomExtend]): they write its
    position, its zoom and their own target. *)
Definition orbitControlsChange (position : Vector3.t) (zoom : float)
    (target : Vector3.t) (s : t) : t :=
  set_camera2D
    (OrthographicCamera.new
       (OrthographicCamera.left (camera2D s))
       (OrthographicCamera.right (camera2D s))
       (OrthographicCamera.top (camera2D s))
       (OrthographicCamera.bottom (camera2D s))
       position zoom)
    target s.

(** *** Bulk removal *)

Definition clearAllWalls (s : t) : t :=
  zoomExtend (clearWallStates (set_walls [] s)).

(** [deleteSelectedWalls] splices every element of
    [this.walls.filter(wall => wall.selected)] out of [this.walls]; each is
    an element of the array, so what stays is the walls that were not
    selected, in order. *)
Definition deleteSelectedWalls (s : t) : t :=
  let s := set_walls (filter (fun wall => negb (Wall.isSelected wall)) (walls s)) s in
  zoomExtend (clearWallStates s).

(** *** The drawing gesture *)

(** [new Line(new BufferGeometry().setFromPoints([a, b]), material)]
    followed by [this.scene2D.add(this.previewLine)]. *)
Definition addPreviewLine (a b : Vector3.t) (s : t) : t :=
  let line :=
    Build_Line (nextObjectId s) (BufferGeometry.fromPoint a) (BufferGeometry.fromPoint b) in
  set_scene2D (scene2D s ++ [objectId line])
    (set_previewLine (Some line)
       (set_nextObjectId (S (nextObjectId s)) s)).

(** The block "clean up preview line", which occurs in [onMouseDown] and in
    [cleanupDrawing]: remove from the scene, dispose, forget. *)
Definition removePreviewLine (s : t) : t :=
  match previewLine s with
  | Some line =>
      set_previewLine None
        (set_disposed (objectId line :: disposed s)
           (set_scene2D
              (filter (fun o => negb (o =? objectId line)%nat) (scene2D s)) s))
  | None => s
  end.

Definition cleanupDrawing (s : t) : t :=
  set_startPoint None (set_isDrawing false (removePreviewLine s)).

Definition toggleDrawingMode (s : t) : t :=
  let s := set_isDrawingMode (negb (isDrawingMode s)) s in
  if negb (isDrawingMode s) then cleanupDrawing s else s.

(** The coordinate mapper. *)
Definition getIntersectionPoint (s : t) (p : Pick) : option Vector3.t :=
  if is2D s then
    Some (Vector3.new (Vector3.x (unprojected p)) (Vector3.y (unprojected p)) 0)
  else planeHit p.

(** [onMouseDown], with [intersection] standing for what
    [this.getIntersectionPoint()] returns where the handler calls it. *)
Definition onMouseDownAt (intersection : option Vector3.t) (e : MouseEvent)
    (p : Pick) (s : t) : result :=
  if negb (is2D s) then
    match wallHits p with
    | wallId :: _ => Ok (selectWall wallId s)
    | [] => Ok (clearWallStates s)
    end
  else if isDrawingMode s then
    if negb (button e =? 0)%Z then Ok s
    else
      match intersection with
      | None => Ok s
      | Some intersection =>
          if negb (isDrawing s) then
            Ok (addPreviewLine intersection intersection
                  (set_startPoint (Some intersection) (set_isDrawing true s)))
          else
            let endPoint := intersection in
            match startPoint s with
            | None => TypeError
            | Some start =>
                let s := snd (addWall start endPoint s) in
                let s := removePreviewLine s in
                if shiftKey e then
                  Ok (addPreviewLine endPoint endPoint
                        (set_startPoint (Some endPoint) s))
                else
                  Ok (set_startPoint None (set_isDrawing false s))
            end
      end
  else if (button e =? 0)%Z then
    match wallHits p with
    | wallId :: _ => Ok (selectWall wallId s)
    | [] => Ok (clearWallStates s)
    end
  else Ok s.

Definition onMouseDown (e : MouseEvent) (p : Pick) (s : t) : result :=
  onMouseDownAt (getIntersectionPoint s p) e p s.

(** [onMouseMove], likewise.  The mapper reads [is2D] and the pick only,
    which the hover update that precedes the call does not write. *)
Definition onMouseMoveAt (intersection : option Vector3.t) (p : Pick) (s : t) : t :=
  let s :=
    if is2D s then
      match wallHits p with
      | wallId :: _ => highlightWall wallId s
      | [] => if negb (isDrawing s) then clearHighlight s else s
      end
    else s in
  if (is2D s && isDrawingMode s && isDrawing s)%bool then
    match startPoint s, previewLine s with
    | Some _, Some line =>
        match intersection with
        | Some intersection =>
            set_previewLine
              (Some (Build_Line (objectId line) (from line)
                       (BufferGeometry.written intersection))) s
        | None => s
        end
    | _, _ => s
    end
  else s.

Definition onMouseMove (p : Pick) (s : t) : t :=
  onMouseMoveAt (getIntersectionPoint s p) p s.

Definition onMouseUp (s : t) : t := s.

(** *** The wall list widget *)

Definition onWallListItemMouseOver (target : ListTarget) (s : t) : t :=
  match listItemWallId target with
  | Some id => highlightWall id s
  | None => s
  end.

(** [find(...)!.highlighted = false] writes to the first wall with that id. *)
Fixpoint unhighlightFirst (id : string) (ws : list Wall.t) : list Wall.t :=
  match ws with
  | [] => []
  | wall :: rest =>
      if (Wall.id wall =? id)%string then Wall.set_highlighted false wall :: rest
      else wall :: unhighlightFirst id rest
  end.

Definition onWallListItemMouseOut (target : ListTarget) (s : t) : result :=
  match listItemWallId target with
  | Some id =>
      let isSelectedWall :=
        match selectedWall s with
        | Some sel => (sel =? id)%string
        | None => false
        end in
      if negb isSelectedWall then
        match find (fun wall => (Wall.id wall =? id)%string) (walls s) with
        | Some _ => Ok (set_walls (unhighlightFirst id (walls s)) s)
        | None => TypeError
        end
      else Ok s
  | None => Ok s
  end.

Definition onWallListItemClick (target : ListTarget) (s : t) : t :=
  match listItemWallId target with
  | Some id => selectWall id s
  | None => s
  end.

(** *** Everything that can happen to a viewer *)

Inductive Event : Type :=
| AddWall (start end_ : Vector3.t)
| SetView (is2D : bool)
| ZoomExtend
| ClearAllWalls
| DeleteSelectedWalls
| ToggleDrawingMode
| HighlightWall (id : string)
| SelectWall (id : string)
| ClearWallStates
| ClearHighlight
| MouseDown (e : MouseEvent) (p : Pick)
| MouseMove (p : Pick)
| MouseUp
| WallListItemMouseOver (target : ListTarget)
| WallListItemMouseOut (target : ListTarget)
| WallListItemClick (target : ListTarget)
| WindowResize (w h : float)
| OrbitControlsChange (position : Vector3.t) (zoom : float) (target : Vector3.t).

Definition handle (ev : Event) (s : t) : result :=
  match ev with
  | AddWall a b => Ok (snd (addWall a b s))
  | SetView b => Ok (setView b s)
  | ZoomExtend => Ok (zoomExtend s)
  | ClearAllWalls => Ok (clearAllWalls s)
  | DeleteSelectedWalls => Ok (deleteSelectedWalls s)
  | ToggleDrawingMode => Ok (toggleDrawingMode s)
  | HighlightWall id => Ok (highlightWall id s)
  | SelectWall id => Ok (selectWall id s)
  | ClearWallStates => Ok (clearWallStates s)
  | ClearHighlight => Ok (clearHighlight s)
  | MouseDown e p => onMouseDown e p s
  | MouseMove p => Ok (onMouseMove p s)
  | MouseUp => Ok (onMouseUp s)
  | WallListItemMouseOver t => Ok (onWallListItemMouseOver t s)
  | WallListItemMouseOut t => onWallListItemMouseOut t s
  | WallListItemClick t => Ok (onWallListItemClick t s)
  | WindowResize w h => Ok (onWindowResize w h s)
  | OrbitControlsChange position zoom target => Ok (orbitControlsChange position zoom target s)
  end.

(** The states a viewer can be in: it is constructed, then events are
    handled one at a time, each to completion. *)
Inductive reachable : t -> Prop :=
| reachable_create (w h : float) : reachable (create w h)
| reachable_handle (ev : Event) (s s' : t) :
    reachable s -> handle ev s = Ok s' -> reachable s'.

(** Running a list of events from a state; a throwing handler leaves the
    state as it was. *)
Definition run (evs : list Event) (s : t) : t :=
  fold_left (fun s ev => match handle ev s with Ok s' => s' | TypeError => s end) evs s.

End Viewer.

(* ------------------------------------------------------------------ *)
(** ** The document/command variant *)

(** A [Mesh] of the 2D document: its identity as a scene object, the length
    of its [PlaneGeometry(length, 1)], where it sits, its rotation about z
    and its [userData.wallId]. *)
Record Mesh : Type := {
  meshId : nat;
  planeLength : float;
  meshPosition : Vector3.t;
  rotation_z : Math.Radians;
  userData_wallId : option string
}.

Module Document2D.

(** The fields of [class Document2D] that the editing logic reads or writes.
    [scene] lists the meshes among the scene's children; material colours,
    the camera and its controls are presentation.  [wallMeshes] is the
    [Map] from wall id to mesh, in insertion order. *)
Record t : Type := new {
  walls : list Wall.t;
  wallMeshes : list (string * Mesh);
  highlightedWall : option string;
  selectedWall : option string;
  scene : list Mesh;
  disposed : list nat;
  nextObjectId : nat
}.

(** [Map.prototype.set]: an existing key keeps its place and takes the new
    value. *)
Fixpoint mapSet (k : string) (v : Mesh) (m : list (string * Mesh)) : list (string * Mesh) :=
  match m with
  | [] => [(k, v)]
  | (k', v') :: rest =>
      if (k' =? k)%string then (k, v) :: rest else (k', v') :: mapSet k v rest
  end.

Definition mapDelete (k : string) (m : list (string * Mesh)) : list (string * Mesh) :=
  filter (fun kv => negb (fst kv =? k)%string) m.

Definition clearHighlight (d : t) : t :=
  new (walls d) (wallMeshes d) None (selectedWall d) (scene d) (disposed d)
      (nextObjectId d).

Definition highlightWall (id : string) (d : t) : t :=
  let d := clearHighlight d in
  new (walls d) (wallMeshes d) (Some id) (selectedWall d) (scene d) (disposed d)
      (nextObjectId d).

Definition clearSelection (d : t) : t :=
  new (walls d) (wallMeshes d) (highlightedWall d) None (scene d) (disposed d)
      (nextObjectId d).

Definition selectWall (id : string) (d : t) : t :=
  let d := clearSelection d in
  new (walls d) (wallMeshes d) (highlightedWall d) (Some id) (scene d) (disposed d)
      (nextObjectId d).

Definition clearWallStates (d : t) : t := clearSelection (clearHighlight d).

Definition removeObject (obj : Mesh) (d : t) : t :=
  let scene' := filter (fun o => negb (meshId o =? meshId obj)%nat) (scene d) in
  let wallMeshes' :=
    match userData_wallId obj with
    | Some id => if (id =? "")%string then wallMeshes d else mapDelete id (wallMeshes d)
    | None => wallMeshes d
    end in
  new (walls d) wallMeshes' (highlightedWall d) (selectedWall d) scene' (disposed d)
      (nextObjectId d).

Definition addObject (obj : Mesh) (d : t) : t :=
  new (walls d) (wallMeshes d) (highlightedWall d) (selectedWall d)
      (scene d ++ [obj]) (disposed d) (nextObjectId d).

Definition dispose (obj : Mesh) (d : t) : t :=
  new (walls d) (wallMeshes d) (highlightedWall d) (selectedWall d) (scene d)
      (meshId obj :: disposed d) (nextObjectId d).

(** [drawWall]; [now] is what [Date.now()] returns during the call.  The
    line drawn by [addDimensionLabel] is presentation. *)
Definition drawWall (now : Z) (start end_ : Vector3.t) (d : t) : Wall.t * t :=
  let wallVec :=
    Vector2.new (Vector3.x end_ - Vector3.x start) (Vector3.y end_ - Vector3.y start) in
  let length := Vector2.length wallVec in
  let angle := Math.atan2 (Vector2.y wallVec) (Vector2.x wallVec) in
  let wallId := wallIdAt now in
  let mesh :=
    Build_Mesh (nextObjectId d) length
      (Vector3.new ((Vector3.x start + Vector3.x end_) / 2)
                   ((Vector3.y start + Vector3.y end_) / 2) 0)
      angle (Some wallId) in
  let wall :=
    Wall.new (Vector3.clone start) (Vector3.clone end_) angle length wallId None None in
  (wall,
   new (walls d ++ [wall]) (mapSet wallId mesh (wallMeshes d)) (highlightedWall d)
       (selectedWall d) (scene d ++ [mesh]) (disposed d) (S (nextObjectId d))).

Definition getWalls (d : t) : list Wall.t := walls d.

(** A document before anything is drawn. *)
Definition empty : t := new [] [] None None [] [] 0.

End Document2D.

Module CreateWallCommand.

(** [class CreateWallCommand]; the command holds the document it draws
    into. *)
Record t : Type := new {
  document : Document2D.t;
  startPoint : option Vector3.t;
  endPoint : option Vector3.t;
  mouse : Vector2.t;
  drawing : bool;
  previewWall : option Mesh;
  isCreatingSeries : bool;
  lastEndPoint : option Vector3.t
}.

Definition create (d : Document2D.t) : t :=
  new d None None (Vector2.new 0 0) false None false None.

Definition set_document (d : Document2D.t) (c : t) : t :=
  new d (startPoint c) (endPoint c) (mouse c) (drawing c) (previewWall c)
      (isCreatingSeries c) (lastEndPoint c).

Definition set_previewWall (m : option Mesh) (c : t) : t :=
  new (document c) (startPoint c) (endPoint c) (mouse c) (drawing c) m
      (isCreatingSeries c) (lastEndPoint c).

Definition execute (now : Z) (c : t) : t :=
  match startPoint c, endPoint c with
  | Some start, Some end_ =>
      set_document (snd (Document2D.drawWall now start end_ (document c))) c
  | _, _ => c
  end.

(** [unproject] stands for [document.unproject], the inverse of the
    document camera's projection when the event is handled. *)
Definition onMouseUp (unproject : Vector3.t -> Vector3.t) (now : Z)
    (e : MouseEvent) (c : t) : t :=
  if negb (button e =? 0)%Z then c
  else
    match drawing c, startPoint c with
    | true, Some _ =>
        let released :=
          unproject (Vector3.new (Vector2.x (mouse c)) (Vector2.y (mouse c)) 0) in
        let c :=
          new (document c) (startPoint c) (Some released) (mouse c) (drawing c)
              (previewWall c) (isCreatingSeries c) (lastEndPoint c) in
        let c :=
          match previewWall c with
          | Some preview =>
              set_previewWall None
                (set_document
                   (Document2D.dispose preview
                      (Document2D.removeObject preview (document c))) c)
          | None => c
          end in
        let c := execute now c in
        if shiftKey e then
          new (document c) (endPoint c) (endPoint c) (mouse c) (drawing c)
              (previewWall c) true (endPoint c)
        else
          new (document c) None (endPoint c) (mouse c) false
              (previewWall c) false None
    | _, _ => c
    end.

Definition onMouseDown (unproject : Vector3.t -> Vector3.t) (e : MouseEvent)
    (c : t) : t :=
  if negb (button e =? 0)%Z then c
  else if negb (isCreatingSeries c) then
    new (document c)
        (Some (unproject (Vector3.new (Vector2.x (mouse c)) (Vector2.y (mouse c)) 0)))
        (endPoint c) (mouse c) true (previewWall c) (isCreatingSeries c)
        (lastEndPoint c)
  else c.

Definition onMouseMove (unproject : Vector3.t -> Vector3.t) (rect : DOMRect)
    (e : MouseEvent) (c : t) : t :=
  let mouse' :=
    Vector2.new
      ((clientX e - rect_left rect) / rect_width rect * 2 - 1)
      (- ((clientY e - rect_top rect) / rect_height rect) * 2 + 1) in
  let c :=
    new (document c) (startPoint c) (endPoint c) mouse' (drawing c)
        (previewWall c) (isCreatingSeries c) (lastEndPoint c) in
  if drawing c then
    let currentPoint :=
      unproject (Vector3.new (Vector2.x (mouse c)) (Vector2.y (mouse c)) 0) in
    match (if isCreatingSeries c then lastEndPoint c else startPoint c) with
    | Some startPoint =>
        let wallVec :=
          Vector2.new (Vector3.x currentPoint - Vector3.x startPoint)
                      (Vector3.y currentPoint - Vector3.y startPoint) in
        let length := Vector2.length wallVec in
        let angle := Math.atan2 (Vector2.y wallVec) (Vector2.x wallVec) in
        let c :=
          match previewWall c with
          | Some preview =>
              set_document
                (Document2D.dispose preview
                   (Document2D.removeObject preview (document c))) c
          | None => c
          end in
        let d := document c in
        let preview :=
          Build_Mesh (Document2D.nextObjectId d) length
            (Vector3.new ((Vector3.x startPoint + Vector3.x currentPoint) / 2)
                         ((Vector3.y startPoint + Vector3.y currentPoint) / 2) 0)
            angle None in
        let d :=
          Document2D.new (Document2D.walls d) (Document2D.wallMeshes d)
            (Document2D.highlightedWall d) (Document2D.selectedWall d)
            (Document2D.scene d) (Document2D.disposed d)
            (S (Document2D.nextObjectId d)) in
        set_previewWall (Some preview)
          (set_document (Document2D.addObject preview d) c)
    | None => c
    end
  else c.

End CreateWallCommand.

(* ------------------------------------------------------------------ *)
(** ** The 2D document's listeners *)

(** [Document2D]'s [mousedown], [mouseup] and [mousemove] listeners
    ([setupEventListeners]) with the [activeCommand] they forward to.  The
    command holds the document and the document holds the command: the state
    of the pair is the command's.  [intersects] are the [userData.wallId] of
    the objects [getWallIntersection] returns, nearest first; the pointer
    position [updateMousePosition] keeps for that ray cast is not part of
    the state. *)
Module Document2DListeners.

(** A method of the document, run on the document the command holds. *)
Definition onDocument (f : Document2D.t -> Document2D.t) (c : CreateWallCommand.t)
  : CreateWallCommand.t :=
  CreateWallCommand.set_document (f (CreateWallCommand.document c)) c.

Definition onMouseDown (intersects : list string) (unproject : Vector3.t -> Vector3.t)
    (e : MouseEvent) (c : CreateWallCommand.t) : CreateWallCommand.t :=
  match intersects with
  | wallId :: _ => onDocument (Document2D.selectWall wallId) c
  | [] =>
      CreateWallCommand.onMouseDown unproject e (onDocument Document2D.clearWallStates c)
  end.

Definition onMouseUp (unproject : Vector3.t -> Vector3.t) (now : Z) (e : MouseEvent)
    (c : CreateWallCommand.t) : CreateWallCommand.t :=
  CreateWallCommand.onMouseUp unproject now e c.

Definition onMouseMove (intersects : list string) (unproject : Vector3.t -> Vector3.t)
    (rect : DOMRect) (e : MouseEvent) (c : CreateWallCommand.t) : CreateWallCommand.t :=
  let c :=
    match intersects with
    | wallId :: _ =>
        match Document2D.highlightedWall (CreateWallCommand.document c) with
        | Some h =>
            if (h =? wallId)%string then c
            else onDocument (Document2D.highlightWall wallId) c
        | None => onDocument (Document2D.highlightWall wallId) c
        end
    | [] =>
        match Document2D.highlightedWall (CreateWallCommand.document c) with
        | Some h =>
            if (h =? "")%string then c else onDocument Document2D.clearHighlight c
        | None => c
        end
    end in
  CreateWallCommand.onMouseMove unproject rect e c.

(** What reaches the document: each event carries what the browser, the
    clock and the camera give while it is handled. *)
Inductive Event : Type :=
| MouseDown (intersects : list string) (unproject : Vector3.t -> Vector3.t)
    (e : MouseEvent)
| MouseUp (unproject : Vector3.t -> Vector3.t) (now : Z) (e : MouseEvent)
| MouseMove (intersects : list string) (unproject : Vector3.t -> Vector3.t)
    (rect : DOMRect) (e : MouseEvent).

Definition handle (ev : Event) (c : CreateWallCommand.t) : CreateWallCommand.t :=
  match ev with
  | MouseDown intersects unproject e => onMouseDown intersects unproject e c
  | MouseUp unproject now e => onMouseUp unproject now e c
  | MouseMove intersects unproject rect e => onMouseMove intersects unproject rect e c
  end.

(** The document is constructed with its command, then handles events. *)
Inductive reachable : CreateWallCommand.t -> Prop :=
| reachable_create : reachable (CreateWallCommand.create Document2D.empty)
| reachable_handle (ev : Event) (c : CreateWallCommand.t) :
    reachable c -> reachable (handle ev c).

Definition run (evs : list Event) (c : CreateWallCommand.t) : CreateWallCommand.t :=
  fold_left (fun c ev => handle ev c) evs c.

(** A left-button release, the only event that can add a wall. *)
Definition isLeftRelease (ev : Event) : bool :=
  match ev with
  | MouseUp _ _ e => (button e =? 0)%Z
  | _ => false
  end.

End Document2DListeners.

(* ------------------------------------------------------------------ *)
(** ** The fragment of JavaScript strings used by the source *)

Module JSString.

(** [String.prototype.split] with a one-character separator. *)
Fixpoint split (sep : ascii) (s : string) : list string :=
  match s with
  | EmptyString => [EmptyString]
  | String c rest =>
      if (c =? sep)%char then EmptyString :: split sep rest
      else
        match split sep rest with
        | piece :: pieces => String c piece :: pieces
        | [] => [String c EmptyString]
        end
  end.

(** [String.prototype.toLowerCase] on the letters A to Z.  No other
    character lower-cases to one of a to z, so a comparison of the result
    with such a letter is decided by these. *)
Definition toLowerCaseChar (c : ascii) : ascii :=
  let n := nat_of_ascii c in
  if (65 <=? n) && (n <=? 90) then ascii_of_nat (n + 32) else c.

Fixpoint toLowerCase (s : string) : string :=
  match s with
  | EmptyString => EmptyString
  | String c rest => String (toLowerCaseChar c) (toLowerCase rest)
  end.

End JSString.

(* ------------------------------------------------------------------ *)
(** ** The wall list *)

(** An [li] of the wall list.  Its text is
    [`Wall ${number} (Length: ${length.toFixed(2)}m)`]: [item_number] is
    [wall.id.split('_')[1]] ([None] for [undefined]) and [item_length] the
    number handed to [toFixed]. *)
Record ListItem : Type := {
  item_number : option string;
  item_length : float;
  item_wallId : string;
  item_selected : bool
}.

(** [updateWallList]: the children of the wall list element after the call,
    when the page has one. *)
Definition updateWallList (s : Viewer.t) : list ListItem :=
  map (fun wall =>
         Build_ListItem (nth_error (JSString.split "_" (Wall.id wall)) 1)
           (Wall.length wall) (Wall.id wall) (Wall.isSelected wall))
      (Viewer.walls s).

(** A list item as the target of a pointer event. *)
Definition targetOf (item : ListItem) : ListTarget :=
  Build_ListTarget "LI" (Some (item_wallId item)).

(** The [li] of the wall list that stands for the wall [id]. *)
Definition itemOf (id : string) : ListTarget := Build_ListTarget "LI" (Some id).

(* ------------------------------------------------------------------ *)
(** ** The page *)

(** [main.ts]: the viewer it creates, the viewer's mode indicator and the
    three buttons it looks up.  A button that is not in the page gets no
    listener. *)
Module Main.

Local Open Scope string_scope.

Record t : Type := new {
  viewer : Viewer.t;
  modeIndicator_textContent : string;
  modeIndicator_className : string;
  switchTo2DButton : bool;
  switchTo3DButton : bool;
  toggleModeButton : option string
}.

Definition set_viewer (v : Viewer.t) (a : t) : t :=
  new v (modeIndicator_textContent a) (modeIndicator_className a)
      (switchTo2DButton a) (switchTo3DButton a) (toggleModeButton a).

(** [Viewer.updateModeIndicator], reading [isDrawingMode] of the viewer. *)
Definition updateModeIndicator (a : t) : t :=
  new (viewer a)
      (if Viewer.isDrawingMode (viewer a) then "Drawing Mode" else "Selection Mode")
      ("mode-indicator "
       ++ (if Viewer.isDrawingMode (viewer a) then "drawing-mode" else "selection-mode"))
      (switchTo2DButton a) (switchTo3DButton a) (toggleModeButton a).

(** [Viewer.toggleDrawingMode] with the indicator it updates. *)
Definition toggleDrawingMode (a : t) : t :=
  updateModeIndicator (set_viewer (Viewer.toggleDrawingMode (viewer a)) a).

(** [toggleModeButton.textContent = viewer.isInDrawingMode() ? ... : ...],
    when the page has the button. *)
Definition updateToggleModeButton (a : t) : t :=
  match toggleModeButton a with
  | Some _ =>
      new (viewer a) (modeIndicator_textContent a) (modeIndicator_className a)
          (switchTo2DButton a) (switchTo3DButton a)
          (Some (if Viewer.isDrawingMode (viewer a) then "Drawing Mode"
                 else "Selection Mode"))
  | None => a
  end.

(** The module's top level, the container being in the page: the viewer is
    constructed in a container of the given size (its indicator created and
    updated), and the toggle button, when the page has one ([toggleMode] is
    its text in the page), is labelled. *)
Definition main (clientWidth clientHeight : float)
    (switchTo2D switchTo3D : bool) (toggleMode : option string) : t :=
  let a :=
    updateModeIndicator
      (new (Viewer.create clientWidth clientHeight)
           "Drawing Mode" "mode-indicator drawing-mode"
           switchTo2D switchTo3D toggleMode) in
  match toggleModeButton a with
  | Some _ =>
      new (viewer a) (modeIndicator_textContent a) (modeIndicator_className a)
          (switchTo2DButton a) (switchTo3DButton a) (Some "Drawing Mode")
  | None => a
  end.

(** The listeners [main.ts] adds: two on the view buttons, one on the toggle
    button, one for [keydown] on the document. *)
Definition onSwitchTo2DClick (a : t) : t :=
  if switchTo2DButton a then set_viewer (Viewer.setView true (viewer a)) a else a.

Definition onSwitchTo3DClick (a : t) : t :=
  if switchTo3DButton a then set_viewer (Viewer.setView false (viewer a)) a else a.

Definition onToggleModeClick (a : t) : t :=
  match toggleModeButton a with
  | Some _ => updateToggleModeButton (toggleDrawingMode a)
  | None => a
  end.

Definition onKeyDown (key : string) (a : t) : t :=
  if (JSString.toLowerCase key =? "d")%string
  then updateToggleModeButton (toggleDrawingMode a)
  else a.

(** The events the viewer has listeners for: pointer events on the window,
    pointer events on the wall list, resizing, and the orbit controls. *)
Definition isListener (ev : Viewer.Event) : bool :=
  match ev with
  | Viewer.MouseDown _ _ | Viewer.MouseMove _ | Viewer.MouseUp
  | Viewer.WallListItemMouseOver _ | Viewer.WallListItemMouseOut _
  | Viewer.WallListItemClick _ | Viewer.WindowResize _ _
  | Viewer.OrbitControlsChange _ _ _ => true
  | _ => false
  end.

Inductive Event : Type :=
| SwitchTo2DClick
| SwitchTo3DClick
| ToggleModeClick
| KeyDown (key : string)
| ViewerListener (ev : Viewer.Event).

(** A listener that throws leaves the page as it was. *)
Definition handle (ev : Event) (a : t) : t :=
  match ev with
  | SwitchTo2DClick => onSwitchTo2DClick a
  | SwitchTo3DClick => onSwitchTo3DClick a
  | ToggleModeClick => onToggleModeClick a
  | KeyDown key => onKeyDown key a
  | ViewerListener ev =>
      if isListener ev then
        match Viewer.handle ev (viewer a) with
        | Viewer.Ok v => set_viewer v a
        | Viewer.TypeError => a
        end
      else a
  end.

Inductive reachable : t -> Prop :=
| reachable_main (w h : float) (b2 b3 : bool) (bt : option string) :
    reachable (main w h b2 b3 bt)
| reachable_handle (ev : Event) (a : t) : reachable a -> reachable (handle ev a).

Definition run (evs : list Event) (a : t) : t :=
  fold_left (fun a ev => handle ev a) evs a.

End Main.

(* ------------------------------------------------------------------ *)
(** ** The viewer's wall objects *)

(** A JavaScript [Map] with string keys, in insertion order. *)
Module JSMap.

Section Map.
Context {V : Type}.

(** [Map.prototype.set]: an existing key keeps its place and takes the new
    value; a new key goes last. *)
Fixpoint set (k : string) (v : V) (m : list (string * V)) : list (string * V) :=
  match m with
  | [] => [(k, v)]
  | (k', v') :: rest =>
      if (k' =? k)%string then (k, v) :: rest else (k', v') :: set k v rest
  end.

Definition get (k : string) (m : list (string * V)) : option V :=
  match find (fun kv => (fst kv =? k)%string) m with
  | Some kv => Some (snd kv)
  | None => None
  end.

Definition delete (k : string) (m : list (string * V)) : list (string * V) :=
  filter (fun kv => negb (fst kv =? k)%string) m.

End Map.

End JSMap.

(** [Viewer] with the objects it keeps for its walls: the [wallMeshes] and
    [dimensionLines] maps, the wall objects and dimension lines among the
    children of the two scenes, the dimension labels in the container and
    the items of the wall list.  Objects are told apart by identity
    ([uuid]); materials, geometry and positions are presentation.  The
    registry, the gesture and the camera are the viewer's, above. *)
Module Stage.

(** The objects made for a wall: the [Line] and the box [Mesh] of
    [createWallMesh2D], the [Mesh] of [createWallMesh3D], the [Line] of
    [createDimensionLine]. *)
Inductive Kind : Type := WallLine | WallBox | WallBlock | DimensionLine.

Record Object3D : Type := {
  uuid : nat;
  kind : Kind;
  userData_wallId : option string
}.

(** An entry of [dimensionLines]: the line and the identity of its label. *)
Record Dimension : Type := {
  line : Object3D;
  label : nat
}.

Record t : Type := new {
  viewer : Viewer.t;
  wallMeshes : list (string * Object3D);
  dimensionLines : list (string * Dimension);
  scene2D : list Object3D;
  scene3D : list Object3D;
  labels : list nat;
  wallListElement : option (list ListItem);
  nextId : nat
}.

Inductive result : Type :=
| Ok (st : t)
| TypeError.

Definition onViewer (f : Viewer.t -> Viewer.t) (st : t) : t :=
  new (f (viewer st)) (wallMeshes st) (dimensionLines st) (scene2D st) (scene3D st)
      (labels st) (wallListElement st) (nextId st).

Definition set_wallMeshes (m : list (string * Object3D)) (st : t) : t :=
  new (viewer st) m (dimensionLines st) (scene2D st) (scene3D st) (labels st)
      (wallListElement st) (nextId st).

Definition set_dimensionLines (m : list (string * Dimension)) (st : t) : t :=
  new (viewer st) (wallMeshes st) m (scene2D st) (scene3D st) (labels st)
      (wallListElement st) (nextId st).

Definition set_scene2D (sc : list Object3D) (st : t) : t :=
  new (viewer st) (wallMeshes st) (dimensionLines st) sc (scene3D st) (labels st)
      (wallListElement st) (nextId st).

Definition set_scene3D (sc : list Object3D) (st : t) : t :=
  new (viewer st) (wallMeshes st) (dimensionLines st) (scene2D st) sc (labels st)
      (wallListElement st) (nextId st).

Definition set_labels (l : list nat) (st : t) : t :=
  new (viewer st) (wallMeshes st) (dimensionLines st) (scene2D st) (scene3D st) l
      (wallListElement st) (nextId st).

Definition set_wallListElement (l : option (list ListItem)) (st : t) : t :=
  new (viewer st) (wallMeshes st) (dimensionLines st) (scene2D st) (scene3D st)
      (labels st) l (nextId st).

Definition set_nextId (n : nat) (st : t) : t :=
  new (viewer st) (wallMeshes st) (dimensionLines st) (scene2D st) (scene3D st)
      (labels st) (wallListElement st) n.

(** [scene.remove(obj)]: the child with that identity goes, if there is
    one. *)
Definition remove (obj : Object3D) (children : list Object3D) : list Object3D :=
  filter (fun o => negb (uuid o =? uuid obj)) children.

(** [removeDimensionLine]: the line leaves the 2D scene, the label leaves
    the container, the entry leaves the map. *)
Definition removeDimensionLine (wallId : string) (st : t) : t :=
  match JSMap.get wallId (dimensionLines st) with
  | Some dimension =>
      set_dimensionLines (JSMap.delete wallId (dimensionLines st))
        (set_labels (filter (fun l => negb (l =? label dimension)) (labels st))
           (set_scene2D (remove (line dimension) (scene2D st)) st))
  | None => st
  end.

Definition createDimensionLine (wall : Wall.t) (st : t) : t :=
  let st := removeDimensionLine (Wall.id wall) st in
  let line := Build_Object3D (nextId st) DimensionLine None in
  let label := S (nextId st) in
  set_dimensionLines
    (JSMap.set (Wall.id wall) (Build_Dimension line label) (dimensionLines st))
    (set_labels (labels st ++ [label])
       (set_scene2D (scene2D st ++ [line])
          (set_nextId (S (S (nextId st))) st))).

Definition createWallMesh2D (wall : Wall.t) (st : t) : t :=
  let line := Build_Object3D (nextId st) WallLine (Some (Wall.id wall)) in
  let wallMesh := Build_Object3D (S (nextId st)) WallBox (Some (Wall.id wall)) in
  let st :=
    set_wallMeshes (JSMap.set (Wall.id wall) wallMesh (wallMeshes st))
      (set_scene2D (scene2D st ++ [line; wallMesh])
         (set_nextId (S (S (nextId st))) st)) in
  createDimensionLine wall st.

Definition createWallMesh3D (wall : Wall.t) (st : t) : t :=
  let mesh := Build_Object3D (nextId st) WallBlock (Some (Wall.id wall)) in
  set_wallMeshes (JSMap.set (Wall.id wall) mesh (wallMeshes st))
    (set_scene3D (scene3D st ++ [mesh])
       (set_nextId (S (nextId st)) st)).

Definition update3DView (st : t) : t :=
  let st :=
    set_scene3D
      (fold_left (fun children kv => remove (snd kv) children) (wallMeshes st)
         (scene3D st)) st in
  let st := set_wallMeshes [] st in
  fold_left (fun st wall => createWallMesh3D wall st) (Viewer.walls (viewer st)) st.

(** [setView]; showing and hiding the dimension lines is presentation. *)
Definition setView (is2D : bool) (st : t) : t :=
  let st := onViewer (Viewer.setView is2D) st in
  if is2D then st else update3DView st.

(** [updateWallList]: without a list element nothing happens; with one, its
    children are rebuilt from the walls. *)
Definition updateWallList (st : t) : t :=
  match wallListElement st with
  | Some _ => set_wallListElement (Some (updateWallList (viewer st))) st
  | None => st
  end.

Definition addWall (start end_ : Vector3.t) (st : t) : Wall.t * t :=
  let wall := fst (Viewer.addWall start end_ (viewer st)) in
  let st := onViewer (fun v => snd (Viewer.addWall start end_ v)) st in
  let st := createWallMesh2D wall st in
  let st := if negb (Viewer.is2D (viewer st)) then createWallMesh3D wall st else st in
  (wall, updateWallList st).

(** The flag writers; each but [clearHighlight] ends with
    [updateWallList]. *)
Definition highlightWall (id : string) (st : t) : t :=
  updateWallList (onViewer (Viewer.highlightWall id) st).

Definition clearWallStates (st : t) : t :=
  updateWallList (onViewer Viewer.clearWallStates st).

Definition selectWall (id : string) (st : t) : t :=
  updateWallList (onViewer (Viewer.selectWall id) st).

Definition clearHighlight (st : t) : t := onViewer Viewer.clearHighlight st.

(** [scene2D.remove(mesh); scene3D.remove(mesh)]. *)
Definition removeMesh (mesh : Object3D) (st : t) : t :=
  set_scene3D (remove mesh (scene3D st)) (set_scene2D (remove mesh (scene2D st)) st).

(** [clearAllWalls]: every dimension line is removed, every mesh of
    [wallMeshes] leaves both scenes, the map is cleared; then the registry
    is emptied, the list rebuilt and the view fitted, as in the viewer. *)
Definition clearAllWalls (st : t) : t :=
  let st :=
    fold_left (fun st kv => removeDimensionLine (fst kv) st) (dimensionLines st) st in
  let st := fold_left (fun st kv => removeMesh (snd kv) st) (wallMeshes st) st in
  let st := set_wallMeshes [] st in
  updateWallList (onViewer Viewer.clearAllWalls st).

(** [deleteSelectedWalls]: for each selected wall its dimension line is
    removed and, if [wallMeshes] has a mesh for it, the mesh leaves both
    scenes and the map; then the walls are spliced out, the flags cleared,
    the list rebuilt and the view fitted, as in the viewer. *)
Definition deleteSelectedWalls (st : t) : t :=
  let wallsToDelete := filter Wall.isSelected (Viewer.walls (viewer st)) in
  let st :=
    fold_left
      (fun st wall =>
         let st := removeDimensionLine (Wall.id wall) st in
         match JSMap.get (Wall.id wall) (wallMeshes st) with
         | Some mesh =>
             set_wallMeshes (JSMap.delete (Wall.id wall) (wallMeshes st))
               (removeMesh mesh st)
         | None => st
         end)
      wallsToDelete st in
  updateWallList (onViewer Viewer.deleteSelectedWalls st).

(** [onMouseDown], with the objects of the wall it may add. *)
Definition onMouseDown (e : MouseEvent) (p : Pick) (st : t) : result :=
  let v := viewer st in
  if negb (Viewer.is2D v) then
    match wallHits p with
    | wallId :: _ => Ok (selectWall wallId st)
    | [] => Ok (clearWallStates st)
    end
  else if Viewer.isDrawingMode v then
    if negb (button e =? 0)%Z then Ok st
    else
      match Viewer.getIntersectionPoint v p with
      | None => Ok st
      | Some intersection =>
          if negb (Viewer.isDrawing v) then
            Ok (onViewer
                  (fun v =>
                     Viewer.addPreviewLine intersection intersection
                       (Viewer.set_startPoint (Some intersection)
                          (Viewer.set_isDrawing true v))) st)
          else
            let endPoint := intersection in
            match Viewer.startPoint v with
            | None => TypeError
            | Some start =>
                let st := snd (addWall start endPoint st) in
                let st := onViewer Viewer.removePreviewLine st in
                if shiftKey e then
                  Ok (onViewer
                        (fun v =>
                           Viewer.addPreviewLine endPoint endPoint
                             (Viewer.set_startPoint (Some endPoint) v)) st)
                else
                  Ok (onViewer
                        (fun v =>
                           Viewer.set_startPoint None (Viewer.set_isDrawing false v))
                        st)
            end
      end
  else if (button e =? 0)%Z then
    match wallHits p with
    | wallId :: _ => Ok (selectWall wallId st)
    | [] => Ok (clearWallStates st)
    end
  else Ok st.

(** [onMouseMove]: the hover update, then the preview update, which is the
    viewer's alone. *)
Definition onMouseMove (p : Pick) (st : t) : t :=
  let v := viewer st in
  let hovered :=
    if Viewer.is2D v then
      match wallHits p with
      | wallId :: _ => highlightWall wallId st
      | [] => if negb (Viewer.isDrawing v) then clearHighlight st else st
      end
    else st in
  new (Viewer.onMouseMove p v) (wallMeshes hovered) (dimensionLines hovered)
      (scene2D hovered) (scene3D hovered) (labels hovered) (wallListElement hovered)
      (nextId hovered).

Definition onWallListItemMouseOver (target : ListTarget) (st : t) : t :=
  match listItemWallId target with
  | Some id => highlightWall id st
  | None => st
  end.

Definition onWallListItemMouseOut (target : ListTarget) (st : t) : result :=
  match listItemWallId target with
  | Some id =>
      let isSelectedWall :=
        match Viewer.selectedWall (viewer st) with
        | Some sel => (sel =? id)%string
        | None => false
        end in
      if negb isSelectedWall then
        match find (fun wall => (Wall.id wall =? id)%string) (Viewer.walls (viewer st)) with
        | Some _ =>
            Ok (updateWallList
                  (onViewer
                     (fun v =>
                        Viewer.set_walls (Viewer.unhighlightFirst id (Viewer.walls v)) v)
                     st))
        | None => TypeError
        end
      else Ok st
  | None => Ok st
  end.

Definition onWallListItemClick (target : ListTarget) (st : t) : t :=
  match listItemWallId target with
  | Some id => selectWall id st
  | None => st
  end.

(** The viewer is constructed; [wallList] is the children of the wall list
    element in the page, if the page has one. *)
Definition create (w h : float) (wallList : option (list ListItem)) : t :=
  new (Viewer.create w h) [] [] [] [] [] wallList 0.

Definition handle (ev : Viewer.Event) (st : t) : result :=
  match ev with
  | Viewer.AddWall a b => Ok (snd (addWall a b st))
  | Viewer.SetView b => Ok (setView b st)
  | Viewer.ZoomExtend => Ok (onViewer Viewer.zoomExtend st)
  | Viewer.ClearAllWalls => Ok (clearAllWalls st)
  | Viewer.DeleteSelectedWalls => Ok (deleteSelectedWalls st)
  | Viewer.ToggleDrawingMode => Ok (onViewer Viewer.toggleDrawingMode st)
  | Viewer.HighlightWall id => Ok (highlightWall id st)
  | Viewer.SelectWall id => Ok (selectWall id st)
  | Viewer.ClearWallStates => Ok (clearWallStates st)
  | Viewer.ClearHighlight => Ok (clearHighlight st)
  | Viewer.MouseDown e p => onMouseDown e p st
  | Viewer.MouseMove p => Ok (onMouseMove p st)
  | Viewer.MouseUp => Ok st
  | Viewer.WallListItemMouseOver target => Ok (onWallListItemMouseOver target st)
  | Viewer.WallListItemMouseOut target => onWallListItemMouseOut target st
  | Viewer.WallListItemClick target => Ok (onWallListItemClick target st)
  | Viewer.WindowResize w h => Ok (onViewer (Viewer.onWindowResize w h) st)
  | Viewer.OrbitControlsChange position zoom target =>
      Ok (onViewer (Viewer.orbitControlsChange position zoom target) st)
  end.

Inductive reachable : t -> Prop :=
| reachable_create (w h : float) (wallList : option (list ListItem)) :
    reachable (create w h wallList)
| reachable_handle (ev : Viewer.Event) (st st' : t) :
    reachable st -> handle ev st = Ok st' -> reachable st'.

Definition run (evs : list Viewer.Event) (st : t) : t :=
  fold_left (fun st ev => match handle ev st with Ok st' => st' | TypeError => st end)
    evs st.

End Stage.

(* ------------------------------------------------------------------ *)
(** * Vocabulary of the properties *)

(** ** The registry invariant *)

(** The derived fields agree with the end points. *)
Definition measured (w : Wall.t) : Prop :=
  Wall.length w = Vector3.distanceTo (Wall.start w) (Wall.end_ w)
  /\ Wall.angle w =
     Math.atan2 (Vector3.y (Wall.end_ w) - Vector3.y (Wall.start w))
                (Vector3.x (Wall.end_ w) - Vector3.x (Wall.start w)).

(** The Euclidean distance between two points, computed in double
    precision the way the claim's "distance(start, end)" reads:
    sqrt(dx^2 + dy^2 + dz^2). *)
Definition euclideanDistance (a b : Vector3.t) : float :=
  let dx := (Vector3.x a - Vector3.x b)%float in
  let dy := (Vector3.y a - Vector3.y b)%float in
  let dz := (Vector3.z a - Vector3.z b)%float in
  PrimFloat.sqrt (dx * dx + dy * dy + dz * dz).

(** The distance between the projections of two points on the plane z = 0:
    sqrt(dx^2 + dy^2). *)
Definition planarDistance (a b : Vector3.t) : float :=
  let dx := (Vector3.x b - Vector3.x a)%float in
  let dy := (Vector3.y b - Vector3.y a)%float in
  PrimFloat.sqrt (dx * dx + dy * dy).

(** The angle of the claim: atan2(end.y - start.y, end.x - start.x). *)
Definition direction (a b : Vector3.t) : Math.Radians :=
  Math.atan2 (Vector3.y b - Vector3.y a) (Vector3.x b - Vector3.x a).

(** The id was produced by a counter value already used. *)
Definition minted (c : nat) (w : Wall.t) : Prop :=
  exists k, k < c /\ Wall.id w = wallId k.

Definition countSelected (ws : list Wall.t) : nat :=
  List.length (filter Wall.isSelected ws).

Definition countHighlighted (ws : list Wall.t) : nat :=
  List.length (filter Wall.isHighlighted ws).

Record registry_ok (ws : list Wall.t) (c : nat) : Prop := {
  ok_minted : Forall (minted c) ws;
  ok_distinct : NoDup (map Wall.id ws);
  ok_selected : countSelected ws <= 1;
  ok_highlighted : countHighlighted ws <= 1;
  ok_measured : Forall measured ws
}.

Arguments ok_minted {ws c} _.
Arguments ok_distinct {ws c} _.
Arguments ok_selected {ws c} _.
Arguments ok_highlighted {ws c} _.
Arguments ok_measured {ws c} _.

(** Clearing both flags, as [clearWallStates] does to every wall. *)
Definition unflag (w : Wall.t) : Wall.t :=
  Wall.set_highlighted false (Wall.set_selected false w).

Definition registry_inv (s : Viewer.t) : Prop :=
  registry_ok (Viewer.walls s) (Viewer.wallCounter s).

(** The drawing gesture is consistent: an idle viewer keeps no anchor and no
    preview, a drawing one has its anchor, and the only preview line in the
    scene is the current one. *)
Record gesture_inv (s : Viewer.t) : Prop := {
  idle_clean :
    Viewer.isDrawing s = false ->
    Viewer.startPoint s = None /\ Viewer.previewLine s = None;
  drawing_anchored :
    Viewer.isDrawing s = true -> exists a, Viewer.startPoint s = Some a;
  scene_preview :
    Viewer.scene2D s
    = match Viewer.previewLine s with Some line => [objectId line] | None => [] end
}.

(** The interaction state: mode, gesture flag, anchor, preview line and the
    preview lines in the scene. *)
Definition gesture (s : Viewer.t)
  : bool * bool * option Vector3.t * option Line * list nat :=
  (Viewer.isDrawingMode s, Viewer.isDrawing s, Viewer.startPoint s,
   Viewer.previewLine s, Viewer.scene2D s).

(** ** Sample events and sessions *)

Definition leftClick : MouseEvent := Build_MouseEvent 0 false 0 0.
Definition shiftLeftClick : MouseEvent := Build_MouseEvent 0 true 0 0.
Definition pickAt (x y : float) : Pick := Build_Pick [] (Vector3.new x y 0.5) None.

(** A session: two walls are added, each is selected in turn, and the
    pointer hovers over the first. *)
Definition twoWalls : Viewer.t :=
  Viewer.run
    [Viewer.AddWall (Vector3.new 0 0 0) (Vector3.new 3 4 0);
     Viewer.AddWall (Vector3.new 3 4 0) (Vector3.new 6 0 0);
     Viewer.SelectWall "wall_0";
     Viewer.HighlightWall "wall_0";
     Viewer.SelectWall "wall_1";
     Viewer.HighlightWall "wall_0"]
    (Viewer.create 800 600).

(** A session: the first click of a drawing gesture has been made. *)
Definition midGesture : Viewer.t :=
  Viewer.run [Viewer.MouseDown leftClick (pickAt 1 2); Viewer.MouseMove (pickAt 5 2)]
    (Viewer.create 800 600).

(** A session: the first click of a gesture at a point whose coordinates
    are not single-precision numbers. *)
Definition inexactGesture : Viewer.t :=
  Viewer.run [Viewer.MouseDown leftClick (pickAt 0.1 0.2)] (Viewer.create 800 600).

(** A session: one wall away from the origin, then zoom to fit. *)
Definition offCentre : Viewer.t :=
  Viewer.run
    [Viewer.AddWall (Vector3.new 100 0 0) (Vector3.new 110 0 0); Viewer.ZoomExtend]
    (Viewer.create 800 400).

(** Removing the wall with a given id through the viewer's interface: select
    it, then delete the selection. *)
Definition selectThenDelete (id : string) (s : Viewer.t) : Viewer.t :=
  Viewer.deleteSelectedWalls (Viewer.selectWall id s).

(** A session: the two walls seen in the 3D view. *)
Definition perspectiveView : Viewer.t := Viewer.run [Viewer.SetView false] twoWalls.

(** A pick whose ray misses the plane z = 0 and meets the mesh of wall_0. *)
Definition parallelPick : Pick := Build_Pick ["wall_0"%string] (Vector3.new 0 0 0.5) None.

(** The camera whose view volume is the cube of normalised device
    coordinates itself: unprojecting changes nothing. *)
Definition unitCamera (v : Vector3.t) : Vector3.t := v.

Definition unitRect : DOMRect := Build_DOMRect 0 0 2 2.

(** A press-drag-release session of the command, the button released with
    shift held at clock reading 1700000000000. *)
Definition chainedRelease : CreateWallCommand.t :=
  CreateWallCommand.onMouseUp unitCamera 1700000000000%Z shiftLeftClick
    (CreateWallCommand.onMouseMove unitCamera unitRect (Build_MouseEvent 0 false 2 1)
       (CreateWallCommand.onMouseDown unitCamera leftClick
          (CreateWallCommand.create Document2D.empty))).

(** The chain continued: the pointer moves on and the button is released
    again, still with shift held, within the same millisecond. *)
Definition chainedTwice : CreateWallCommand.t :=
  CreateWallCommand.onMouseUp unitCamera 1700000000000%Z shiftLeftClick
    (CreateWallCommand.onMouseMove unitCamera unitRect (Build_MouseEvent 0 false 2 0)
       chainedRelease).

(** ** Further invariants of the viewer *)

(** The bookkeeping field [selectedWall] names the selected wall: an id is
    the id of a selected wall exactly when [selectedWall] holds it. *)
Definition selection_inv (s : Viewer.t) : Prop :=
  forall i : string,
    In (i, true) (map (fun w => (Wall.id w, Wall.isSelected w)) (Viewer.walls s))
    <-> Viewer.selectedWall s = Some i.

(** The registry as the selection sees it. *)
Definition selview (ws : list Wall.t) : list (string * bool) :=
  map (fun w => (Wall.id w, Wall.isSelected w)) ws.

(** While a gesture is in progress there is an anchor in the drawing plane
    z = 0 and a preview line; the line starts at the anchor as its
    single-precision position attribute holds it, and both of its ends lie
    in the plane. *)
Definition anchored_inv (s : Viewer.t) : Prop :=
  Viewer.isDrawing s = true ->
  exists line a,
    Viewer.previewLine s = Some line
    /\ Viewer.startPoint s = Some a
    /\ Vector3.z a = 0%float
    /\ from line = BufferGeometry.fromPoint a
    /\ Vector3.z (from line) = 0%float
    /\ Vector3.z (to line) = 0%float.

(** A point, if there is one, lies in the drawing plane. *)
Definition planar (pt : option Vector3.t) : Prop :=
  forall q, pt = Some q -> Vector3.z q = 0%float.

(** The preview lines of the viewer are accounted for: nothing is disposed
    twice, a disposed line is out of the scene, and every line ever created
    is in the scene or disposed. *)
Definition disposal_inv (s : Viewer.t) : Prop :=
  NoDup (Viewer.disposed s)
  /\ (forall n, In n (Viewer.disposed s) ->
        n < Viewer.nextObjectId s /\ ~ In n (Viewer.scene2D s))
  /\ (forall n, In n (Viewer.scene2D s) -> n < Viewer.nextObjectId s)
  /\ (forall n, n < Viewer.nextObjectId s ->
        In n (Viewer.scene2D s) \/ In n (Viewer.disposed s)).

(** The objects of the preview: the scene, the disposals and the next
    object identity. *)
Definition previewObjects (s : Viewer.t) : list nat * list nat * nat :=
  (Viewer.scene2D s, Viewer.disposed s, Viewer.nextObjectId s).

(** The hover events: pointer-move, pointer-up and the wall list's
    mouse-over and mouse-out. *)
Definition isHover (ev : Viewer.Event) : bool :=
  match ev with
  | Viewer.MouseMove _ | Viewer.WallListItemMouseOver _
  | Viewer.WallListItemMouseOut _ | Viewer.MouseUp => true
  | _ => false
  end.

(** What a hover must not touch: each wall's id, end points, angle, length
    and [selected] flag. *)
Definition fixedUnderHover (w : Wall.t)
  : string * Vector3.t * Vector3.t * Math.Radians * float * option bool :=
  (Wall.geometry w, Wall.selected w).

(** What [zoomExtend] reads: the view, the walls, the container's size and
    the height of the 2D camera. *)
Definition zoomInputs (s : Viewer.t) : bool * list Wall.t * float * float * float :=
  (Viewer.is2D s, Viewer.walls s, Viewer.clientWidth s, Viewer.clientHeight s,
   Vector3.z (OrthographicCamera.position (Viewer.camera2D s))).

(** The point that [getIntersectionPoint] returns in the 2D view. *)
Definition planePoint (p : Pick) : Vector3.t :=
  Vector3.new (Vector3.x (unprojected p)) (Vector3.y (unprojected p)) 0.

(** ** The invariants of the 2D document *)

(** A scene mesh that stands for a wall: [obj.userData.wallId] is truthy. *)
Definition isWallMesh (m : Mesh) : bool :=
  match userData_wallId m with
  | Some id => negb (id =? "")%string
  | None => false
  end.

(** The mesh [drawWall] builds for a wall. *)
Definition meshOf (w : Wall.t) (m : Mesh) : Prop :=
  userData_wallId m = Some (Wall.id w)
  /\ planeLength m = Wall.length w
  /\ rotation_z m = Wall.angle w
  /\ meshPosition m
     = Vector3.new ((Vector3.x (Wall.start w) + Vector3.x (Wall.end_ w)) / 2)
                   ((Vector3.y (Wall.start w) + Vector3.y (Wall.end_ w)) / 2) 0.

(** The command's gesture, as every reachable state has it. *)
Record command_inv (c : CreateWallCommand.t) : Prop := {
  inv_anchor :
    CreateWallCommand.drawing c = true ->
    exists a, CreateWallCommand.startPoint c = Some a;
  inv_idle :
    CreateWallCommand.drawing c = false ->
    CreateWallCommand.startPoint c = None
    /\ CreateWallCommand.previewWall c = None
    /\ CreateWallCommand.isCreatingSeries c = false;
  inv_series :
    CreateWallCommand.isCreatingSeries c = true ->
    CreateWallCommand.lastEndPoint c = CreateWallCommand.startPoint c
    /\ exists ws w,
         Document2D.walls (CreateWallCommand.document c) = ws ++ [w]
         /\ CreateWallCommand.startPoint c = Some (Wall.end_ w);
  inv_noseries :
    CreateWallCommand.isCreatingSeries c = false ->
    CreateWallCommand.lastEndPoint c = None
}.

(** The document's scene, map and disposals with the command's preview
    [pw], as every reachable state has them. *)
Record scene_inv (d : Document2D.t) (pw : option Mesh) : Prop := {
  inv_preview :
    filter (fun m => negb (isWallMesh m)) (Document2D.scene d)
    = match pw with Some p => [p] | None => [] end;
  inv_preview_plain : forall p, pw = Some p -> userData_wallId p = None;
  inv_fresh :
    Forall (fun m => meshId m < Document2D.nextObjectId d) (Document2D.scene d);
  inv_distinct : NoDup (map meshId (Document2D.scene d));
  inv_disposed_old :
    Forall (fun n => n < Document2D.nextObjectId d) (Document2D.disposed d);
  inv_disposed_gone :
    forall n, In n (Document2D.disposed d) ->
      ~ In n (map meshId (Document2D.scene d));
  inv_disposed_once : NoDup (Document2D.disposed d);
  inv_accounted :
    forall n, n < Document2D.nextObjectId d ->
      In n (map meshId (Document2D.scene d)) \/ In n (Document2D.disposed d);
  inv_mirror :
    Forall2 meshOf (Document2D.walls d) (filter isWallMesh (Document2D.scene d));
  inv_keys : NoDup (map fst (Document2D.wallMeshes d));
  inv_keys_ids :
    forall id,
      In id (map fst (Document2D.wallMeshes d))
      <-> In id (map Wall.id (Document2D.walls d));
  inv_entries :
    Forall (fun km =>
              In (snd km) (Document2D.scene d)
              /\ userData_wallId (snd km) = Some (fst km))
      (Document2D.wallMeshes d);
  inv_unflagged :
    Forall (fun w => Wall.selected w = None /\ Wall.highlighted w = None)
      (Document2D.walls d)
}.

(** A scene without the object [p], as [scene.remove(p)] leaves it. *)
Definition withoutMesh (p : Mesh) (l : list Mesh) : list Mesh :=
  filter (fun o => negb (meshId o =? meshId p)) l.

(** What the scene invariant reads of a document. *)
Definition documentObjects (d : Document2D.t) :=
  (Document2D.walls d, Document2D.wallMeshes d, Document2D.scene d,
   Document2D.disposed d, Document2D.nextObjectId d).

(** A preview removed from the scene and disposed, as both handlers do
    before they replace or commit it. *)
Definition dropped (p : Mesh) (d : Document2D.t) : Document2D.t :=
  Document2D.dispose p (Document2D.removeObject p d).

(** A new preview mesh created and added to the scene. *)
Definition previewed (m : Mesh) (d : Document2D.t) : Document2D.t :=
  Document2D.addObject m
    (Document2D.new (Document2D.walls d) (Document2D.wallMeshes d)
       (Document2D.highlightedWall d) (Document2D.selectedWall d)
       (Document2D.scene d) (Document2D.disposed d)
       (S (Document2D.nextObjectId d))).

(** The scene the command draws into once its current preview is gone. *)
Definition clearedScene (c : CreateWallCommand.t) : Document2D.t :=
  match CreateWallCommand.previewWall c with
  | Some p => dropped p (CreateWallCommand.document c)
  | None => CreateWallCommand.document c
  end.

(** The point under the pointer, as the command unprojects it. *)
Definition pointerPoint (u : Vector3.t -> Vector3.t) (c : CreateWallCommand.t)
  : Vector3.t :=
  u (Vector3.new (Vector2.x (CreateWallCommand.mouse c))
                 (Vector2.y (CreateWallCommand.mouse c)) 0).

(** Both invariants of the document and its command. *)
Definition doc_inv (c : CreateWallCommand.t) : Prop :=
  command_inv c
  /\ scene_inv (CreateWallCommand.document c) (CreateWallCommand.previewWall c).

(** ** The labels of the page *)

(** The indicator and the toggle button name the current mode. *)
Definition labelled (a : Main.t) : Prop :=
  Main.modeIndicator_textContent a
  = (if Viewer.isDrawingMode (Main.viewer a) then "Drawing Mode"
     else "Selection Mode")%string
  /\ Main.modeIndicator_className a
     = (if Viewer.isDrawingMode (Main.viewer a) then "mode-indicator drawing-mode"
        else "mode-indicator selection-mode")%string
  /\ (forall text, Main.toggleModeButton a = Some text ->
        text = if Viewer.isDrawingMode (Main.viewer a) then "Drawing Mode"%string
               else "Selection Mode"%string).

(** ** Further sessions *)

(** A press, a drag, a release with shift held, a second drag. *)
Definition dragRelease : list Document2DListeners.Event :=
  [Document2DListeners.MouseDown [] unitCamera leftClick;
   Document2DListeners.MouseMove [] unitCamera unitRect (Build_MouseEvent 0 false 2 1);
   Document2DListeners.MouseUp unitCamera 1700000000000%Z shiftLeftClick;
   Document2DListeners.MouseMove [] unitCamera unitRect (Build_MouseEvent 0 false 1 2)].

Definition seriesStarted : CreateWallCommand.t :=
  Document2DListeners.run dragRelease (CreateWallCommand.create Document2D.empty).

(** A page with all three buttons: a wall is drawn with two clicks, then
    the mode is left with the keyboard. *)
Definition pageSession : Main.t :=
  Main.run
    [Main.ViewerListener (Viewer.MouseDown leftClick (pickAt 1 2));
     Main.ViewerListener (Viewer.MouseDown leftClick (pickAt 5 2));
     Main.KeyDown "D"%string]
    (Main.main 800 600 true true (Some "Toggle"%string)).

(** ** The viewer's wall objects *)

Definition isKind (k : Stage.Kind) (o : Stage.Object3D) : bool :=
  match k, Stage.kind o with
  | Stage.WallLine, Stage.WallLine | Stage.WallBox, Stage.WallBox
  | Stage.WallBlock, Stage.WallBlock | Stage.DimensionLine, Stage.DimensionLine => true
  | _, _ => false
  end.

(** The two scenes: distinct identities, all below the counter. *)
Definition scenes_ok (sc2 sc3 : list Stage.Object3D) (n : nat) : Prop :=
  NoDup (map Stage.uuid (sc2 ++ sc3))
  /\ Forall (fun o => Stage.uuid o < n) (sc2 ++ sc3).

(** The scenes, the maps and the labels fit together. *)
Record scene_ok (st : Stage.t) : Prop := {
  ok_scenes : scenes_ok (Stage.scene2D st) (Stage.scene3D st) (Stage.nextId st);
  ok_labels_fresh : Forall (fun l => l < Stage.nextId st) (Stage.labels st);
  ok_labels_distinct : NoDup (Stage.labels st);
  ok_labels :
    Stage.labels st = map (fun kd => Stage.label (snd kd)) (Stage.dimensionLines st);
  ok_dims :
    filter (isKind Stage.DimensionLine) (Stage.scene2D st)
    = map (fun kd => Stage.line (snd kd)) (Stage.dimensionLines st);
  ok_dim_keys : NoDup (map fst (Stage.dimensionLines st))
}.

(** An entry of [wallMeshes]: the mesh carries its key and is in its scene. *)
Definition entry_ok (st : Stage.t) (km : string * Stage.Object3D) : Prop :=
  Stage.userData_wallId (snd km) = Some (fst km)
  /\ ((Stage.kind (snd km) = Stage.WallBox /\ In (snd km) (Stage.scene2D st))
      \/ (Stage.kind (snd km) = Stage.WallBlock /\ In (snd km) (Stage.scene3D st))).

Record meshes_ok (st : Stage.t) : Prop := {
  ok_mesh_keys : NoDup (map fst (Stage.wallMeshes st));
  ok_entries : Forall (entry_ok st) (Stage.wallMeshes st)
}.

(** The maps are keyed by the registry, and the 2D scene holds the line of
    every wall ever created. *)
Record linked (st : Stage.t) : Prop := {
  keys_meshes :
    map fst (Stage.wallMeshes st) = map Wall.id (Viewer.walls (Stage.viewer st));
  keys_dims :
    map fst (Stage.dimensionLines st) = map Wall.id (Viewer.walls (Stage.viewer st));
  lines_all :
    map Stage.userData_wallId (filter (isKind Stage.WallLine) (Stage.scene2D st))
    = map (fun k => Some (wallId k)) (seq 0 (Viewer.wallCounter (Stage.viewer st)))
}.

(** The wall list, when the page has one, shows the registry. *)
Definition listed (st : Stage.t) : Prop :=
  forall items, Stage.wallListElement st = Some items ->
                items = updateWallList (Stage.viewer st).

(** The keys of a map after [set]. *)
Definition keysWith (k : string) (keys : list string) : list string :=
  if existsb (String.eqb k) keys then keys else keys ++ [k].

(** Removing meshes that are no lines leaves the lines where they are. *)
Definition plainMeshes (ms : list (string * Stage.Object3D)) (sc2 : list Stage.Object3D)
  : Prop :=
  forall km x, In km ms -> In x sc2 -> Stage.uuid x = Stage.uuid (snd km) ->
               isKind Stage.DimensionLine x = false
               /\ isKind Stage.WallLine x = false.

(** What [deleteSelectedWalls] does for one selected wall. *)
Definition deleteOne (wall : Wall.t) (st : Stage.t) : Stage.t :=
  let st := Stage.removeDimensionLine (Wall.id wall) st in
  match JSMap.get (Wall.id wall) (Stage.wallMeshes st) with
  | Some mesh =>
      Stage.set_wallMeshes (JSMap.delete (Wall.id wall) (Stage.wallMeshes st))
        (Stage.removeMesh mesh st)
  | None => st
  end.

(** The keys the registry gives the maps, and the ids it has minted. *)
Definition registryKeys (v : Viewer.t) : list string * nat :=
  (map Wall.id (Viewer.walls v), Viewer.wallCounter v).

(** The objects of the stage, without the viewer and the wall list. *)
Definition stageObjects (st : Stage.t) :=
  (Stage.wallMeshes st, Stage.dimensionLines st, Stage.scene2D st, Stage.scene3D st,
   Stage.labels st, Stage.nextId st).

(** The invariant of the wall objects. *)
Definition stage_inv (st : Stage.t) : Prop :=
  scene_ok st /\ meshes_ok st /\ linked st.

(** The 3D scene holds the 3D meshes of [wallMeshes], in the order of the
    map, and no other wall object. *)
Definition tracked (st : Stage.t) : Prop :=
  Stage.scene3D st = filter (isKind Stage.WallBlock) (map snd (Stage.wallMeshes st)).

(** In the 3D view every mesh of [wallMeshes] is a 3D mesh. *)
Definition blocks (st : Stage.t) : Prop :=
  Viewer.is2D (Stage.viewer st) = false ->
  Forall (fun km => isKind Stage.WallBlock (snd km) = true) (Stage.wallMeshes st).

(** Between two states the wall list is not rebuilt and need not be: the
    list element has the same children, the registry would give the same
    items, and an empty registry stays empty. *)
Definition listKept (st st' : Stage.t) : Prop :=
  Stage.wallListElement st' = Stage.wallListElement st
  /\ updateWallList (Stage.viewer st') = updateWallList (Stage.viewer st)
  /\ (Viewer.walls (Stage.viewer st) = [] -> Viewer.walls (Stage.viewer st') = []).

(** A session of the viewer with its objects: the page's wall list has one
    item left over; two walls are drawn with three clicks and the first is
    selected in the list. *)
Definition stageDrawn : Stage.t :=
  Stage.run
    [Viewer.MouseDown leftClick (pickAt 0 0);
     Viewer.MouseDown shiftLeftClick (pickAt 3 4);
     Viewer.MouseDown leftClick (pickAt 6 0);
     Viewer.WallListItemClick (itemOf "wall_0")]
    (Stage.create 800 600 (Some [Build_ListItem None 0 "wall_9" false])).

(** The session goes on in the 3D view, where a third wall is added. *)
Definition stageIn3D : Stage.t :=
  Stage.run
    [Viewer.SetView false;
     Viewer.AddWall (Vector3.new 6 0 0) (Vector3.new 6 5 0)]
    stageDrawn.

(** At last the selected wall is deleted and the registry is cleared. *)
Definition stageCleared : Stage.t :=
  Stage.run [Viewer.DeleteSelectedWalls; Viewer.ClearAllWalls] stageIn3D.

(* ------------------------------------------------------------------ *)
(** * Properties *)

(** ** Wall identifiers *)

Lemma wallId_injective (a b : nat) : wallId a = wallId b -> a = b.
Proof.
  unfold wallId. intro H. simpl in H.
  injection H as H.
  assert (E : Some (Nat.to_uint a) = Some (Nat.to_uint b)).
  { rewrite <- !NilEmpty.usu. now rewrite H. }
  injection E as E.
  rewrite <- (Unsigned.of_to a), <- (Unsigned.of_to b). now rewrite E.
Qed.

(** ** Counting flagged walls *)

Section Lists.

Context {A : Type} (p : A -> bool).

Lemma count_map_le (g : A -> A) (l : list A) :
  (forall a, p (g a) = true -> p a = true) ->
  List.length (filter p (map g l)) <= List.length (filter p l).
Proof.
  intro H. induction l as [|a l IH]; simpl; [lia|].
  destruct (p (g a)) eqn:E.
  - rewrite (H a E). simpl. lia.
  - destruct (p a); simpl; lia.
Qed.

Lemma count_map_eq (g : A -> A) (q : A -> bool) (l : list A) :
  (forall a, p (g a) = q a) ->
  List.length (filter p (map g l)) = List.length (filter q l).
Proof.
  intro H. induction l as [|a l IH]; simpl; [reflexivity|].
  rewrite H. destruct (q a); simpl; lia.
Qed.

Lemma count_filter_le (q : A -> bool) (l : list A) :
  List.length (filter p (filter q l)) <= List.length (filter p l).
Proof.
  induction l as [|a l IH]; simpl; [lia|].
  destruct (q a), (p a) eqn:E; simpl; rewrite ?E; simpl; lia.
Qed.

Lemma count_app_none (l : list A) (a : A) :
  p a = false -> List.length (filter p (l ++ [a])) = List.length (filter p l).
Proof.
  intro H. rewrite filter_app. simpl. rewrite H. rewrite app_nil_r. reflexivity.
Qed.

End Lists.

Lemma count_by_id (i : string) (l : list Wall.t) :
  NoDup (map Wall.id l) ->
  List.length (filter (fun w => (Wall.id w =? i)%string) l) <= 1.
Proof.
  induction l as [|w l IH]; simpl; intro H; [lia|].
  inversion H as [|? ? Hnotin Hnd]; subst.
  destruct (Wall.id w =? i)%string eqn:E.
  - apply String.eqb_eq in E. subst i. simpl.
    assert (Z : filter (fun w0 => (Wall.id w0 =? Wall.id w)%string) l = []).
    { clear -Hnotin. induction l as [|v l IH]; simpl; [reflexivity|].
      destruct (Wall.id v =? Wall.id w)%string eqn:E.
      - apply String.eqb_eq in E. exfalso. apply Hnotin. simpl. now left.
      - apply IH. intro H. apply Hnotin. simpl. now right. }
    rewrite Z. simpl. lia.
  - auto.
Qed.

Lemma filter_none_id (i : string) (l : list Wall.t) :
  ~ In i (map Wall.id l) ->
  filter (fun w => (Wall.id w =? i)%string) l = [].
Proof.
  induction l as [|v l IH]; simpl; intro H; [reflexivity|].
  destruct (Wall.id v =? i)%string eqn:E.
  - apply String.eqb_eq in E. exfalso. apply H. now left.
  - apply IH. intro. apply H. now right.
Qed.

Lemma NoDup_map_filter {A B : Type} (f : A -> B) (q : A -> bool) (l : list A) :
  NoDup (map f l) -> NoDup (map f (filter q l)).
Proof.
  induction l as [|a l IH]; simpl; intro H; [constructor|].
  inversion H as [|? ? Hnotin Hnd]; subst.
  destruct (q a); simpl; auto.
  constructor; auto.
  intro Hin. apply Hnotin.
  apply in_map_iff in Hin. destruct Hin as (x & Hx & Hin).
  apply filter_In in Hin. apply in_map_iff. exists x. tauto.
Qed.

(** ** The registry invariant *)

Lemma geometry_fields (w w' : Wall.t) :
  Wall.geometry w' = Wall.geometry w ->
  Wall.id w' = Wall.id w /\ Wall.start w' = Wall.start w
  /\ Wall.end_ w' = Wall.end_ w /\ Wall.angle w' = Wall.angle w
  /\ Wall.length w' = Wall.length w.
Proof. unfold Wall.geometry. intro H. injection H as -> -> -> -> ->. auto. Qed.

Lemma cons_split {A : Type} (a b : A) (l m : list A) :
  a :: l = b :: m -> a = b /\ l = m.
Proof. intro H. injection H. auto. Qed.

Lemma geometry_ids (ws ws' : list Wall.t) :
  map Wall.geometry ws' = map Wall.geometry ws -> map Wall.id ws' = map Wall.id ws.
Proof.
  revert ws'. induction ws as [|w ws IH]; intros [|w' ws']; simpl; intro H;
    try discriminate; [reflexivity|].
  apply cons_split in H. destruct H as (Hw & Hws).
  apply geometry_fields in Hw. f_equal; [tauto | auto].
Qed.

Lemma geometry_Forall (P : Wall.t -> Prop) (ws ws' : list Wall.t) :
  (forall w w', Wall.geometry w' = Wall.geometry w -> P w -> P w') ->
  map Wall.geometry ws' = map Wall.geometry ws -> Forall P ws -> Forall P ws'.
Proof.
  intro HP. revert ws'. induction ws as [|w ws IH]; intros [|w' ws']; simpl; intros H HF;
    try discriminate; [constructor|].
  apply cons_split in H. destruct H as (Hw & Hws).
  inversion HF; subst. constructor; eauto.
Qed.

Lemma minted_geometry (c : nat) (w w' : Wall.t) :
  Wall.geometry w' = Wall.geometry w -> minted c w -> minted c w'.
Proof.
  intros H (k & Hk & E). apply geometry_fields in H. exists k. split; [assumption|].
  destruct H as (-> & _). assumption.
Qed.

Lemma measured_geometry (w w' : Wall.t) :
  Wall.geometry w' = Wall.geometry w -> measured w -> measured w'.
Proof.
  intros H M. apply geometry_fields in H. destruct H as (_ & Hs & He & Ha & Hl).
  unfold measured in *. rewrite Hs, He, Ha, Hl. assumption.
Qed.

Lemma registry_ok_flags (ws ws' : list Wall.t) (c : nat) :
  map Wall.geometry ws' = map Wall.geometry ws ->
  countSelected ws' <= 1 -> countHighlighted ws' <= 1 ->
  registry_ok ws c -> registry_ok ws' c.
Proof.
  intros G S H [Hm Hd _ _ Hg]. constructor; try assumption.
  - eapply geometry_Forall; eauto using minted_geometry.
  - rewrite (geometry_ids _ _ G). assumption.
  - eapply geometry_Forall; eauto using measured_geometry.
Qed.

Lemma map_geometry (g : Wall.t -> Wall.t) (ws : list Wall.t) :
  (forall w, Wall.geometry (g w) = Wall.geometry w) ->
  map Wall.geometry (map g ws) = map Wall.geometry ws.
Proof. intro H. rewrite map_map. apply map_ext. assumption. Qed.

Lemma registry_ok_nil (c : nat) : registry_ok [] c.
Proof. constructor; simpl; try constructor; unfold countSelected, countHighlighted; simpl; lia. Qed.

Lemma registry_ok_filter (q : Wall.t -> bool) (ws : list Wall.t) (c : nat) :
  registry_ok ws c -> registry_ok (filter q ws) c.
Proof.
  intros [Hm Hd Hs Hh Hg]. constructor.
  - apply Forall_forall. intros w Hin. apply filter_In in Hin.
    rewrite Forall_forall in Hm. apply Hm. tauto.
  - now apply NoDup_map_filter.
  - unfold countSelected in *. pose proof (count_filter_le Wall.isSelected q ws). lia.
  - unfold countHighlighted in *. pose proof (count_filter_le Wall.isHighlighted q ws). lia.
  - apply Forall_forall. intros w Hin. apply filter_In in Hin.
    rewrite Forall_forall in Hg. apply Hg. tauto.
Qed.

Lemma minted_fresh (c : nat) (ws : list Wall.t) :
  Forall (minted c) ws -> ~ In (wallId c) (map Wall.id ws).
Proof.
  intros H Hin. apply in_map_iff in Hin. destruct Hin as (w & E & Hin).
  rewrite Forall_forall in H. destruct (H w Hin) as (k & Hk & E').
  rewrite E' in E. apply wallId_injective in E. lia.
Qed.

Lemma registry_ok_addWall (a b : Vector3.t) (s : Viewer.t) :
  registry_ok (Viewer.walls s) (Viewer.wallCounter s) ->
  registry_ok (Viewer.walls (snd (Viewer.addWall a b s)))
              (Viewer.wallCounter (snd (Viewer.addWall a b s))).
Proof.
  intros [Hm Hd Hs Hh Hg]. simpl. constructor.
  - apply Forall_app. split.
    + eapply Forall_impl; [|exact Hm]. intros w (k & Hk & E). exists k. split; [lia | exact E].
    + constructor; [|constructor]. exists (Viewer.wallCounter s). split; [lia | reflexivity].
  - rewrite map_app. simpl.
    apply NoDup_app; [assumption | repeat constructor; simpl; tauto | ].
    intros i Hin [<- | []]. exact (minted_fresh _ _ Hm Hin).
  - unfold countSelected in *. rewrite count_app_none; [assumption | reflexivity].
  - unfold countHighlighted in *. rewrite count_app_none; [assumption | reflexivity].
  - apply Forall_app. split; [assumption|]. constructor; [|constructor].
    split; reflexivity.
Qed.

(** ** The viewer keeps its invariants *)

Module ViewerFacts.
Import Viewer.

Create HintDb registry.

Lemma zoomExtend_frame (s : t) :
  zoomExtend s = s \/ exists c target, zoomExtend s = set_camera2D c target s.
Proof.
  unfold zoomExtend. destruct (is2D s); [right | now left].
  match goal with |- context [if ?c then _ else _] => destruct c end; eauto.
Qed.

Lemma registry_inv_neutral (s s' : t) :
  walls s' = walls s -> wallCounter s' = wallCounter s ->
  registry_inv s -> registry_inv s'.
Proof. unfold registry_inv. intros -> ->. auto. Qed.

Ltac neutral :=
  let H := fresh in
  intro H; eapply registry_inv_neutral; [| | exact H]; reflexivity.

Lemma registry_zoomExtend s : registry_inv s -> registry_inv (zoomExtend s).
Proof.
  destruct (zoomExtend_frame s) as [-> | (c & tg & ->)]; [auto | neutral].
Qed.

Lemma registry_set_size w h s : registry_inv s -> registry_inv (set_size w h s).
Proof. neutral. Qed.
Lemma registry_set_is2D b s : registry_inv s -> registry_inv (set_is2D b s).
Proof. neutral. Qed.
Lemma registry_set_isDrawing b s : registry_inv s -> registry_inv (set_isDrawing b s).
Proof. neutral. Qed.
Lemma registry_set_startPoint p s : registry_inv s -> registry_inv (set_startPoint p s).
Proof. neutral. Qed.
Lemma registry_set_previewLine l s : registry_inv s -> registry_inv (set_previewLine l s).
Proof. neutral. Qed.
Lemma registry_set_isDrawingMode b s : registry_inv s -> registry_inv (set_isDrawingMode b s).
Proof. neutral. Qed.
Lemma registry_set_camera2D c tg s : registry_inv s -> registry_inv (set_camera2D c tg s).
Proof. neutral. Qed.
Lemma registry_addPreviewLine a b s : registry_inv s -> registry_inv (addPreviewLine a b s).
Proof. neutral. Qed.
Lemma registry_removePreviewLine s : registry_inv s -> registry_inv (removePreviewLine s).
Proof. unfold removePreviewLine. destruct (previewLine s); [neutral | auto]. Qed.

Lemma registry_addWall a b s : registry_inv s -> registry_inv (snd (addWall a b s)).
Proof. apply registry_ok_addWall. Qed.

Lemma highlight_flag (i : string) (w : Wall.t) :
  Wall.isHighlighted
    (if ((Wall.id w =? i)%string && negb (Wall.isHighlighted w))%bool
     then Wall.set_highlighted true w
     else if (negb (Wall.id w =? i)%string && Wall.isHighlighted w)%bool
          then Wall.set_highlighted false w else w)
  = (Wall.id w =? i)%string.
Proof.
  destruct (Wall.id w =? i)%string, (Wall.isHighlighted w) eqn:E; simpl; auto.
Qed.

Ltac flag_cases :=
  intros; unfold Wall.isSelected, Wall.isHighlighted in *;
  repeat match goal with
         | |- context [if ?c then _ else _] => destruct c eqn:?
         | H : context [if ?c then _ else _] |- _ => destruct c eqn:?
         end; simpl in *; try reflexivity; try congruence; auto.

Lemma registry_highlightWall i s : registry_inv s -> registry_inv (highlightWall i s).
Proof.
  unfold registry_inv. intro H. simpl.
  eapply registry_ok_flags; [ | | | exact H].
  - apply map_geometry. flag_cases.
  - unfold countSelected.
    etransitivity; [apply count_map_le | apply (ok_selected H)]. flag_cases.
  - unfold countHighlighted.
    rewrite (count_map_eq _ _ (fun w => (Wall.id w =? i)%string));
      [apply count_by_id, (ok_distinct H) | ].
    intro w. apply highlight_flag.
Qed.

Lemma registry_clearWallStates s : registry_inv s -> registry_inv (clearWallStates s).
Proof.
  unfold registry_inv. intro H. simpl.
  eapply registry_ok_flags; [ | | | exact H].
  - apply map_geometry. flag_cases.
  - unfold countSelected.
    etransitivity; [apply count_map_le | apply (ok_selected H)]. flag_cases.
  - unfold countHighlighted.
    etransitivity; [apply count_map_le | apply (ok_highlighted H)]. flag_cases.
Qed.

Lemma registry_clearHighlight s : registry_inv s -> registry_inv (clearHighlight s).
Proof.
  unfold registry_inv. intro H. simpl.
  eapply registry_ok_flags; [ | | | exact H].
  - apply map_geometry. flag_cases.
  - unfold countSelected.
    etransitivity; [apply count_map_le | apply (ok_selected H)]. flag_cases.
  - unfold countHighlighted.
    etransitivity; [apply count_map_le | apply (ok_highlighted H)]. flag_cases.
Qed.

Lemma registry_selectWall i s : registry_inv s -> registry_inv (selectWall i s).
Proof.
  intro H. apply registry_clearWallStates in H. revert H.
  unfold selectWall. generalize (clearWallStates s). clear s. intros s H.
  unfold registry_inv in *. simpl.
  eapply registry_ok_flags; [ | | | exact H].
  - apply map_geometry. flag_cases.
  - unfold countSelected.
    rewrite (count_map_eq _ _ (fun w => (Wall.id w =? i)%string));
      [apply count_by_id, (ok_distinct H) | ].
    intro w. destruct (Wall.id w =? i)%string; reflexivity.
  - unfold countHighlighted.
    etransitivity; [apply count_map_le | apply (ok_highlighted H)]. flag_cases.
Qed.

Lemma unhighlightFirst_geometry i ws :
  map Wall.geometry (unhighlightFirst i ws) = map Wall.geometry ws.
Proof.
  induction ws as [|w ws IH]; simpl; [reflexivity|].
  destruct (Wall.id w =? i)%string; simpl; [reflexivity | now rewrite IH].
Qed.

Lemma unhighlightFirst_count (p : Wall.t -> bool) i ws :
  (forall w, p (Wall.set_highlighted false w) = true -> p w = true) ->
  List.length (filter p (unhighlightFirst i ws)) <= List.length (filter p ws).
Proof.
  intro Hp. induction ws as [|w ws IH]; simpl; [lia|].
  destruct (Wall.id w =? i)%string; simpl.
  - destruct (p (Wall.set_highlighted false w)) eqn:E.
    + rewrite (Hp w E). simpl. lia.
    + destruct (p w); simpl; lia.
  - destruct (p w); simpl; lia.
Qed.

Lemma registry_unhighlightFirst i s :
  registry_inv s -> registry_inv (set_walls (unhighlightFirst i (walls s)) s).
Proof.
  unfold registry_inv. intro H. simpl.
  eapply registry_ok_flags; [ | | | exact H].
  - apply unhighlightFirst_geometry.
  - unfold countSelected.
    etransitivity; [apply unhighlightFirst_count | apply (ok_selected H)]. auto.
  - unfold countHighlighted.
    etransitivity; [apply unhighlightFirst_count | apply (ok_highlighted H)].
    intros w E. discriminate.
Qed.

Lemma registry_clearAllWalls s : registry_inv s -> registry_inv (clearAllWalls s).
Proof.
  intros _. apply registry_zoomExtend, registry_clearWallStates.
  unfold registry_inv. simpl. apply registry_ok_nil.
Qed.

Lemma registry_deleteSelectedWalls s : registry_inv s -> registry_inv (deleteSelectedWalls s).
Proof.
  intro H. apply registry_zoomExtend, registry_clearWallStates.
  unfold registry_inv in *. simpl. now apply registry_ok_filter.
Qed.

#[export] Hint Resolve registry_zoomExtend registry_set_size registry_set_is2D
  registry_set_isDrawing registry_set_startPoint registry_set_previewLine
  registry_set_isDrawingMode registry_set_camera2D registry_addPreviewLine
  registry_removePreviewLine registry_addWall registry_highlightWall
  registry_clearWallStates registry_clearHighlight registry_selectWall
  registry_unhighlightFirst registry_clearAllWalls registry_deleteSelectedWalls
  : registry.

Lemma Ok_inj (s s' : t) : Ok s = Ok s' -> s = s'.
Proof. intro H. injection H. auto. Qed.

Ltac split_handler :=
  repeat match goal with
         | H : Ok _ = Ok _ |- _ => apply Ok_inj in H; subst
         | H : TypeError = Ok _ |- _ => discriminate H
         | H : context [match ?c with _ => _ end] |- _ => destruct c eqn:?
         | |- context [match ?c with _ => _ end] => destruct c eqn:?
         end.

Lemma registry_handle ev s s' :
  registry_inv s -> handle ev s = Ok s' -> registry_inv s'.
Proof.
  intros H E. destruct ev; cbn [handle] in E;
    unfold onMouseDown, onMouseDownAt, onMouseMove, onMouseMoveAt, onMouseUp,
      onWallListItemMouseOver, onWallListItemMouseOut, onWallListItemClick,
      toggleDrawingMode, cleanupDrawing, setView, onWindowResize,
      orbitControlsChange in E;
    split_handler; auto 12 with registry.
Qed.

Lemma registry_create w h : registry_inv (create w h).
Proof.
  unfold create. apply registry_zoomExtend. unfold registry_inv. simpl.
  apply registry_ok_nil.
Qed.

Theorem reachable_registry s : reachable s -> registry_inv s.
Proof.
  induction 1; eauto using registry_create, registry_handle.
Qed.

(** ** The gesture invariant *)

Lemma gesture_fields (s s' : t) :
  gesture s' = gesture s ->
  isDrawingMode s' = isDrawingMode s /\ isDrawing s' = isDrawing s
  /\ startPoint s' = startPoint s /\ previewLine s' = previewLine s
  /\ scene2D s' = scene2D s.
Proof. unfold gesture. intro H. injection H. auto. Qed.

Lemma gesture_inv_same (s s' : t) :
  isDrawing s' = isDrawing s -> startPoint s' = startPoint s ->
  previewLine s' = previewLine s -> scene2D s' = scene2D s ->
  gesture_inv s -> gesture_inv s'.
Proof.
  intros E1 E2 E3 E4 [Hi Hd Hs].
  constructor; rewrite ?E1, ?E2, ?E3, ?E4; assumption.
Qed.

Lemma gesture_inv_neutral (s s' : t) :
  gesture s' = gesture s -> gesture_inv s -> gesture_inv s'.
Proof.
  intros G. apply gesture_fields in G.
  destruct G as (_ & E1 & E2 & E3 & E4). now apply gesture_inv_same.
Qed.

Lemma gesture_zoomExtend s : gesture (zoomExtend s) = gesture s.
Proof. destruct (zoomExtend_frame s) as [-> | (c & tg & ->)]; reflexivity. Qed.

Lemma gesture_highlightWall i s : gesture (highlightWall i s) = gesture s.
Proof. reflexivity. Qed.
Lemma gesture_clearWallStates s : gesture (clearWallStates s) = gesture s.
Proof. reflexivity. Qed.
Lemma gesture_selectWall i s : gesture (selectWall i s) = gesture s.
Proof. reflexivity. Qed.
Lemma gesture_clearHighlight s : gesture (clearHighlight s) = gesture s.
Proof. reflexivity. Qed.
Lemma gesture_addWall a b s : gesture (snd (addWall a b s)) = gesture s.
Proof. reflexivity. Qed.
Lemma gesture_set_walls ws s : gesture (set_walls ws s) = gesture s.
Proof. reflexivity. Qed.
Lemma gesture_setView b s : gesture (setView b s) = gesture s.
Proof. reflexivity. Qed.
Lemma gesture_onWindowResize w h s : gesture (onWindowResize w h s) = gesture s.
Proof. reflexivity. Qed.
Lemma gesture_clearAllWalls s : gesture (clearAllWalls s) = gesture s.
Proof. unfold clearAllWalls. now rewrite gesture_zoomExtend. Qed.
Lemma gesture_deleteSelectedWalls s : gesture (deleteSelectedWalls s) = gesture s.
Proof. unfold deleteSelectedWalls. now rewrite gesture_zoomExtend. Qed.

Lemma remove_only (n : nat) : filter (fun o => negb (o =? n)) [n] = [].
Proof. simpl. now rewrite Nat.eqb_refl. Qed.

Lemma gesture_inv_cleanupDrawing s : gesture_inv s -> gesture_inv (cleanupDrawing s).
Proof.
  intros [Hi Hd Hs]. unfold cleanupDrawing, removePreviewLine.
  destruct (previewLine s) as [line|] eqn:E; constructor; cbn; intros;
    try discriminate; auto.
  - rewrite Hs. apply remove_only.
  - rewrite E. assumption.
Qed.

Lemma gesture_inv_toggleDrawingMode s : gesture_inv s -> gesture_inv (toggleDrawingMode s).
Proof.
  intro H. unfold toggleDrawingMode.
  match goal with |- context [if ?c then _ else _] => destruct c end.
  - apply gesture_inv_cleanupDrawing. revert H. now apply gesture_inv_same.
  - revert H. now apply gesture_inv_same.
Qed.

Lemma gesture_inv_firstClick p s :
  isDrawing s = false -> gesture_inv s ->
  gesture_inv (addPreviewLine p p (set_startPoint (Some p) (set_isDrawing true s))).
Proof.
  intros E [Hi Hd Hs]. destruct (Hi E) as (_ & Hp).
  constructor; cbn; intros; try discriminate; eauto.
  rewrite Hs, Hp. reflexivity.
Qed.

Lemma scene_removePreviewLine s :
  gesture_inv s -> scene2D (removePreviewLine s) = [] /\ previewLine (removePreviewLine s) = None.
Proof.
  intros [Hi Hd Hs]. unfold removePreviewLine.
  destruct (previewLine s) as [line|] eqn:E; cbn.
  - rewrite Hs. split; [apply remove_only | reflexivity].
  - rewrite Hs, E. split; reflexivity.
Qed.

Lemma fields_removePreviewLine s :
  isDrawing (removePreviewLine s) = isDrawing s
  /\ startPoint (removePreviewLine s) = startPoint s
  /\ isDrawingMode (removePreviewLine s) = isDrawingMode s
  /\ walls (removePreviewLine s) = walls s
  /\ nextObjectId (removePreviewLine s) = nextObjectId s.
Proof. unfold removePreviewLine. destruct (previewLine s); cbn; auto. Qed.

Lemma gesture_inv_commit (shift : bool) p s :
  scene2D s = [] -> previewLine s = None -> isDrawing s = true ->
  gesture_inv
    (if shift then addPreviewLine p p (set_startPoint (Some p) s)
     else set_startPoint None (set_isDrawing false s)).
Proof.
  intros Hs Hp Hd.
  destruct shift; constructor; cbn; intros; try discriminate; eauto; try congruence.
  - rewrite Hs. reflexivity.
  - rewrite Hs, Hp. reflexivity.
Qed.

Lemma gesture_inv_secondClick (shift : bool) a p s :
  isDrawing s = true -> gesture_inv s ->
  gesture_inv
    (let s := removePreviewLine (snd (addWall a p s)) in
     if shift then addPreviewLine p p (set_startPoint (Some p) s)
     else set_startPoint None (set_isDrawing false s)).
Proof.
  intros E H.
  assert (H' : gesture_inv (snd (addWall a p s))).
  { revert H. apply gesture_inv_neutral. reflexivity. }
  destruct (scene_removePreviewLine _ H') as (Hs & Hp).
  destruct (fields_removePreviewLine (snd (addWall a p s))) as (Hd & _).
  cbv zeta. apply gesture_inv_commit; try assumption.
  rewrite Hd. exact E.
Qed.

Lemma gesture_inv_movePreview line q s :
  previewLine s = Some line -> gesture_inv s ->
  gesture_inv (set_previewLine (Some (Build_Line (objectId line) (from line) q)) s).
Proof.
  intros E [Hi Hd Hs]. constructor; cbn; intros; auto.
  - destruct (Hi H) as (_ & Hp). congruence.
  - rewrite Hs, E. reflexivity.
Qed.

Lemma gesture_inv_onMouseDownAt pt e p s s' :
  gesture_inv s -> onMouseDownAt pt e p s = Ok s' -> gesture_inv s'.
Proof.
  intros H E. unfold onMouseDownAt in E.
  destruct (negb (is2D s)).
  { destruct (wallHits p); apply Ok_inj in E; subst; revert H;
      apply gesture_inv_neutral; reflexivity. }
  destruct (isDrawingMode s).
  - destruct (negb (button e =? 0)%Z); [apply Ok_inj in E; now subst|].
    destruct pt as [q|]; [|apply Ok_inj in E; now subst].
    destruct (isDrawing s) eqn:D; cbn [negb] in E.
    + destruct (startPoint s) as [a|]; [|discriminate].
      pose proof (gesture_inv_secondClick (shiftKey e) a q s D H) as G.
      cbv zeta in G. destruct (shiftKey e); apply Ok_inj in E; subst; exact G.
    + apply Ok_inj in E. subst. now apply gesture_inv_firstClick.
  - destruct (button e =? 0)%Z; [|apply Ok_inj in E; now subst].
    destruct (wallHits p); apply Ok_inj in E; subst; revert H;
      apply gesture_inv_neutral; reflexivity.
Qed.

Lemma gesture_inv_dragPreview (pt : option Vector3.t) s :
  gesture_inv s ->
  gesture_inv
    (if (is2D s && isDrawingMode s && isDrawing s)%bool then
       match startPoint s, previewLine s with
       | Some _, Some line =>
           match pt with
           | Some q =>
               set_previewLine
                 (Some (Build_Line (objectId line) (from line)
                          (BufferGeometry.written q))) s
           | None => s
           end
       | _, _ => s
       end
     else s).
Proof.
  intro H.
  destruct (is2D s && isDrawingMode s && isDrawing s)%bool; [|assumption].
  destruct (startPoint s); [|assumption].
  destruct (previewLine s) as [line|] eqn:E; [|assumption].
  destruct pt; [|assumption].
  now apply gesture_inv_movePreview.
Qed.

Lemma gesture_inv_onMouseMoveAt pt p s :
  gesture_inv s -> gesture_inv (onMouseMoveAt pt p s).
Proof.
  intro H. unfold onMouseMoveAt. cbv zeta. apply gesture_inv_dragPreview.
  destruct (is2D s); [|assumption].
  destruct (wallHits p); [destruct (negb (isDrawing s)); [|assumption]|];
    revert H; apply gesture_inv_neutral; reflexivity.
Qed.

Lemma gesture_handle ev s s' :
  gesture_inv s -> handle ev s = Ok s' -> gesture_inv s'.
Proof.
  intros H E. destruct ev; cbn [handle] in E;
    try (apply Ok_inj in E; subst s');
    try (revert H; apply gesture_inv_neutral;
         first [ reflexivity | apply gesture_zoomExtend | apply gesture_clearAllWalls
               | apply gesture_deleteSelectedWalls ]).
  - now apply gesture_inv_toggleDrawingMode.
  - unfold onMouseDown in E. eapply gesture_inv_onMouseDownAt; eauto.
  - unfold onMouseMove. now apply gesture_inv_onMouseMoveAt.
  - unfold onWallListItemMouseOver. destruct (listItemWallId target);
      [revert H; apply gesture_inv_neutral; reflexivity | assumption].
  - unfold onWallListItemMouseOut in E. split_handler; try assumption;
      revert H; apply gesture_inv_neutral; reflexivity.
  - unfold onWallListItemClick. destruct (listItemWallId target);
      [revert H; apply gesture_inv_neutral; reflexivity | assumption].
Qed.

Lemma gesture_create w h : gesture_inv (create w h).
Proof.
  unfold create. eapply gesture_inv_neutral; [apply gesture_zoomExtend|].
  constructor; cbn; intros; try discriminate; auto.
Qed.

Theorem reachable_gesture s : reachable s -> gesture_inv s.
Proof. induction 1; eauto using gesture_create, gesture_handle. Qed.

Lemma reachable_run evs s : reachable s -> reachable (run evs s).
Proof.
  revert s. induction evs as [|ev evs IH]; simpl; intros s H; [assumption|].
  apply IH. destruct (handle ev s) eqn:E; [|assumption].
  eapply reachable_handle; eauto.
Qed.

End ViewerFacts.

(* ------------------------------------------------------------------ *)
(** * The claims *)

Lemma selectWall_flags (i : string) (s : Viewer.t) (w : Wall.t) :
  In w (Viewer.walls (Viewer.selectWall i s)) ->
  Wall.selected w = Some (Wall.id w =? i)%string.
Proof.
  cbn. rewrite map_map. intro H. apply in_map_iff in H. destruct H as (v & <- & _).
  cbn. destruct (Wall.id v =? i)%string eqn:E; cbn; rewrite E; reflexivity.
Qed.

(** C1. In every state the viewer can reach, hence after every registry
    mutation, at most one wall is selected; [selectWall id] leaves selected
    exactly the walls whose id is [id] and clears the flag on all others;
    a wall just added is not selected. *)
Theorem at_most_one_wall_selected (s : Viewer.t) :
  Viewer.reachable s ->
  countSelected (Viewer.walls s) <= 1
  /\ (forall ev s', Viewer.handle ev s = Viewer.Ok s' ->
        countSelected (Viewer.walls s') <= 1)
  /\ (forall id w, In w (Viewer.walls (Viewer.selectWall id s)) ->
        Wall.selected w = Some (Wall.id w =? id)%string)
  /\ (forall a b, Wall.selected (fst (Viewer.addWall a b s)) = Some false).
Proof.
  intro R. split; [|split; [|split]].
  - exact (ok_selected (ViewerFacts.reachable_registry s R)).
  - intros ev s' E.
    exact (ok_selected (ViewerFacts.reachable_registry s'
             (Viewer.reachable_handle ev s s' R E))).
  - intros id w. apply selectWall_flags.
  - reflexivity.
Qed.

Lemma at_most_one_wall_selected_witness :
  countSelected (Viewer.walls twoWalls) <= 1
  /\ map Wall.selected (Viewer.walls twoWalls) = [Some false; Some true].
Proof.
  split.
  - exact (proj1 (at_most_one_wall_selected twoWalls
                    (ViewerFacts.reachable_run _ _ (Viewer.reachable_create 800 600)))).
  - vm_compute. reflexivity.
Defined.

(** The wall that [addWall] returns is the entry it appends. *)
Lemma addWall_appends (a b : Vector3.t) (s : Viewer.t) :
  Viewer.walls (snd (Viewer.addWall a b s)) = Viewer.walls s ++ [fst (Viewer.addWall a b s)].
Proof. reflexivity. Qed.

Lemma clone_eq (v : Vector3.t) : Vector3.clone v = v.
Proof. destruct v. reflexivity. Qed.

(** C2, as the code has it.  [addWall] has no guard for coincident end
    points: called with [start = end] it appends one more wall, whose two
    end points are that point, and completes normally. *)
Theorem addWall_degenerate_appends (P : Vector3.t) (s : Viewer.t) :
  let w := fst (Viewer.addWall P P s) in
  let s' := snd (Viewer.addWall P P s) in
  Viewer.walls s' = Viewer.walls s ++ [w]
  /\ List.length (Viewer.walls s') = S (List.length (Viewer.walls s))
  /\ Wall.start w = P /\ Wall.end_ w = P
  /\ Viewer.handle (Viewer.AddWall P P) s = Viewer.Ok s'.
Proof.
  cbv zeta. repeat split.
  - rewrite addWall_appends, length_app. simpl. lia.
  - apply clone_eq.
  - apply clone_eq.
Qed.

(** C2 fails as stated: on a fresh viewer, [addWall(P, P)] with P = (1,1,0)
    takes the registry from no wall to one wall of length 0; so do two
    clicks at the same place in drawing mode. *)
Lemma addWall_degenerate_counterexample :
  List.length (Viewer.walls (Viewer.create 800 600)) = 0
  /\ List.length
       (Viewer.walls
          (snd (Viewer.addWall (Vector3.new 1 1 0) (Vector3.new 1 1 0)
                  (Viewer.create 800 600)))) = 1
  /\ map Wall.length
       (Viewer.walls
          (snd (Viewer.addWall (Vector3.new 1 1 0) (Vector3.new 1 1 0)
                  (Viewer.create 800 600)))) = [0%float]
  /\ map Wall.length
       (Viewer.walls
          (Viewer.run
             [Viewer.MouseDown leftClick (pickAt 1 1);
              Viewer.MouseDown leftClick (pickAt 1 1)]
             (Viewer.create 800 600))) = [0%float].
Proof. vm_compute. repeat split. Qed.

(** The document variant has no guard either. *)
Lemma drawWall_degenerate_appends (now : Z) (P : Vector3.t) (d : Document2D.t) :
  Document2D.walls (snd (Document2D.drawWall now P P d))
  = Document2D.walls d ++ [fst (Document2D.drawWall now P P d)].
Proof. reflexivity. Qed.

(** C3 fails as stated for the document.  [drawWall] keeps the end points
    it is given and stores as [length] the length of the vector
    (end.x - start.x, end.y - start.y): for end points that differ in z it
    is not their distance.  From (0,0,0) to (3,4,12) the wall's length is 5
    and its end points are 13 apart. *)
Lemma drawWall_measures_in_the_plane :
  Wall.start
    (fst (Document2D.drawWall 0 (Vector3.new 0 0 0) (Vector3.new 3 4 12) Document2D.empty))
  = Vector3.new 0 0 0
  /\ Wall.end_
       (fst (Document2D.drawWall 0 (Vector3.new 0 0 0) (Vector3.new 3 4 12)
               Document2D.empty))
     = Vector3.new 3 4 12
  /\ Wall.length
       (fst (Document2D.drawWall 0 (Vector3.new 0 0 0) (Vector3.new 3 4 12)
               Document2D.empty))
     = 5%float
  /\ euclideanDistance (Vector3.new 0 0 0) (Vector3.new 3 4 12) = 13%float.
Proof. vm_compute. repeat split. Qed.

Lemma measured_euclidean (w : Wall.t) :
  measured w ->
  Wall.length w = euclideanDistance (Wall.start w) (Wall.end_ w)
  /\ Wall.angle w = direction (Wall.start w) (Wall.end_ w).
Proof. intros (L & A). split; [exact L|exact A]. Qed.

(** C3, as the code has it.  Every wall in the registry of a reachable
    viewer has as [length] the distance between its end points,
    sqrt(dx^2 + dy^2 + dz^2) in double precision, and as [angle]
    [Math.atan2(end.y - start.y, end.x - start.x)]; so has the wall that
    [addWall] returns, which keeps the two points and is stored;
    [addWall((0,0,0), (3,4,0))] yields length 5 and angle [atan2(4, 3)], and
    [addWall((0,0,0), (3,4,12))] length 13.  The wall that [drawWall]
    returns and stores has the same angle and, as length, the distance of
    the two points in the drawing plane, sqrt(dx^2 + dy^2). *)
Theorem wall_length_and_angle_are_derived :
  (forall s : Viewer.t,
      Viewer.reachable s ->
      Forall (fun w =>
                Wall.length w = euclideanDistance (Wall.start w) (Wall.end_ w)
                /\ Wall.angle w = direction (Wall.start w) (Wall.end_ w))
        (Viewer.walls s)
      /\ forall a b,
           let w := fst (Viewer.addWall a b s) in
           Wall.start w = a /\ Wall.end_ w = b
           /\ Wall.length w = euclideanDistance a b
           /\ Wall.angle w = direction a b
           /\ In w (Viewer.walls (snd (Viewer.addWall a b s))))
  /\ (forall s : Viewer.t,
        let w := fst (Viewer.addWall (Vector3.new 0 0 0) (Vector3.new 3 4 0) s) in
        Wall.length w = 5%float /\ Wall.angle w = Math.atan2 4 3)
  /\ (forall s : Viewer.t,
        Wall.length (fst (Viewer.addWall (Vector3.new 0 0 0) (Vector3.new 3 4 12) s))
        = 13%float)
  /\ (forall (now : Z) (a b : Vector3.t) (d : Document2D.t),
        let w := fst (Document2D.drawWall now a b d) in
        Wall.start w = a /\ Wall.end_ w = b
        /\ Wall.length w = planarDistance a b
        /\ Wall.angle w = direction a b
        /\ In w (Document2D.walls (snd (Document2D.drawWall now a b d)))).
Proof.
  split; [|split; [|split]].
  - intros s R. split.
    + pose proof (ok_measured (ViewerFacts.reachable_registry s R)) as M.
      eapply Forall_impl; [|exact M]. exact measured_euclidean.
    + intros a b. cbv zeta.
      split; [apply clone_eq|]. split; [apply clone_eq|].
      split; [reflexivity|]. split; [reflexivity|].
      rewrite addWall_appends. apply in_or_app. right. now left.
  - intro s. cbv zeta. split; vm_compute; reflexivity.
  - intro s. vm_compute. reflexivity.
  - intros now a b d. cbv zeta.
    split; [apply clone_eq|]. split; [apply clone_eq|].
    split; [reflexivity|]. split; [reflexivity|].
    cbn. apply in_or_app. right. now left.
Qed.

Lemma wall_length_and_angle_are_derived_witness :
  Forall (fun w =>
            Wall.length w = euclideanDistance (Wall.start w) (Wall.end_ w)
            /\ Wall.angle w = direction (Wall.start w) (Wall.end_ w))
    (Viewer.walls twoWalls)
  /\ map Wall.length (Viewer.walls twoWalls) = [5%float; 5%float].
Proof.
  split.
  - exact (proj1 (proj1 wall_length_and_angle_are_derived twoWalls
                    (ViewerFacts.reachable_run _ _ (Viewer.reachable_create 800 600)))).
  - vm_compute. reflexivity.
Defined.

Example drawWall_3_4_5 :
  Wall.length
    (fst (Document2D.drawWall 0 (Vector3.new 0 0 0) (Vector3.new 3 4 0) Document2D.empty))
  = 5%float.
Proof. vm_compute. reflexivity. Qed.

(** In the viewer the ids of the registry are pairwise distinct, and the id
    given to a new wall is none of them. *)
Lemma viewer_ids_distinct (s : Viewer.t) :
  Viewer.reachable s ->
  NoDup (map Wall.id (Viewer.walls s))
  /\ forall a b, ~ In (Wall.id (fst (Viewer.addWall a b s))) (map Wall.id (Viewer.walls s)).
Proof.
  intro R. pose proof (ViewerFacts.reachable_registry s R) as H. split.
  - exact (ok_distinct H).
  - intros a b. exact (minted_fresh _ _ (ok_minted H)).
Qed.

Lemma mapSet_again (k : string) (v v' : Mesh) (m : list (string * Mesh)) :
  List.length (Document2D.mapSet k v' (Document2D.mapSet k v m))
  = List.length (Document2D.mapSet k v m).
Proof.
  induction m as [|[k0 v0] m IH]; simpl.
  - rewrite String.eqb_refl. reflexivity.
  - destruct (k0 =? k)%string eqn:E; simpl; rewrite ?String.eqb_refl, ?E; simpl;
      [reflexivity | now rewrite IH].
Qed.

(** C4, where the code departs from it.  Two calls of [drawWall] during
    which [Date.now()] reads the same millisecond give both walls the same
    id; both are in the registry, and the mesh map keeps one entry for the
    two. *)
Theorem drawWall_same_millisecond_same_id
    (now : Z) (a b c d : Vector3.t) (doc : Document2D.t) :
  let w1 := fst (Document2D.drawWall now a b doc) in
  let doc1 := snd (Document2D.drawWall now a b doc) in
  let w2 := fst (Document2D.drawWall now c d doc1) in
  let doc2 := snd (Document2D.drawWall now c d doc1) in
  Wall.id w1 = Wall.id w2
  /\ Document2D.walls doc2 = Document2D.walls doc ++ [w1; w2]
  /\ List.length (Document2D.wallMeshes doc2) = List.length (Document2D.wallMeshes doc1).
Proof.
  cbv zeta. split; [reflexivity | split].
  - cbn. rewrite <- app_assoc. reflexivity.
  - apply mapSet_again.
Qed.

(** The same through the command: two releases of a chained gesture within
    one millisecond. *)
Example chained_releases_share_an_id :
  map Wall.id (Document2D.walls (CreateWallCommand.document chainedTwice))
  = ["wall_1700000000000"; "wall_1700000000000"]%string
  /\ map fst (Document2D.wallMeshes (CreateWallCommand.document chainedTwice))
     = ["wall_1700000000000"]%string.
Proof. vm_compute. split; reflexivity. Qed.

Lemma geometry_highlightWall i s :
  map Wall.geometry (Viewer.walls (Viewer.highlightWall i s))
  = map Wall.geometry (Viewer.walls s).
Proof. cbn. apply map_geometry. ViewerFacts.flag_cases. Qed.

Lemma geometry_clearWallStates s :
  map Wall.geometry (Viewer.walls (Viewer.clearWallStates s))
  = map Wall.geometry (Viewer.walls s).
Proof. cbn. apply map_geometry. reflexivity. Qed.

Lemma geometry_clearHighlight s :
  map Wall.geometry (Viewer.walls (Viewer.clearHighlight s))
  = map Wall.geometry (Viewer.walls s).
Proof. cbn. apply map_geometry. ViewerFacts.flag_cases. Qed.

Lemma geometry_selectWall i s :
  map Wall.geometry (Viewer.walls (Viewer.selectWall i s))
  = map Wall.geometry (Viewer.walls s).
Proof.
  cbn. rewrite map_geometry; [apply map_geometry; reflexivity|].
  ViewerFacts.flag_cases.
Qed.

(** C5 fails as stated.  The mapper yields no point only in the 3D view,
    and there a pointer-down is not ignored: with the two walls seen in 3D
    and wall_1 selected, a click whose pick ray misses the plane and meets
    wall_0 selects wall_0, deselects wall_1 and clears the highlight of
    wall_0. *)
Lemma unmapped_pointer_down_selects :
  Viewer.getIntersectionPoint perspectiveView parallelPick = None
  /\ Viewer.selectedWall perspectiveView = Some "wall_1"%string
  /\ map (fun w => (Wall.id w, Wall.isSelected w, Wall.isHighlighted w))
       (Viewer.walls perspectiveView)
     = [("wall_0"%string, false, true); ("wall_1"%string, true, false)]
  /\ Viewer.onMouseDown leftClick parallelPick perspectiveView
     = Viewer.Ok (Viewer.selectWall "wall_0" perspectiveView)
  /\ Viewer.selectedWall (Viewer.selectWall "wall_0" perspectiveView)
     = Some "wall_0"%string
  /\ map (fun w => (Wall.id w, Wall.isSelected w, Wall.isHighlighted w))
       (Viewer.walls (Viewer.selectWall "wall_0" perspectiveView))
     = [("wall_0"%string, true, false); ("wall_1"%string, false, false)].
Proof. vm_compute. repeat split. Qed.

(** C5, as the code has it.  In the 2D view [getIntersectionPoint] always
    yields a point, so the two guards [if (!intersection) return] are never
    taken.  It yields none only in the 3D view, for a pick ray that misses
    the plane.  For such an event a pointer-move changes nothing at all;
    a pointer-down completes without error and selects the wall under the
    pointer, or clears selection and highlight when there is none: it adds
    and removes no wall, keeps every wall's id, end points, angle and
    length, the id counter, the view and the whole interaction state (mode,
    gesture flag, anchor, preview line, scene previews), and writes only
    the flags and [selectedWall]. *)
Theorem unmapped_pointer_event_only_selects
    (e : MouseEvent) (p : Pick) (s : Viewer.t) :
  (Viewer.is2D s = true -> exists q, Viewer.getIntersectionPoint s p = Some q)
  /\ (Viewer.getIntersectionPoint s p = None ->
      Viewer.is2D s = false
      /\ planeHit p = None
      /\ Viewer.onMouseMove p s = s
      /\ exists s',
           Viewer.onMouseDown e p s = Viewer.Ok s'
           /\ s' = match wallHits p with
                   | wallId :: _ => Viewer.selectWall wallId s
                   | [] => Viewer.clearWallStates s
                   end
           /\ gesture s' = gesture s
           /\ map Wall.geometry (Viewer.walls s') = map Wall.geometry (Viewer.walls s)
           /\ Viewer.wallCounter s' = Viewer.wallCounter s
           /\ Viewer.is2D s' = false
           /\ Viewer.camera2D s' = Viewer.camera2D s).
Proof.
  unfold Viewer.getIntersectionPoint. split.
  - intros ->. eauto.
  - destruct (Viewer.is2D s) eqn:V; [discriminate|]. intro H.
    split; [reflexivity|]. split; [exact H|]. split.
    + unfold Viewer.onMouseMove, Viewer.onMouseMoveAt. rewrite V. cbv zeta.
      rewrite V. reflexivity.
    + unfold Viewer.onMouseDown, Viewer.onMouseDownAt. rewrite V. cbn [negb].
      destruct (wallHits p) as [|i r]; eexists; (split; [reflexivity|]);
        (split; [reflexivity|]);
        repeat split; auto using geometry_clearWallStates, geometry_selectWall.
Qed.

Lemma unmapped_pointer_event_only_selects_witness :
  Viewer.getIntersectionPoint perspectiveView parallelPick = None
  /\ Viewer.onMouseMove parallelPick perspectiveView = perspectiveView
  /\ (exists s',
         Viewer.onMouseDown leftClick parallelPick perspectiveView = Viewer.Ok s'
         /\ gesture s' = gesture perspectiveView
         /\ map Wall.geometry (Viewer.walls s')
            = map Wall.geometry (Viewer.walls perspectiveView)).
Proof.
  assert (N : Viewer.getIntersectionPoint perspectiveView parallelPick = None)
    by reflexivity.
  split; [exact N|].
  destruct (proj2 (unmapped_pointer_event_only_selects leftClick parallelPick
                     perspectiveView) N)
    as (_ & _ & M & s' & E & _ & G & W & _).
  split; [exact M|]. exists s'. auto.
Defined.

(** C6. In a reachable viewer that is in drawing mode with a gesture in
    progress, [toggleDrawingMode] leaves selection mode with no preview
    line, no preview left in the 2D scene, the former preview disposed, no
    anchor, the gesture flag down, and the registry as it was. *)
Theorem leaving_drawing_mode_cancels_gesture (s : Viewer.t) :
  Viewer.reachable s ->
  Viewer.isDrawingMode s = true ->
  Viewer.isDrawing s = true ->
  let s' := Viewer.toggleDrawingMode s in
  Viewer.isDrawingMode s' = false
  /\ Viewer.previewLine s' = None
  /\ Viewer.scene2D s' = []
  /\ (forall line, Viewer.previewLine s = Some line ->
        In (objectId line) (Viewer.disposed s'))
  /\ Viewer.startPoint s' = None
  /\ Viewer.isDrawing s' = false
  /\ Viewer.walls s' = Viewer.walls s
  /\ Viewer.wallCounter s' = Viewer.wallCounter s.
Proof.
  intros R M _. cbv zeta.
  destruct (ViewerFacts.reachable_gesture s R) as [_ _ Hs].
  unfold Viewer.toggleDrawingMode. rewrite M. cbn.
  unfold Viewer.cleanupDrawing, Viewer.removePreviewLine. cbn.
  destruct (Viewer.previewLine s) as [line|] eqn:P; cbn.
  - rewrite Hs. rewrite ViewerFacts.remove_only.
    repeat split; auto. intros l E. left. congruence.
  - rewrite Hs. repeat split; auto. intros l E. discriminate E.
Qed.

Lemma leaving_drawing_mode_cancels_gesture_witness :
  Viewer.previewLine midGesture
  = Some (Build_Line 0 (Vector3.new 1 2 0) (Vector3.new 5 2 0))
  /\ Viewer.scene2D midGesture = [0]
  /\ Viewer.previewLine (Viewer.toggleDrawingMode midGesture) = None
  /\ Viewer.scene2D (Viewer.toggleDrawingMode midGesture) = []
  /\ Viewer.disposed (Viewer.toggleDrawingMode midGesture) = [0].
Proof.
  pose proof (leaving_drawing_mode_cancels_gesture midGesture
                (ViewerFacts.reachable_run _ _ (Viewer.reachable_create 800 600))
                eq_refl eq_refl) as H.
  cbv zeta in H. destruct H as (_ & P & S & _).
  split; [vm_compute; reflexivity|].
  split; [vm_compute; reflexivity|].
  split; [exact P|].
  split; [exact S|].
  vm_compute; reflexivity.
Defined.




Lemma walls_zoomExtend (s : Viewer.t) : Viewer.walls (Viewer.zoomExtend s) = Viewer.walls s.
Proof.
  destruct (ViewerFacts.zoomExtend_frame s) as [-> | (c & tg & ->)]; reflexivity.
Qed.

Lemma walls_deleteSelectedWalls (s : Viewer.t) :
  Viewer.walls (Viewer.deleteSelectedWalls s)
  = map unflag (filter (fun w => negb (Wall.isSelected w)) (Viewer.walls s)).
Proof. unfold Viewer.deleteSelectedWalls. rewrite walls_zoomExtend. reflexivity. Qed.

Lemma walls_selectWall (i : string) (s : Viewer.t) :
  Viewer.walls (Viewer.selectWall i s)
  = map (fun w => Wall.set_selected (Wall.id w =? i)%string w) (map unflag (Viewer.walls s)).
Proof.
  cbn. apply map_ext. intro w. destruct (Wall.id w =? i)%string; reflexivity.
Qed.

Lemma unflag_select_unflag (i : string) (ws : list Wall.t) :
  map unflag
    (filter (fun w => negb (Wall.isSelected w))
       (map (fun w => Wall.set_selected (Wall.id w =? i)%string w) (map unflag ws)))
  = map unflag (filter (fun w => negb (Wall.id w =? i)%string) ws).
Proof.
  induction ws as [|w ws IH]; simpl; [reflexivity|].
  unfold Wall.isSelected at 1. simpl.
  destruct (Wall.id w =? i)%string; simpl; [exact IH | f_equal; exact IH].
Qed.

Lemma filter_other_ids (i : string) (ws : list Wall.t) :
  ~ In i (map Wall.id ws) ->
  filter (fun w => negb (Wall.id w =? i)%string) ws = ws.
Proof.
  induction ws as [|w ws IH]; simpl; intro H; [reflexivity|].
  destruct (Wall.id w =? i)%string eqn:E.
  - apply String.eqb_eq in E. exfalso. apply H. now left.
  - simpl. f_equal. apply IH. intro. apply H. now right.
Qed.

Lemma selectThenDelete_absent (i : string) (s : Viewer.t) :
  ~ In i (map Wall.id (Viewer.walls s)) ->
  Viewer.walls (selectThenDelete i s) = map unflag (Viewer.walls s).
Proof.
  intro H. unfold selectThenDelete.
  rewrite walls_deleteSelectedWalls, walls_selectWall, unflag_select_unflag.
  now rewrite filter_other_ids.
Qed.

Lemma map_unflag_geometry (ws : list Wall.t) :
  map Wall.geometry (map unflag ws) = map Wall.geometry ws.
Proof. apply map_geometry. reflexivity. Qed.

(** C8, as the code has it.  The viewer has no [removeWall]; a wall is
    removed by selecting it and deleting the selection.  In a reachable
    viewer, [addWall(A, B)] followed by that removal of the returned id
    gives back the former walls in their order, with the same ids, end
    points, angles and lengths, and with both flags of every wall cleared;
    removing an id that is not in the registry removes nothing and clears
    the flags likewise. *)
Theorem add_then_remove_restores_walls_unflagged (s : Viewer.t) :
  Viewer.reachable s ->
  forall a b : Vector3.t,
    let w := fst (Viewer.addWall a b s) in
    let s' := selectThenDelete (Wall.id w) (snd (Viewer.addWall a b s)) in
    Viewer.walls s' = map unflag (Viewer.walls s)
    /\ List.length (Viewer.walls s') = List.length (Viewer.walls s)
    /\ map Wall.geometry (Viewer.walls s') = map Wall.geometry (Viewer.walls s)
    /\ (forall id, ~ In id (map Wall.id (Viewer.walls s)) ->
          Viewer.walls (selectThenDelete id s) = map unflag (Viewer.walls s)).
Proof.
  intros R a b. cbv zeta.
  assert (E : Viewer.walls
                (selectThenDelete (Wall.id (fst (Viewer.addWall a b s)))
                   (snd (Viewer.addWall a b s)))
              = map unflag (Viewer.walls s)).
  { unfold selectThenDelete.
    rewrite walls_deleteSelectedWalls, walls_selectWall, unflag_select_unflag.
    rewrite addWall_appends, filter_app. simpl. rewrite String.eqb_refl. simpl.
    rewrite app_nil_r, filter_other_ids; [reflexivity|].
    exact (proj2 (viewer_ids_distinct s R) a b). }
  rewrite E. repeat split.
  - apply length_map.
  - apply map_unflag_geometry.
  - intros id. apply selectThenDelete_absent.
Qed.

Lemma add_then_remove_restores_walls_unflagged_witness :
  map Wall.id
    (Viewer.walls
       (selectThenDelete "wall_2"
          (snd (Viewer.addWall (Vector3.new 0 0 0) (Vector3.new 1 0 0) twoWalls))))
  = ["wall_0"; "wall_1"]%string
  /\ Viewer.walls (selectThenDelete "door" twoWalls) = map unflag (Viewer.walls twoWalls).
Proof.
  destruct (add_then_remove_restores_walls_unflagged twoWalls
              (ViewerFacts.reachable_run _ _ (Viewer.reachable_create 800 600))
              (Vector3.new 0 0 0) (Vector3.new 1 0 0)) as (E & _ & _ & A).
  split.
  - change (Wall.id (fst (Viewer.addWall (Vector3.new 0 0 0) (Vector3.new 1 0 0) twoWalls)))
      with "wall_2"%string in E.
    rewrite E. vm_compute. reflexivity.
  - apply A. vm_compute. intros [H | [H | []]]; discriminate H.
Defined.

(** C8 fails as stated: with wall_1 selected and wall_0 highlighted, adding
    a wall and removing it again leaves the two former walls with both
    flags cleared, and so does removing an id that is not in the
    registry. *)
Lemma add_then_remove_clears_flags :
  map Wall.selected (Viewer.walls twoWalls) = [Some false; Some true]
  /\ map Wall.highlighted (Viewer.walls twoWalls) = [Some true; Some false]
  /\ Wall.id (fst (Viewer.addWall (Vector3.new 0 0 0) (Vector3.new 1 0 0) twoWalls))
     = "wall_2"%string
  /\ map Wall.selected
       (Viewer.walls
          (selectThenDelete "wall_2"
             (snd (Viewer.addWall (Vector3.new 0 0 0) (Vector3.new 1 0 0) twoWalls))))
     = [Some false; Some false]
  /\ map Wall.highlighted
       (Viewer.walls
          (selectThenDelete "wall_2"
             (snd (Viewer.addWall (Vector3.new 0 0 0) (Vector3.new 1 0 0) twoWalls))))
     = [Some false; Some false]
  /\ map Wall.selected (Viewer.walls (selectThenDelete "door" twoWalls))
     = [Some false; Some false].
Proof. vm_compute. repeat split. Qed.

(** C9, where the code departs from it.  With one wall from (100,0) to
    (110,0) in an 800 x 400 viewport, [zoomExtend] pads the bounding box to
    [99,111] x [0,0] and gives the frustum those bounds (12 wide, 6 high,
    the viewport's 2:1), but it also moves the camera to x = 105, the box's
    centre.  The frustum bounds are offsets from the camera, so the window
    of a camera with these left and right planes, this zoom and this x
    begins at x = 204: wherever it stands in y and z and whatever its top
    and bottom planes are, it draws no point above or below the wall's ends
    or its middle.  For the empty registry the box is the padded default
    extent [-60,60] x [-60,60], centred on the origin, and the frustum is
    240 x 120 around it. *)
Theorem zoomExtend_off_centre_misses_the_walls :
  Viewer.targetBox offCentre = Box2.new (Vector2.new 99 0) (Vector2.new 111 0)
  /\ OrthographicCamera.left (Viewer.camera2D offCentre) = 99%float
  /\ OrthographicCamera.right (Viewer.camera2D offCentre) = 111%float
  /\ OrthographicCamera.top (Viewer.camera2D offCentre) = 3%float
  /\ OrthographicCamera.bottom (Viewer.camera2D offCentre) = (-3)%float
  /\ OrthographicCamera.zoom (Viewer.camera2D offCentre) = 1%float
  /\ Vector3.x (OrthographicCamera.position (Viewer.camera2D offCentre)) = 105%float
  /\ (forall (c : OrthographicCamera.t) (y : float),
        OrthographicCamera.left c = OrthographicCamera.left (Viewer.camera2D offCentre) ->
        OrthographicCamera.right c
        = OrthographicCamera.right (Viewer.camera2D offCentre) ->
        OrthographicCamera.zoom c = OrthographicCamera.zoom (Viewer.camera2D offCentre) ->
        Vector3.x (OrthographicCamera.position c)
        = Vector3.x (OrthographicCamera.position (Viewer.camera2D offCentre)) ->
        OrthographicCamera.shows c (Vector2.new 100 y) = false
        /\ OrthographicCamera.shows c (Vector2.new 105 y) = false
        /\ OrthographicCamera.shows c (Vector2.new 110 y) = false)
  /\ Viewer.targetBox (Viewer.create 800 400)
     = Box2.new (Vector2.new (-60) (-60)) (Vector2.new 60 60)
  /\ OrthographicCamera.left (Viewer.camera2D (Viewer.create 800 400)) = (-120)%float
  /\ OrthographicCamera.right (Viewer.camera2D (Viewer.create 800 400)) = 120%float
  /\ OrthographicCamera.top (Viewer.camera2D (Viewer.create 800 400)) = 60%float
  /\ OrthographicCamera.bottom (Viewer.camera2D (Viewer.create 800 400)) = (-60)%float.
Proof.
  assert (L : OrthographicCamera.left (Viewer.camera2D offCentre) = 99%float)
    by (vm_compute; reflexivity).
  assert (R : OrthographicCamera.right (Viewer.camera2D offCentre) = 111%float)
    by (vm_compute; reflexivity).
  assert (Z : OrthographicCamera.zoom (Viewer.camera2D offCentre) = 1%float)
    by (vm_compute; reflexivity).
  assert (X : Vector3.x (OrthographicCamera.position (Viewer.camera2D offCentre))
              = 105%float) by (vm_compute; reflexivity).
  split; [vm_compute; reflexivity|]. split; [exact L|]. split; [exact R|].
  split; [vm_compute; reflexivity|]. split; [vm_compute; reflexivity|].
  split; [exact Z|]. split; [exact X|]. split.
  - intros c y. rewrite L, R, Z, X. intros El Er Ez Ex.
    unfold OrthographicCamera.shows, OrthographicCamera.planeLeft,
      OrthographicCamera.planeRight.
    rewrite El, Er, Ez, Ex. cbv zeta.
    repeat split; vm_compute; reflexivity.
  - repeat split; vm_compute; reflexivity.
Qed.

Lemma highlightWall_flags (i : string) (s : Viewer.t) (w : Wall.t) :
  In w (Viewer.walls (Viewer.highlightWall i s)) ->
  Wall.isHighlighted w = (Wall.id w =? i)%string.
Proof.
  cbn. intro H. apply in_map_iff in H. destruct H as (v & <- & _).
  rewrite ViewerFacts.highlight_flag.
  destruct (Wall.id v =? i)%string eqn:E, (Wall.isHighlighted v); cbn; rewrite ?E; reflexivity.
Qed.

(** C10. In every state the viewer can reach at most one wall is
    highlighted; after [highlightWall id] the highlighted walls are exactly
    those whose id is [id]; a wall just added is not highlighted; and the
    document variant keeps the highlighted wall in a single field. *)
Theorem at_most_one_wall_highlighted (s : Viewer.t) :
  Viewer.reachable s ->
  countHighlighted (Viewer.walls s) <= 1
  /\ (forall ev s', Viewer.handle ev s = Viewer.Ok s' ->
        countHighlighted (Viewer.walls s') <= 1)
  /\ (forall id w, In w (Viewer.walls (Viewer.highlightWall id s)) ->
        Wall.isHighlighted w = (Wall.id w =? id)%string)
  /\ (forall a b, Wall.highlighted (fst (Viewer.addWall a b s)) = Some false)
  /\ (forall id d,
        Document2D.highlightedWall (Document2D.highlightWall id d) = Some id
        /\ Document2D.highlightedWall (Document2D.clearHighlight d) = None).
Proof.
  intro R. split; [|split; [|split; [|split]]].
  - exact (ok_highlighted (ViewerFacts.reachable_registry s R)).
  - intros ev s' E.
    exact (ok_highlighted (ViewerFacts.reachable_registry s'
             (Viewer.reachable_handle ev s s' R E))).
  - intros id w. apply highlightWall_flags.
  - reflexivity.
  - intros id d. split; reflexivity.
Qed.

Lemma at_most_one_wall_highlighted_witness :
  countHighlighted (Viewer.walls twoWalls) <= 1
  /\ map Wall.highlighted (Viewer.walls twoWalls) = [Some true; Some false].
Proof.
  split.
  - exact (proj1 (at_most_one_wall_highlighted twoWalls
                    (ViewerFacts.reachable_run _ _ (Viewer.reachable_create 800 600)))).
  - vm_compute. reflexivity.
Defined.

(* ------------------------------------------------------------------ *)
(** * Further properties *)

(** ** The viewer: selection, anchor and hover *)

Module ViewerMore.
Import Viewer ViewerFacts.

(** *** [selectedWall] bookkeeping *)

Lemma selection_inv_same (s s' : t) :
  selview (walls s') = selview (walls s) -> selectedWall s' = selectedWall s ->
  selection_inv s -> selection_inv s'.
Proof.
  unfold selection_inv, selview. intros E1 E2 H i. rewrite E1, E2. apply H.
Qed.

Lemma selview_map (g : Wall.t -> Wall.t) (ws : list Wall.t) :
  (forall w, Wall.id (g w) = Wall.id w /\ Wall.isSelected (g w) = Wall.isSelected w) ->
  selview (map g ws) = selview ws.
Proof.
  intro H. unfold selview. rewrite map_map. apply map_ext. intro w.
  destruct (H w) as (-> & ->). reflexivity.
Qed.

Lemma selview_cleared (g : Wall.t -> Wall.t) (ws : list Wall.t) (i : string) :
  (forall w, Wall.isSelected (g w) = false) -> ~ In (i, true) (selview (map g ws)).
Proof.
  intros H Hin. unfold selview in Hin. rewrite map_map in Hin.
  apply in_map_iff in Hin. destruct Hin as (w & E & _).
  injection E as _ E. rewrite H in E. discriminate.
Qed.

Lemma selection_clearWallStates s : selection_inv (clearWallStates s).
Proof.
  intro i. split.
  - intro H. exfalso. revert H. cbn. apply selview_cleared. reflexivity.
  - cbn. discriminate.
Qed.

Lemma selview_selectWall i s :
  selview (walls (selectWall i s))
  = map (fun w => (Wall.id w, (Wall.id w =? i)%string)) (walls s).
Proof.
  cbn. unfold selview. rewrite !map_map. apply map_ext. intro w. cbn.
  destruct (Wall.id w =? i)%string; reflexivity.
Qed.

Lemma existsb_selectWall i s :
  existsb (fun wall => (Wall.id wall =? i)%string) (walls (clearWallStates s))
  = existsb (fun wall => (Wall.id wall =? i)%string) (walls s).
Proof.
  cbn. induction (walls s) as [|w ws IH]; cbn; [reflexivity | now rewrite IH].
Qed.

Lemma selection_selectWall i s : selection_inv (selectWall i s).
Proof.
  intro j. fold (selview (walls (selectWall i s))). rewrite selview_selectWall.
  assert (S : selectedWall (selectWall i s)
              = if existsb (fun wall => (Wall.id wall =? i)%string) (walls s)
                then Some i else None).
  { change (selectedWall (selectWall i s))
      with (if existsb (fun wall => (Wall.id wall =? i)%string)
                  (walls (clearWallStates s))
            then Some i else None).
    now rewrite existsb_selectWall. }
  rewrite S. split.
  - intro H. apply in_map_iff in H. destruct H as (w & E & Hin).
    assert (Ej : Wall.id w = j) by congruence.
    assert (Ei : (Wall.id w =? i)%string = true) by congruence.
    replace (existsb _ _) with true.
    + apply String.eqb_eq in Ei. congruence.
    + symmetry. apply existsb_exists. exists w. auto.
  - destruct (existsb _ _) eqn:X; [|discriminate].
    intro E. assert (i = j) by congruence. subst j.
    apply existsb_exists in X. destruct X as (w & Hin & Ei).
    apply in_map_iff. exists w. split; [|exact Hin].
    rewrite Ei. apply String.eqb_eq in Ei. now rewrite Ei.
Qed.

Lemma selview_unhighlightFirst i ws : selview (unhighlightFirst i ws) = selview ws.
Proof.
  unfold selview. induction ws as [|w ws IH]; cbn; [reflexivity|].
  destruct (Wall.id w =? i)%string; cbn; [reflexivity | now f_equal].
Qed.

Lemma selection_zoomExtend s : selection_inv s -> selection_inv (zoomExtend s).
Proof.
  destruct (zoomExtend_frame s) as [-> | (c & tg & ->)]; [auto|].
  now apply selection_inv_same.
Qed.

Lemma selection_addWall a b s : selection_inv s -> selection_inv (snd (addWall a b s)).
Proof.
  intros H i. cbn. rewrite map_app, in_app_iff. cbn. rewrite <- (H i).
  split; [intros [X | [X | []]]; [exact X | discriminate X] | auto].
Qed.

Lemma selection_removePreviewLine s :
  selection_inv s -> selection_inv (removePreviewLine s).
Proof.
  unfold removePreviewLine. destruct (previewLine s); [|auto].
  now apply selection_inv_same.
Qed.

Lemma selection_handle ev s s' :
  selection_inv s -> handle ev s = Ok s' -> selection_inv s'.
Proof.
  intros H E. destruct ev; cbn [handle] in E;
    unfold onMouseDown, onMouseDownAt, onMouseMove, onMouseMoveAt, onMouseUp,
      onWallListItemMouseOver, onWallListItemMouseOut, onWallListItemClick,
      toggleDrawingMode, cleanupDrawing, setView, onWindowResize,
      orbitControlsChange, clearAllWalls, deleteSelectedWalls in E;
    split_handler;
    repeat first
      [ assumption
      | apply selection_clearWallStates
      | apply selection_selectWall
      | apply selection_addWall
      | apply selection_zoomExtend
      | apply selection_removePreviewLine
      | match goal with
        | |- selection_inv (set_walls (unhighlightFirst _ _) _) =>
            eapply selection_inv_same; [apply selview_unhighlightFirst | reflexivity | ]
        | |- selection_inv (highlightWall _ _) =>
            eapply selection_inv_same;
            [cbn; apply selview_map; intro; flag_cases | reflexivity | ]
        | |- selection_inv (clearHighlight _) =>
            eapply selection_inv_same;
            [cbn; apply selview_map; intro; flag_cases | reflexivity | ]
        | |- selection_inv (?f _ ?x) =>
            apply (selection_inv_same x); [reflexivity | reflexivity | ]
        | |- selection_inv (?f _ _ ?x) =>
            apply (selection_inv_same x); [reflexivity | reflexivity | ]
        end ].
Qed.

Lemma selection_create w h : selection_inv (create w h).
Proof.
  unfold create. apply selection_zoomExtend. intro i. cbn. split; [tauto | discriminate].
Qed.

Lemma reachable_selection s : reachable s -> selection_inv s.
Proof. induction 1; eauto using selection_create, selection_handle. Qed.

End ViewerMore.

Module ViewerMore2.
Import Viewer ViewerFacts ViewerMore.

(** *** The preview stays anchored *)

Lemma planar_getIntersectionPoint s p :
  is2D s = true -> planar (getIntersectionPoint s p).
Proof.
  intros V q. unfold getIntersectionPoint. rewrite V. intro E.
  injection E as <-. reflexivity.
Qed.

Lemma fromPoint_planar (q : Vector3.t) :
  Vector3.z q = 0%float -> Vector3.z (BufferGeometry.fromPoint q) = 0%float.
Proof. unfold BufferGeometry.fromPoint. cbn [Vector3.z]. now intros ->. Qed.

Lemma written_planar (q : Vector3.t) :
  Vector3.z q = 0%float -> Vector3.z (BufferGeometry.written q) = 0%float.
Proof. unfold BufferGeometry.written. cbn [Vector3.z]. now intros ->. Qed.

Lemma anchored_same (s s' : t) :
  gesture s' = gesture s -> anchored_inv s -> anchored_inv s'.
Proof.
  intro G. apply gesture_fields in G. destruct G as (_ & E1 & E2 & E3 & _).
  unfold anchored_inv. now rewrite E1, E2, E3.
Qed.

Lemma anchored_idle s : isDrawing s = false -> anchored_inv s.
Proof. unfold anchored_inv. intros -> H. discriminate H. Qed.

Lemma anchored_toggleDrawingMode s : anchored_inv s -> anchored_inv (toggleDrawingMode s).
Proof.
  intro H. unfold toggleDrawingMode.
  match goal with |- context [if ?c then _ else _] => destruct c end.
  - apply anchored_idle. reflexivity.
  - exact H.
Qed.

Lemma anchored_commit (shift : bool) q s :
  Vector3.z q = 0%float ->
  anchored_inv
    (if shift then addPreviewLine q q (set_startPoint (Some q) s)
     else set_startPoint None (set_isDrawing false s)).
Proof.
  intro Z. destruct shift.
  - intros _.
    exists (Build_Line (nextObjectId s) (BufferGeometry.fromPoint q)
              (BufferGeometry.fromPoint q)), q.
    split; [reflexivity|]. split; [reflexivity|]. split; [assumption|].
    split; [reflexivity|]. split; now apply fromPoint_planar.
  - apply anchored_idle. reflexivity.
Qed.

Lemma anchored_onMouseDownAt pt e p s s' :
  (is2D s = true -> planar pt) ->
  anchored_inv s -> onMouseDownAt pt e p s = Ok s' -> anchored_inv s'.
Proof.
  intros Z H E. unfold onMouseDownAt in E.
  destruct (is2D s); cbn [negb] in E.
  - specialize (Z eq_refl). destruct (isDrawingMode s).
    + destruct (negb (button e =? 0)%Z); [apply Ok_inj in E; now subst|].
      destruct pt as [q|]; [|apply Ok_inj in E; now subst].
      specialize (Z q eq_refl).
      destruct (isDrawing s) eqn:D; cbn [negb] in E.
      * destruct (startPoint s) as [a|]; [|discriminate].
        pose proof (anchored_commit (shiftKey e) q
                      (removePreviewLine (snd (addWall a q s))) Z) as G.
        destruct (shiftKey e); apply Ok_inj in E; subst; exact G.
      * apply Ok_inj in E. subst. intros _.
        exists (Build_Line (nextObjectId s) (BufferGeometry.fromPoint q)
                  (BufferGeometry.fromPoint q)), q.
        split; [reflexivity|]. split; [reflexivity|]. split; [assumption|].
        split; [reflexivity|]. split; now apply fromPoint_planar.
    + destruct (button e =? 0)%Z; [|apply Ok_inj in E; now subst].
      destruct (wallHits p); apply Ok_inj in E; subst; revert H;
        apply anchored_same; reflexivity.
  - destruct (wallHits p); apply Ok_inj in E; subst; revert H;
      apply anchored_same; reflexivity.
Qed.

Lemma anchored_dragPreview (pt : option Vector3.t) s :
  (is2D s = true -> planar pt) ->
  anchored_inv s ->
  anchored_inv
    (if (is2D s && isDrawingMode s && isDrawing s)%bool then
       match startPoint s, previewLine s with
       | Some _, Some line =>
           match pt with
           | Some q =>
               set_previewLine
                 (Some (Build_Line (objectId line) (from line)
                          (BufferGeometry.written q))) s
           | None => s
           end
       | _, _ => s
       end
     else s).
Proof.
  intros Z H.
  destruct (is2D s); cbn [andb]; [|assumption]. specialize (Z eq_refl).
  destruct (isDrawingMode s); cbn [andb]; [|assumption].
  destruct (isDrawing s) eqn:D; [|assumption].
  destruct (H D) as (line & a & P & A & Za & F & Zf & Zt).
  rewrite A, P. destruct pt as [q|].
  - intros _.
    exists (Build_Line (objectId line) (from line) (BufferGeometry.written q)), a.
    split; [reflexivity|]. split; [exact A|]. split; [assumption|].
    split; [exact F|]. split; [exact Zf|]. apply written_planar. now apply Z.
  - intros _. exists line, a. auto 10.
Qed.

Lemma anchored_onMouseMoveAt pt p s :
  (is2D s = true -> planar pt) ->
  anchored_inv s -> anchored_inv (onMouseMoveAt pt p s).
Proof.
  intros Z H. unfold onMouseMoveAt. cbv zeta.
  match goal with
  | |- anchored_inv (if (is2D ?x && _ && _)%bool then _ else _) =>
      assert (V : is2D x = is2D s);
      [ | assert (H1 : anchored_inv x);
          [ | apply anchored_dragPreview; [rewrite V; exact Z | exact H1] ] ]
  end.
  - destruct (is2D s) eqn:V0; [|exact V0].
    destruct (wallHits p); [destruct (negb (isDrawing s))|]; exact V0.
  - destruct (is2D s); [|assumption].
    destruct (wallHits p); [destruct (negb (isDrawing s)); [|assumption]|];
      revert H; apply anchored_same; reflexivity.
Qed.

Lemma anchored_handle ev s s' :
  anchored_inv s -> handle ev s = Ok s' -> anchored_inv s'.
Proof.
  intros H E. destruct ev; cbn [handle] in E;
    try (apply Ok_inj in E; subst s');
    try (revert H; apply anchored_same;
         first [ reflexivity | apply gesture_zoomExtend | apply gesture_clearAllWalls
               | apply gesture_deleteSelectedWalls ]).
  - now apply anchored_toggleDrawingMode.
  - unfold onMouseDown in E. eapply anchored_onMouseDownAt; [|exact H|exact E].
    intro V. now apply planar_getIntersectionPoint.
  - unfold onMouseMove. apply anchored_onMouseMoveAt; [|exact H].
    intro V. now apply planar_getIntersectionPoint.
  - unfold onWallListItemMouseOver. destruct (listItemWallId target);
      [revert H; apply anchored_same; reflexivity | assumption].
  - unfold onWallListItemMouseOut in E. split_handler; try assumption;
      revert H; apply anchored_same; reflexivity.
  - unfold onWallListItemClick. destruct (listItemWallId target);
      [revert H; apply anchored_same; reflexivity | assumption].
Qed.

Lemma anchored_create w h : anchored_inv (create w h).
Proof.
  unfold create. eapply anchored_same; [apply gesture_zoomExtend|].
  apply anchored_idle. reflexivity.
Qed.

Lemma reachable_anchored s : reachable s -> anchored_inv s.
Proof. induction 1; eauto using anchored_create, anchored_handle. Qed.

(** *** The id counter never goes back *)

Lemma wallCounter_zoomExtend s : wallCounter (zoomExtend s) = wallCounter s.
Proof. destruct (zoomExtend_frame s) as [-> | (c & tg & ->)]; reflexivity. Qed.

Lemma wallCounter_removePreviewLine s : wallCounter (removePreviewLine s) = wallCounter s.
Proof. unfold removePreviewLine. destruct (previewLine s); reflexivity. Qed.

Lemma wallCounter_handle ev s s' :
  handle ev s = Ok s' -> wallCounter s <= wallCounter s'.
Proof.
  intro E. destruct ev; cbn [handle] in E;
    unfold onMouseDown, onMouseDownAt, onMouseMove, onMouseMoveAt, onMouseUp,
      onWallListItemMouseOver, onWallListItemMouseOut, onWallListItemClick,
      toggleDrawingMode, cleanupDrawing, setView, onWindowResize,
      orbitControlsChange, clearAllWalls, deleteSelectedWalls in E;
    split_handler; cbn;
    rewrite ?wallCounter_zoomExtend; cbn;
    rewrite ?wallCounter_removePreviewLine; cbn; lia.
Qed.

Lemma wallCounter_run evs s : wallCounter s <= wallCounter (run evs s).
Proof.
  unfold run. revert s. induction evs as [|ev evs IH]; intro s; cbn; [lia|].
  destruct (handle ev s) eqn:E.
  - apply wallCounter_handle in E. specialize (IH st). lia.
  - apply IH.
Qed.

End ViewerMore2.

(** X1. In a reachable viewer [onMouseDown] never throws: whenever the
    second click reads [this.startPoint!], the anchor is there. *)
Theorem pointer_down_never_throws (s : Viewer.t) :
  Viewer.reachable s ->
  forall (e : MouseEvent) (p : Pick), exists s', Viewer.onMouseDown e p s = Viewer.Ok s'.
Proof.
  intros R e p. destruct (ViewerFacts.reachable_gesture s R) as [_ Hd _].
  unfold Viewer.onMouseDown, Viewer.onMouseDownAt.
  repeat match goal with
         | |- exists s', Viewer.Ok _ = Viewer.Ok s' => eexists; reflexivity
         | |- context [match Viewer.startPoint s with _ => _ end] =>
             destruct (Viewer.isDrawing s) eqn:D;
             [destruct (Hd eq_refl) as (a & ->) | ]; cbn [negb]
         | |- context [if ?c then _ else _] => destruct c eqn:?
         | |- context [match ?c with _ => _ end] => destruct c eqn:?
         end.
Qed.

Lemma pointer_down_never_throws_witness :
  exists s', Viewer.onMouseDown shiftLeftClick (pickAt 5 2) midGesture = Viewer.Ok s'.
Proof.
  exact (pointer_down_never_throws midGesture
           (ViewerFacts.reachable_run _ _ (Viewer.reachable_create 800 600))
           shiftLeftClick (pickAt 5 2)).
Defined.

(** Outside the reachable states the assertion can fail: a viewer marked
    as drawing without an anchor throws on the next click. *)
Example pointer_down_throws_without_anchor :
  Viewer.onMouseDown leftClick (pickAt 0 0)
    (Viewer.set_isDrawing true (Viewer.create 800 600)) = Viewer.TypeError.
Proof. vm_compute. reflexivity. Qed.

Lemma NoDup_map_inj {A B : Type} (f : A -> B) (l : list A) (a b : A) :
  NoDup (map f l) -> In a l -> In b l -> f a = f b -> a = b.
Proof.
  induction l as [|x l IH]; cbn; intros H Ha Hb E; [contradiction|].
  inversion H as [|? ? Hnotin Hnd]; subst.
  destruct Ha as [<- | Ha], Hb as [<- | Hb]; auto.
  - exfalso. apply Hnotin. rewrite E. now apply in_map.
  - exfalso. apply Hnotin. rewrite <- E. now apply in_map.
Qed.

Lemma find_id_none (i : string) (ws : list Wall.t) :
  find (fun wall => (Wall.id wall =? i)%string) ws = None <-> ~ In i (map Wall.id ws).
Proof.
  induction ws as [|w ws IH]; cbn; [tauto|].
  destruct (Wall.id w =? i)%string eqn:E.
  - apply String.eqb_eq in E. split; [discriminate | intro H; exfalso; apply H; now left].
  - apply String.eqb_neq in E. rewrite IH. tauto.
Qed.

Lemma unhighlightFirst_unique (i : string) (ws : list Wall.t) :
  NoDup (map Wall.id ws) ->
  Viewer.unhighlightFirst i ws
  = map (fun w => if (Wall.id w =? i)%string then Wall.set_highlighted false w else w) ws.
Proof.
  induction ws as [|w ws IH]; cbn; intro H; [reflexivity|].
  inversion H as [|? ? Hnotin Hnd]; subst.
  destruct (Wall.id w =? i)%string eqn:E.
  - f_equal. apply String.eqb_eq in E. subst i.
    clear -Hnotin. induction ws as [|v ws IH]; cbn; [reflexivity|].
    destruct (Wall.id v =? Wall.id w)%string eqn:E.
    + apply String.eqb_eq in E. exfalso. apply Hnotin. cbn. now left.
    + f_equal. apply IH. intro. apply Hnotin. cbn. now right.
  - f_equal. now apply IH.
Qed.

(** X2. Mouse-out on a wall-list item, in a reachable viewer.  For the
    selected wall's item nothing happens.  Otherwise, if the item's wall is
    in the registry, exactly that wall loses its highlight and no other
    field of any wall changes; if it is not (a stale item), the handler
    throws a TypeError. *)
Theorem list_mouse_out_clears_one_highlight_or_throws
    (s : Viewer.t) (target : ListTarget) (id : string) :
  Viewer.reachable s ->
  listItemWallId target = Some id ->
  (Viewer.selectedWall s = Some id ->
     Viewer.onWallListItemMouseOut target s = Viewer.Ok s)
  /\ (Viewer.selectedWall s = None \/
      (exists j, Viewer.selectedWall s = Some j /\ (j =? id)%string = false) ->
      (In id (map Wall.id (Viewer.walls s)) ->
         Viewer.onWallListItemMouseOut target s
         = Viewer.Ok
             (Viewer.set_walls
                (map (fun w => if (Wall.id w =? id)%string
                               then Wall.set_highlighted false w else w)
                     (Viewer.walls s)) s))
      /\ (~ In id (map Wall.id (Viewer.walls s)) ->
          Viewer.onWallListItemMouseOut target s = Viewer.TypeError)).
Proof.
  intros R T. pose proof (ViewerFacts.reachable_registry s R) as K.
  unfold Viewer.onWallListItemMouseOut. rewrite T. split.
  - intros ->. rewrite String.eqb_refl. reflexivity.
  - intro Sel.
    assert (N : match Viewer.selectedWall s with
                | Some sel => (sel =? id)%string
                | None => false
                end = false).
    { destruct Sel as [-> | (j & -> & E)]; [reflexivity | exact E]. }
    rewrite N. cbn [negb]. split.
    + intro Hin.
      destruct (find _ (Viewer.walls s)) eqn:F.
      * rewrite (unhighlightFirst_unique id _ (ok_distinct K)). reflexivity.
      * apply find_id_none in F. contradiction.
    + intro Hout. apply find_id_none in Hout. rewrite Hout. reflexivity.
Qed.

Lemma list_mouse_out_clears_one_highlight_or_throws_witness :
  map Wall.highlighted (Viewer.walls twoWalls) = [Some true; Some false]
  /\ (exists s',
        Viewer.onWallListItemMouseOut (itemOf "wall_0") twoWalls = Viewer.Ok s'
        /\ map Wall.highlighted (Viewer.walls s') = [Some false; Some false])
  /\ Viewer.onWallListItemMouseOut (itemOf "wall_1") twoWalls = Viewer.Ok twoWalls
  /\ Viewer.onWallListItemMouseOut (itemOf "wall_7") twoWalls = Viewer.TypeError.
Proof.
  pose proof (ViewerFacts.reachable_run
                [Viewer.AddWall (Vector3.new 0 0 0) (Vector3.new 3 4 0);
                 Viewer.AddWall (Vector3.new 3 4 0) (Vector3.new 6 0 0);
                 Viewer.SelectWall "wall_0"; Viewer.HighlightWall "wall_0";
                 Viewer.SelectWall "wall_1"; Viewer.HighlightWall "wall_0"]
                _ (Viewer.reachable_create 800 600)) as R.
  fold twoWalls in R.
  split; [vm_compute; reflexivity|].
  split; [|split].
  - destruct (list_mouse_out_clears_one_highlight_or_throws twoWalls (itemOf "wall_0")
                "wall_0" R eq_refl) as (_ & H).
    destruct H as (H & _).
    + right. exists "wall_1"%string. split; reflexivity.
    + eexists. split; [apply H; vm_compute; auto | vm_compute; reflexivity].
  - exact (proj1 (list_mouse_out_clears_one_highlight_or_throws twoWalls
                    (itemOf "wall_1") "wall_1" R eq_refl) eq_refl).
  - destruct (list_mouse_out_clears_one_highlight_or_throws twoWalls (itemOf "wall_7")
                "wall_7" R eq_refl) as (_ & H).
    destruct H as (_ & H).
    + right. exists "wall_1"%string. split; reflexivity.
    + apply H. vm_compute. intros [E | [E | []]]; discriminate E.
Defined.

(** X3. In a reachable viewer [selectedWall] and the [selected] flags agree:
    a selected wall's id is the one [selectedWall] holds, and when
    [selectedWall] holds an id, the registry has exactly one selected wall
    and that is its id. *)
Theorem selectedWall_names_the_selected_wall (s : Viewer.t) :
  Viewer.reachable s ->
  (forall w, In w (Viewer.walls s) -> Wall.isSelected w = true ->
             Viewer.selectedWall s = Some (Wall.id w))
  /\ (forall i, Viewer.selectedWall s = Some i ->
        exists w, In w (Viewer.walls s) /\ Wall.id w = i /\ Wall.isSelected w = true
                  /\ forall w', In w' (Viewer.walls s) ->
                                Wall.isSelected w' = true -> w' = w)
  /\ (Viewer.selectedWall s = None -> countSelected (Viewer.walls s) = 0).
Proof.
  intro R. pose proof (ViewerMore.reachable_selection s R) as H.
  pose proof (ViewerFacts.reachable_registry s R) as K.
  assert (A : forall w, In w (Viewer.walls s) -> Wall.isSelected w = true ->
                        Viewer.selectedWall s = Some (Wall.id w)).
  { intros w Hin S. apply H. apply in_map_iff. exists w. rewrite S. auto. }
  split; [exact A | split].
  - intros i E. apply H in E. apply in_map_iff in E. destruct E as (w & E & Hin).
    assert (Ei : Wall.id w = i) by congruence.
    assert (Es : Wall.isSelected w = true) by congruence.
    exists w. repeat split; auto.
    intros w' Hin' S'. apply (NoDup_map_inj Wall.id (Viewer.walls s)); auto.
    + exact (ok_distinct K).
    + pose proof (A w Hin Es). pose proof (A w' Hin' S'). congruence.
  - intro N. unfold countSelected.
    destruct (filter Wall.isSelected (Viewer.walls s)) as [|w l] eqn:F; [reflexivity|].
    assert (Hin : In w (filter Wall.isSelected (Viewer.walls s))) by (rewrite F; now left).
    apply filter_In in Hin. destruct Hin as (Hin & S).
    rewrite (A w Hin S) in N. discriminate N.
Qed.

Lemma selectedWall_names_the_selected_wall_witness :
  Viewer.selectedWall twoWalls = Some "wall_1"%string
  /\ exists w, In w (Viewer.walls twoWalls) /\ Wall.id w = "wall_1"%string
               /\ Wall.isSelected w = true.
Proof.
  split; [reflexivity|].
  destruct (proj1 (proj2 (selectedWall_names_the_selected_wall twoWalls
              (ViewerFacts.reachable_run _ _ (Viewer.reachable_create 800 600))))
              "wall_1"%string eq_refl) as (w & Hin & Ei & Es & _).
  exists w. auto.
Defined.

(** In a reachable viewer a wall is selected exactly when [selectedWall]
    holds its id. *)
Lemma selected_is_named (s : Viewer.t) (w : Wall.t) :
  Viewer.reachable s -> In w (Viewer.walls s) ->
  Wall.isSelected w
  = match Viewer.selectedWall s with
    | Some i => (Wall.id w =? i)%string
    | None => false
    end.
Proof.
  intros R Hin. pose proof (ViewerMore.reachable_selection s R) as H.
  pose proof (ViewerFacts.reachable_registry s R) as K.
  destruct (Wall.isSelected w) eqn:Sw.
  - assert (E : Viewer.selectedWall s = Some (Wall.id w)).
    { apply H. apply in_map_iff. exists w. rewrite Sw. auto. }
    rewrite E. now rewrite String.eqb_refl.
  - destruct (Viewer.selectedWall s) as [i|] eqn:Sel; [|reflexivity].
    destruct (Wall.id w =? i)%string eqn:Ei; [|reflexivity].
    apply String.eqb_eq in Ei. apply H in Sel. apply in_map_iff in Sel.
    destruct Sel as (v & Ev & Hv).
    assert (w = v).
    { apply (NoDup_map_inj Wall.id (Viewer.walls s)); auto.
      - exact (ok_distinct K).
      - congruence. }
    congruence.
Qed.

(** X4. While a gesture is in progress in a reachable viewer, the anchor
    [startPoint] lies in the plane z = 0 and the preview line exists and is
    the only preview in the 2D scene.  The line's ends are what its
    position attribute, a [Float32Array], holds: its start is the anchor
    rounded to single precision, coordinate by coordinate, and both ends
    have z = 0.  A pointer-move in the 2D drawing mode keeps the line's
    identity and start and puts its far end at the mapped point, rounded
    likewise; the anchor and the walls stay. *)
Theorem preview_is_anchored_at_startPoint (s : Viewer.t) :
  Viewer.reachable s ->
  Viewer.isDrawing s = true ->
  exists line a,
    Viewer.previewLine s = Some line
    /\ Viewer.startPoint s = Some a
    /\ Vector3.z a = 0%float
    /\ from line
       = Vector3.new (Math.fround (Vector3.x a)) (Math.fround (Vector3.y a)) 0
    /\ Viewer.scene2D s = [objectId line]
    /\ Vector3.z (to line) = 0%float
    /\ (Viewer.is2D s = true -> Viewer.isDrawingMode s = true ->
        forall p : Pick,
          Viewer.previewLine (Viewer.onMouseMove p s)
          = Some (Build_Line (objectId line) (from line)
                    (Vector3.new (Math.fround (Vector3.x (unprojected p)))
                                 (Math.fround (Vector3.y (unprojected p))) 0))
          /\ Viewer.startPoint (Viewer.onMouseMove p s) = Viewer.startPoint s
          /\ List.length (Viewer.walls (Viewer.onMouseMove p s))
             = List.length (Viewer.walls s)).
Proof.
  intros R D.
  destruct (ViewerMore2.reachable_anchored s R D)
    as (line & a & P & A & Za & F & Zf & Zt).
  destruct (ViewerFacts.reachable_gesture s R) as [_ _ Sc].
  exists line, a. rewrite P in Sc.
  assert (F' : from line
               = Vector3.new (Math.fround (Vector3.x a)) (Math.fround (Vector3.y a)) 0).
  { rewrite F. unfold BufferGeometry.fromPoint. now rewrite Za. }
  repeat split; auto; revert p.
  all: intro p; unfold Viewer.onMouseMove, Viewer.onMouseMoveAt,
         Viewer.getIntersectionPoint; rewrite H; cbv zeta.
  all: destruct (wallHits p) as [|i r]; rewrite ?D; cbn [negb];
         cbn; rewrite ?H, ?H0, ?D, ?A, ?P; cbn; rewrite ?length_map, ?A; reflexivity.
Qed.

Lemma preview_is_anchored_at_startPoint_witness :
  exists line a,
    Viewer.previewLine inexactGesture = Some line
    /\ Viewer.startPoint inexactGesture = Some a
    /\ from line
       = Vector3.new (Math.fround (Vector3.x a)) (Math.fround (Vector3.y a)) 0
    /\ Viewer.previewLine (Viewer.onMouseMove (pickAt 0.3 7) inexactGesture)
       = Some (Build_Line (objectId line) (from line)
                 (Vector3.new (Math.fround 0.3) (Math.fround 7) 0)).
Proof.
  destruct (preview_is_anchored_at_startPoint inexactGesture
              (ViewerFacts.reachable_run _ _ (Viewer.reachable_create 800 600)) eq_refl)
    as (line & a & P & A & _ & F & _ & _ & M).
  exists line, a. repeat split; auto.
  exact (proj1 (M eq_refl eq_refl (pickAt 0.3 7))).
Defined.

(** Single precision: 0.1 is not representable, 2^24 + 1 is a tie that goes
    to the even neighbour, and numbers beyond the range overflow or
    underflow. *)
Example fround_values :
  Math.fround 0.1 = 0.10000000149011612%float
  /\ Math.fround 16777217 = 16777216%float
  /\ Math.fround 2.5 = 2.5%float
  /\ Math.fround 1e39 = infinity
  /\ Math.fround (-1e-46) = (-0)%float.
Proof. vm_compute. repeat split. Qed.

(** The numbers of that session: the anchor keeps the doubles the mapper
    gave, the line has their single-precision roundings. *)
Example preview_is_stored_in_single_precision :
  Viewer.startPoint inexactGesture = Some (Vector3.new 0.1 0.2 0)
  /\ Viewer.previewLine inexactGesture
     = Some (Build_Line 0
               (Vector3.new 0.10000000149011612 0.20000000298023224 0)
               (Vector3.new 0.10000000149011612 0.20000000298023224 0)).
Proof. vm_compute. split; reflexivity. Qed.

Lemma fixedUnderHover_map (g : Wall.t -> Wall.t) (ws : list Wall.t) :
  (forall w, Wall.geometry (g w) = Wall.geometry w /\ Wall.selected (g w) = Wall.selected w) ->
  map fixedUnderHover (map g ws) = map fixedUnderHover ws.
Proof.
  intro H. rewrite map_map. apply map_ext. intro w. unfold fixedUnderHover.
  destruct (H w) as (-> & ->). reflexivity.
Qed.

Lemma fixedUnderHover_highlightWall i s :
  map fixedUnderHover (Viewer.walls (Viewer.highlightWall i s))
  = map fixedUnderHover (Viewer.walls s).
Proof. cbn. apply fixedUnderHover_map. intro w. ViewerFacts.flag_cases. Qed.

Lemma fixedUnderHover_clearHighlight s :
  map fixedUnderHover (Viewer.walls (Viewer.clearHighlight s))
  = map fixedUnderHover (Viewer.walls s).
Proof. cbn. apply fixedUnderHover_map. intro w. ViewerFacts.flag_cases. Qed.

Lemma fixedUnderHover_unhighlightFirst i ws :
  map fixedUnderHover (Viewer.unhighlightFirst i ws) = map fixedUnderHover ws.
Proof.
  induction ws as [|w ws IH]; cbn; [reflexivity|].
  destruct (Wall.id w =? i)%string; cbn; [reflexivity | now f_equal].
Qed.

(** X5. Hovering never changes the registry: pointer-move, pointer-up and
    the wall list's mouse-over and mouse-out leave the number and order of
    walls, every wall's id, end points, angle, length and [selected] flag,
    [selectedWall], the id counter, the mode and the view as they were.
    Only [highlighted] flags and the preview's far end can change. *)
Theorem hover_never_changes_the_registry
    (ev : Viewer.Event) (s s' : Viewer.t) :
  isHover ev = true ->
  Viewer.handle ev s = Viewer.Ok s' ->
  map fixedUnderHover (Viewer.walls s') = map fixedUnderHover (Viewer.walls s)
  /\ Viewer.selectedWall s' = Viewer.selectedWall s
  /\ Viewer.wallCounter s' = Viewer.wallCounter s
  /\ Viewer.isDrawingMode s' = Viewer.isDrawingMode s
  /\ Viewer.isDrawing s' = Viewer.isDrawing s
  /\ Viewer.startPoint s' = Viewer.startPoint s
  /\ Viewer.is2D s' = Viewer.is2D s.
Proof.
  intros Hv E. destruct ev; try discriminate Hv; cbn [Viewer.handle] in E;
    unfold Viewer.onMouseMove, Viewer.onMouseMoveAt, Viewer.onMouseUp,
      Viewer.onWallListItemMouseOver, Viewer.onWallListItemMouseOut in E;
    ViewerFacts.split_handler;
    repeat split;
    first [ reflexivity
          | assumption
          | apply fixedUnderHover_highlightWall
          | apply fixedUnderHover_clearHighlight
          | apply fixedUnderHover_unhighlightFirst ].
Qed.

Lemma hover_never_changes_the_registry_witness :
  exists s',
    Viewer.handle (Viewer.MouseMove (Build_Pick ["wall_0"%string] (Vector3.new 0 0 0.5) None))
      twoWalls = Viewer.Ok s'
    /\ map Wall.selected (Viewer.walls s') = [Some false; Some true]
    /\ Viewer.selectedWall s' = Some "wall_1"%string.
Proof.
  eexists. split; [reflexivity|].
  destruct (hover_never_changes_the_registry
              (Viewer.MouseMove (Build_Pick ["wall_0"%string] (Vector3.new 0 0 0.5) None))
              twoWalls _ eq_refl eq_refl) as (W & S & _).
  split; [|exact S].
  apply (f_equal (map snd)) in W. rewrite !map_map in W. exact W.
Defined.

(** ** The viewer: deleting, clearing and zooming *)

Lemma zoomExtend_keeps_walls (s : Viewer.t) :
  Viewer.walls (Viewer.zoomExtend s) = Viewer.walls s.
Proof.
  destruct (ViewerFacts.zoomExtend_frame s) as [-> | (c & tg & ->)]; reflexivity.
Qed.

Lemma selectedWall_zoomExtend (s : Viewer.t) :
  Viewer.selectedWall (Viewer.zoomExtend s) = Viewer.selectedWall s.
Proof.
  destruct (ViewerFacts.zoomExtend_frame s) as [-> | (c & tg & ->)]; reflexivity.
Qed.

Lemma deleted_walls (s : Viewer.t) :
  Viewer.walls (Viewer.deleteSelectedWalls s)
  = map unflag (filter (fun w => negb (Wall.isSelected w)) (Viewer.walls s)).
Proof. unfold Viewer.deleteSelectedWalls. rewrite zoomExtend_keeps_walls. reflexivity. Qed.

(** X6. In a reachable viewer [deleteSelectedWalls] removes exactly the
    wall that [selectedWall] names, and nothing when it names none: the
    other walls stay, in order, with their ids, end points, angles and
    lengths, both flags of each cleared, and [selectedWall] is [null]
    afterwards.  At most one wall goes. *)
Theorem deleteSelectedWalls_removes_the_selected_wall (s : Viewer.t) :
  Viewer.reachable s ->
  let s' := Viewer.deleteSelectedWalls s in
  Viewer.walls s'
  = map unflag
      (match Viewer.selectedWall s with
       | Some i => filter (fun w => negb (Wall.id w =? i)%string) (Viewer.walls s)
       | None => Viewer.walls s
       end)
  /\ Viewer.selectedWall s' = None
  /\ List.length (Viewer.walls s')
     = List.length (Viewer.walls s) - countSelected (Viewer.walls s)
  /\ List.length (Viewer.walls s) <= S (List.length (Viewer.walls s')).
Proof.
  intro R. cbv zeta.
  pose proof (ViewerFacts.reachable_registry s R) as K.
  assert (F : filter (fun w => negb (Wall.isSelected w)) (Viewer.walls s)
              = match Viewer.selectedWall s with
                | Some i => filter (fun w => negb (Wall.id w =? i)%string) (Viewer.walls s)
                | None => Viewer.walls s
                end).
  { destruct (Viewer.selectedWall s) as [i|] eqn:Sel.
    - apply filter_ext_in. intros w Hin.
      rewrite (selected_is_named s w R Hin), Sel. reflexivity.
    - assert (N : forall w, In w (Viewer.walls s) -> Wall.isSelected w = false).
      { intros w Hin. rewrite (selected_is_named s w R Hin), Sel. reflexivity. }
      clear -N. induction (Viewer.walls s) as [|w ws IH]; cbn; [reflexivity|].
      rewrite (N w (or_introl eq_refl)). cbn. f_equal.
      apply IH. intros v Hv. apply N. now right. }
  assert (L : List.length (filter (fun w => negb (Wall.isSelected w)) (Viewer.walls s))
              = List.length (Viewer.walls s) - countSelected (Viewer.walls s)).
  { unfold countSelected. generalize (Viewer.walls s). intro ws.
    induction ws as [|w ws IH]; cbn [filter List.length]; [reflexivity|].
    pose proof (filter_length_le Wall.isSelected ws).
    destruct (Wall.isSelected w); cbn [negb filter List.length]; lia. }
  rewrite deleted_walls, length_map, <- F, L.
  split; [reflexivity | split; [|split]].
  - unfold Viewer.deleteSelectedWalls. rewrite selectedWall_zoomExtend. reflexivity.
  - reflexivity.
  - pose proof (ok_selected K). lia.
Qed.

Lemma deleteSelectedWalls_removes_the_selected_wall_witness :
  map Wall.id (Viewer.walls twoWalls) = ["wall_0"; "wall_1"]%string
  /\ Viewer.selectedWall twoWalls = Some "wall_1"%string
  /\ map Wall.id (Viewer.walls (Viewer.deleteSelectedWalls twoWalls)) = ["wall_0"%string].
Proof.
  split; [vm_compute; reflexivity | split; [reflexivity|]].
  rewrite (proj1 (deleteSelectedWalls_removes_the_selected_wall twoWalls
             (ViewerFacts.reachable_run _ _ (Viewer.reachable_create 800 600)))).
  vm_compute. reflexivity.
Defined.

Lemma zoomExtend_shape (s : Viewer.t) :
  Viewer.is2D s = true ->
  Viewer.zoomExtend s
  = Viewer.set_camera2D (Viewer.camera2D (Viewer.zoomExtend s))
      (Viewer.controls2D_target (Viewer.zoomExtend s)) s.
Proof.
  intro V. unfold Viewer.zoomExtend. rewrite V.
  match goal with |- context [if ?c then _ else _] => destruct c end; reflexivity.
Qed.

Lemma zoomInputs_zoomExtend (s : Viewer.t) : zoomInputs (Viewer.zoomExtend s) = zoomInputs s.
Proof.
  unfold Viewer.zoomExtend. destruct (Viewer.is2D s) eqn:V; [|reflexivity].
  match goal with |- context [if ?c then _ else _] => destruct c end;
    unfold zoomInputs; cbn; rewrite V; reflexivity.
Qed.

Lemma zoomExtend_reads (s1 s2 : Viewer.t) :
  zoomInputs s1 = zoomInputs s2 ->
  Viewer.is2D s1 = true ->
  Viewer.camera2D (Viewer.zoomExtend s1) = Viewer.camera2D (Viewer.zoomExtend s2)
  /\ Viewer.controls2D_target (Viewer.zoomExtend s1)
     = Viewer.controls2D_target (Viewer.zoomExtend s2).
Proof.
  unfold zoomInputs. intros E V1. injection E as V W Cw Ch Z.
  unfold Viewer.zoomExtend, Viewer.targetBox. rewrite <- V, V1, W, Cw, Ch, Z.
  match goal with |- context [if ?c then _ else _] => destruct c end; split; reflexivity.
Qed.

Lemma zoomExtend_again (s : Viewer.t) :
  Viewer.zoomExtend (Viewer.zoomExtend s) = Viewer.zoomExtend s.
Proof.
  destruct (Viewer.is2D s) eqn:V.
  - assert (V' : Viewer.is2D (Viewer.zoomExtend s) = true).
    { pose proof (zoomInputs_zoomExtend s) as E. unfold zoomInputs in E.
      injection E as E _ _ _ _. congruence. }
    rewrite (zoomExtend_shape _ V').
    destruct (zoomExtend_reads _ _ (zoomInputs_zoomExtend s) V') as (-> & ->).
    pose proof (zoomExtend_shape s V) as E.
    remember (Viewer.camera2D (Viewer.zoomExtend s)) as c.
    remember (Viewer.controls2D_target (Viewer.zoomExtend s)) as tg.
    rewrite E. reflexivity.
  - unfold Viewer.zoomExtend. rewrite V. rewrite V. reflexivity.
Qed.

(** X7. [clearAllWalls] empties the registry and resets [selectedWall]; it
    keeps the id counter, the view, the mode and a gesture in progress
    (anchor and preview stay); doing it twice is the same as doing it once;
    and in the 2D view it frames the same default extent that a new viewer
    of that size starts with. *)
Theorem clearAllWalls_empties_and_is_idempotent (s : Viewer.t) :
  let s' := Viewer.clearAllWalls s in
  Viewer.walls s' = []
  /\ Viewer.selectedWall s' = None
  /\ Viewer.wallCounter s' = Viewer.wallCounter s
  /\ gesture s' = gesture s
  /\ Viewer.is2D s' = Viewer.is2D s
  /\ Viewer.clearAllWalls s' = s'
  /\ (Viewer.is2D s = true ->
      Vector3.z (OrthographicCamera.position (Viewer.camera2D s)) = 50%float ->
      Viewer.camera2D s'
      = Viewer.camera2D (Viewer.create (Viewer.clientWidth s) (Viewer.clientHeight s))).
Proof.
  cbv zeta. unfold Viewer.clearAllWalls.
  repeat split.
  - rewrite zoomExtend_keeps_walls. reflexivity.
  - rewrite selectedWall_zoomExtend. reflexivity.
  - rewrite ViewerMore2.wallCounter_zoomExtend. reflexivity.
  - rewrite ViewerFacts.gesture_zoomExtend. reflexivity.
  - destruct (ViewerFacts.zoomExtend_frame
                (Viewer.clearWallStates (Viewer.set_walls [] s))) as [-> | (c & tg & ->)];
      reflexivity.
  - set (s0 := Viewer.clearWallStates (Viewer.set_walls [] s)).
    replace (Viewer.clearWallStates (Viewer.set_walls [] (Viewer.zoomExtend s0)))
      with (Viewer.zoomExtend s0); [apply zoomExtend_again|].
    destruct (ViewerFacts.zoomExtend_frame s0) as [-> | (c & tg & ->)]; reflexivity.
  - intros V Z. destruct s. cbn in *. subst. unfold Viewer.create, Viewer.zoomExtend. cbn.
    match goal with |- context [if ?c then _ else _] => destruct c end; cbn; rewrite Z;
      reflexivity.
Qed.

Lemma clearAllWalls_empties_and_is_idempotent_witness :
  List.length (Viewer.walls twoWalls) = 2
  /\ Viewer.walls (Viewer.clearAllWalls twoWalls) = []
  /\ Viewer.camera2D (Viewer.clearAllWalls twoWalls)
     = Viewer.camera2D (Viewer.create 800 600)
  /\ Wall.id (fst (Viewer.addWall (Vector3.new 0 0 0) (Vector3.new 1 0 0)
                     (Viewer.clearAllWalls twoWalls))) = "wall_2"%string.
Proof.
  destruct (clearAllWalls_empties_and_is_idempotent twoWalls)
    as (W & _ & _ & _ & _ & _ & C).
  split; [vm_compute; reflexivity | split; [exact W | split]].
  - exact (C eq_refl eq_refl).
  - vm_compute. reflexivity.
Defined.

(** X8. An id is never given twice in a session: whatever events follow, a
    wall added later gets an id different from that of every wall the
    registry holds now, even if that wall has been deleted or the registry
    cleared in between. *)
Theorem wall_ids_are_never_reused
    (s : Viewer.t) (evs : list Viewer.Event) (w : Wall.t) (a b : Vector3.t) :
  Viewer.reachable s ->
  In w (Viewer.walls s) ->
  (Wall.id (fst (Viewer.addWall a b (Viewer.run evs s))) =? Wall.id w)%string = false.
Proof.
  intros R Hin. apply String.eqb_neq. intro E.
  pose proof (ok_minted (ViewerFacts.reachable_registry s R)) as M.
  rewrite Forall_forall in M. destruct (M w Hin) as (k & Hk & Ek).
  cbn in E. rewrite Ek in E. apply wallId_injective in E.
  pose proof (ViewerMore2.wallCounter_run evs s). lia.
Qed.

Lemma wall_ids_are_never_reused_witness :
  map Wall.id (Viewer.walls twoWalls) = ["wall_0"; "wall_1"]%string
  /\ Viewer.walls (Viewer.run [Viewer.ClearAllWalls] twoWalls) = []
  /\ Wall.id (fst (Viewer.addWall (Vector3.new 0 0 0) (Vector3.new 1 0 0)
                     (Viewer.run [Viewer.ClearAllWalls] twoWalls))) = "wall_2"%string
  /\ forall w, In w (Viewer.walls twoWalls) ->
       (Wall.id (fst (Viewer.addWall (Vector3.new 0 0 0) (Vector3.new 1 0 0)
                        (Viewer.run [Viewer.ClearAllWalls] twoWalls)))
        =? Wall.id w)%string = false.
Proof.
  split; [vm_compute; reflexivity|].
  split; [vm_compute; reflexivity|].
  split; [vm_compute; reflexivity|].
  intros w Hin.
  exact (wall_ids_are_never_reused twoWalls [Viewer.ClearAllWalls] w
           (Vector3.new 0 0 0) (Vector3.new 1 0 0)
           (ViewerFacts.reachable_run _ _ (Viewer.reachable_create 800 600)) Hin).
Defined.

(** X9. Toggling the mode twice while no gesture is in progress gives back
    the very same state, in a reachable viewer; and entering drawing mode
    never touches anything but the mode. *)
Theorem toggleDrawingMode_twice_when_idle (s : Viewer.t) :
  Viewer.reachable s ->
  Viewer.isDrawing s = false ->
  Viewer.toggleDrawingMode (Viewer.toggleDrawingMode s) = s
  /\ (Viewer.isDrawingMode s = false ->
      Viewer.toggleDrawingMode s = Viewer.set_isDrawingMode true s).
Proof.
  intros R D. destruct (ViewerFacts.reachable_gesture s R) as [Hi _ Hs].
  destruct (Hi D) as (A & P). rewrite P in Hs.
  destruct s. cbn in *. subst.
  unfold Viewer.toggleDrawingMode, Viewer.cleanupDrawing, Viewer.removePreviewLine.
  destruct isDrawingMode; cbn; split; try reflexivity; intro H; discriminate H.
Qed.

Lemma toggleDrawingMode_twice_when_idle_witness :
  Viewer.toggleDrawingMode (Viewer.toggleDrawingMode twoWalls) = twoWalls.
Proof.
  exact (proj1 (toggleDrawingMode_twice_when_idle twoWalls
                  (ViewerFacts.reachable_run _ _ (Viewer.reachable_create 800 600))
                  eq_refl)).
Defined.

Lemma Vector3_clone_id (v : Vector3.t) : Vector3.clone v = v.
Proof. destruct v. reflexivity. Qed.

Ltac setters :=
  cbn [Viewer.clientWidth Viewer.clientHeight Viewer.is2D Viewer.walls
       Viewer.wallCounter Viewer.isDrawing Viewer.startPoint Viewer.previewLine
       Viewer.selectedWall Viewer.isDrawingMode Viewer.camera2D
       Viewer.controls2D_target Viewer.scene2D Viewer.disposed Viewer.nextObjectId
       Viewer.set_size Viewer.set_is2D Viewer.set_walls Viewer.set_wallCounter
       Viewer.set_isDrawing Viewer.set_startPoint Viewer.set_previewLine
       Viewer.set_selectedWall Viewer.set_isDrawingMode Viewer.set_camera2D
       Viewer.set_scene2D Viewer.set_disposed Viewer.set_nextObjectId
       Viewer.addPreviewLine].

Lemma secondClick (e : MouseEvent) (p : Pick) (s : Viewer.t) (a : Vector3.t) :
  Viewer.is2D s = true -> Viewer.isDrawingMode s = true ->
  Viewer.isDrawing s = true -> Viewer.startPoint s = Some a -> button e = 0%Z ->
  Viewer.onMouseDown e p s
  = Viewer.Ok
      (let s2 := Viewer.removePreviewLine (snd (Viewer.addWall a (planePoint p) s)) in
       if shiftKey e
       then Viewer.addPreviewLine (planePoint p) (planePoint p)
              (Viewer.set_startPoint (Some (planePoint p)) s2)
       else Viewer.set_startPoint None (Viewer.set_isDrawing false s2)).
Proof.
  intros V M D A B.
  unfold Viewer.onMouseDown, Viewer.onMouseDownAt, Viewer.getIntersectionPoint.
  rewrite V, M, D, A, B. cbn [negb Z.eqb]. fold (planePoint p).
  destruct (shiftKey e); reflexivity.
Qed.

(** A committing click: what it leaves, whatever the shift key. *)
Lemma committing_click (e : MouseEvent) (p : Pick) (s : Viewer.t) (a : Vector3.t) :
  Viewer.is2D s = true -> Viewer.isDrawingMode s = true ->
  Viewer.isDrawing s = true -> Viewer.startPoint s = Some a -> button e = 0%Z ->
  exists s1 w,
    Viewer.onMouseDown e p s = Viewer.Ok s1
    /\ Viewer.walls s1 = Viewer.walls s ++ [w]
    /\ Wall.start w = a /\ Wall.end_ w = planePoint p
    /\ Wall.id w = wallId (Viewer.wallCounter s)
    /\ Viewer.wallCounter s1 = S (Viewer.wallCounter s)
    /\ Viewer.is2D s1 = true /\ Viewer.isDrawingMode s1 = true
    /\ (shiftKey e = true ->
        Viewer.isDrawing s1 = true /\ Viewer.startPoint s1 = Some (planePoint p)).
Proof.
  intros V M D A B. pose proof (secondClick e p s a V M D A B) as E. cbv zeta in E.
  destruct (ViewerFacts.fields_removePreviewLine (snd (Viewer.addWall a (planePoint p) s)))
    as (Ed & _ & Em & Ew & _).
  pose proof (ViewerMore2.wallCounter_removePreviewLine
                (snd (Viewer.addWall a (planePoint p) s))) as Ec.
  assert (Ev : Viewer.is2D (Viewer.removePreviewLine
                              (snd (Viewer.addWall a (planePoint p) s))) = true).
  { unfold Viewer.removePreviewLine.
    destruct (Viewer.previewLine (snd (Viewer.addWall a (planePoint p) s))); exact V. }
  eexists _, (fst (Viewer.addWall a (planePoint p) s)). split; [exact E|].
  destruct (shiftKey e); setters; rewrite ?Ew, ?Ec, ?Ev, ?Em, ?Ed;
    (split; [reflexivity|]);
    (split; [apply Vector3_clone_id|]);
    (split; [apply Vector3_clone_id|]);
    (split; [reflexivity|]);
    (split; [reflexivity|]);
    (split; [reflexivity|]);
    (split; [exact M|]);
    intro X; try discriminate X; split; [exact D|reflexivity].
Qed.

(** X10. Chained walls meet.  With a gesture in progress in the 2D drawing
    mode, a click with shift held followed by another click commits two
    walls: the first from the anchor to the first click, the second from
    the first click to the second.  The second starts exactly where the
    first ends. *)
Theorem chained_walls_share_an_end_point
    (e1 e2 : MouseEvent) (p1 p2 : Pick) (s : Viewer.t) (a : Vector3.t) :
  Viewer.is2D s = true -> Viewer.isDrawingMode s = true ->
  Viewer.isDrawing s = true -> Viewer.startPoint s = Some a ->
  button e1 = 0%Z -> shiftKey e1 = true -> button e2 = 0%Z ->
  exists s1 s2 w1 w2,
    Viewer.onMouseDown e1 p1 s = Viewer.Ok s1
    /\ Viewer.onMouseDown e2 p2 s1 = Viewer.Ok s2
    /\ Viewer.walls s2 = Viewer.walls s ++ [w1; w2]
    /\ Wall.start w1 = a
    /\ Wall.end_ w1 = planePoint p1
    /\ Wall.start w2 = planePoint p1
    /\ Wall.end_ w2 = planePoint p2
    /\ Wall.id w1 = wallId (Viewer.wallCounter s)
    /\ Wall.id w2 = wallId (S (Viewer.wallCounter s)).
Proof.
  intros V M D A B1 Sh B2.
  destruct (committing_click e1 p1 s a V M D A B1)
    as (s1 & w1 & E1 & W1 & Ws1 & We1 & Wi1 & C1 & V1 & M1 & K).
  destruct (K Sh) as (D1 & A1).
  destruct (committing_click e2 p2 s1 (planePoint p1) V1 M1 D1 A1 B2)
    as (s2 & w2 & E2 & W2 & Ws2 & We2 & Wi2 & _).
  exists s1, s2, w1, w2.
  rewrite W2, W1, <- app_assoc, Wi2, C1. auto 10.
Qed.

Lemma chained_walls_share_an_end_point_witness :
  exists s1 s2 w1 w2,
    Viewer.onMouseDown shiftLeftClick (pickAt 5 2) midGesture = Viewer.Ok s1
    /\ Viewer.onMouseDown leftClick (pickAt 5 9) s1 = Viewer.Ok s2
    /\ Viewer.walls s2 = [w1; w2]
    /\ Wall.end_ w1 = Vector3.new 5 2 0
    /\ Wall.start w2 = Vector3.new 5 2 0.
Proof.
  destruct (chained_walls_share_an_end_point shiftLeftClick leftClick (pickAt 5 2)
              (pickAt 5 9) midGesture (Vector3.new 1 2 0)
              eq_refl eq_refl eq_refl eq_refl eq_refl eq_refl eq_refl)
    as (s1 & s2 & w1 & w2 & E1 & E2 & W & _ & X1 & X2 & _).
  exists s1, s2, w1, w2. auto.
Defined.

(** X11. [zoomExtend] in the 2D view reads only the walls, the container's
    size and the camera's height: doing it twice is the same as doing it
    once, and it undoes any pan and zoom of the orbit controls that left the
    camera at the same height.  In the 3D view it leaves this state as it
    is.  It never touches the registry or the gesture. *)
Theorem zoomExtend_is_idempotent_and_resets_pan_and_zoom (s : Viewer.t) :
  Viewer.zoomExtend (Viewer.zoomExtend s) = Viewer.zoomExtend s
  /\ Viewer.walls (Viewer.zoomExtend s) = Viewer.walls s
  /\ gesture (Viewer.zoomExtend s) = gesture s
  /\ (Viewer.is2D s = false -> Viewer.zoomExtend s = s)
  /\ (Viewer.is2D s = true ->
      forall (position : Vector3.t) (zoom : float) (target : Vector3.t),
        Vector3.z position
        = Vector3.z (OrthographicCamera.position (Viewer.camera2D s)) ->
        Viewer.zoomExtend (Viewer.orbitControlsChange position zoom target s)
        = Viewer.zoomExtend s).
Proof.
  split; [apply zoomExtend_again | split; [apply zoomExtend_keeps_walls | split; [|split]]].
  - apply ViewerFacts.gesture_zoomExtend.
  - intro V. unfold Viewer.zoomExtend. rewrite V. reflexivity.
  - intros V position zoom target Z.
    set (s1 := Viewer.orbitControlsChange position zoom target s).
    assert (V1 : Viewer.is2D s1 = true) by exact V.
    assert (I : zoomInputs s1 = zoomInputs s).
    { unfold zoomInputs, s1. cbn. rewrite Z. reflexivity. }
    rewrite (zoomExtend_shape s1 V1), (zoomExtend_shape s V).
    destruct (zoomExtend_reads s1 s I V1) as (-> & ->). reflexivity.
Qed.

Lemma zoomExtend_is_idempotent_and_resets_pan_and_zoom_witness :
  Viewer.zoomExtend
    (Viewer.orbitControlsChange (Vector3.new 30 (-4) 50) 2.5 (Vector3.new 30 (-4) 0)
       twoWalls)
  = Viewer.zoomExtend twoWalls.
Proof.
  exact (proj2 (proj2 (proj2 (proj2
           (zoomExtend_is_idempotent_and_resets_pan_and_zoom twoWalls))))
           eq_refl (Vector3.new 30 (-4) 50) 2.5%float (Vector3.new 30 (-4) 0) eq_refl).
Defined.

(** ** The viewer: preview lines and the course of a gesture *)

Module DisposalFacts.
Import Viewer ViewerFacts.

Lemma disposal_same (s s' : t) :
  previewObjects s' = previewObjects s -> disposal_inv s -> disposal_inv s'.
Proof.
  unfold previewObjects, disposal_inv. intros E H. injection E as E1 E2 E3.
  rewrite E1, E2, E3. assumption.
Qed.

Lemma stage_zoomExtend (s : t) : previewObjects (zoomExtend s) = previewObjects s.
Proof. destruct (zoomExtend_frame s) as [->|(c & tg & ->)]; reflexivity. Qed.

Lemma disposal_addPreviewLine (a b : Vector3.t) (s : t) :
  disposal_inv s -> disposal_inv (addPreviewLine a b s).
Proof.
  intros (N & D & S & A). unfold disposal_inv. cbn.
  split; [assumption|]. split; [|split].
  - intros n I. destruct (D n I) as (L & X). split; [lia|].
    rewrite in_app_iff. intros [J|[J|[]]]; [auto|lia].
  - intros n I. apply in_app_iff in I. destruct I as [I|[<-|[]]]; [|lia].
    specialize (S n I). lia.
  - intros n L. rewrite in_app_iff. cbn.
    destruct (Nat.eq_dec n (nextObjectId s)) as [->|X]; [auto|].
    destruct (A n ltac:(lia)); auto.
Qed.

Lemma disposal_removePreviewLine (s : t) :
  gesture_inv s -> disposal_inv s -> disposal_inv (removePreviewLine s).
Proof.
  intros [_ _ G] (N & D & S & A). unfold removePreviewLine.
  destruct (previewLine s) as [line|] eqn:P; [|unfold disposal_inv; auto].
  unfold disposal_inv. cbn. rewrite G, remove_only.
  assert (I : In (objectId line) (scene2D s)) by (rewrite G; now left).
  split; [|split; [|split]].
  - constructor; [|assumption]. intro J. now apply (D _ J).
  - intros n [<-|J]; [split; [auto|intros []]|].
    destruct (D n J). split; [assumption|intros []].
  - intros n [].
  - intros n L. destruct (A n L) as [J|J]; [|auto].
    rewrite G in J. destruct J as [<-|[]]. auto.
Qed.

Lemma stage_set (s : t) :
  (forall b, previewObjects (set_isDrawing b s) = previewObjects s)
  /\ (forall a, previewObjects (set_startPoint a s) = previewObjects s)
  /\ (forall b, previewObjects (set_isDrawingMode b s) = previewObjects s)
  /\ (forall a b, previewObjects (snd (addWall a b s)) = previewObjects s)
  /\ (forall i, previewObjects (selectWall i s) = previewObjects s)
  /\ (forall i, previewObjects (highlightWall i s) = previewObjects s)
  /\ previewObjects (clearWallStates s) = previewObjects s
  /\ previewObjects (clearHighlight s) = previewObjects s.
Proof. repeat split; reflexivity. Qed.

Lemma gesture_inv_set (s : t) :
  gesture_inv s ->
  (forall a b, gesture_inv (snd (addWall a b s)))
  /\ gesture_inv (set_isDrawingMode (negb (isDrawingMode s)) s).
Proof.
  intro H. split; [intros a b|]; revert H; apply gesture_inv_same; reflexivity.
Qed.

Lemma disposal_handle (ev : Event) (s s' : t) :
  gesture_inv s -> disposal_inv s -> handle ev s = Ok s' -> disposal_inv s'.
Proof.
  intros G D E. destruct ev; cbn [handle] in E;
    try (apply Ok_inj in E; subst s');
    try (revert D; apply disposal_same;
         first [ reflexivity | apply stage_zoomExtend
               | unfold clearAllWalls, deleteSelectedWalls; rewrite stage_zoomExtend;
                 reflexivity ]).
  - unfold toggleDrawingMode. cbn [isDrawingMode set_isDrawingMode].
    destruct (negb (negb (isDrawingMode s))); [|revert D; apply disposal_same; reflexivity].
    unfold cleanupDrawing.
    apply (disposal_same (removePreviewLine (set_isDrawingMode (negb (isDrawingMode s)) s)));
      [reflexivity|].
    apply disposal_removePreviewLine; [now apply gesture_inv_set|].
    revert D. apply disposal_same. reflexivity.
  - unfold onMouseDown, onMouseDownAt in E.
    destruct (negb (is2D s)).
    { destruct (wallHits p); apply Ok_inj in E; subst; revert D;
        apply disposal_same; reflexivity. }
    destruct (isDrawingMode s).
    2:{ destruct (button e =? 0)%Z; [destruct (wallHits p)|];
          apply Ok_inj in E; subst; revert D; try apply disposal_same; auto. }
    destruct (negb (button e =? 0)%Z); [apply Ok_inj in E; now subst|].
    destruct (getIntersectionPoint s p) as [q|]; [|apply Ok_inj in E; now subst].
    destruct (negb (isDrawing s)).
    { apply Ok_inj in E. subst. apply disposal_addPreviewLine.
      revert D. apply disposal_same. reflexivity. }
    destruct (startPoint s) as [a|]; [|discriminate].
    assert (D1 : disposal_inv (removePreviewLine (snd (addWall a q s)))).
    { apply disposal_removePreviewLine; [now apply gesture_inv_set|].
      revert D. apply disposal_same. reflexivity. }
    destruct (shiftKey e); apply Ok_inj in E; subst.
    + apply disposal_addPreviewLine. revert D1. apply disposal_same. reflexivity.
    + revert D1. apply disposal_same. reflexivity.
  - revert D. apply disposal_same. unfold onMouseMove, onMouseMoveAt.
    repeat match goal with
           | |- context [match ?c with _ => _ end] => destruct c
           end; reflexivity.
  - revert D. apply disposal_same.
    unfold onWallListItemMouseOver. destruct (listItemWallId target); reflexivity.
  - unfold onWallListItemMouseOut in E. split_handler; exact D.
  - revert D. apply disposal_same.
    unfold onWallListItemClick. destruct (listItemWallId target); reflexivity.
Qed.

Lemma disposal_create (w h : float) : disposal_inv (create w h).
Proof.
  unfold create. eapply disposal_same; [apply stage_zoomExtend|].
  unfold disposal_inv. cbn. repeat split; try constructor; try contradiction; lia.
Qed.

Lemma reachable_disposal (s : t) : reachable s -> disposal_inv s.
Proof.
  induction 1 as [w h|ev s s' R IH E]; [apply disposal_create|].
  eapply disposal_handle; eauto using reachable_gesture.
Qed.

Lemma all_below (l : list nat) (n : nat) :
  NoDup l -> (forall k, In k l -> k < n) -> (forall k, k < n -> In k l) ->
  List.length l = n.
Proof.
  intros N B A. apply Nat.le_antisymm.
  - apply Nat.le_trans with (List.length (seq 0 n)); [|rewrite length_seq; lia].
    apply NoDup_incl_length; [assumption|].
    intros k I. apply in_seq. specialize (B k I). lia.
  - apply Nat.le_trans with (List.length (seq 0 n)); [rewrite length_seq; lia|].
    apply NoDup_incl_length; [apply seq_NoDup|].
    intros k I. apply in_seq in I. apply A. lia.
Qed.

End DisposalFacts.

(** X12. In every reachable viewer the preview lines are accounted for: no
    line is disposed twice, the current preview line is not disposed, every
    preview line ever created is either the current one or disposed, and
    while no gesture is in progress all of them have been disposed. *)
Theorem preview_lines_are_disposed (s : Viewer.t) :
  Viewer.reachable s ->
  NoDup (Viewer.disposed s)
  /\ (forall line, Viewer.previewLine s = Some line ->
        objectId line < Viewer.nextObjectId s
        /\ ~ In (objectId line) (Viewer.disposed s))
  /\ (forall n, n < Viewer.nextObjectId s ->
        (exists line, Viewer.previewLine s = Some line /\ objectId line = n)
        \/ In n (Viewer.disposed s))
  /\ (Viewer.isDrawing s = false ->
      List.length (Viewer.disposed s) = Viewer.nextObjectId s).
Proof.
  intro R. destruct (DisposalFacts.reachable_disposal s R) as (N & D & S & A).
  destruct (ViewerFacts.reachable_gesture s R) as [Hi _ Hs].
  split; [assumption|]. split; [|split].
  - intros line P. rewrite P in Hs.
    assert (I : In (objectId line) (Viewer.scene2D s)) by (rewrite Hs; now left).
    split; [now apply S|]. intro J. now apply (D _ J).
  - intros n L. destruct (A n L) as [I|I]; [left|now right].
    rewrite Hs in I. destruct (Viewer.previewLine s) as [line|]; [|destruct I].
    destruct I as [<-|[]]. eauto.
  - intro I. destruct (Hi I) as (_ & P). rewrite P in Hs.
    apply DisposalFacts.all_below; [assumption|intros k J; now apply D|].
    intros k L. destruct (A k L) as [J|J]; [|assumption]. rewrite Hs in J. destruct J.
Qed.

Lemma preview_lines_are_disposed_witness :
  NoDup (Viewer.disposed midGesture)
  /\ exists line,
       Viewer.previewLine midGesture = Some line
       /\ ~ In (objectId line) (Viewer.disposed midGesture).
Proof.
  destruct (preview_lines_are_disposed midGesture
              (ViewerFacts.reachable_run _ _ (Viewer.reachable_create 800 600)))
    as (N & P & _).
  split; [exact N|].
  destruct (Viewer.previewLine midGesture) as [line|] eqn:E;
    [|vm_compute in E; discriminate E].
  exists line. split; [reflexivity|]. exact (proj2 (P line eq_refl)).
Defined.

Module GestureFacts.
Import Viewer ViewerFacts.

Lemma isDrawing_zoomExtend (s : t) : isDrawing (zoomExtend s) = isDrawing s.
Proof. destruct (zoomExtend_frame s) as [->|(c & tg & ->)]; reflexivity. Qed.

Lemma startPoint_zoomExtend (s : t) : startPoint (zoomExtend s) = startPoint s.
Proof. destruct (zoomExtend_frame s) as [->|(c & tg & ->)]; reflexivity. Qed.

(** Every event but a pointer press and the mode toggle keeps the gesture
    flag and the anchor. *)
Lemma other_events_keep_gesture (ev : Event) (s s' : t) :
  handle ev s = Ok s' ->
  match ev with
  | MouseDown _ _ | ToggleDrawingMode => True
  | _ => isDrawing s' = isDrawing s /\ startPoint s' = startPoint s
  end.
Proof.
  intro E. destruct ev; try exact I; cbn [handle] in E;
    try (apply Ok_inj in E; subst s');
    try (split; reflexivity);
    try (split; [apply isDrawing_zoomExtend|apply startPoint_zoomExtend]).
  - unfold clearAllWalls. rewrite isDrawing_zoomExtend, startPoint_zoomExtend.
    split; reflexivity.
  - unfold deleteSelectedWalls. rewrite isDrawing_zoomExtend, startPoint_zoomExtend.
    split; reflexivity.
  - unfold onMouseMove, onMouseMoveAt.
    repeat match goal with
           | |- context [match ?c with _ => _ end] => destruct c
           end; split; reflexivity.
  - unfold onWallListItemMouseOver. destruct (listItemWallId target); split; reflexivity.
  - unfold onWallListItemMouseOut in E. split_handler; split; reflexivity.
  - unfold onWallListItemClick. destruct (listItemWallId target); split; reflexivity.
Qed.

End GestureFacts.

(** X13. What starts and what ends a gesture in the viewer.  A gesture
    starts only by a left-button press in the 2D view in drawing mode, which
    anchors it at the mapped point and adds no wall.  A gesture ends only by
    leaving drawing mode, which adds no wall, or by a left-button press
    without shift in the 2D view in drawing mode, which adds exactly one
    wall.  Every event other than a press and the mode toggle, switching the
    view and clearing or deleting walls included, leaves the gesture flag
    and the anchor as they are. *)
Theorem gesture_starts_and_ends_only_by_press_or_toggle
    (ev : Viewer.Event) (s s' : Viewer.t) :
  Viewer.handle ev s = Viewer.Ok s' ->
  (Viewer.isDrawing s = false -> Viewer.isDrawing s' = true ->
   exists e p q,
     ev = Viewer.MouseDown e p /\ button e = 0%Z
     /\ Viewer.is2D s = true /\ Viewer.isDrawingMode s = true
     /\ Viewer.getIntersectionPoint s p = Some q
     /\ Viewer.startPoint s' = Some q
     /\ Viewer.walls s' = Viewer.walls s)
  /\ (Viewer.isDrawing s = true -> Viewer.isDrawing s' = false ->
      (ev = Viewer.ToggleDrawingMode /\ Viewer.isDrawingMode s = true
       /\ Viewer.walls s' = Viewer.walls s)
      \/ (exists e p a q,
            ev = Viewer.MouseDown e p /\ button e = 0%Z /\ shiftKey e = false
            /\ Viewer.is2D s = true /\ Viewer.isDrawingMode s = true
            /\ Viewer.startPoint s = Some a
            /\ Viewer.getIntersectionPoint s p = Some q
            /\ Viewer.walls s' = Viewer.walls s ++ [fst (Viewer.addWall a q s)]))
  /\ ((forall e p, ev <> Viewer.MouseDown e p) ->
      ev <> Viewer.ToggleDrawingMode ->
      Viewer.isDrawing s' = Viewer.isDrawing s
      /\ Viewer.startPoint s' = Viewer.startPoint s).
Proof.
  intro E. pose proof (GestureFacts.other_events_keep_gesture ev s s' E) as K.
  assert (T : forall v, Viewer.isDrawing (Viewer.toggleDrawingMode v) = true ->
                        Viewer.isDrawing v = true).
  { intro v. unfold Viewer.toggleDrawingMode, Viewer.cleanupDrawing. cbn.
    destruct (negb (negb (Viewer.isDrawingMode v))); cbn; [discriminate|auto]. }
  destruct ev; cbn [Viewer.handle] in E;
    try (destruct K as (K1 & K2); split; [|split];
         [intros A B; congruence | intros A B; congruence | auto]).
  - (* ToggleDrawingMode *)
    apply ViewerFacts.Ok_inj in E. subst s'. split; [|split].
    + intros A B. apply T in B. congruence.
    + intros A B. left. split; [reflexivity|].
      unfold Viewer.toggleDrawingMode, Viewer.cleanupDrawing in *. cbn in *.
      destruct (Viewer.isDrawingMode s); cbn in *; [|congruence].
      split; [reflexivity|].
      cbn [Viewer.walls Viewer.set_startPoint Viewer.set_isDrawing].
      rewrite (proj1 (proj2 (proj2 (proj2 (ViewerFacts.fields_removePreviewLine _))))).
      reflexivity.
    + intros _ N. now destruct N.
  - (* MouseDown *)
    unfold Viewer.onMouseDown, Viewer.onMouseDownAt in E.
    split; [|split]; [| |intros N; now destruct (N e p)].
    + intros A B.
      destruct (Viewer.is2D s) eqn:V; cbn [negb] in E.
      2:{ destruct (wallHits p); apply ViewerFacts.Ok_inj in E; subst; cbn in B;
            congruence. }
      destruct (Viewer.isDrawingMode s) eqn:M.
      2:{ destruct (button e =? 0)%Z; [destruct (wallHits p)|];
            apply ViewerFacts.Ok_inj in E; subst; cbn in B; congruence. }
      destruct (Z.eqb_spec (button e) 0) as [Bt|Bt]; cbn [negb] in E;
        [|apply ViewerFacts.Ok_inj in E; subst; congruence].
      destruct (Viewer.getIntersectionPoint s p) as [q|] eqn:Q;
        [|apply ViewerFacts.Ok_inj in E; subst; congruence].
      rewrite A in E. cbn [negb] in E. apply ViewerFacts.Ok_inj in E. subst s'.
      exists e, p, q. repeat split; auto.
    + intros A B.
      destruct (Viewer.is2D s) eqn:V; cbn [negb] in E.
      2:{ destruct (wallHits p); apply ViewerFacts.Ok_inj in E; subst; cbn in B;
            congruence. }
      destruct (Viewer.isDrawingMode s) eqn:M.
      2:{ destruct (button e =? 0)%Z; [destruct (wallHits p)|];
            apply ViewerFacts.Ok_inj in E; subst; cbn in B; congruence. }
      destruct (Z.eqb_spec (button e) 0) as [Bt|Bt]; cbn [negb] in E;
        [|apply ViewerFacts.Ok_inj in E; subst; congruence].
      destruct (Viewer.getIntersectionPoint s p) as [q|] eqn:Q;
        [|apply ViewerFacts.Ok_inj in E; subst; congruence].
      rewrite A in E. cbn [negb] in E.
      destruct (Viewer.startPoint s) as [a|] eqn:S; [|discriminate].
      right. exists e, p, a, q.
      destruct (shiftKey e) eqn:Sh; apply ViewerFacts.Ok_inj in E; subst s'.
      * exfalso. revert B. cbn.
        rewrite (proj1 (ViewerFacts.fields_removePreviewLine _)). cbn. congruence.
      * repeat split; auto. cbn [Viewer.walls Viewer.set_startPoint Viewer.set_isDrawing].
        rewrite (proj1 (proj2 (proj2 (proj2 (ViewerFacts.fields_removePreviewLine _))))).
        reflexivity.
Qed.

Lemma gesture_starts_and_ends_only_by_press_or_toggle_witness :
  exists e p q,
    Viewer.MouseDown leftClick (pickAt 1 2) = Viewer.MouseDown e p
    /\ button e = 0%Z
    /\ Viewer.getIntersectionPoint (Viewer.create 800 600) p = Some q.
Proof.
  destruct (proj1 (gesture_starts_and_ends_only_by_press_or_toggle
                     (Viewer.MouseDown leftClick (pickAt 1 2))
                     (Viewer.create 800 600)
                     (Viewer.addPreviewLine (Vector3.new 1 2 0) (Vector3.new 1 2 0)
                        (Viewer.set_startPoint (Some (Vector3.new 1 2 0))
                           (Viewer.set_isDrawing true (Viewer.create 800 600))))
                     ltac:(vm_compute; reflexivity))
              ltac:(vm_compute; reflexivity) ltac:(vm_compute; reflexivity))
    as (e & p & q & A & B & _ & _ & C & _).
  exists e, p, q. auto.
Defined.

(** ** The wall list *)

Module WallListFacts.

Lemma split_digits (u : Decimal.uint) :
  JSString.split "_" (NilEmpty.string_of_uint u) = [NilEmpty.string_of_uint u].
Proof. induction u; cbn; rewrite ?IHu; reflexivity. Qed.

Lemma split_wallId (k : nat) :
  nth_error (JSString.split "_" (wallId k)) 1 = Some (NilEmpty.string_of_uint (Nat.to_uint k)).
Proof. unfold wallId. cbn. rewrite split_digits. reflexivity. Qed.

Lemma wallId_truthy (k : nat) : (wallId k =? "")%string = false.
Proof. reflexivity. Qed.

Lemma count_one (i : string) (l : list Wall.t) :
  NoDup (map Wall.id l) -> In i (map Wall.id l) ->
  List.length (filter (fun w => (Wall.id w =? i)%string) l) = 1.
Proof.
  intros N I. pose proof (count_by_id i l N) as L.
  apply in_map_iff in I. destruct I as (w & E & I).
  assert (F : In w (filter (fun w => (Wall.id w =? i)%string) l)).
  { apply filter_In. split; [assumption|]. now apply String.eqb_eq. }
  destruct (filter _ l); [destruct F|]. cbn in *. lia.
Qed.

Lemma find_id_some (i : string) (ws : list Wall.t) :
  In i (map Wall.id ws) ->
  exists w, find (fun wall => (Wall.id wall =? i)%string) ws = Some w.
Proof.
  intro I. destruct (find _ ws) eqn:F; [eauto|].
  apply find_id_none in F. contradiction.
Qed.

End WallListFacts.

(** X14. The items [updateWallList] builds in a reachable viewer are, in
    order, the walls of the registry, with pairwise distinct [wallId]s; the
    number an item shows is the counter value its wall was created with; an
    item carries the [selected] class exactly when [selectedWall] is its id;
    and every item is a valid target of the list's handlers: mouse-out on it
    never throws, a click makes it the one selected wall and mouse-over the
    one highlighted wall. *)
Theorem wall_list_items_are_valid_targets (s : Viewer.t) :
  Viewer.reachable s ->
  map item_wallId (updateWallList s) = map Wall.id (Viewer.walls s)
  /\ NoDup (map item_wallId (updateWallList s))
  /\ forall item, In item (updateWallList s) ->
       (exists k, k < Viewer.wallCounter s
                  /\ item_wallId item = wallId k
                  /\ item_number item = Some (NilEmpty.string_of_uint (Nat.to_uint k)))
       /\ listItemWallId (targetOf item) = Some (item_wallId item)
       /\ (item_selected item = true
           <-> Viewer.selectedWall s = Some (item_wallId item))
       /\ (exists s', Viewer.onWallListItemMouseOut (targetOf item) s = Viewer.Ok s')
       /\ Viewer.selectedWall (Viewer.onWallListItemClick (targetOf item) s)
          = Some (item_wallId item)
       /\ countSelected (Viewer.walls (Viewer.onWallListItemClick (targetOf item) s)) = 1
       /\ countHighlighted
            (Viewer.walls (Viewer.onWallListItemMouseOver (targetOf item) s)) = 1.
Proof.
  intro R. pose proof (ViewerFacts.reachable_registry s R) as K.
  assert (E : map item_wallId (updateWallList s) = map Wall.id (Viewer.walls s)).
  { unfold updateWallList. rewrite map_map. reflexivity. }
  split; [exact E|]. split; [rewrite E; exact (ok_distinct K)|].
  intros item I. unfold updateWallList in I. apply in_map_iff in I.
  destruct I as (w & <- & I). cbn [item_wallId item_number item_selected].
  pose proof (ok_minted K) as M. rewrite Forall_forall in M.
  destruct (M w I) as (k & Lk & Ek).
  assert (Ii : In (Wall.id w) (map Wall.id (Viewer.walls s))) by now apply in_map.
  assert (T : listItemWallId
                (targetOf (Build_ListItem (nth_error (JSString.split "_" (Wall.id w)) 1)
                             (Wall.length w) (Wall.id w) (Wall.isSelected w)))
              = Some (Wall.id w)).
  { unfold listItemWallId, targetOf. cbn. rewrite Ek, WallListFacts.wallId_truthy.
    reflexivity. }
  repeat split.
  - exists k. rewrite Ek. auto using WallListFacts.split_wallId.
  - exact T.
  - intro S. rewrite (selected_is_named s w R I) in S.
    destruct (Viewer.selectedWall s) as [i|]; [|discriminate].
    apply String.eqb_eq in S. now subst.
  - intro S. rewrite (selected_is_named s w R I), S. apply String.eqb_refl.
  - unfold Viewer.onWallListItemMouseOut. rewrite T.
    destruct (WallListFacts.find_id_some _ _ Ii) as (v & ->).
    destruct (negb _); eauto.
  - unfold Viewer.onWallListItemClick. rewrite T.
    unfold Viewer.selectWall. cbn.
    match goal with
    | |- context [existsb ?f ?l] => assert (X : existsb f l = true)
    end.
    { apply existsb_exists. eexists. split; [apply in_map; exact I|].
      cbn. apply String.eqb_refl. }
    rewrite X. reflexivity.
  - unfold Viewer.onWallListItemClick. rewrite T.
    unfold countSelected. cbn [Viewer.selectWall Viewer.clearWallStates Viewer.walls
                                Viewer.set_walls Viewer.set_selectedWall].
    rewrite map_map.
    rewrite (count_map_eq Wall.isSelected _ (fun v => (Wall.id v =? Wall.id w)%string)).
    + apply WallListFacts.count_one; [exact (ok_distinct K)|assumption].
    + intro v. cbn. destruct (Wall.id v =? Wall.id w)%string; reflexivity.
  - unfold Viewer.onWallListItemMouseOver. rewrite T.
    unfold countHighlighted. cbn [Viewer.highlightWall Viewer.walls Viewer.set_walls].
    rewrite (count_map_eq Wall.isHighlighted _ (fun v => (Wall.id v =? Wall.id w)%string)).
    + apply WallListFacts.count_one; [exact (ok_distinct K)|assumption].
    + intro v. apply ViewerFacts.highlight_flag.
Qed.

Lemma wall_list_items_are_valid_targets_witness :
  map item_wallId (updateWallList twoWalls) = ["wall_0"; "wall_1"]%string
  /\ map item_number (updateWallList twoWalls) = [Some "0"; Some "1"]%string.
Proof.
  destruct (wall_list_items_are_valid_targets twoWalls
              (ViewerFacts.reachable_run _ _ (Viewer.reachable_create 800 600)))
    as (E & _).
  split; [rewrite E|]; vm_compute; reflexivity.
Defined.

(** ** The 2D document and its wall command *)

Module DocumentFacts.
Import Document2DListeners.

(** *** The [Map] *)

Lemma mapSet_keys (k : string) (v : Mesh) (m : list (string * Mesh)) :
  map fst (Document2D.mapSet k v m)
  = if existsb (String.eqb k) (map fst m) then map fst m else map fst m ++ [k].
Proof.
  induction m as [|[k' v'] m IH]; [reflexivity|].
  cbn [Document2D.mapSet map fst existsb].
  rewrite (String.eqb_sym k k').
  destruct (String.eqb_spec k' k) as [->|N]; cbn [orb map fst].
  - reflexivity.
  - rewrite IH. destruct (existsb (String.eqb k) (map fst m)); reflexivity.
Qed.

Lemma existsb_eqb_In (k : string) (l : list string) :
  existsb (String.eqb k) l = true <-> In k l.
Proof.
  rewrite existsb_exists. split.
  - intros (x & I & E). apply String.eqb_eq in E. now subst.
  - intro I. exists k. split; [assumption|apply String.eqb_refl].
Qed.

Lemma mapSet_In_keys (k : string) (v : Mesh) (m : list (string * Mesh)) (i : string) :
  In i (map fst (Document2D.mapSet k v m)) <-> i = k \/ In i (map fst m).
Proof.
  rewrite mapSet_keys.
  destruct (existsb (String.eqb k) (map fst m)) eqn:E.
  - apply existsb_eqb_In in E. split; [auto|]. intros [->|I]; assumption.
  - rewrite in_app_iff. cbn. intuition.
Qed.

Lemma mapSet_NoDup (k : string) (v : Mesh) (m : list (string * Mesh)) :
  NoDup (map fst m) -> NoDup (map fst (Document2D.mapSet k v m)).
Proof.
  intro N. rewrite mapSet_keys.
  destruct (existsb (String.eqb k) (map fst m)) eqn:E; [assumption|].
  apply NoDup_app; [assumption|repeat constructor; intros []|].
  intros x I [<-|[]]. apply existsb_eqb_In in I. congruence.
Qed.

Lemma mapSet_Forall (P : string * Mesh -> Prop) (k : string) (v : Mesh)
    (m : list (string * Mesh)) :
  Forall P m -> P (k, v) -> Forall P (Document2D.mapSet k v m).
Proof.
  intros F H. induction F as [|[k' v'] m Hx F IH]; cbn [Document2D.mapSet].
  - repeat constructor. assumption.
  - destruct (k' =? k)%string; constructor; assumption.
Qed.

(** *** Taking one mesh out of the scene *)

Lemma meshId_inj (l : list Mesh) (m p : Mesh) :
  NoDup (map meshId l) -> In m l -> In p l -> meshId m = meshId p -> m = p.
Proof.
  induction l as [|x l IH]; [intros _ []|].
  cbn [map]. intros N Im Ip E. inversion N as [|? ? X N']; subst.
  destruct Im as [->|Im], Ip as [->|Ip].
  - reflexivity.
  - exfalso. apply X. rewrite E. now apply in_map.
  - exfalso. apply X. rewrite <- E. now apply in_map.
  - now apply IH.
Qed.

Lemma without_In (p m : Mesh) (l : list Mesh) :
  In m (withoutMesh p l) <-> In m l /\ meshId m <> meshId p.
Proof.
  unfold withoutMesh. rewrite filter_In, negb_true_iff, Nat.eqb_neq. reflexivity.
Qed.

Lemma without_keeps (p : Mesh) (l : list Mesh) :
  Forall (fun m => meshId m <> meshId p) l -> withoutMesh p l = l.
Proof.
  induction 1 as [|m l H F IH]; [reflexivity|].
  unfold withoutMesh in *. cbn [filter].
  apply Nat.eqb_neq in H. rewrite H. cbn [negb]. now f_equal.
Qed.

Lemma without_filter (f : Mesh -> bool) (p : Mesh) (l : list Mesh) :
  filter f (withoutMesh p l) = withoutMesh p (filter f l).
Proof.
  unfold withoutMesh. induction l as [|m l IH]; [reflexivity|].
  cbn [filter].
  destruct (f m) eqn:F, (negb (meshId m =? meshId p)) eqn:E; cbn [filter];
    rewrite ?F, ?E, IH; reflexivity.
Qed.

Lemma without_ids (p : Mesh) (l : list Mesh) (n : nat) :
  In n (map meshId (withoutMesh p l)) <-> In n (map meshId l) /\ n <> meshId p.
Proof.
  rewrite !in_map_iff. split.
  - intros (m & <- & I). apply without_In in I. destruct I. eauto.
  - intros ((m & <- & I) & N). exists m. split; [reflexivity|].
    apply without_In. auto.
Qed.

Lemma without_NoDup (p : Mesh) (l : list Mesh) :
  NoDup (map meshId l) -> NoDup (map meshId (withoutMesh p l)).
Proof.
  unfold withoutMesh. induction l as [|m l IH]; [intros; constructor|].
  cbn [map filter]. intro N. inversion N as [|? ? X N']; subst.
  destruct (negb (meshId m =? meshId p)); [|auto].
  cbn [map]. constructor; [|auto].
  intro I. apply X. apply (proj1 (without_ids p l (meshId m))) in I. tauto.
Qed.

(** *** The scene invariant *)

Lemma scene_inv_same (d d' : Document2D.t) (pw : option Mesh) :
  documentObjects d' = documentObjects d -> scene_inv d pw -> scene_inv d' pw.
Proof.
  unfold documentObjects. intros E [? ? ? ? ? ? ? ? ? ? ? ? ?].
  injection E as Ew Em Es Ed En.
  constructor; rewrite ?Ew, ?Em, ?Es, ?Ed, ?En; assumption.
Qed.

Lemma objects_dropped (p : Mesh) (d : Document2D.t) :
  userData_wallId p = None ->
  Document2D.walls (dropped p d) = Document2D.walls d
  /\ Document2D.wallMeshes (dropped p d) = Document2D.wallMeshes d
  /\ Document2D.scene (dropped p d) = withoutMesh p (Document2D.scene d)
  /\ Document2D.disposed (dropped p d) = meshId p :: Document2D.disposed d
  /\ Document2D.nextObjectId (dropped p d) = Document2D.nextObjectId d.
Proof.
  intro U. unfold dropped, Document2D.removeObject. cbn. rewrite U.
  repeat split; reflexivity.
Qed.

Lemma preview_in_scene (d : Document2D.t) (p : Mesh) :
  scene_inv d (Some p) -> In p (Document2D.scene d) /\ isWallMesh p = false.
Proof.
  intros [P _ _ _ _ _ _ _ _ _ _ _ _].
  assert (I : In p (filter (fun m => negb (isWallMesh m)) (Document2D.scene d)))
    by (rewrite P; now left).
  apply filter_In in I. destruct I as (I & W). apply negb_true_iff in W. auto.
Qed.

Lemma wall_meshes_stay (d : Document2D.t) (p : Mesh) :
  scene_inv d (Some p) ->
  withoutMesh p (filter isWallMesh (Document2D.scene d))
  = filter isWallMesh (Document2D.scene d).
Proof.
  intro H. destruct (preview_in_scene d p H) as (Ip & Wp).
  apply without_keeps, Forall_forall. intros m I E.
  apply filter_In in I. destruct I as (I & W).
  assert (m = p) by (eapply meshId_inj; eauto using inv_distinct).
  congruence.
Qed.

Lemma scene_inv_dropped (d : Document2D.t) (p : Mesh) :
  scene_inv d (Some p) -> scene_inv (dropped p d) None.
Proof.
  intro H. pose proof (preview_in_scene d p H) as (Ip & Wp).
  pose proof (wall_meshes_stay d p H) as K.
  pose proof (inv_preview_plain _ _ H p eq_refl) as U.
  destruct (objects_dropped p d U) as (Ow & Om & Os & Od & On).
  destruct H as [P _ F D DO DG D1 A M K1 K2 E UF].
  constructor; rewrite ?Ow, ?Om, ?Os, ?Od, ?On; try assumption.
  - rewrite without_filter, P. unfold withoutMesh. cbn [filter].
    rewrite Nat.eqb_refl. reflexivity.
  - discriminate.
  - apply Forall_forall. intros m I. apply without_In in I.
    rewrite Forall_forall in F. apply F. tauto.
  - now apply without_NoDup.
  - constructor; [|assumption]. rewrite Forall_forall in F. apply (F p Ip).
  - intros n [<-|I] J; apply without_ids in J; [tauto|]. apply (DG n I). tauto.
  - constructor; [|assumption]. intro I. apply (DG _ I). now apply in_map.
  - intros n L. destruct (Nat.eq_dec n (meshId p)) as [->|N]; [right; now left|].
    destruct (A n L) as [I|I]; [left|right; now right].
    apply without_ids. auto.
  - rewrite without_filter, K. assumption.
  - rewrite Forall_forall in *. intros km I. destruct (E km I) as (I1 & I2).
    split; [|assumption]. apply without_In. split; [assumption|].
    intro X. assert (snd km = p) by (eapply meshId_inj; eauto). congruence.
Qed.

Lemma fresh_absent (d : Document2D.t) (pw : option Mesh) :
  scene_inv d pw ->
  ~ In (Document2D.nextObjectId d) (map meshId (Document2D.scene d)).
Proof.
  intros H I. apply in_map_iff in I. destruct I as (m & E & I).
  pose proof (inv_fresh _ _ H) as F. rewrite Forall_forall in F.
  specialize (F m I). lia.
Qed.

Lemma scene_inv_previewed (d : Document2D.t) (m : Mesh) :
  meshId m = Document2D.nextObjectId d -> userData_wallId m = None ->
  scene_inv d None -> scene_inv (previewed m d) (Some m).
Proof.
  intros Em U H. pose proof (fresh_absent d None H) as FA.
  destruct H as [P _ F D DO DG D1 A M K1 K2 E UF].
  assert (W : isWallMesh m = false) by (unfold isWallMesh; now rewrite U).
  constructor; cbn.
  - rewrite filter_app, P. cbn. rewrite W. reflexivity.
  - intros p [= <-]. assumption.
  - apply Forall_app. split.
    + eapply Forall_impl; [|exact F]. cbn. intros; lia.
    + constructor; [lia|constructor].
  - rewrite map_app. cbn. apply NoDup_app; [assumption|repeat constructor; intros []|].
    intros x I [<-|[]]. congruence.
  - eapply Forall_impl; [|exact DO]. cbn. intros; lia.
  - intros n I J. rewrite map_app, in_app_iff in J. destruct J as [J|[J|[]]].
    + now apply (DG n).
    + rewrite Forall_forall in DO. specialize (DO n I). lia.
  - assumption.
  - intros n L. rewrite map_app, in_app_iff. cbn.
    destruct (Nat.eq_dec n (Document2D.nextObjectId d)) as [->|N]; [left; right; left; auto|].
    destruct (A n ltac:(lia)); auto.
  - rewrite filter_app. cbn. rewrite W, app_nil_r. assumption.
  - assumption.
  - assumption.
  - eapply Forall_impl; [|exact E]. cbn. intros km (I & X). split; [|assumption].
    apply in_app_iff. now left.
  - assumption.
Qed.

Lemma wallIdAt_truthy (now : Z) : (wallIdAt now =? "")%string = false.
Proof. reflexivity. Qed.

Lemma scene_inv_drawWall (now : Z) (a b : Vector3.t) (d : Document2D.t)
    (pw : option Mesh) :
  scene_inv d pw -> scene_inv (snd (Document2D.drawWall now a b d)) pw.
Proof.
  intro H. pose proof (fresh_absent d pw H) as FA.
  destruct H as [P PP F D DO DG D1 A M K1 K2 E UF].
  set (mesh := Build_Mesh (Document2D.nextObjectId d)
                 (Vector2.length (Vector2.new (Vector3.x b - Vector3.x a)
                                              (Vector3.y b - Vector3.y a)))
                 (Vector3.new ((Vector3.x a + Vector3.x b) / 2)
                              ((Vector3.y a + Vector3.y b) / 2) 0)
                 (Math.atan2 (Vector3.y b - Vector3.y a) (Vector3.x b - Vector3.x a))
                 (Some (wallIdAt now))).
  assert (W : isWallMesh mesh = true) by reflexivity.
  constructor; cbn [Document2D.drawWall snd Document2D.walls Document2D.wallMeshes
                    Document2D.scene Document2D.disposed Document2D.nextObjectId
                    Vector2.x Vector2.y]; fold mesh.
  - rewrite filter_app, P. cbn [filter]. rewrite W. apply app_nil_r.
  - assumption.
  - apply Forall_app. split.
    + eapply Forall_impl; [|exact F]. cbn. intros; lia.
    + constructor; [cbn; lia|constructor].
  - rewrite map_app. cbn [map]. apply NoDup_app; [assumption|repeat constructor; intros []|].
    intros x I [<-|[]]. exact (FA I).
  - eapply Forall_impl; [|exact DO]. cbn. intros; lia.
  - intros n I J. rewrite map_app, in_app_iff in J. destruct J as [J|[J|[]]].
    + now apply (DG n).
    + rewrite Forall_forall in DO. specialize (DO n I). cbn in J. lia.
  - assumption.
  - intros n L. rewrite map_app, in_app_iff. cbn [map In meshId mesh].
    destruct (Nat.eq_dec n (Document2D.nextObjectId d)) as [->|N]; [left; right; left; auto|].
    destruct (A n ltac:(lia)); auto.
  - rewrite filter_app. cbn [filter]. rewrite W.
    apply Forall2_app; [assumption|]. repeat constructor.
  - now apply mapSet_NoDup.
  - intro i. rewrite mapSet_In_keys, map_app, in_app_iff, K2. cbn. intuition.
  - apply mapSet_Forall.
    + eapply Forall_impl; [|exact E]. cbn. intros km (I & X). split; [|assumption].
      apply in_app_iff. now left.
    + cbn. split; [|reflexivity]. apply in_app_iff. right. now left.
  - apply Forall_app. split; [assumption|]. repeat constructor.
Qed.

End DocumentFacts.

Module DocumentSteps.
Import Document2DListeners DocumentFacts.

Lemma scene_inv_base (c : CreateWallCommand.t) :
  scene_inv (CreateWallCommand.document c) (CreateWallCommand.previewWall c) ->
  scene_inv (clearedScene c) None.
Proof.
  unfold clearedScene.
  destruct (CreateWallCommand.previewWall c); [apply scene_inv_dropped|auto].
Qed.

Lemma walls_base (c : CreateWallCommand.t) :
  Document2D.walls (clearedScene c) = Document2D.walls (CreateWallCommand.document c).
Proof. unfold clearedScene. destruct (CreateWallCommand.previewWall c); reflexivity. Qed.

Lemma onMouseUp_cases (u : Vector3.t -> Vector3.t) (now : Z) (e : MouseEvent)
    (c : CreateWallCommand.t) :
  let c' := CreateWallCommand.onMouseUp u now e c in
  (c' = c
   /\ (button e <> 0%Z \/ CreateWallCommand.drawing c = false
       \/ CreateWallCommand.startPoint c = None))
  \/ (button e = 0%Z /\ CreateWallCommand.drawing c = true
      /\ exists a,
          CreateWallCommand.startPoint c = Some a
          /\ CreateWallCommand.document c'
             = snd (Document2D.drawWall now a (pointerPoint u c) (clearedScene c))
          /\ CreateWallCommand.previewWall c' = None
          /\ if shiftKey e then
               CreateWallCommand.startPoint c' = Some (pointerPoint u c)
               /\ CreateWallCommand.drawing c' = true
               /\ CreateWallCommand.isCreatingSeries c' = true
               /\ CreateWallCommand.lastEndPoint c' = Some (pointerPoint u c)
             else
               CreateWallCommand.startPoint c' = None
               /\ CreateWallCommand.drawing c' = false
               /\ CreateWallCommand.isCreatingSeries c' = false
               /\ CreateWallCommand.lastEndPoint c' = None).
Proof.
  unfold CreateWallCommand.onMouseUp, clearedScene, pointerPoint.
  destruct (Z.eqb_spec (button e) 0) as [B|B]; cbn [negb]; [|left; auto].
  destruct (CreateWallCommand.drawing c) eqn:D; [|left; auto].
  destruct (CreateWallCommand.startPoint c) as [a|] eqn:A; [|left; auto].
  right. split; [assumption|split; [reflexivity|]]. exists a. split; [reflexivity|].
  destruct c as [d sp ep m dr pw se le]. cbn in D, A. subst.
  destruct pw as [p|], (shiftKey e); cbn; auto 10.
Qed.

Lemma onMouseDown_cases (u : Vector3.t -> Vector3.t) (e : MouseEvent)
    (c : CreateWallCommand.t) :
  let c' := CreateWallCommand.onMouseDown u e c in
  CreateWallCommand.document c' = CreateWallCommand.document c
  /\ CreateWallCommand.previewWall c' = CreateWallCommand.previewWall c
  /\ CreateWallCommand.isCreatingSeries c' = CreateWallCommand.isCreatingSeries c
  /\ CreateWallCommand.lastEndPoint c' = CreateWallCommand.lastEndPoint c
  /\ (c' = c
      \/ (CreateWallCommand.isCreatingSeries c = false
          /\ CreateWallCommand.drawing c' = true
          /\ CreateWallCommand.startPoint c' = Some (pointerPoint u c))).
Proof.
  unfold CreateWallCommand.onMouseDown, pointerPoint.
  destruct (negb (button e =? 0)%Z); [auto 10|].
  destruct (CreateWallCommand.isCreatingSeries c) eqn:S; cbn; auto 10.
Qed.

Lemma onMouseMove_cases (u : Vector3.t -> Vector3.t) (rect : DOMRect) (e : MouseEvent)
    (c : CreateWallCommand.t) :
  let c' := CreateWallCommand.onMouseMove u rect e c in
  CreateWallCommand.startPoint c' = CreateWallCommand.startPoint c
  /\ CreateWallCommand.drawing c' = CreateWallCommand.drawing c
  /\ CreateWallCommand.isCreatingSeries c' = CreateWallCommand.isCreatingSeries c
  /\ CreateWallCommand.lastEndPoint c' = CreateWallCommand.lastEndPoint c
  /\ ((CreateWallCommand.document c' = CreateWallCommand.document c
       /\ CreateWallCommand.previewWall c' = CreateWallCommand.previewWall c)
      \/ (CreateWallCommand.drawing c = true
          /\ exists m,
              meshId m = Document2D.nextObjectId (clearedScene c)
              /\ userData_wallId m = None
              /\ CreateWallCommand.document c' = previewed m (clearedScene c)
              /\ CreateWallCommand.previewWall c' = Some m)).
Proof.
  unfold CreateWallCommand.onMouseMove, clearedScene.
  destruct c as [d sp ep m dr pw se le].
  cbn [CreateWallCommand.document CreateWallCommand.startPoint CreateWallCommand.endPoint
       CreateWallCommand.mouse CreateWallCommand.drawing CreateWallCommand.previewWall
       CreateWallCommand.isCreatingSeries CreateWallCommand.lastEndPoint].
  destruct dr; [|cbn; auto 10].
  destruct (if se then le else sp) as [a|]; [|cbn; auto 10].
  destruct pw as [p|]; cbn; repeat (split; [reflexivity|]); right;
    (split; [reflexivity|]); eexists; repeat split; reflexivity.
Qed.

Lemma doc_inv_onDocument (f : Document2D.t -> Document2D.t) (c : CreateWallCommand.t) :
  (forall d, documentObjects (f d) = documentObjects d) ->
  doc_inv c -> doc_inv (onDocument f c).
Proof.
  intros F ([A I S N] & H). pose proof (F (CreateWallCommand.document c)) as O.
  split.
  - constructor; cbn; try assumption.
    intro X. destruct (S X) as (L & ws & w & W & P). split; [assumption|].
    exists ws, w. split; [|assumption]. unfold documentObjects in O. congruence.
  - cbn. eapply scene_inv_same; eassumption.
Qed.

Lemma doc_inv_onMouseDown (u : Vector3.t -> Vector3.t) (e : MouseEvent)
    (c : CreateWallCommand.t) :
  doc_inv c -> doc_inv (CreateWallCommand.onMouseDown u e c).
Proof.
  intros ([A I S N] & H).
  destruct (onMouseDown_cases u e c) as (Ed & Ep & Es & El & [E|(S0 & D & P)]).
  { rewrite E. split; [constructor|]; assumption. }
  split; [|rewrite Ed, Ep; assumption].
  constructor; rewrite ?Ed, ?Ep, ?Es, ?El, ?D, ?P; try assumption.
  - eauto.
  - discriminate.
  - congruence.
Qed.

Lemma doc_inv_onMouseMove (u : Vector3.t -> Vector3.t) (rect : DOMRect) (e : MouseEvent)
    (c : CreateWallCommand.t) :
  doc_inv c -> doc_inv (CreateWallCommand.onMouseMove u rect e c).
Proof.
  intros ([A I S N] & H).
  destruct (onMouseMove_cases u rect e c)
    as (Ea & Ed & Es & El & [(E1 & E2)|(D & m & M1 & M2 & E1 & E2)]).
  - split; [|rewrite E1, E2; assumption].
    constructor; rewrite ?Ea, ?Ed, ?Es, ?El, ?E1, ?E2; assumption.
  - split.
    + constructor; rewrite ?Ea, ?Ed, ?Es, ?El, ?E1, ?E2; try assumption.
      * congruence.
      * intro X. destruct (S X) as (L & ws & w & W & P). split; [assumption|].
        exists ws, w. split; [|assumption].
        change (Document2D.walls (previewed m (clearedScene c)))
          with (Document2D.walls (clearedScene c)).
        rewrite walls_base. assumption.
    + rewrite E1, E2. apply scene_inv_previewed; [assumption|assumption|].
      now apply scene_inv_base.
Qed.

Lemma drawn_wall (now : Z) (a b : Vector3.t) (d : Document2D.t) :
  Document2D.walls (snd (Document2D.drawWall now a b d))
  = Document2D.walls d ++ [fst (Document2D.drawWall now a b d)]
  /\ Wall.start (fst (Document2D.drawWall now a b d)) = a
  /\ Wall.end_ (fst (Document2D.drawWall now a b d)) = b.
Proof. destruct a, b. repeat split; reflexivity. Qed.

Lemma doc_inv_onMouseUp (u : Vector3.t -> Vector3.t) (now : Z) (e : MouseEvent)
    (c : CreateWallCommand.t) :
  doc_inv c -> doc_inv (CreateWallCommand.onMouseUp u now e c).
Proof.
  intros (C & H).
  destruct (onMouseUp_cases u now e c) as [(E & _)|(B & D & a & A & Ed & Ep & X)].
  { rewrite E. split; assumption. }
  destruct (drawn_wall now a (pointerPoint u c) (clearedScene c)) as (W & Ws & We).
  split.
  - destruct (shiftKey e).
    + destruct X as (X1 & X2 & X3 & X4).
      constructor; rewrite ?X1, ?X2, ?X3, ?X4, ?Ep, ?Ed; try discriminate; eauto.
      intros _. split; [reflexivity|].
      exists (Document2D.walls (clearedScene c)),
             (fst (Document2D.drawWall now a (pointerPoint u c) (clearedScene c))).
      split; [assumption|]. now rewrite We.
    + destruct X as (X1 & X2 & X3 & X4).
      constructor; rewrite ?X1, ?X2, ?X3, ?X4, ?Ep, ?Ed; try discriminate; auto.
  - rewrite Ed, Ep. apply scene_inv_drawWall. now apply scene_inv_base.
Qed.

Lemma doc_inv_handle (ev : Event) (c : CreateWallCommand.t) :
  doc_inv c -> doc_inv (handle ev c).
Proof.
  intro H. destruct ev as [hits u e|u now e|hits u rect e];
    cbn [handle]; unfold onMouseDown, onMouseUp, onMouseMove.
  - destruct hits.
    + apply doc_inv_onMouseDown, doc_inv_onDocument; [reflexivity|assumption].
    + apply doc_inv_onDocument; [reflexivity|assumption].
  - now apply doc_inv_onMouseUp.
  - apply doc_inv_onMouseMove.
    destruct hits; destruct (Document2D.highlightedWall _) as [h|];
      try destruct (String.eqb _ _); try assumption;
      (apply doc_inv_onDocument; [reflexivity|assumption]).
Qed.

Lemma doc_inv_create : doc_inv (CreateWallCommand.create Document2D.empty).
Proof.
  split; constructor; cbn; try discriminate; auto; try constructor;
    try (intros; lia); try tauto.
Qed.

Lemma reachable_doc_inv (c : CreateWallCommand.t) : reachable c -> doc_inv c.
Proof.
  induction 1; [apply doc_inv_create|now apply doc_inv_handle].
Qed.

Lemma doc_reachable_run (evs : list Event) (c : CreateWallCommand.t) :
  reachable c -> reachable (run evs c).
Proof.
  revert c. induction evs as [|ev evs IH]; intros c R; [assumption|].
  apply IH. now constructor.
Qed.

End DocumentSteps.

(** X15. In every state the 2D document and its wall command can reach, the
    command's gesture is consistent: while [drawing] there is a start point;
    when not drawing there is no start point, no preview mesh and no series;
    a series is always drawing, with [lastEndPoint] equal to [startPoint];
    outside a series [lastEndPoint] is null. *)
Theorem command_gesture_is_consistent (c : CreateWallCommand.t) :
  Document2DListeners.reachable c ->
  (CreateWallCommand.drawing c = true ->
   exists a, CreateWallCommand.startPoint c = Some a)
  /\ (CreateWallCommand.drawing c = false ->
      CreateWallCommand.startPoint c = None
      /\ CreateWallCommand.previewWall c = None
      /\ CreateWallCommand.isCreatingSeries c = false)
  /\ (CreateWallCommand.isCreatingSeries c = true ->
      CreateWallCommand.drawing c = true
      /\ CreateWallCommand.lastEndPoint c = CreateWallCommand.startPoint c)
  /\ (CreateWallCommand.isCreatingSeries c = false ->
      CreateWallCommand.lastEndPoint c = None).
Proof.
  intro R. destruct (DocumentSteps.reachable_doc_inv c R) as ([A I S N] & _).
  repeat split; try assumption.
  - now apply I.
  - now apply I.
  - now apply I.
  - destruct (CreateWallCommand.drawing c); [reflexivity|].
    destruct (I eq_refl) as (_ & _ & X). congruence.
  - now apply S.
Qed.

Lemma command_gesture_is_consistent_witness :
  CreateWallCommand.drawing seriesStarted = true
  /\ CreateWallCommand.lastEndPoint seriesStarted
     = CreateWallCommand.startPoint seriesStarted.
Proof.
  apply (proj1 (proj2 (proj2 (command_gesture_is_consistent seriesStarted
           (DocumentSteps.doc_reachable_run dragRelease _
              Document2DListeners.reachable_create))))).
  reflexivity.
Defined.

(** X16. In every reachable state of the 2D document the only scene mesh
    withoutMesh a wall id is the command's current preview; scene documentObjects are
    pairwise distinct; no object is disposed twice, a disposed object is no
    longer in the scene, and every mesh ever created is in the scene or has
    been disposed: replaced and committed previews do not pile up. *)
Theorem preview_meshes_do_not_pile_up (c : CreateWallCommand.t) :
  Document2DListeners.reachable c ->
  let d := CreateWallCommand.document c in
  filter (fun m => negb (isWallMesh m)) (Document2D.scene d)
  = match CreateWallCommand.previewWall c with Some p => [p] | None => [] end
  /\ NoDup (map meshId (Document2D.scene d))
  /\ NoDup (Document2D.disposed d)
  /\ (forall n, In n (Document2D.disposed d) ->
        ~ In n (map meshId (Document2D.scene d)))
  /\ (forall n, n < Document2D.nextObjectId d ->
        In n (map meshId (Document2D.scene d)) \/ In n (Document2D.disposed d)).
Proof.
  intro R. destruct (DocumentSteps.reachable_doc_inv c R) as (_ & H).
  destruct H. cbv zeta. auto.
Qed.

Lemma preview_meshes_do_not_pile_up_witness :
  filter (fun m => negb (isWallMesh m))
    (Document2D.scene (CreateWallCommand.document seriesStarted))
  = match CreateWallCommand.previewWall seriesStarted with
    | Some p => [p]
    | None => []
    end.
Proof.
  exact (proj1 (preview_meshes_do_not_pile_up seriesStarted
           (DocumentSteps.doc_reachable_run dragRelease _
              Document2DListeners.reachable_create))).
Defined.

(** X17. In every reachable state of the 2D document the wall meshes of the
    scene are, in order, the meshes of the walls: same id, plane length the
    wall's length, rotation the wall's angle, placed at the mid point.  The
    keys of [wallMeshes] are pairwise distinct and are exactly the ids of the
    walls, each entry is a scene mesh carrying its key, and the map never
    has more entries than there are walls.  The walls carry no flags. *)
Theorem wall_meshes_mirror_the_walls (c : CreateWallCommand.t) :
  Document2DListeners.reachable c ->
  let d := CreateWallCommand.document c in
  Forall2 meshOf (Document2D.walls d) (filter isWallMesh (Document2D.scene d))
  /\ NoDup (map fst (Document2D.wallMeshes d))
  /\ (forall id, In id (map fst (Document2D.wallMeshes d))
                 <-> In id (map Wall.id (Document2D.walls d)))
  /\ Forall (fun km => In (snd km) (Document2D.scene d)
                       /\ userData_wallId (snd km) = Some (fst km))
       (Document2D.wallMeshes d)
  /\ List.length (Document2D.wallMeshes d) <= List.length (Document2D.walls d)
  /\ List.length (Document2D.scene d)
     = List.length (Document2D.walls d)
       + match CreateWallCommand.previewWall c with Some _ => 1 | None => 0 end
  /\ Forall (fun w => Wall.selected w = None /\ Wall.highlighted w = None)
       (Document2D.walls d).
Proof.
  intro R. destruct (DocumentSteps.reachable_doc_inv c R) as (_ & H).
  destruct H as [P _ F D DO DG D1 A M K1 K2 E UF]. cbv zeta.
  repeat split; try assumption; try apply K2.
  - rewrite <- (length_map fst), <- (length_map Wall.id (Document2D.walls _)).
    apply NoDup_incl_length; [assumption|]. intros i. apply K2.
  - rewrite <- (filter_length isWallMesh (Document2D.scene _)), P.
    rewrite (Forall2_length M).
    destruct (CreateWallCommand.previewWall c); reflexivity.
Qed.

Lemma wall_meshes_mirror_the_walls_witness :
  List.length (Document2D.scene (CreateWallCommand.document seriesStarted))
  = List.length (Document2D.walls (CreateWallCommand.document seriesStarted))
    + match CreateWallCommand.previewWall seriesStarted with
      | Some _ => 1
      | None => 0
      end.
Proof.
  exact (proj1 (proj2 (proj2 (proj2 (proj2 (proj2
           (wall_meshes_mirror_the_walls seriesStarted
              (DocumentSteps.doc_reachable_run dragRelease _
                 Document2DListeners.reachable_create)))))))).
Defined.

(** X18. While the command is in a series, every left-button release adds
    exactly one wall, and that wall starts where the last wall of the
    document ends and ends at the unprojected pointer: the walls of a series
    are connected end to start. *)
Theorem series_walls_are_connected (u : Vector3.t -> Vector3.t) (now : Z)
    (e : MouseEvent) (c : CreateWallCommand.t) :
  Document2DListeners.reachable c ->
  CreateWallCommand.isCreatingSeries c = true ->
  button e = 0%Z ->
  exists ws w w',
    Document2D.walls (CreateWallCommand.document c) = ws ++ [w]
    /\ Document2D.walls
         (CreateWallCommand.document (Document2DListeners.onMouseUp u now e c))
       = ws ++ [w; w']
    /\ Wall.start w' = Wall.end_ w
    /\ Wall.end_ w' = pointerPoint u c.
Proof.
  intros R S B. destruct (DocumentSteps.reachable_doc_inv c R) as ([A I Sr N] & _).
  destruct (Sr S) as (_ & ws & w & W & P).
  assert (D : CreateWallCommand.drawing c = true).
  { destruct (CreateWallCommand.drawing c); [reflexivity|].
    destruct (I eq_refl) as (_ & _ & X). congruence. }
  unfold Document2DListeners.onMouseUp.
  destruct (DocumentSteps.onMouseUp_cases u now e c)
    as [(_ & [X|[X|X]])|(_ & _ & a & Ea & Ed & _)]; try congruence.
  destruct (DocumentSteps.drawn_wall now a (pointerPoint u c)
              (clearedScene c)) as (W1 & Ws & We).
  exists ws, w, (fst (Document2D.drawWall now a (pointerPoint u c)
                        (clearedScene c))).
  split; [assumption|]. rewrite Ed, W1, DocumentSteps.walls_base, W, <- app_assoc.
  split; [reflexivity|]. split; [congruence|assumption].
Qed.

Lemma series_walls_are_connected_witness :
  exists ws w w',
    Document2D.walls (CreateWallCommand.document seriesStarted) = ws ++ [w]
    /\ Document2D.walls
         (CreateWallCommand.document
            (Document2DListeners.onMouseUp unitCamera 1700000000001%Z leftClick
               seriesStarted))
       = ws ++ [w; w']
    /\ Wall.start w' = Wall.end_ w.
Proof.
  destruct (series_walls_are_connected unitCamera 1700000000001%Z leftClick seriesStarted
              (DocumentSteps.doc_reachable_run dragRelease _
                 Document2DListeners.reachable_create) eq_refl eq_refl)
    as (ws & w & w' & A & B & C & _).
  exists ws, w, w'. auto.
Defined.

Lemma walls_handle (ev : Document2DListeners.Event) (c : CreateWallCommand.t) :
  exists ws,
    Document2D.walls (CreateWallCommand.document (Document2DListeners.handle ev c))
    = Document2D.walls (CreateWallCommand.document c) ++ ws
    /\ List.length ws <= if Document2DListeners.isLeftRelease ev then 1 else 0.
Proof.
  destruct ev as [hits u e|u now e|hits u rect e]; cbn [Document2DListeners.handle].
  - exists []. rewrite app_nil_r. split; [|cbn; lia].
    unfold Document2DListeners.onMouseDown. destruct hits; [|reflexivity].
    destruct (DocumentSteps.onMouseDown_cases u e
                (Document2DListeners.onDocument Document2D.clearWallStates c))
      as (-> & _). reflexivity.
  - unfold Document2DListeners.onMouseUp.
    destruct (DocumentSteps.onMouseUp_cases u now e c)
      as [(-> & _)|(B & _ & a & _ & -> & _)].
    + exists []. rewrite app_nil_r. split; [reflexivity|cbn; lia].
    + eexists. split.
      * rewrite (proj1 (DocumentSteps.drawn_wall _ _ _ _)), DocumentSteps.walls_base.
        reflexivity.
      * cbn. rewrite B. cbn. lia.
  - exists []. rewrite app_nil_r. split; [|cbn; lia].
    unfold Document2DListeners.onMouseMove.
    match goal with
    | |- context [CreateWallCommand.onMouseMove u rect e ?x] =>
        assert (X : Document2D.walls (CreateWallCommand.document x)
                    = Document2D.walls (CreateWallCommand.document c))
          by (destruct hits; destruct (Document2D.highlightedWall _);
              try destruct (String.eqb _ _); reflexivity);
        destruct (DocumentSteps.onMouseMove_cases u rect e x)
          as (_ & _ & _ & _ & [(-> & _)|(_ & m & _ & _ & -> & _)])
    end.
    + assumption.
    + change (Document2D.walls (previewed m ?b)) with (Document2D.walls b).
      rewrite DocumentSteps.walls_base. assumption.
Qed.

(** X19. The 2D document never removes or rewrites a wall, and adds at most
    one wall per left-button release: after any events the walls are the
    earlier walls followed by new ones, no more of them than there were
    left-button releases.  Presses and moves add none. *)
Theorem document_walls_grow_only_by_left_releases
    (evs : list Document2DListeners.Event) (c : CreateWallCommand.t) :
  exists ws,
    Document2D.walls (CreateWallCommand.document (Document2DListeners.run evs c))
    = Document2D.walls (CreateWallCommand.document c) ++ ws
    /\ List.length ws
       <= List.length (filter Document2DListeners.isLeftRelease evs).
Proof.
  revert c. induction evs as [|ev evs IH]; intro c.
  - exists []. rewrite app_nil_r. split; [reflexivity|cbn; lia].
  - cbn [Document2DListeners.run fold_left].
    destruct (IH (Document2DListeners.handle ev c)) as (ws2 & E2 & L2).
    destruct (walls_handle ev c) as (ws1 & E1 & L1).
    exists (ws1 ++ ws2). split.
    + unfold Document2DListeners.run in E2. rewrite E2, E1, app_assoc. reflexivity.
    + rewrite length_app. cbn [filter].
      destruct (Document2DListeners.isLeftRelease ev); cbn [List.length]; lia.
Qed.

(** ** The page *)

Module MainFacts.
Import Main.

Local Open Scope string_scope.

Lemma toLowerCase_d (key : string) :
  (JSString.toLowerCase key =? "d")%string = ((key =? "d") || (key =? "D"))%string.
Proof.
  destruct key as [|c [|c' r]]; [reflexivity| |].
  - destruct c as [[] [] [] [] [] [] [] []]; reflexivity.
  - cbn [JSString.toLowerCase]. 
    transitivity false.
    + apply String.eqb_neq. intro E. discriminate E.
    + symmetry. apply orb_false_iff. split; apply String.eqb_neq; intro E; discriminate E.
Qed.

Lemma listener_keeps_mode (ev : Viewer.Event) (s s' : Viewer.t) :
  isListener ev = true -> Viewer.handle ev s = Viewer.Ok s' ->
  Viewer.isDrawingMode s' = Viewer.isDrawingMode s.
Proof.
  intros L H. pose proof (ViewerFacts.zoomExtend_frame) as Z.
  destruct ev; try discriminate L; cbn [Viewer.handle] in H.
  all: unfold Viewer.onMouseDown, Viewer.onMouseDownAt, Viewer.onMouseMove,
         Viewer.onMouseMoveAt, Viewer.onMouseUp, Viewer.onWallListItemMouseOver,
         Viewer.onWallListItemMouseOut, Viewer.onWallListItemClick,
         Viewer.onWindowResize, Viewer.orbitControlsChange in H.
  all: ViewerFacts.split_handler; try reflexivity; try assumption.
  all: match goal with
       | H : Viewer.isDrawingMode ?s = ?b |- _ = ?b => rewrite <- H; clear
       end.
  all: unfold Viewer.addPreviewLine, Viewer.removePreviewLine, Viewer.addWall,
         Viewer.clearWallStates, Viewer.selectWall; cbn;
       repeat match goal with
              | |- context [match ?c with _ => _ end] => destruct c
              end; reflexivity.
Qed.

Lemma labelled_set_viewer (v : Viewer.t) (a : t) :
  Viewer.isDrawingMode v = Viewer.isDrawingMode (viewer a) ->
  labelled a -> labelled (set_viewer v a).
Proof. intros E (A & B & C). unfold labelled. cbn. rewrite E. auto. Qed.

Lemma labelled_toggle (a : t) :
  labelled (updateToggleModeButton (toggleDrawingMode a)).
Proof.
  unfold labelled, updateToggleModeButton, toggleDrawingMode.
  destruct (toggleModeButton a) eqn:T; cbn; rewrite ?T; cbn; rewrite ?T;
    destruct (Viewer.isDrawingMode (Viewer.toggleDrawingMode (viewer a)));
    repeat split; try reflexivity; try discriminate; intros text E; inversion E;
    reflexivity.
Qed.

Lemma labelled_handle (ev : Event) (a : t) : labelled a -> labelled (handle ev a).
Proof.
  intro H. destruct ev as [| | |key|ev]; cbn [handle].
  - unfold onSwitchTo2DClick. destruct (switchTo2DButton a); [|assumption].
    now apply labelled_set_viewer.
  - unfold onSwitchTo3DClick. destruct (switchTo3DButton a); [|assumption].
    now apply labelled_set_viewer.
  - unfold onToggleModeClick. destruct (toggleModeButton a); [|assumption].
    apply labelled_toggle.
  - unfold onKeyDown. destruct (String.eqb _ _); [apply labelled_toggle|assumption].
  - destruct (isListener ev) eqn:L; [|assumption].
    destruct (Viewer.handle ev (viewer a)) as [v|] eqn:E; [|assumption].
    apply labelled_set_viewer; [|assumption]. eapply listener_keeps_mode; eassumption.
Qed.

Lemma isDrawingMode_create (w h : float) :
  Viewer.isDrawingMode (Viewer.create w h) = true.
Proof.
  unfold Viewer.create.
  match goal with |- context [Viewer.zoomExtend ?x] =>
    destruct (ViewerFacts.zoomExtend_frame x) as [->|(c & tg & ->)] end; reflexivity.
Qed.

Lemma labelled_main (w h : float) (b2 b3 : bool) (bt : option string) :
  labelled (main w h b2 b3 bt).
Proof.
  unfold labelled, main, updateModeIndicator.
  destruct bt;
    cbn [viewer modeIndicator_textContent modeIndicator_className toggleModeButton];
    rewrite isDrawingMode_create;
    repeat split; try reflexivity; try discriminate. intros text E. inversion E.
  reflexivity.
Qed.

Lemma reachable_labelled (a : t) : reachable a -> labelled a.
Proof. induction 1; [apply labelled_main|now apply labelled_handle]. Qed.

Lemma reachable_viewer (a : t) : reachable a -> Viewer.reachable (viewer a).
Proof.
  induction 1 as [w h b2 b3 bt|ev a R IH].
  - unfold main, updateModeIndicator.
    destruct bt; cbn [viewer toggleModeButton]; constructor.
  - destruct ev as [| | |key|ev]; cbn [handle].
    + unfold onSwitchTo2DClick. destruct (switchTo2DButton a); [|assumption].
      exact (Viewer.reachable_handle (Viewer.SetView true) _ _ IH eq_refl).
    + unfold onSwitchTo3DClick. destruct (switchTo3DButton a); [|assumption].
      exact (Viewer.reachable_handle (Viewer.SetView false) _ _ IH eq_refl).
    + unfold onToggleModeClick, updateToggleModeButton, toggleDrawingMode.
      destruct (toggleModeButton a) eqn:T; [|assumption]. cbn. rewrite T. cbn.
      exact (Viewer.reachable_handle Viewer.ToggleDrawingMode _ _ IH eq_refl).
    + unfold onKeyDown, updateToggleModeButton, toggleDrawingMode.
      destruct (String.eqb _ _); [|assumption].
      destruct (toggleModeButton a) eqn:T; cbn; rewrite T; cbn;
        exact (Viewer.reachable_handle Viewer.ToggleDrawingMode _ _ IH eq_refl).
    + destruct (isListener ev); [|assumption].
      destruct (Viewer.handle ev (viewer a)) as [v|] eqn:E; [|assumption].
      exact (Viewer.reachable_handle ev _ _ IH E).
Qed.

Lemma main_reachable_run (evs : list Event) (a : t) : reachable a -> reachable (run evs a).
Proof.
  revert a. induction evs as [|ev evs IH]; intros a R; [assumption|].
  apply IH. now constructor.
Qed.

Lemma onKeyDown_d (a : t) :
  onKeyDown "d" a = updateToggleModeButton (toggleDrawingMode a)
  /\ onKeyDown "D" a = updateToggleModeButton (toggleDrawingMode a).
Proof. split; reflexivity. Qed.

Lemma viewer_toggled (a : t) :
  viewer (updateToggleModeButton (toggleDrawingMode a))
  = Viewer.toggleDrawingMode (viewer a).
Proof.
  unfold updateToggleModeButton, toggleDrawingMode, updateModeIndicator, set_viewer.
  cbn [toggleModeButton viewer]. destruct (toggleModeButton a); reflexivity.
Qed.

Lemma mode_toggleDrawingMode (v : Viewer.t) :
  Viewer.isDrawingMode (Viewer.toggleDrawingMode v) = negb (Viewer.isDrawingMode v).
Proof.
  unfold Viewer.toggleDrawingMode, Viewer.cleanupDrawing, Viewer.removePreviewLine.
  destruct v. cbn. destruct isDrawingMode; cbn; [destruct previewLine|]; reflexivity.
Qed.

Lemma toggled_page (a : t) :
  updateToggleModeButton (toggleDrawingMode a)
  = new (Viewer.toggleDrawingMode (viewer a))
        (if Viewer.isDrawingMode (Viewer.toggleDrawingMode (viewer a))
         then "Drawing Mode" else "Selection Mode")
        ("mode-indicator "
         ++ (if Viewer.isDrawingMode (Viewer.toggleDrawingMode (viewer a))
             then "drawing-mode" else "selection-mode"))
        (switchTo2DButton a) (switchTo3DButton a)
        (match toggleModeButton a with
         | Some _ =>
             Some (if Viewer.isDrawingMode (Viewer.toggleDrawingMode (viewer a))
                   then "Drawing Mode" else "Selection Mode")
         | None => None
         end).
Proof.
  unfold updateToggleModeButton, toggleDrawingMode, updateModeIndicator, set_viewer.
  cbn [toggleModeButton viewer modeIndicator_textContent modeIndicator_className
       switchTo2DButton switchTo3DButton].
  destruct (toggleModeButton a); reflexivity.
Qed.

Lemma toggle_twice_idle (v : Viewer.t) :
  gesture_inv v -> Viewer.isDrawing v = false ->
  Viewer.toggleDrawingMode (Viewer.toggleDrawingMode v) = v.
Proof.
  intros [Hi _ Hs] D. destruct (Hi D) as (A & P). rewrite P in Hs.
  destruct v. cbn in *. subst.
  unfold Viewer.toggleDrawingMode, Viewer.cleanupDrawing, Viewer.removePreviewLine.
  destruct isDrawingMode; reflexivity.
Qed.

Lemma toggled_twice_page (a : t) :
  labelled a -> gesture_inv (viewer a) -> Viewer.isDrawing (viewer a) = false ->
  updateToggleModeButton (toggleDrawingMode (updateToggleModeButton (toggleDrawingMode a)))
  = a.
Proof.
  intros (A & B & C) G D.
  rewrite (toggled_page (updateToggleModeButton (toggleDrawingMode a))).
  rewrite (toggled_page a).
  cbn [toggleModeButton viewer modeIndicator_textContent modeIndicator_className
       switchTo2DButton switchTo3DButton].
  rewrite (toggle_twice_idle _ G D).
  destruct a as [v text cls b2 b3 bt].
  cbn [toggleModeButton viewer modeIndicator_textContent modeIndicator_className
       switchTo2DButton switchTo3DButton] in *.
  rewrite A, B.
  destruct bt as [t0|]; [rewrite (C t0 eq_refl)|];
    destruct (Viewer.isDrawingMode v); reflexivity.
Qed.

End MainFacts.

(** X20. In every state the page can reach, the mode indicator's text and
    class and the toggle button's text name the viewer's current mode:
    "Drawing Mode" when [isDrawingMode] holds, "Selection Mode" otherwise;
    and the page's viewer is a reachable viewer. *)
Theorem mode_labels_name_the_current_mode (a : Main.t) :
  Main.reachable a ->
  Main.modeIndicator_textContent a
  = (if Viewer.isDrawingMode (Main.viewer a) then "Drawing Mode"
     else "Selection Mode")%string
  /\ Main.modeIndicator_className a
     = (if Viewer.isDrawingMode (Main.viewer a) then "mode-indicator drawing-mode"
        else "mode-indicator selection-mode")%string
  /\ (forall text, Main.toggleModeButton a = Some text ->
        text = if Viewer.isDrawingMode (Main.viewer a) then "Drawing Mode"%string
               else "Selection Mode"%string)
  /\ Viewer.reachable (Main.viewer a).
Proof.
  intro R. destruct (MainFacts.reachable_labelled a R) as (A & B & C).
  auto using MainFacts.reachable_viewer.
Qed.

Lemma mode_labels_name_the_current_mode_witness :
  Viewer.isDrawingMode (Main.viewer pageSession) = false
  /\ Main.modeIndicator_textContent pageSession = "Selection Mode"%string
  /\ Main.modeIndicator_className pageSession
     = "mode-indicator selection-mode"%string.
Proof.
  assert (M : Viewer.isDrawingMode (Main.viewer pageSession) = false)
    by (vm_compute; reflexivity).
  destruct (mode_labels_name_the_current_mode pageSession
              (MainFacts.main_reachable_run _ _
                 (Main.reachable_main 800 600 true true (Some "Toggle"%string))))
    as (A & B & _).
  rewrite M in A, B. auto.
Defined.

(** X21. The keyboard shortcut: a key other than d or D leaves the page as
    it is; d and D toggle the mode like the toggle button does; and, while
    no gesture is in progress, pressing the key twice gives back the very
    same page, labels included. *)
Theorem keydown_d_toggles_and_twice_restores (key : string) (a : Main.t) :
  Main.reachable a ->
  (key <> "d"%string -> key <> "D"%string -> Main.onKeyDown key a = a)
  /\ (Main.toggleModeButton a <> None ->
      Main.onKeyDown "d"%string a = Main.onToggleModeClick a
      /\ Main.onKeyDown "D"%string a = Main.onToggleModeClick a)
  /\ Viewer.isDrawingMode (Main.viewer (Main.onKeyDown "d"%string a))
     = negb (Viewer.isDrawingMode (Main.viewer a))
  /\ (Viewer.isDrawing (Main.viewer a) = false ->
      Main.onKeyDown "D"%string (Main.onKeyDown "d"%string a) = a).
Proof.
  intro R. destruct (MainFacts.onKeyDown_d a) as (Kd & KD).
  split; [|split; [|split]].
  - intros N1 N2. unfold Main.onKeyDown. rewrite MainFacts.toLowerCase_d.
    apply String.eqb_neq in N1, N2. rewrite N1, N2. reflexivity.
  - intro T. rewrite Kd, KD. unfold Main.onToggleModeClick.
    destruct (Main.toggleModeButton a); [split; reflexivity|congruence].
  - rewrite Kd, MainFacts.viewer_toggled. apply MainFacts.mode_toggleDrawingMode.
  - intro D. rewrite Kd. rewrite (proj2 (MainFacts.onKeyDown_d _)).
    apply MainFacts.toggled_twice_page; [now apply MainFacts.reachable_labelled| |exact D].
    apply ViewerFacts.reachable_gesture. now apply MainFacts.reachable_viewer.
Qed.

Lemma keydown_d_toggles_and_twice_restores_witness :
  Main.onKeyDown "D"%string (Main.onKeyDown "d"%string pageSession) = pageSession.
Proof.
  assert (D : Viewer.isDrawing (Main.viewer pageSession) = false)
    by (vm_compute; reflexivity).
  exact (proj2 (proj2 (proj2
           (keydown_d_toggles_and_twice_restores "x"%string pageSession
              (MainFacts.main_reachable_run _ _
                 (Main.reachable_main 800 600 true true (Some "Toggle"%string))))))
           D).
Defined.

(* ------------------------------------------------------------------ *)
(** ** The viewer's wall objects *)

Module JSMapFacts.

Section Map.
Context {V : Type}.

Lemma set_keys (k : string) (v : V) (m : list (string * V)) :
  map fst (JSMap.set k v m)
  = if existsb (String.eqb k) (map fst m) then map fst m else map fst m ++ [k].
Proof.
  induction m as [|[k' v'] m IH]; [reflexivity|].
  cbn [JSMap.set map fst existsb].
  rewrite (String.eqb_sym k k').
  destruct (String.eqb_spec k' k) as [->|N]; cbn [orb map fst].
  - reflexivity.
  - rewrite IH. destruct (existsb (String.eqb k) (map fst m)); reflexivity.
Qed.

Lemma existsb_In (k : string) (l : list string) :
  existsb (String.eqb k) l = true <-> In k l.
Proof.
  rewrite existsb_exists. split.
  - intros (x & I & E). apply String.eqb_eq in E. now subst.
  - intro I. exists k. split; [assumption|apply String.eqb_refl].
Qed.

Lemma set_keys_fresh (k : string) (v : V) (m : list (string * V)) :
  ~ In k (map fst m) -> map fst (JSMap.set k v m) = map fst m ++ [k].
Proof.
  intro N. rewrite set_keys. destruct (existsb _ _) eqn:E; [|reflexivity].
  apply existsb_In in E. contradiction.
Qed.

Lemma set_keys_old (k : string) (v : V) (m : list (string * V)) :
  In k (map fst m) -> map fst (JSMap.set k v m) = map fst m.
Proof.
  intro I. rewrite set_keys. apply existsb_In in I. now rewrite I.
Qed.

Lemma set_fresh (k : string) (v : V) (m : list (string * V)) :
  ~ In k (map fst m) -> JSMap.set k v m = m ++ [(k, v)].
Proof.
  induction m as [|[k' v'] m IH]; [reflexivity|]. cbn [map fst In JSMap.set].
  intro N. destruct (String.eqb_spec k' k) as [->|X]; [tauto|].
  cbn [List.app]. f_equal. apply IH. tauto.
Qed.

Lemma set_NoDup (k : string) (v : V) (m : list (string * V)) :
  NoDup (map fst m) -> NoDup (map fst (JSMap.set k v m)).
Proof.
  intro N. rewrite set_keys.
  destruct (existsb (String.eqb k) (map fst m)) eqn:E; [assumption|].
  apply NoDup_app; [assumption|repeat constructor; intros []|].
  intros x I [<-|[]]. apply existsb_In in I. congruence.
Qed.

Lemma set_Forall (P : string * V -> Prop) (k : string) (v : V)
    (m : list (string * V)) :
  Forall P m -> P (k, v) -> Forall P (JSMap.set k v m).
Proof.
  intros F H. induction F as [|[k' v'] m Hx F IH]; cbn [JSMap.set].
  - repeat constructor. assumption.
  - destruct (k' =? k)%string; constructor; assumption.
Qed.

Lemma delete_keys (k : string) (m : list (string * V)) :
  map fst (JSMap.delete k m) = filter (fun i => negb (i =? k)%string) (map fst m).
Proof.
  unfold JSMap.delete. induction m as [|[k' v'] m IH]; [reflexivity|].
  cbn [filter map fst]. destruct (negb (k' =? k)%string); cbn [map fst]; now rewrite IH.
Qed.

Lemma delete_absent (k : string) (m : list (string * V)) :
  ~ In k (map fst m) -> JSMap.delete k m = m.
Proof.
  unfold JSMap.delete. induction m as [|[k' v'] m IH]; [reflexivity|].
  cbn [map fst In filter]. intro N.
  destruct (String.eqb_spec k' k) as [->|X]; [tauto|]. cbn [negb].
  f_equal. apply IH. tauto.
Qed.

Lemma delete_head (k : string) (v : V) (m : list (string * V)) :
  ~ In k (map fst m) -> JSMap.delete k ((k, v) :: m) = m.
Proof.
  intro N. unfold JSMap.delete. cbn [filter fst]. rewrite String.eqb_refl. cbn [negb].
  now apply delete_absent.
Qed.

Lemma delete_Forall (P : string * V -> Prop) (k : string) (m : list (string * V)) :
  Forall P m -> Forall P (JSMap.delete k m).
Proof.
  unfold JSMap.delete. intro F. apply Forall_forall. intros x I.
  apply filter_In in I. rewrite Forall_forall in F. now apply F.
Qed.

Lemma get_Some (k : string) (m : list (string * V)) (v : V) :
  JSMap.get k m = Some v -> In (k, v) m.
Proof.
  unfold JSMap.get. destruct (find _ m) as [[k' v']|] eqn:F; [|discriminate].
  intros [= <-]. apply find_some in F. destruct F as (I & E).
  apply String.eqb_eq in E. cbn in E. now subst.
Qed.

Lemma get_None (k : string) (m : list (string * V)) :
  JSMap.get k m = None <-> ~ In k (map fst m).
Proof.
  unfold JSMap.get. induction m as [|[k' v'] m IH]; cbn [find fst map In]; [tauto|].
  destruct (String.eqb_spec k' k) as [->|X].
  - split; [discriminate|tauto].
  - rewrite IH. tauto.
Qed.

Lemma get_head (k : string) (v : V) (m : list (string * V)) :
  JSMap.get k ((k, v) :: m) = Some v.
Proof. unfold JSMap.get. cbn. now rewrite String.eqb_refl. Qed.

End Map.

Lemma filter_filter_ids (k : string) (l : list string) :
  NoDup l -> ~ In k (filter (fun i => negb (i =? k)%string) l).
Proof. intros _ I. apply filter_In in I. destruct I as (_ & E).
  now rewrite String.eqb_refl in E. Qed.

End JSMapFacts.

Module StageFacts.
Import JSMapFacts.

(** *** Lists *)

Lemma filter_map_swap {A B : Type} (f : A -> B) (p : B -> bool) (q : A -> bool)
    (l : list A) :
  (forall x, In x l -> p (f x) = q x) ->
  filter p (map f l) = map f (filter q l).
Proof.
  induction l as [|a l IH]; [reflexivity|]. intro H. cbn [map filter].
  rewrite (H a (or_introl eq_refl)).
  rewrite IH by (intros x I; apply H; now right).
  destruct (q a); reflexivity.
Qed.

Lemma filter_comm {A : Type} (p q : A -> bool) (l : list A) :
  filter p (filter q l) = filter q (filter p l).
Proof.
  induction l as [|a l IH]; [reflexivity|]. cbn [filter].
  destruct (q a) eqn:Q, (p a) eqn:P; cbn [filter]; rewrite ?Q, ?P, IH; reflexivity.
Qed.

Lemma filter_all {A : Type} (p : A -> bool) (l : list A) :
  (forall x, In x l -> p x = true) -> filter p l = l.
Proof.
  induction l as [|a l IH]; [reflexivity|]. intro H. cbn [filter].
  rewrite (H a (or_introl eq_refl)). f_equal. apply IH. intros x I. apply H. now right.
Qed.

Lemma NoDup_filter_map {X Y : Type} (keep : X -> bool) (key : X -> Y) (xs : list X) :
  NoDup (map key xs) -> NoDup (map key (filter keep xs)).
Proof.
  induction xs as [|a l IH]; [intros; constructor|]. cbn [map filter].
  intro N. inversion N as [|? ? X0 N']; subst.
  destruct (keep a); [|auto]. cbn [map]. constructor; [|auto].
  intro I. apply X0. apply in_map_iff in I. destruct I as (x & E & I).
  apply filter_In in I. apply in_map_iff. exists x. tauto.
Qed.

Lemma NoDup_app_parts {A : Type} (l1 l2 : list A) :
  NoDup (l1 ++ l2) ->
  NoDup l1 /\ NoDup l2 /\ (forall a, In a l1 -> ~ In a l2).
Proof.
  induction l1 as [|a l1 IH]; cbn [List.app].
  - intro N. repeat split; [constructor|assumption|intros a []].
  - intro N. inversion N as [|? ? X N']; subst. destruct (IH N') as (N1 & N2 & D).
    repeat split.
    + constructor; [|assumption]. intro I. apply X. apply in_app_iff. now left.
    + assumption.
    + intros b [<-|I] J; [apply X; apply in_app_iff; now right|]. now apply (D b).
Qed.

(** *** Taking an object out of a scene *)

Lemma remove_In (o x : Stage.Object3D) (sc : list Stage.Object3D) :
  In x (Stage.remove o sc) <-> In x sc /\ Stage.uuid x <> Stage.uuid o.
Proof.
  unfold Stage.remove. rewrite filter_In, negb_true_iff, Nat.eqb_neq. reflexivity.
Qed.

Lemma remove_filter (f : Stage.Object3D -> bool) (o : Stage.Object3D)
    (sc : list Stage.Object3D) :
  filter f (Stage.remove o sc) = Stage.remove o (filter f sc).
Proof. unfold Stage.remove. apply filter_comm. Qed.

Lemma remove_keeps (o : Stage.Object3D) (sc : list Stage.Object3D) :
  (forall x, In x sc -> Stage.uuid x <> Stage.uuid o) -> Stage.remove o sc = sc.
Proof.
  intro H. unfold Stage.remove. apply filter_all. intros x I.
  apply negb_true_iff, Nat.eqb_neq. now apply H.
Qed.

Lemma remove_filter_keeps (f : Stage.Object3D -> bool) (o : Stage.Object3D)
    (sc : list Stage.Object3D) :
  (forall x, In x sc -> Stage.uuid x = Stage.uuid o -> f x = false) ->
  filter f (Stage.remove o sc) = filter f sc.
Proof.
  intro H. rewrite remove_filter. apply remove_keeps. intros x I E.
  apply filter_In in I. destruct I as (I & F). rewrite (H x I E) in F. discriminate.
Qed.

Lemma remove_uuids (o : Stage.Object3D) (sc : list Stage.Object3D) :
  NoDup (map Stage.uuid sc) -> NoDup (map Stage.uuid (Stage.remove o sc)).
Proof. apply NoDup_filter_map. Qed.

Lemma scenes_same_object (sc2 sc3 : list Stage.Object3D) (n : nat)
    (x y : Stage.Object3D) :
  scenes_ok sc2 sc3 n -> In x (sc2 ++ sc3) -> In y (sc2 ++ sc3) ->
  Stage.uuid x = Stage.uuid y -> x = y.
Proof. intros (N & _). now apply NoDup_map_inj. Qed.

Lemma scenes_remove (o : Stage.Object3D) (sc2 sc3 : list Stage.Object3D) (n : nat) :
  scenes_ok sc2 sc3 n -> scenes_ok (Stage.remove o sc2) (Stage.remove o sc3) n.
Proof.
  intros (N & F). split.
  - unfold Stage.remove. rewrite <- filter_app. now apply NoDup_filter_map.
  - unfold Stage.remove. rewrite <- filter_app. apply Forall_forall. intros x I.
    apply filter_In in I. rewrite Forall_forall in F. now apply F.
Qed.

Lemma scenes_remove2 (o : Stage.Object3D) (sc2 sc3 : list Stage.Object3D) (n : nat) :
  scenes_ok sc2 sc3 n -> In o sc2 -> scenes_ok (Stage.remove o sc2) sc3 n.
Proof.
  intros H I. pose proof (scenes_remove o sc2 sc3 n H) as R.
  rewrite (remove_keeps o sc3) in R; [assumption|].
  intros x J E. destruct H as (N & _). rewrite map_app in N.
  apply NoDup_app_parts in N. destruct N as (_ & _ & D).
  apply (D (Stage.uuid o)); [now apply in_map|]. rewrite <- E. now apply in_map.
Qed.

Lemma scenes_add2 (o : Stage.Object3D) (sc2 sc3 : list Stage.Object3D) (n : nat) :
  scenes_ok sc2 sc3 n -> Stage.uuid o = n -> scenes_ok (sc2 ++ [o]) sc3 (S n).
Proof.
  intros (N & F) E. split.
  - rewrite map_app in *. rewrite map_app. cbn [map].
    apply NoDup_app_parts in N. destruct N as (N2 & N3 & D).
    rewrite Forall_app in F. destruct F as (F2 & F3). rewrite Forall_forall in F2, F3.
    apply NoDup_app; [apply NoDup_app; [assumption|repeat constructor; intros []|]|assumption|].
    + intros a I [<-|[]]. apply in_map_iff in I. destruct I as (x & Ex & I).
      specialize (F2 x I). lia.
    + intros a I J. apply in_app_iff in I. destruct I as [I|[<-|[]]]; [now apply (D a)|].
      apply in_map_iff in J. destruct J as (x & Ex & J). specialize (F3 x J). lia.
  - rewrite Forall_app in *. destruct F as (F2 & F3). split.
    + apply Forall_app. split.
      * eapply Forall_impl; [|exact F2]. cbn. intros; lia.
      * constructor; [lia|constructor].
    + eapply Forall_impl; [|exact F3]. cbn. intros; lia.
Qed.

Lemma scenes_add3 (o : Stage.Object3D) (sc2 sc3 : list Stage.Object3D) (n : nat) :
  scenes_ok sc2 sc3 n -> Stage.uuid o = n -> scenes_ok sc2 (sc3 ++ [o]) (S n).
Proof.
  intros (N & F) E. split.
  - rewrite app_assoc, map_app. cbn [map].
    rewrite Forall_forall in F.
    apply NoDup_app; [assumption|repeat constructor; intros []|].
    intros a I [<-|[]]. apply in_map_iff in I. destruct I as (x & Ex & I).
    specialize (F x I). lia.
  - rewrite app_assoc. apply Forall_app. split.
    + eapply Forall_impl; [|exact F]. cbn. intros; lia.
    + constructor; [lia|constructor].
Qed.

Lemma scenes_skip (sc2 sc3 : list Stage.Object3D) (n : nat) :
  scenes_ok sc2 sc3 n -> scenes_ok sc2 sc3 (S n).
Proof.
  intros (N & F). split; [assumption|]. eapply Forall_impl; [|exact F]. cbn. intros; lia.
Qed.

End StageFacts.

Module StageSteps.
Import JSMapFacts StageFacts.

Lemma entry_ok_mono (st st' : Stage.t) (km : string * Stage.Object3D) :
  (forall x, Stage.kind x = Stage.WallBox -> In x (Stage.scene2D st) ->
             In x (Stage.scene2D st')) ->
  (forall x, Stage.kind x = Stage.WallBlock -> In x (Stage.scene3D st) ->
             In x (Stage.scene3D st')) ->
  entry_ok st km -> entry_ok st' km.
Proof.
  intros H2 H3 (U & [(K & I)|(K & I)]); split; auto.
Qed.

Lemma dimension_in_scene (st : Stage.t) (k : string) (d : Stage.Dimension) :
  scene_ok st -> In (k, d) (Stage.dimensionLines st) ->
  In (Stage.line d) (Stage.scene2D st)
  /\ Stage.kind (Stage.line d) = Stage.DimensionLine.
Proof.
  intros H I.
  assert (J : In (Stage.line d)
                (filter (isKind Stage.DimensionLine) (Stage.scene2D st))).
  { rewrite (ok_dims st H). apply in_map_iff. exists (k, d). auto. }
  apply filter_In in J. destruct J as (J & K). split; [assumption|].
  unfold isKind in K. destruct (Stage.kind (Stage.line d)); congruence.
Qed.

Lemma same_in_scene2D (st : Stage.t) (x y : Stage.Object3D) :
  scene_ok st -> In x (Stage.scene2D st) -> In y (Stage.scene2D st) ->
  Stage.uuid x = Stage.uuid y -> x = y.
Proof.
  intros H I J. apply (scenes_same_object _ _ _ x y (ok_scenes st H));
    apply in_app_iff; now left.
Qed.

(** *** [removeDimensionLine] *)

Lemma removeDimensionLine_ok (k : string) (st : Stage.t) :
  scene_ok st -> meshes_ok st ->
  let st' := Stage.removeDimensionLine k st in
  scene_ok st' /\ meshes_ok st'
  /\ Stage.viewer st' = Stage.viewer st
  /\ Stage.wallMeshes st' = Stage.wallMeshes st
  /\ Stage.scene3D st' = Stage.scene3D st
  /\ Stage.nextId st' = Stage.nextId st
  /\ Stage.wallListElement st' = Stage.wallListElement st
  /\ map fst (Stage.dimensionLines st')
     = filter (fun i => negb (i =? k)%string) (map fst (Stage.dimensionLines st))
  /\ filter (isKind Stage.WallLine) (Stage.scene2D st')
     = filter (isKind Stage.WallLine) (Stage.scene2D st).
Proof.
  intros H M. cbv zeta. unfold Stage.removeDimensionLine.
  destruct (JSMap.get k (Stage.dimensionLines st)) as [d|] eqn:G.
  2:{ apply get_None in G. split; [assumption|split; [assumption|]].
      repeat (split; [reflexivity|]). split; [|reflexivity].
      symmetry. apply filter_all. intros i I. apply negb_true_iff, String.eqb_neq.
      intros ->. contradiction. }
  apply get_Some in G. destruct (dimension_in_scene st k d H G) as (Id & Kd).
  pose proof (ok_dim_keys st H) as NK.
  assert (Same : forall kd, In kd (Stage.dimensionLines st) -> fst kd = k -> kd = (k, d)).
  { intros kd I E. apply (NoDup_map_inj fst (Stage.dimensionLines st)); auto. }
  assert (NL : NoDup (map Stage.uuid
                        (map (fun kd => Stage.line (snd kd)) (Stage.dimensionLines st)))).
  { rewrite <- (ok_dims st H). apply NoDup_filter_map.
    destruct (ok_scenes st H) as (N & _). rewrite map_app in N.
    now apply NoDup_app_parts in N. }
  assert (SameL : forall kd, In kd (Stage.dimensionLines st) ->
                    Stage.uuid (Stage.line (snd kd)) = Stage.uuid (Stage.line d) ->
                    kd = (k, d)).
  { intros kd I E. rewrite map_map in NL.
    apply (NoDup_map_inj (fun kd => Stage.uuid (Stage.line (snd kd)))
             (Stage.dimensionLines st)); auto. }
  assert (NLb : NoDup (map (fun kd => Stage.label (snd kd)) (Stage.dimensionLines st))).
  { rewrite <- (ok_labels st H). apply (ok_labels_distinct st H). }
  assert (SameLb : forall kd, In kd (Stage.dimensionLines st) ->
                     Stage.label (snd kd) = Stage.label d -> kd = (k, d)).
  { intros kd I E.
    apply (NoDup_map_inj (fun kd => Stage.label (snd kd)) (Stage.dimensionLines st));
      auto. }
  split; [|split].
  - constructor; cbn.
    + apply scenes_remove2; [apply (ok_scenes st H)|assumption].
    + apply Forall_forall. intros l I. apply filter_In in I.
      pose proof (ok_labels_fresh st H) as F. rewrite Forall_forall in F. now apply F.
    + apply NoDup_filter. apply (ok_labels_distinct st H).
    + rewrite (ok_labels st H). unfold JSMap.delete. apply filter_map_swap.
      intros kd I. f_equal.
      destruct (String.eqb_spec (fst kd) k) as [E|E].
      * rewrite (Same kd I E). cbn. apply Nat.eqb_refl.
      * apply Nat.eqb_neq. intro X. apply E. now rewrite (SameLb kd I X).
    + rewrite remove_filter, (ok_dims st H). unfold Stage.remove, JSMap.delete.
      apply filter_map_swap. intros kd I. f_equal.
      destruct (String.eqb_spec (fst kd) k) as [E|E].
      * rewrite (Same kd I E). cbn. apply Nat.eqb_refl.
      * apply Nat.eqb_neq. intro X. apply E. now rewrite (SameL kd I X).
    + unfold JSMap.delete. apply NoDup_filter_map. assumption.
  - constructor; cbn; [apply M|].
    pose proof (ok_entries st M) as E. eapply Forall_impl; [|exact E].
    intros km. apply entry_ok_mono; cbn; [|auto].
    intros x K I. apply remove_In. split; [assumption|]. intro X.
    assert (x = Stage.line d) by (eapply same_in_scene2D; eauto). congruence.
  - cbn. repeat split.
    + apply delete_keys.
    + apply remove_filter_keeps. intros x I X.
      assert (x = Stage.line d) by (eapply same_in_scene2D; eauto). subst x.
      unfold isKind. now rewrite Kd.
Qed.

End StageSteps.

Module StageCreate.
Import JSMapFacts StageFacts StageSteps.

(** *** [createDimensionLine] *)

Lemma createDimensionLine_ok (wall : Wall.t) (st : Stage.t) :
  scene_ok st -> meshes_ok st ->
  let st' := Stage.createDimensionLine wall st in
  scene_ok st' /\ meshes_ok st'
  /\ Stage.viewer st' = Stage.viewer st
  /\ Stage.wallMeshes st' = Stage.wallMeshes st
  /\ Stage.scene3D st' = Stage.scene3D st
  /\ Stage.wallListElement st' = Stage.wallListElement st
  /\ map fst (Stage.dimensionLines st')
     = filter (fun i => negb (i =? Wall.id wall)%string)
         (map fst (Stage.dimensionLines st)) ++ [Wall.id wall]
  /\ filter (isKind Stage.WallLine) (Stage.scene2D st')
     = filter (isKind Stage.WallLine) (Stage.scene2D st).
Proof.
  intros H M. cbv zeta. unfold Stage.createDimensionLine.
  destruct (removeDimensionLine_ok (Wall.id wall) st H M)
    as (H1 & M1 & Ev & Em & E3 & En & El & Ek & Ew).
  set (st1 := Stage.removeDimensionLine (Wall.id wall) st) in *.
  assert (Fresh : ~ In (Wall.id wall) (map fst (Stage.dimensionLines st1))).
  { rewrite Ek. intro I. apply filter_In in I. destruct I as (_ & X).
    now rewrite String.eqb_refl in X. }
  split; [|split].
  - constructor; cbn.
    + apply scenes_skip. apply scenes_add2; [apply (ok_scenes st1 H1)|reflexivity].
    + apply Forall_app. split.
      * pose proof (ok_labels_fresh st1 H1) as F. eapply Forall_impl; [|exact F].
        cbn. intros; lia.
      * constructor; [lia|constructor].
    + apply NoDup_app; [apply (ok_labels_distinct st1 H1)|repeat constructor; intros []|].
      intros l I [<-|[]]. pose proof (ok_labels_fresh st1 H1) as F.
      rewrite Forall_forall in F. specialize (F _ I). lia.
    + rewrite (set_fresh _ _ _ Fresh), map_app, <- (ok_labels st1 H1). reflexivity.
    + rewrite filter_app, (ok_dims st1 H1), (set_fresh _ _ _ Fresh), map_app. reflexivity.
    + apply set_NoDup. apply (ok_dim_keys st1 H1).
  - constructor; cbn; [apply M1|].
    pose proof (ok_entries st1 M1) as E. eapply Forall_impl; [|exact E].
    intros km. apply entry_ok_mono; cbn; [|auto].
    intros x K I. apply in_app_iff. now left.
  - cbn. rewrite Ev, Em, E3, El. repeat (split; [reflexivity|]). split.
    + rewrite (set_keys_fresh _ _ _ Fresh), Ek. reflexivity.
    + rewrite filter_app, Ew. cbn. apply app_nil_r.
Qed.

(** *** [createWallMesh2D] and [createWallMesh3D] *)

Lemma setMesh_ok (wall : Wall.t) (mesh : Stage.Object3D) (st st' : Stage.t) :
  meshes_ok st ->
  Stage.wallMeshes st' = JSMap.set (Wall.id wall) mesh (Stage.wallMeshes st) ->
  (forall x, Stage.kind x = Stage.WallBox -> In x (Stage.scene2D st) ->
             In x (Stage.scene2D st')) ->
  (forall x, Stage.kind x = Stage.WallBlock -> In x (Stage.scene3D st) ->
             In x (Stage.scene3D st')) ->
  entry_ok st' (Wall.id wall, mesh) ->
  meshes_ok st'.
Proof.
  intros M E H2 H3 New. constructor; rewrite E.
  - apply set_NoDup. apply M.
  - apply set_Forall; [|assumption].
    pose proof (ok_entries st M) as F. eapply Forall_impl; [|exact F].
    intros km. now apply entry_ok_mono.
Qed.

Lemma createWallMesh2D_ok (wall : Wall.t) (st : Stage.t) :
  scene_ok st -> meshes_ok st ->
  let st' := Stage.createWallMesh2D wall st in
  scene_ok st' /\ meshes_ok st'
  /\ Stage.viewer st' = Stage.viewer st
  /\ Stage.scene3D st' = Stage.scene3D st
  /\ Stage.wallListElement st' = Stage.wallListElement st
  /\ map fst (Stage.wallMeshes st')
     = keysWith (Wall.id wall) (map fst (Stage.wallMeshes st))
  /\ map fst (Stage.dimensionLines st')
     = filter (fun i => negb (i =? Wall.id wall)%string)
         (map fst (Stage.dimensionLines st)) ++ [Wall.id wall]
  /\ map Stage.userData_wallId (filter (isKind Stage.WallLine) (Stage.scene2D st'))
     = map Stage.userData_wallId (filter (isKind Stage.WallLine) (Stage.scene2D st))
       ++ [Some (Wall.id wall)].
Proof.
  intros H M. cbv zeta. unfold Stage.createWallMesh2D.
  set (line := Stage.Build_Object3D (Stage.nextId st) Stage.WallLine (Some (Wall.id wall))).
  set (wallMesh := Stage.Build_Object3D (S (Stage.nextId st)) Stage.WallBox
                     (Some (Wall.id wall))).
  set (st1 := Stage.set_wallMeshes _ _).
  assert (H1 : scene_ok st1).
  { constructor; cbn.
    - change (Stage.scene2D st ++ [line; wallMesh])
        with (Stage.scene2D st ++ [line] ++ [wallMesh]).
      rewrite app_assoc.
      apply scenes_add2; [apply scenes_add2; [apply (ok_scenes st H)|]|]; reflexivity.
    - pose proof (ok_labels_fresh st H) as F. eapply Forall_impl; [|exact F].
      cbn. intros; lia.
    - apply (ok_labels_distinct st H).
    - apply (ok_labels st H).
    - rewrite filter_app. cbn. rewrite app_nil_r. apply (ok_dims st H).
    - apply (ok_dim_keys st H). }
  assert (M1 : meshes_ok st1).
  { apply (setMesh_ok wall wallMesh st st1 M); cbn; try reflexivity.
    - intros x _ I. apply in_app_iff. now left.
    - auto.
    - split; [reflexivity|]. left. split; [reflexivity|].
      apply in_app_iff. right. right. now left. }
  destruct (createDimensionLine_ok wall st1 H1 M1)
    as (H2 & M2 & Ev & Em & E3 & El & Ek & Ew).
  split; [assumption|]. split; [assumption|].
  rewrite Ev, Em, E3, El, Ek, Ew. cbn.
  repeat (split; [reflexivity|]). split; [apply set_keys|]. split; [reflexivity|].
  rewrite filter_app, map_app. reflexivity.
Qed.

Lemma createWallMesh3D_ok (wall : Wall.t) (st : Stage.t) :
  scene_ok st -> meshes_ok st ->
  let st' := Stage.createWallMesh3D wall st in
  scene_ok st' /\ meshes_ok st'
  /\ Stage.viewer st' = Stage.viewer st
  /\ Stage.scene2D st' = Stage.scene2D st
  /\ Stage.dimensionLines st' = Stage.dimensionLines st
  /\ Stage.wallListElement st' = Stage.wallListElement st
  /\ map fst (Stage.wallMeshes st')
     = keysWith (Wall.id wall) (map fst (Stage.wallMeshes st)).
Proof.
  intros H M. cbv zeta. unfold Stage.createWallMesh3D.
  set (mesh := Stage.Build_Object3D (Stage.nextId st) Stage.WallBlock
                 (Some (Wall.id wall))).
  split; [|split].
  - constructor; cbn.
    + apply scenes_add3; [apply (ok_scenes st H)|reflexivity].
    + pose proof (ok_labels_fresh st H) as F. eapply Forall_impl; [|exact F].
      cbn. intros; lia.
    + apply (ok_labels_distinct st H).
    + apply (ok_labels st H).
    + apply (ok_dims st H).
    + apply (ok_dim_keys st H).
  - apply (setMesh_ok wall mesh st _ M); cbn; try reflexivity.
    + auto.
    + intros x _ I. apply in_app_iff. now left.
    + split; [reflexivity|]. right. split; [reflexivity|].
      apply in_app_iff. right. now left.
  - cbn. repeat (split; [reflexivity|]). apply set_keys.
Qed.

Lemma keysWith_fresh (k : string) (keys : list string) :
  ~ In k keys -> keysWith k keys = keys ++ [k].
Proof.
  intro N. unfold keysWith. destruct (existsb _ _) eqn:E; [|reflexivity].
  apply existsb_In in E. contradiction.
Qed.

Lemma keysWith_old (k : string) (keys : list string) :
  In k keys -> keysWith k keys = keys.
Proof. intro I. unfold keysWith. apply existsb_In in I. now rewrite I. Qed.

End StageCreate.

Module StageLoops.
Import JSMapFacts StageFacts StageSteps StageCreate.

Lemma scenes_filter3 (p : Stage.Object3D -> bool) (sc2 sc3 : list Stage.Object3D)
    (n : nat) :
  scenes_ok sc2 sc3 n -> scenes_ok sc2 (filter p sc3) n.
Proof.
  intros (N & F). rewrite map_app in N. apply NoDup_app_parts in N.
  destruct N as (N2 & N3 & D). rewrite Forall_app in F. destruct F as (F2 & F3).
  split.
  - rewrite map_app. apply NoDup_app; [assumption|now apply NoDup_filter_map|].
    intros a I J. apply (D a I). apply in_map_iff in J. destruct J as (x & E & J).
    apply filter_In in J. apply in_map_iff. exists x. tauto.
  - apply Forall_app. split; [assumption|]. apply Forall_forall. intros x I.
    apply filter_In in I. rewrite Forall_forall in F3. now apply F3.
Qed.

Lemma scenes_filter2 (p : Stage.Object3D -> bool) (sc2 sc3 : list Stage.Object3D)
    (n : nat) :
  scenes_ok sc2 sc3 n -> scenes_ok (filter p sc2) sc3 n.
Proof.
  intros (N & F). rewrite map_app in N. apply NoDup_app_parts in N.
  destruct N as (N2 & N3 & D). rewrite Forall_app in F. destruct F as (F2 & F3).
  split.
  - rewrite map_app. apply NoDup_app; [now apply NoDup_filter_map|assumption|].
    intros a I. apply D. apply in_map_iff in I. destruct I as (x & E & I).
    apply filter_In in I. apply in_map_iff. exists x. tauto.
  - apply Forall_app. split; [|assumption]. apply Forall_forall. intros x I.
    apply filter_In in I. rewrite Forall_forall in F2. now apply F2.
Qed.

(** *** [update3DView] *)

Lemma scenes_removeAll3 (ms : list (string * Stage.Object3D))
    (sc2 sc3 : list Stage.Object3D) (n : nat) :
  scenes_ok sc2 sc3 n ->
  scenes_ok sc2 (fold_left (fun children kv => Stage.remove (snd kv) children) ms sc3) n.
Proof.
  revert sc3. induction ms as [|km ms IH]; intros sc3 H; [assumption|].
  cbn [fold_left]. apply IH. now apply scenes_filter3.
Qed.

Lemma createAll3D_ok (ws : list Wall.t) (st : Stage.t) :
  scene_ok st -> meshes_ok st ->
  NoDup (map fst (Stage.wallMeshes st) ++ map Wall.id ws) ->
  let st' := fold_left (fun st wall => Stage.createWallMesh3D wall st) ws st in
  scene_ok st' /\ meshes_ok st'
  /\ Stage.viewer st' = Stage.viewer st
  /\ Stage.scene2D st' = Stage.scene2D st
  /\ Stage.dimensionLines st' = Stage.dimensionLines st
  /\ Stage.wallListElement st' = Stage.wallListElement st
  /\ map fst (Stage.wallMeshes st') = map fst (Stage.wallMeshes st) ++ map Wall.id ws.
Proof.
  revert st. induction ws as [|w ws IH]; intros st H M N; cbv zeta.
  - cbn. rewrite app_nil_r. auto 10.
  - cbn [fold_left].
    destruct (createWallMesh3D_ok w st H M) as (H1 & M1 & Ev & E2 & Ed & El & Ek).
    assert (Fresh : ~ In (Wall.id w) (map fst (Stage.wallMeshes st))).
    { apply NoDup_app_parts in N. destruct N as (_ & _ & D). intro I.
      apply (D _ I). now left. }
    rewrite (keysWith_fresh _ _ Fresh) in Ek.
    destruct (IH (Stage.createWallMesh3D w st) H1 M1) as (H2 & M2 & Ev2 & E22 & Ed2 & El2 & Ek2).
    { rewrite Ek, <- app_assoc. exact N. }
    rewrite Ev2, E22, Ed2, El2, Ek2, Ev, E2, Ed, El, Ek, <- app_assoc. auto 10.
Qed.

Lemma update3DView_ok (st : Stage.t) :
  scene_ok st -> NoDup (map Wall.id (Viewer.walls (Stage.viewer st))) ->
  let st' := Stage.update3DView st in
  scene_ok st' /\ meshes_ok st'
  /\ Stage.viewer st' = Stage.viewer st
  /\ Stage.scene2D st' = Stage.scene2D st
  /\ Stage.dimensionLines st' = Stage.dimensionLines st
  /\ Stage.wallListElement st' = Stage.wallListElement st
  /\ map fst (Stage.wallMeshes st') = map Wall.id (Viewer.walls (Stage.viewer st)).
Proof.
  intros H N. cbv zeta. unfold Stage.update3DView.
  set (st1 := Stage.set_wallMeshes [] _).
  assert (H1 : scene_ok st1).
  { constructor; cbn; try apply H. apply scenes_removeAll3. apply (ok_scenes st H). }
  assert (M1 : meshes_ok st1) by (constructor; cbn; constructor).
  exact (createAll3D_ok (Viewer.walls (Stage.viewer st)) st1 H1 M1 N).
Qed.

(** *** The loops of [clearAllWalls] *)

Lemma removeAllDimensions_ok (todo : list (string * Stage.Dimension)) (st : Stage.t) :
  scene_ok st -> meshes_ok st ->
  let st' :=
    fold_left (fun st kv => Stage.removeDimensionLine (fst kv) st) todo st in
  scene_ok st' /\ meshes_ok st'
  /\ Stage.viewer st' = Stage.viewer st
  /\ Stage.wallMeshes st' = Stage.wallMeshes st
  /\ Stage.scene3D st' = Stage.scene3D st
  /\ Stage.wallListElement st' = Stage.wallListElement st
  /\ map fst (Stage.dimensionLines st')
     = filter (fun i => negb (existsb (String.eqb i) (map fst todo)))
         (map fst (Stage.dimensionLines st))
  /\ filter (isKind Stage.WallLine) (Stage.scene2D st')
     = filter (isKind Stage.WallLine) (Stage.scene2D st).
Proof.
  revert st. induction todo as [|[k d] todo IH]; intros st H M; cbv zeta.
  - cbn. rewrite filter_all by reflexivity. auto 10.
  - cbn [fold_left fst].
    destruct (removeDimensionLine_ok k st H M)
      as (H1 & M1 & Ev & Em & E3 & En & El & Ek & Ew).
    destruct (IH _ H1 M1) as (H2 & M2 & Ev2 & Em2 & E32 & El2 & Ek2 & Ew2).
    rewrite Ev2, Em2, E32, El2, Ek2, Ew2, Ev, Em, E3, El, Ek, Ew.
    repeat (split; [assumption || reflexivity|]). split; [|reflexivity].
    clear. induction (map fst (Stage.dimensionLines st)) as [|i l IHl]; [reflexivity|].
    cbn [filter map fst existsb].
    rewrite (String.eqb_sym i k).
    destruct (String.eqb_spec k i) as [->|N]; cbn [negb orb filter].
    + exact IHl.
    + destruct (existsb (String.eqb i) (map fst todo)); cbn [negb]; now rewrite IHl.
Qed.

Lemma keys_all_gone (keys : list string) :
  filter (fun i => negb (existsb (String.eqb i) keys)) keys = [].
Proof.
  assert (G : forall l, (forall i, In i l -> In i keys) ->
                        filter (fun i => negb (existsb (String.eqb i) keys)) l = []).
  { induction l as [|i l IH]; [reflexivity|]. intro S. cbn [filter].
    assert (E : existsb (String.eqb i) keys = true)
      by (apply existsb_In; apply S; now left).
    rewrite E. cbn [negb]. apply IH. intros j I. apply S. now right. }
  apply G. auto.
Qed.

Lemma plainMeshes_of (st : Stage.t) :
  scene_ok st -> meshes_ok st -> plainMeshes (Stage.wallMeshes st) (Stage.scene2D st).
Proof.
  intros H M km x I J E. pose proof (ok_entries st M) as F.
  rewrite Forall_forall in F. destruct (F km I) as (_ & [(K & Im)|(K & Im)]).
  - assert (x = snd km).
    { apply (scenes_same_object _ _ _ x (snd km) (ok_scenes st H)); auto;
        apply in_app_iff; now left. }
    subst x. unfold isKind. now rewrite K.
  - assert (x = snd km).
    { apply (scenes_same_object _ _ _ x (snd km) (ok_scenes st H)); auto;
        apply in_app_iff; [now left|now right]. }
    subst x. unfold isKind. now rewrite K.
Qed.

Lemma removeMesh_ok (mesh : Stage.Object3D) (st : Stage.t) :
  scene_ok st ->
  (forall x, In x (Stage.scene2D st) -> Stage.uuid x = Stage.uuid mesh ->
             isKind Stage.DimensionLine x = false /\ isKind Stage.WallLine x = false) ->
  let st' := Stage.removeMesh mesh st in
  scene_ok st'
  /\ Stage.viewer st' = Stage.viewer st
  /\ Stage.wallMeshes st' = Stage.wallMeshes st
  /\ Stage.dimensionLines st' = Stage.dimensionLines st
  /\ Stage.wallListElement st' = Stage.wallListElement st
  /\ filter (isKind Stage.WallLine) (Stage.scene2D st')
     = filter (isKind Stage.WallLine) (Stage.scene2D st)
  /\ (forall x, In x (Stage.scene2D st') -> In x (Stage.scene2D st)).
Proof.
  intros H P. cbv zeta. unfold Stage.removeMesh. split.
  - constructor; cbn; try apply H.
    + apply scenes_remove. apply (ok_scenes st H).
    + rewrite <- (ok_dims st H). apply remove_filter_keeps. intros x I E.
      now apply P.
  - cbn. repeat (split; [reflexivity|]). split.
    + apply remove_filter_keeps. intros x I E. now apply P.
    + intros x I. apply remove_In in I. tauto.
Qed.

Lemma removeAllMeshes_ok (todo : list (string * Stage.Object3D)) (st : Stage.t) :
  scene_ok st -> plainMeshes todo (Stage.scene2D st) ->
  let st' := fold_left (fun st kv => Stage.removeMesh (snd kv) st) todo st in
  scene_ok st'
  /\ Stage.viewer st' = Stage.viewer st
  /\ Stage.wallMeshes st' = Stage.wallMeshes st
  /\ Stage.dimensionLines st' = Stage.dimensionLines st
  /\ Stage.wallListElement st' = Stage.wallListElement st
  /\ filter (isKind Stage.WallLine) (Stage.scene2D st')
     = filter (isKind Stage.WallLine) (Stage.scene2D st).
Proof.
  revert st. induction todo as [|km todo IH]; intros st H P; cbv zeta.
  - cbn. auto 10.
  - cbn [fold_left].
    destruct (removeMesh_ok (snd km) st H) as (H1 & Ev & Em & Ed & El & Ew & Sub).
    { intros x I E. apply (P km x); auto. now left. }
    destruct (IH _ H1) as (H2 & Ev2 & Em2 & Ed2 & El2 & Ew2).
    { intros km' x I J E. apply (P km' x); auto. now right. }
    rewrite Ev2, Em2, Ed2, El2, Ew2, Ev, Em, Ed, El, Ew. auto 10.
Qed.

(** *** One wall of [deleteSelectedWalls] *)

Lemma deleteOne_ok (wall : Wall.t) (st : Stage.t) :
  scene_ok st -> meshes_ok st ->
  let st' := deleteOne wall st in
  scene_ok st' /\ meshes_ok st'
  /\ Stage.viewer st' = Stage.viewer st
  /\ Stage.wallListElement st' = Stage.wallListElement st
  /\ map fst (Stage.wallMeshes st')
     = filter (fun i => negb (i =? Wall.id wall)%string) (map fst (Stage.wallMeshes st))
  /\ map fst (Stage.dimensionLines st')
     = filter (fun i => negb (i =? Wall.id wall)%string)
         (map fst (Stage.dimensionLines st))
  /\ filter (isKind Stage.WallLine) (Stage.scene2D st')
     = filter (isKind Stage.WallLine) (Stage.scene2D st).
Proof.
  intros H M. cbv zeta. unfold deleteOne.
  destruct (removeDimensionLine_ok (Wall.id wall) st H M)
    as (H1 & M1 & Ev & Em & E3 & En & El & Ek & Ew).
  set (st1 := Stage.removeDimensionLine (Wall.id wall) st) in *.
  destruct (JSMap.get (Wall.id wall) (Stage.wallMeshes st1)) as [mesh|] eqn:G.
  2:{ apply get_None in G. rewrite Ev, El, Ek, Ew, Em.
      repeat (split; [assumption || reflexivity|]). split; [|auto].
      symmetry. apply filter_all. intros i I. apply negb_true_iff, String.eqb_neq.
      intros ->. rewrite Em in G. contradiction. }
  apply get_Some in G.
  pose proof (plainMeshes_of st1 H1 M1) as P.
  destruct (removeMesh_ok mesh st1 H1) as (H2 & Ev2 & Em2 & Ed2 & El2 & Ew2 & Sub).
  { intros x I E. exact (P _ x G I E). }
  split; [|split].
  - constructor; cbn; apply H2.
  - constructor; cbn.
    + unfold JSMap.delete. apply NoDup_filter_map. apply M1.
    + apply Forall_forall. intros km I. unfold JSMap.delete in I.
      apply filter_In in I. destruct I as (I & X).
      apply negb_true_iff, String.eqb_neq in X.
      pose proof (ok_entries st1 M1) as F. rewrite Forall_forall in F.
      pose proof (F km I) as (U & S). pose proof (F _ G) as (Um & Sm). cbn in Um.
      assert (D : Stage.uuid (snd km) <> Stage.uuid mesh).
      { intro E. assert (snd km = mesh).
        { apply (scenes_same_object _ _ _ (snd km) mesh (ok_scenes st1 H1)); auto;
            apply in_app_iff; tauto. }
        congruence. }
      split; [assumption|]. unfold Stage.removeMesh. cbn.
      destruct S as [(K & J)|(K & J)]; [left|right]; (split; [assumption|]);
        apply remove_In; auto.
  - cbn. rewrite Ev, El, <- Em, Ek, <- Ew. repeat (split; [reflexivity|]).
    split; [apply delete_keys|]. split; [reflexivity|].
    unfold Stage.removeMesh in Ew2. cbn in Ew2. exact Ew2.
Qed.

End StageLoops.

Module StageRun.
Import JSMapFacts StageFacts StageSteps StageCreate StageLoops.

(** *** What the registry's keys are after a step of the viewer *)

Lemma keys_map (g : Wall.t -> Wall.t) (ws : list Wall.t) :
  (forall w, Wall.id (g w) = Wall.id w) -> map Wall.id (map g ws) = map Wall.id ws.
Proof. intro H. rewrite map_map. apply map_ext. exact H. Qed.

Lemma keys_zoomExtend (v : Viewer.t) :
  registryKeys (Viewer.zoomExtend v) = registryKeys v.
Proof.
  destruct (ViewerFacts.zoomExtend_frame v) as [->|(c & tg & ->)]; reflexivity.
Qed.

Lemma keys_highlightWall (i : string) (v : Viewer.t) :
  registryKeys (Viewer.highlightWall i v) = registryKeys v.
Proof.
  unfold registryKeys. cbn. f_equal. apply keys_map. intro w.
  repeat match goal with |- context [if ?c then _ else _] => destruct c end; reflexivity.
Qed.

Lemma keys_clearWallStates (v : Viewer.t) :
  registryKeys (Viewer.clearWallStates v) = registryKeys v.
Proof. unfold registryKeys. cbn. f_equal. now apply keys_map. Qed.

Lemma keys_selectWall (i : string) (v : Viewer.t) :
  registryKeys (Viewer.selectWall i v) = registryKeys v.
Proof.
  unfold registryKeys. cbn. f_equal. rewrite !map_map. apply map_ext. intro w.
  cbn. destruct (Wall.id w =? i)%string; reflexivity.
Qed.

Lemma keys_clearHighlight (v : Viewer.t) :
  registryKeys (Viewer.clearHighlight v) = registryKeys v.
Proof.
  unfold registryKeys. cbn. f_equal. apply keys_map. intro w.
  repeat match goal with |- context [if ?c then _ else _] => destruct c end; reflexivity.
Qed.

Lemma keys_removePreviewLine (v : Viewer.t) :
  registryKeys (Viewer.removePreviewLine v) = registryKeys v.
Proof. unfold Viewer.removePreviewLine. destruct (Viewer.previewLine v); reflexivity. Qed.

Lemma keys_toggleDrawingMode (v : Viewer.t) :
  registryKeys (Viewer.toggleDrawingMode v) = registryKeys v.
Proof.
  unfold Viewer.toggleDrawingMode, Viewer.cleanupDrawing. cbn.
  destruct (negb (negb (Viewer.isDrawingMode v))); [|reflexivity].
  unfold registryKeys. cbn.
  change (registryKeys (Viewer.removePreviewLine
                          (Viewer.set_isDrawingMode (negb (Viewer.isDrawingMode v)) v))
          = registryKeys v).
  now rewrite keys_removePreviewLine.
Qed.

Lemma keys_unhighlightFirst (i : string) (ws : list Wall.t) :
  map Wall.id (Viewer.unhighlightFirst i ws) = map Wall.id ws.
Proof.
  induction ws as [|w ws IH]; [reflexivity|]. cbn.
  destruct (Wall.id w =? i)%string; cbn; [reflexivity|now rewrite IH].
Qed.

Lemma keys_onMouseMove (p : Pick) (v : Viewer.t) :
  registryKeys (Viewer.onMouseMove p v) = registryKeys v.
Proof.
  unfold Viewer.onMouseMove, Viewer.onMouseMoveAt.
  set (hovered := if Viewer.is2D v then _ else v).
  assert (E : registryKeys hovered = registryKeys v).
  { unfold hovered. destruct (Viewer.is2D v); [|reflexivity].
    destruct (wallHits p); [|apply keys_highlightWall].
    destruct (negb (Viewer.isDrawing v)); [apply keys_clearHighlight|reflexivity]. }
  rewrite <- E.
  repeat match goal with |- context [match ?c with _ => _ end] => destruct c end;
    reflexivity.
Qed.

(** *** The viewer under the steps of the stage *)

Lemma viewer_updateWallList (st : Stage.t) :
  Stage.viewer (Stage.updateWallList st) = Stage.viewer st
  /\ stageObjects (Stage.updateWallList st) = stageObjects st.
Proof. unfold Stage.updateWallList. destruct (Stage.wallListElement st); auto. Qed.

Lemma viewer_removeDimensionLine (k : string) (st : Stage.t) :
  Stage.viewer (Stage.removeDimensionLine k st) = Stage.viewer st.
Proof.
  unfold Stage.removeDimensionLine. destruct (JSMap.get k _); reflexivity.
Qed.

Lemma viewer_createWallMesh2D (w : Wall.t) (st : Stage.t) :
  Stage.viewer (Stage.createWallMesh2D w st) = Stage.viewer st.
Proof.
  unfold Stage.createWallMesh2D, Stage.createDimensionLine. cbn.
  now rewrite viewer_removeDimensionLine.
Qed.

Lemma viewer_createAll3D (ws : list Wall.t) (st : Stage.t) :
  Stage.viewer (fold_left (fun st wall => Stage.createWallMesh3D wall st) ws st)
  = Stage.viewer st.
Proof.
  revert st. induction ws as [|w ws IH]; intro st; [reflexivity|].
  cbn [fold_left]. now rewrite IH.
Qed.

Lemma viewer_update3DView (st : Stage.t) :
  Stage.viewer (Stage.update3DView st) = Stage.viewer st.
Proof. unfold Stage.update3DView. now rewrite viewer_createAll3D. Qed.

Lemma viewer_removeAllDimensions (todo : list (string * Stage.Dimension))
    (st : Stage.t) :
  Stage.viewer (fold_left (fun st kv => Stage.removeDimensionLine (fst kv) st) todo st)
  = Stage.viewer st.
Proof.
  revert st. induction todo as [|kd todo IH]; intro st; [reflexivity|].
  cbn [fold_left]. now rewrite IH, viewer_removeDimensionLine.
Qed.

Lemma viewer_removeAllMeshes (todo : list (string * Stage.Object3D)) (st : Stage.t) :
  Stage.viewer (fold_left (fun st kv => Stage.removeMesh (snd kv) st) todo st)
  = Stage.viewer st.
Proof.
  revert st. induction todo as [|kd todo IH]; intro st; [reflexivity|].
  cbn [fold_left]. now rewrite IH.
Qed.

Lemma viewer_deleteOne (w : Wall.t) (st : Stage.t) :
  Stage.viewer (deleteOne w st) = Stage.viewer st.
Proof.
  unfold deleteOne. destruct (JSMap.get _ _); cbn; apply viewer_removeDimensionLine.
Qed.

Lemma viewer_deleteAll (ws : list Wall.t) (st : Stage.t) :
  Stage.viewer (fold_left (fun st wall => deleteOne wall st) ws st) = Stage.viewer st.
Proof.
  revert st. induction ws as [|w ws IH]; intro st; [reflexivity|].
  cbn [fold_left]. now rewrite IH, viewer_deleteOne.
Qed.

Lemma viewer_addWall (a b : Vector3.t) (st : Stage.t) :
  Stage.viewer (snd (Stage.addWall a b st)) = snd (Viewer.addWall a b (Stage.viewer st))
  /\ fst (Stage.addWall a b st) = fst (Viewer.addWall a b (Stage.viewer st)).
Proof.
  unfold Stage.addWall. cbn [fst snd]. split; [|reflexivity].
  rewrite (proj1 (viewer_updateWallList _)).
  match goal with |- context [if ?c then _ else _] => destruct c end;
    unfold Stage.createWallMesh3D;
    cbn [Stage.viewer Stage.set_wallMeshes Stage.set_scene3D Stage.set_nextId];
    rewrite viewer_createWallMesh2D; reflexivity.
Qed.

Lemma viewer_clearAllWalls (st : Stage.t) :
  Stage.viewer (Stage.clearAllWalls st) = Viewer.clearAllWalls (Stage.viewer st).
Proof.
  unfold Stage.clearAllWalls. rewrite (proj1 (viewer_updateWallList _)). cbn.
  now rewrite viewer_removeAllMeshes, viewer_removeAllDimensions.
Qed.

Lemma viewer_deleteSelectedWalls (st : Stage.t) :
  Stage.viewer (Stage.deleteSelectedWalls st)
  = Viewer.deleteSelectedWalls (Stage.viewer st).
Proof.
  unfold Stage.deleteSelectedWalls. rewrite (proj1 (viewer_updateWallList _)). cbn.
  f_equal. exact (viewer_deleteAll _ st).
Qed.

Lemma viewer_flags (st : Stage.t) :
  (forall i, Stage.viewer (Stage.highlightWall i st)
             = Viewer.highlightWall i (Stage.viewer st))
  /\ (forall i, Stage.viewer (Stage.selectWall i st)
                = Viewer.selectWall i (Stage.viewer st))
  /\ Stage.viewer (Stage.clearWallStates st) = Viewer.clearWallStates (Stage.viewer st).
Proof.
  unfold Stage.highlightWall, Stage.selectWall, Stage.clearWallStates.
  repeat split; intros; now rewrite (proj1 (viewer_updateWallList _)).
Qed.

(** The stage steps as the viewer does. *)
Lemma handle_viewer (ev : Viewer.Event) (st : Stage.t) :
  match Stage.handle ev st with
  | Stage.Ok st' => Viewer.handle ev (Stage.viewer st) = Viewer.Ok (Stage.viewer st')
  | Stage.TypeError => Viewer.handle ev (Stage.viewer st) = Viewer.TypeError
  end.
Proof.
  destruct (viewer_flags st) as (Fh & Fs & Fc).
  destruct ev; cbn [Stage.handle Viewer.handle]; try reflexivity.
  - now rewrite (proj1 (viewer_addWall _ _ _)).
  - unfold Stage.setView. destruct is2D; [reflexivity|].
    now rewrite viewer_update3DView.
  - now rewrite viewer_clearAllWalls.
  - now rewrite viewer_deleteSelectedWalls.
  - now rewrite Fh.
  - now rewrite Fs.
  - now rewrite Fc.
  - unfold Stage.onMouseDown, Viewer.onMouseDown, Viewer.onMouseDownAt.
    destruct (negb (Viewer.is2D (Stage.viewer st))).
    { destruct (wallHits p); [now rewrite Fc|now rewrite Fs]. }
    destruct (Viewer.isDrawingMode (Stage.viewer st)).
    2:{ destruct (button e =? 0)%Z; [|reflexivity].
        destruct (wallHits p); [now rewrite Fc|now rewrite Fs]. }
    destruct (negb (button e =? 0)%Z); [reflexivity|].
    destruct (Viewer.getIntersectionPoint (Stage.viewer st) p) as [q|]; [|reflexivity].
    destruct (negb (Viewer.isDrawing (Stage.viewer st))); [reflexivity|].
    destruct (Viewer.startPoint (Stage.viewer st)) as [a|]; [|reflexivity].
    destruct (shiftKey e); cbn [Stage.viewer Stage.onViewer];
      now rewrite (proj1 (viewer_addWall _ _ _)).
  - unfold Stage.onWallListItemMouseOver, Viewer.onWallListItemMouseOver.
    destruct (listItemWallId target); [now rewrite Fh|reflexivity].
  - unfold Stage.onWallListItemMouseOut, Viewer.onWallListItemMouseOut.
    destruct (listItemWallId target); [|reflexivity].
    destruct (negb _); [|reflexivity].
    destruct (find _ _); [|reflexivity].
    now rewrite (proj1 (viewer_updateWallList _)).
  - unfold Stage.onWallListItemClick, Viewer.onWallListItemClick.
    destruct (listItemWallId target); [now rewrite Fs|reflexivity].
Qed.

End StageRun.

Module StageInv.
Import JSMapFacts StageFacts StageSteps StageCreate StageLoops StageRun.

Lemma stage_Ok_inj (a b : Stage.t) : Stage.Ok a = Stage.Ok b -> a = b.
Proof. intro H. now inversion H. Qed.

Lemma scene_ok_same (st st' : Stage.t) :
  stageObjects st' = stageObjects st -> scene_ok st -> scene_ok st'.
Proof.
  unfold stageObjects. intros E H. injection E as Em Ed E2 E3 El En.
  destruct H. constructor; rewrite ?Em, ?Ed, ?E2, ?E3, ?El, ?En; assumption.
Qed.

Lemma meshes_ok_same (st st' : Stage.t) :
  stageObjects st' = stageObjects st -> meshes_ok st -> meshes_ok st'.
Proof.
  unfold stageObjects. intros E H. injection E as Em Ed E2 E3 El En.
  destruct H as [K F]. constructor; rewrite ?Em; [assumption|].
  eapply Forall_impl; [|exact F]. intros km. apply entry_ok_mono; rewrite ?E2, ?E3; auto.
Qed.

Lemma linked_same (st st' : Stage.t) :
  stageObjects st' = stageObjects st ->
  registryKeys (Stage.viewer st') = registryKeys (Stage.viewer st) ->
  linked st -> linked st'.
Proof.
  unfold stageObjects, registryKeys. intros E R H.
  injection E as Em Ed E2 E3 El En. injection R as Ri Rc.
  destruct H. constructor; rewrite ?Em, ?Ed, ?E2, ?Ri, ?Rc; assumption.
Qed.

Lemma inv_same (st st' : Stage.t) :
  stageObjects st' = stageObjects st ->
  registryKeys (Stage.viewer st') = registryKeys (Stage.viewer st) ->
  stage_inv st -> stage_inv st'.
Proof.
  intros E R (H & M & L).
  split; [|split]; eauto using scene_ok_same, meshes_ok_same, linked_same.
Qed.

Lemma inv_onViewer (f : Viewer.t -> Viewer.t) (st : Stage.t) :
  registryKeys (f (Stage.viewer st)) = registryKeys (Stage.viewer st) ->
  stage_inv st -> stage_inv (Stage.onViewer f st).
Proof. intro R. apply inv_same; [reflexivity|exact R]. Qed.

Lemma inv_updateWallList (st : Stage.t) :
  stage_inv st -> stage_inv (Stage.updateWallList st).
Proof.
  destruct (viewer_updateWallList st) as (Ev & Eo).
  apply inv_same; [assumption|now rewrite Ev].
Qed.

Lemma inv_listed_onViewer (f : Viewer.t -> Viewer.t) (st : Stage.t) :
  registryKeys (f (Stage.viewer st)) = registryKeys (Stage.viewer st) ->
  stage_inv st -> stage_inv (Stage.updateWallList (Stage.onViewer f st)).
Proof. intros R H. now apply inv_updateWallList, inv_onViewer. Qed.

(** *** [addWall] *)

Lemma inv_addWall (a b : Vector3.t) (st : Stage.t) :
  registry_inv (Stage.viewer st) -> stage_inv st ->
  stage_inv (snd (Stage.addWall a b st)).
Proof.
  intros R (H & M & [Km Kd Kl]). unfold Stage.addWall. cbn [snd].
  apply inv_updateWallList.
  set (v := Stage.viewer st) in *.
  set (wall := fst (Viewer.addWall a b v)).
  set (st1 := Stage.onViewer (fun v => snd (Viewer.addWall a b v)) st).
  assert (Ei : Wall.id wall = wallId (Viewer.wallCounter v)) by reflexivity.
  assert (Fresh : ~ In (Wall.id wall) (map Wall.id (Viewer.walls v))).
  { rewrite Ei. apply minted_fresh. apply (ok_minted R). }
  assert (H1 : scene_ok st1) by (revert H; apply scene_ok_same; reflexivity).
  assert (M1 : meshes_ok st1) by (revert M; apply meshes_ok_same; reflexivity).
  destruct (createWallMesh2D_ok wall st1 H1 M1)
    as (H2 & M2 & Ev & E3 & El & Ekm & Ekd & Ew).
  set (st2 := Stage.createWallMesh2D wall st1) in *.
  assert (W : map Wall.id (Viewer.walls (Stage.viewer st2))
              = map Wall.id (Viewer.walls v) ++ [Wall.id wall]).
  { rewrite Ev. cbn. now rewrite map_app. }
  assert (C : Viewer.wallCounter (Stage.viewer st2) = S (Viewer.wallCounter v))
    by (rewrite Ev; reflexivity).
  assert (L2 : linked st2).
  { constructor.
    - rewrite Ekm, W. change (Stage.wallMeshes st1) with (Stage.wallMeshes st).
      rewrite Km. now apply keysWith_fresh.
    - rewrite Ekd, W. change (Stage.dimensionLines st1) with (Stage.dimensionLines st).
      rewrite Kd. f_equal. apply filter_all. intros i I.
      apply negb_true_iff, String.eqb_neq. intros ->. contradiction.
    - rewrite Ew, C. change (Stage.scene2D st1) with (Stage.scene2D st).
      rewrite Kl, seq_S, map_app, Ei. reflexivity. }
  destruct (negb (Viewer.is2D (Stage.viewer st2)));
    [|split; [assumption|split; assumption]].
  destruct (createWallMesh3D_ok wall st2 H2 M2) as (H3 & M3 & Ev3 & E23 & Ed3 & El3 & Ek3).
  split; [assumption|]. split; [assumption|].
  destruct L2 as [Km2 Kd2 Kl2]. constructor.
  - rewrite Ek3, Ev3, Km2, W. apply keysWith_old. apply in_app_iff. right. now left.
  - now rewrite Ed3, Ev3.
  - now rewrite E23, Ev3.
Qed.

(** *** [setView] *)

Lemma inv_setView (b : bool) (st : Stage.t) :
  registry_inv (Stage.viewer st) -> stage_inv st -> stage_inv (Stage.setView b st).
Proof.
  intros R I. unfold Stage.setView.
  assert (I1 : stage_inv (Stage.onViewer (Viewer.setView b) st))
    by (apply inv_onViewer; [reflexivity|assumption]).
  destruct b; [assumption|].
  destruct I1 as (H1 & _ & [Km Kd Kl]).
  destruct (update3DView_ok _ H1) as (H2 & M2 & Ev & E2 & Ed & El & Ek).
  { exact (ok_distinct R). }
  split; [assumption|]. split; [assumption|]. constructor.
  - now rewrite Ek, Ev.
  - now rewrite Ed, Ev.
  - now rewrite E2, Ev.
Qed.

(** *** [clearAllWalls] *)

Lemma map_fst_nil {A B : Type} (l : list (A * B)) : map fst l = [] -> l = [].
Proof. destruct l; [reflexivity|discriminate]. Qed.

Lemma inv_clearAllWalls (st : Stage.t) :
  stage_inv st -> stage_inv (Stage.clearAllWalls st).
Proof.
  intros (H & M & [Km Kd Kl]). unfold Stage.clearAllWalls.
  apply inv_updateWallList.
  destruct (removeAllDimensions_ok (Stage.dimensionLines st) st H M)
    as (H1 & M1 & Ev & Em & E3 & El & Ek & Ew).
  set (st1 := fold_left _ (Stage.dimensionLines st) st) in *.
  rewrite keys_all_gone in Ek. apply map_fst_nil in Ek.
  destruct (removeAllMeshes_ok (Stage.wallMeshes st1) st1 H1 (plainMeshes_of st1 H1 M1))
    as (H2 & Ev2 & Em2 & Ed2 & El2 & Ew2).
  set (st2 := fold_left _ (Stage.wallMeshes st1) st1) in *.
  assert (W : Viewer.walls (Viewer.clearAllWalls (Stage.viewer st2)) = []).
  { unfold Viewer.clearAllWalls. now rewrite zoomExtend_keeps_walls. }
  assert (C : Viewer.wallCounter (Viewer.clearAllWalls (Stage.viewer st2))
              = Viewer.wallCounter (Stage.viewer st)).
  { unfold Viewer.clearAllWalls. rewrite ViewerMore2.wallCounter_zoomExtend. cbn.
    now rewrite Ev2, Ev. }
  split; [|split].
  - constructor; cbn; apply H2.
  - constructor; cbn; constructor.
  - constructor; cbn [Stage.viewer Stage.onViewer Stage.set_wallMeshes Stage.wallMeshes
                      Stage.dimensionLines Stage.scene2D]; rewrite ?W, ?C.
    + reflexivity.
    + now rewrite Ed2, Ek.
    + now rewrite Ew2, Ew.
Qed.

(** *** [deleteSelectedWalls] *)

Lemma selected_walls (ws : list Wall.t) :
  countSelected ws <= 1 ->
  filter Wall.isSelected ws = []
  \/ exists w, filter Wall.isSelected ws = [w].
Proof.
  unfold countSelected. destruct (filter Wall.isSelected ws) as [|w [|w' r]]; cbn; eauto.
  intro L. lia.
Qed.

Lemma keys_without_selected (ws : list Wall.t) (w : Wall.t) :
  NoDup (map Wall.id ws) -> filter Wall.isSelected ws = [w] ->
  map Wall.id (filter (fun x => negb (Wall.isSelected x)) ws)
  = filter (fun i => negb (i =? Wall.id w)%string) (map Wall.id ws).
Proof.
  intros N S. symmetry. apply filter_map_swap. intros x I. f_equal.
  assert (Iw : In w ws /\ Wall.isSelected w = true).
  { apply filter_In. rewrite S. now left. }
  destruct (Wall.isSelected x) eqn:Sx.
  - assert (J : In x (filter Wall.isSelected ws)) by (apply filter_In; auto).
    rewrite S in J. destruct J as [<-|[]]. apply String.eqb_refl.
  - apply String.eqb_neq. intro E.
    assert (x = w) by (apply (NoDup_map_inj Wall.id ws); tauto). subst x.
    destruct Iw. congruence.
Qed.

Lemma keys_none_selected (ws : list Wall.t) :
  filter Wall.isSelected ws = [] -> filter (fun x => negb (Wall.isSelected x)) ws = ws.
Proof.
  intro S. apply filter_all. intros x I. destruct (Wall.isSelected x) eqn:Sx; [|reflexivity].
  assert (J : In x (filter Wall.isSelected ws)) by (apply filter_In; auto).
  rewrite S in J. destruct J.
Qed.

Lemma keys_deleteSelectedWalls (v : Viewer.t) :
  registryKeys (Viewer.deleteSelectedWalls v)
  = (map Wall.id (filter (fun x => negb (Wall.isSelected x)) (Viewer.walls v)),
     Viewer.wallCounter v).
Proof.
  unfold Viewer.deleteSelectedWalls. rewrite keys_zoomExtend, keys_clearWallStates.
  reflexivity.
Qed.

Lemma inv_deleteSelectedWalls (st : Stage.t) :
  registry_inv (Stage.viewer st) -> stage_inv st ->
  stage_inv (Stage.deleteSelectedWalls st).
Proof.
  intros R (H & M & [Km Kd Kl]). unfold Stage.deleteSelectedWalls.
  apply inv_updateWallList.
  pose proof (keys_deleteSelectedWalls (Stage.viewer st)) as K.
  unfold registryKeys in K. injection K as Kw Kc.
  destruct (selected_walls _ (ok_selected R)) as [S|(w & S)]; rewrite S; cbn [fold_left].
  - split; [|split].
    + revert H. apply scene_ok_same. reflexivity.
    + revert M. apply meshes_ok_same. reflexivity.
    + rewrite (keys_none_selected _ S) in Kw.
      constructor; cbn [Stage.viewer Stage.onViewer Stage.wallMeshes
                        Stage.dimensionLines Stage.scene2D]; rewrite ?Kw, ?Kc; assumption.
  - destruct (deleteOne_ok w st H M) as (H1 & M1 & Ev & El & Ekm & Ekd & Ew).
    fold (deleteOne w st). set (st1 := deleteOne w st) in *.
    rewrite (keys_without_selected _ w (ok_distinct R) S) in Kw.
    split; [|split].
    + revert H1. apply scene_ok_same. reflexivity.
    + revert M1. apply meshes_ok_same. reflexivity.
    + constructor; cbn [Stage.viewer Stage.onViewer Stage.wallMeshes
                        Stage.dimensionLines Stage.scene2D]; rewrite Ev, ?Kw, ?Kc.
      * now rewrite Ekm, Km.
      * now rewrite Ekd, Kd.
      * now rewrite Ew.
Qed.

(** *** The handlers *)

Lemma inv_flags (st : Stage.t) :
  stage_inv st ->
  (forall i, stage_inv (Stage.highlightWall i st))
  /\ (forall i, stage_inv (Stage.selectWall i st))
  /\ stage_inv (Stage.clearWallStates st)
  /\ stage_inv (Stage.clearHighlight st).
Proof.
  intro I. repeat split; intros;
    first [ apply inv_listed_onViewer | apply inv_onViewer ];
    auto using keys_highlightWall, keys_selectWall, keys_clearWallStates,
      keys_clearHighlight.
Qed.

Lemma inv_onMouseDown (e : MouseEvent) (p : Pick) (st st' : Stage.t) :
  registry_inv (Stage.viewer st) -> stage_inv st ->
  Stage.onMouseDown e p st = Stage.Ok st' -> stage_inv st'.
Proof.
  intros R I E. destruct (inv_flags st I) as (Fh & Fs & Fc & Fl).
  unfold Stage.onMouseDown in E.
  destruct (negb (Viewer.is2D (Stage.viewer st))).
  { destruct (wallHits p); apply stage_Ok_inj in E; subst st'; auto. }
  destruct (Viewer.isDrawingMode (Stage.viewer st)).
  2:{ destruct (button e =? 0)%Z; [destruct (wallHits p)|];
        apply stage_Ok_inj in E; subst st'; auto. }
  destruct (negb (button e =? 0)%Z); [apply stage_Ok_inj in E; subst st'; assumption|].
  destruct (Viewer.getIntersectionPoint (Stage.viewer st) p) as [q|];
    [|apply stage_Ok_inj in E; subst st'; assumption].
  destruct (negb (Viewer.isDrawing (Stage.viewer st))).
  { apply stage_Ok_inj in E; subst st'. apply inv_onViewer; [reflexivity|assumption]. }
  destruct (Viewer.startPoint (Stage.viewer st)) as [a|]; [|discriminate].
  pose proof (inv_addWall a q st R I) as I1.
  generalize dependent (snd (Stage.addWall a q st)). intros st1 E I1.
  assert (I2 : stage_inv (Stage.onViewer Viewer.removePreviewLine st1))
    by (apply inv_onViewer; [apply keys_removePreviewLine|assumption]).
  generalize dependent (Stage.onViewer Viewer.removePreviewLine st1). intros st2 E I2.
  destruct (shiftKey e); apply stage_Ok_inj in E; subst st';
    (apply inv_onViewer; [reflexivity|assumption]).
Qed.

Lemma inv_onMouseMove (p : Pick) (st : Stage.t) :
  stage_inv st -> stage_inv (Stage.onMouseMove p st).
Proof.
  intro I. destruct (inv_flags st I) as (Fh & Fs & Fc & Fl).
  unfold Stage.onMouseMove.
  set (hovered := if Viewer.is2D (Stage.viewer st) then _ else st).
  assert (Ih : stage_inv hovered).
  { unfold hovered. destruct (Viewer.is2D (Stage.viewer st)); [|assumption].
    destruct (wallHits p); [|auto].
    destruct (negb (Viewer.isDrawing (Stage.viewer st))); auto. }
  assert (Kh : registryKeys (Stage.viewer hovered) = registryKeys (Stage.viewer st)).
  { unfold hovered. destruct (Viewer.is2D (Stage.viewer st)); [|reflexivity].
    destruct (wallHits p).
    - destruct (negb (Viewer.isDrawing (Stage.viewer st))); [|reflexivity].
      apply keys_clearHighlight.
    - unfold Stage.highlightWall. rewrite (proj1 (viewer_updateWallList _)).
      apply keys_highlightWall. }
  revert Ih. apply inv_same; [reflexivity|].
  cbn [Stage.viewer]. now rewrite keys_onMouseMove, Kh.
Qed.

Lemma inv_onWallListItemMouseOut (target : ListTarget) (st st' : Stage.t) :
  stage_inv st -> Stage.onWallListItemMouseOut target st = Stage.Ok st' ->
  stage_inv st'.
Proof.
  intros I E. unfold Stage.onWallListItemMouseOut in E.
  destruct (listItemWallId target) as [id|]; [|apply stage_Ok_inj in E; subst st'; assumption].
  destruct (negb _); [|apply stage_Ok_inj in E; subst st'; assumption].
  destruct (find _ _); [|discriminate]. apply stage_Ok_inj in E; subst st'.
  apply inv_listed_onViewer; [|assumption].
  unfold registryKeys. cbn. now rewrite keys_unhighlightFirst.
Qed.

Lemma inv_handle (ev : Viewer.Event) (st st' : Stage.t) :
  registry_inv (Stage.viewer st) -> stage_inv st ->
  Stage.handle ev st = Stage.Ok st' -> stage_inv st'.
Proof.
  intros R I E. destruct (inv_flags st I) as (Fh & Fs & Fc & Fl).
  destruct ev; cbn [Stage.handle] in E.
  - apply stage_Ok_inj in E; subst st'. now apply inv_addWall.
  - apply stage_Ok_inj in E; subst st'. now apply inv_setView.
  - apply stage_Ok_inj in E; subst st'. apply inv_onViewer; [apply keys_zoomExtend|assumption].
  - apply stage_Ok_inj in E; subst st'. now apply inv_clearAllWalls.
  - apply stage_Ok_inj in E; subst st'. now apply inv_deleteSelectedWalls.
  - apply stage_Ok_inj in E; subst st'.
    apply inv_onViewer; [apply keys_toggleDrawingMode|assumption].
  - apply stage_Ok_inj in E; subst st'. apply Fh.
  - apply stage_Ok_inj in E; subst st'. apply Fs.
  - apply stage_Ok_inj in E; subst st'. exact Fc.
  - apply stage_Ok_inj in E; subst st'. exact Fl.
  - exact (inv_onMouseDown e p st st' R I E).
  - apply stage_Ok_inj in E; subst st'. now apply inv_onMouseMove.
  - apply stage_Ok_inj in E; subst st'. assumption.
  - apply stage_Ok_inj in E; subst st'. unfold Stage.onWallListItemMouseOver.
    destruct (listItemWallId target); [apply Fh|assumption].
  - exact (inv_onWallListItemMouseOut target st st' I E).
  - apply stage_Ok_inj in E; subst st'. unfold Stage.onWallListItemClick.
    destruct (listItemWallId target); [apply Fs|assumption].
  - apply stage_Ok_inj in E; subst st'. apply inv_onViewer; [reflexivity|assumption].
  - apply stage_Ok_inj in E; subst st'. apply inv_onViewer; [reflexivity|assumption].
Qed.

Lemma inv_create (w h : float) (wallList : option (list ListItem)) :
  stage_inv (Stage.create w h wallList).
Proof.
  assert (W : Viewer.walls (Viewer.create w h) = []).
  { unfold Viewer.create. now rewrite zoomExtend_keeps_walls. }
  assert (C : Viewer.wallCounter (Viewer.create w h) = 0).
  { unfold Viewer.create. now rewrite ViewerMore2.wallCounter_zoomExtend. }
  split; [|split].
  - constructor; cbn; try constructor; try reflexivity; constructor.
  - constructor; cbn; constructor.
  - constructor; cbn [Stage.create Stage.viewer Stage.wallMeshes Stage.dimensionLines
                      Stage.scene2D]; rewrite ?W, ?C; reflexivity.
Qed.

Lemma reachable_stage (st : Stage.t) :
  Stage.reachable st -> Viewer.reachable (Stage.viewer st) /\ stage_inv st.
Proof.
  induction 1 as [w h wl|ev st st' R (RV & I) E].
  - split; [constructor|apply inv_create].
  - pose proof (handle_viewer ev st) as HV. rewrite E in HV. split.
    + exact (Viewer.reachable_handle ev _ _ RV HV).
    + eapply inv_handle; eauto. now apply ViewerFacts.reachable_registry.
Qed.

Lemma stage_reachable_run (evs : list Viewer.Event) (st : Stage.t) :
  Stage.reachable st -> Stage.reachable (Stage.run evs st).
Proof.
  revert st. induction evs as [|ev evs IH]; intros st R; [assumption|].
  cbn [Stage.run fold_left]. apply IH.
  destruct (Stage.handle ev st) eqn:E; [|assumption].
  eapply Stage.reachable_handle; eauto.
Qed.

End StageInv.

Module StageList.
Import JSMapFacts StageFacts StageSteps StageCreate StageLoops StageRun StageInv.

(** *** The wall list *)

Lemma items_walls (v v' : Viewer.t) :
  Viewer.walls v' = Viewer.walls v -> updateWallList v' = updateWallList v.
Proof. unfold updateWallList. now intros ->. Qed.

Lemma items_clearHighlight (v : Viewer.t) :
  updateWallList (Viewer.clearHighlight v) = updateWallList v.
Proof.
  unfold updateWallList. cbn. rewrite map_map. apply map_ext. intro w.
  repeat match goal with |- context [if ?c then _ else _] => destruct c end; reflexivity.
Qed.

Lemma listed_updateWallList (st : Stage.t) : listed (Stage.updateWallList st).
Proof.
  unfold listed, Stage.updateWallList. destruct (Stage.wallListElement st) eqn:E; cbn.
  - intros items [= <-]. reflexivity.
  - rewrite E. discriminate.
Qed.

Lemma listed_flags (st : Stage.t) :
  (forall i, listed (Stage.highlightWall i st))
  /\ (forall i, listed (Stage.selectWall i st))
  /\ listed (Stage.clearWallStates st)
  /\ (forall a b, listed (snd (Stage.addWall a b st)))
  /\ listed (Stage.clearAllWalls st)
  /\ listed (Stage.deleteSelectedWalls st).
Proof.
  unfold Stage.highlightWall, Stage.selectWall, Stage.clearWallStates, Stage.addWall,
    Stage.clearAllWalls, Stage.deleteSelectedWalls.
  repeat split; intros; apply listed_updateWallList.
Qed.

Lemma listed_same (st st' : Stage.t) :
  Stage.wallListElement st' = Stage.wallListElement st ->
  updateWallList (Stage.viewer st') = updateWallList (Stage.viewer st) ->
  listed st -> listed st'.
Proof. unfold listed. intros -> ->. auto. Qed.

Lemma listed_onViewer (f : Viewer.t -> Viewer.t) (st : Stage.t) :
  Viewer.walls (f (Stage.viewer st)) = Viewer.walls (Stage.viewer st) ->
  listed st -> listed (Stage.onViewer f st).
Proof. intro W. apply listed_same; [reflexivity|]. now apply items_walls. Qed.

Lemma list_createAll3D (ws : list Wall.t) (st : Stage.t) :
  Stage.wallListElement
    (fold_left (fun st wall => Stage.createWallMesh3D wall st) ws st)
  = Stage.wallListElement st.
Proof.
  revert st. induction ws as [|w ws IH]; intro st; [reflexivity|].
  cbn [fold_left]. now rewrite IH.
Qed.

Lemma walls_removePreviewLine (v : Viewer.t) :
  Viewer.walls (Viewer.removePreviewLine v) = Viewer.walls v.
Proof. unfold Viewer.removePreviewLine. destruct (Viewer.previewLine v); reflexivity. Qed.

Lemma walls_toggleDrawingMode (v : Viewer.t) :
  Viewer.walls (Viewer.toggleDrawingMode v) = Viewer.walls v.
Proof.
  unfold Viewer.toggleDrawingMode, Viewer.cleanupDrawing. cbn.
  destruct (negb (negb (Viewer.isDrawingMode v))); [|reflexivity].
  cbn [Viewer.walls Viewer.set_startPoint Viewer.set_isDrawing].
  now rewrite walls_removePreviewLine.
Qed.

Lemma kept_refl (st : Stage.t) : listKept st st.
Proof. unfold listKept. auto. Qed.

Lemma kept_same (st st' : Stage.t) :
  Stage.wallListElement st' = Stage.wallListElement st ->
  Viewer.walls (Stage.viewer st') = Viewer.walls (Stage.viewer st) ->
  listKept st st'.
Proof.
  intros L W. split; [assumption|]. split; [now apply items_walls|]. now rewrite W.
Qed.

Lemma kept_onViewer (f : Viewer.t -> Viewer.t) (st : Stage.t) :
  Viewer.walls (f (Stage.viewer st)) = Viewer.walls (Stage.viewer st) ->
  listKept st (Stage.onViewer f st).
Proof. intro W. now apply kept_same. Qed.

Lemma kept_clearHighlight (st : Stage.t) : listKept st (Stage.clearHighlight st).
Proof.
  split; [reflexivity|]. split; [apply items_clearHighlight|]. cbn. now intros ->.
Qed.

Lemma kept_listed (st st' : Stage.t) : listKept st st' -> listed st -> listed st'.
Proof. intros (L & U & _). now apply listed_same. Qed.

(** A handler either ends with the list rebuilt, or keeps it. *)
Lemma list_onMouseDown (e : MouseEvent) (p : Pick) (st st' : Stage.t) :
  Stage.onMouseDown e p st = Stage.Ok st' -> listed st' \/ listKept st st'.
Proof.
  intros E. destruct (listed_flags st) as (Fh & Fs & Fc & Fa & _).
  pose proof (kept_refl st) as K.
  unfold Stage.onMouseDown in E.
  destruct (negb (Viewer.is2D (Stage.viewer st))).
  { destruct (wallHits p); apply stage_Ok_inj in E; subst st'; auto. }
  destruct (Viewer.isDrawingMode (Stage.viewer st)).
  2:{ destruct (button e =? 0)%Z; [destruct (wallHits p)|];
        apply stage_Ok_inj in E; subst st'; auto. }
  destruct (negb (button e =? 0)%Z); [apply stage_Ok_inj in E; subst st'; auto|].
  destruct (Viewer.getIntersectionPoint (Stage.viewer st) p) as [q|];
    [|apply stage_Ok_inj in E; subst st'; auto].
  destruct (negb (Viewer.isDrawing (Stage.viewer st))).
  { apply stage_Ok_inj in E; subst st'. right. now apply kept_onViewer. }
  destruct (Viewer.startPoint (Stage.viewer st)) as [a|]; [|discriminate].
  left. pose proof (Fa a q) as I1. clear K.
  generalize dependent (snd (Stage.addWall a q st)). intros st1 E I1.
  assert (I2 : listed (Stage.onViewer Viewer.removePreviewLine st1))
    by (apply listed_onViewer; [apply walls_removePreviewLine|assumption]).
  generalize dependent (Stage.onViewer Viewer.removePreviewLine st1). intros st2 E I2.
  destruct (shiftKey e); apply stage_Ok_inj in E; subst st';
    (apply listed_onViewer; [reflexivity|assumption]).
Qed.

Lemma walls_onMouseMove (p : Pick) (v : Viewer.t) :
  Viewer.walls (Viewer.onMouseMove p v)
  = Viewer.walls
      (if Viewer.is2D v then
         match wallHits p with
         | wallId :: _ => Viewer.highlightWall wallId v
         | [] => if negb (Viewer.isDrawing v) then Viewer.clearHighlight v else v
         end
       else v).
Proof.
  unfold Viewer.onMouseMove, Viewer.onMouseMoveAt.
  set (hovered := if Viewer.is2D v then _ else v).
  repeat match goal with |- context [match ?c with _ => _ end] => destruct c end;
    reflexivity.
Qed.

Lemma list_onMouseMove (p : Pick) (st : Stage.t) :
  listed (Stage.onMouseMove p st) \/ listKept st (Stage.onMouseMove p st).
Proof.
  unfold Stage.onMouseMove.
  set (hovered := if Viewer.is2D (Stage.viewer st) then _ else st).
  assert (Ih : (listed hovered \/ listKept st hovered) /\
               Viewer.walls (Viewer.onMouseMove p (Stage.viewer st))
               = Viewer.walls (Stage.viewer hovered)).
  { rewrite walls_onMouseMove. unfold hovered.
    destruct (Viewer.is2D (Stage.viewer st)); [|auto using kept_refl].
    destruct (wallHits p).
    - destruct (negb (Viewer.isDrawing (Stage.viewer st))); [|auto using kept_refl].
      split; [|reflexivity]. right. apply kept_clearHighlight.
    - split; [left; apply (listed_flags st)|].
      unfold Stage.highlightWall. now rewrite (proj1 (viewer_updateWallList _)). }
  destruct Ih as ([Ih|(L & U & N)] & W).
  - left. revert Ih. apply listed_same; [reflexivity|].
    cbn [Stage.viewer]. now apply items_walls.
  - right. split; [exact L|]. cbn [Stage.viewer]. split.
    + rewrite <- U. now apply items_walls.
    + intro E. rewrite W. auto.
Qed.

Lemma list_handle (ev : Viewer.Event) (st st' : Stage.t) :
  Stage.handle ev st = Stage.Ok st' -> listed st' \/ listKept st st'.
Proof.
  intros E. destruct (listed_flags st) as (Fh & Fs & Fc & Fa & Fl & Fd).
  pose proof (kept_refl st) as K.
  destruct ev; cbn [Stage.handle] in E.
  - apply stage_Ok_inj in E; subst st'. left. apply Fa.
  - apply stage_Ok_inj in E; subst st'. right. unfold Stage.setView.
    destruct is2D; [now apply kept_onViewer|]. apply kept_same.
    + unfold Stage.update3DView. now rewrite list_createAll3D.
    + now rewrite viewer_update3DView.
  - apply stage_Ok_inj in E; subst st'. right.
    apply kept_onViewer, zoomExtend_keeps_walls.
  - apply stage_Ok_inj in E; subst st'. left. exact Fl.
  - apply stage_Ok_inj in E; subst st'. left. exact Fd.
  - apply stage_Ok_inj in E; subst st'. right.
    apply kept_onViewer, walls_toggleDrawingMode.
  - apply stage_Ok_inj in E; subst st'. left. apply Fh.
  - apply stage_Ok_inj in E; subst st'. left. apply Fs.
  - apply stage_Ok_inj in E; subst st'. left. exact Fc.
  - apply stage_Ok_inj in E; subst st'. right. apply kept_clearHighlight.
  - exact (list_onMouseDown e p st st' E).
  - apply stage_Ok_inj in E; subst st'. apply list_onMouseMove.
  - apply stage_Ok_inj in E; subst st'. now right.
  - apply stage_Ok_inj in E; subst st'. unfold Stage.onWallListItemMouseOver.
    destruct (listItemWallId target); auto.
  - unfold Stage.onWallListItemMouseOut in E.
    destruct (listItemWallId target) as [id|]; [|apply stage_Ok_inj in E; subst st'; auto].
    destruct (negb _); [|apply stage_Ok_inj in E; subst st'; auto].
    destruct (find _ _); [|discriminate]. apply stage_Ok_inj in E; subst st'.
    left. apply listed_updateWallList.
  - apply stage_Ok_inj in E; subst st'. unfold Stage.onWallListItemClick.
    destruct (listItemWallId target); auto.
  - apply stage_Ok_inj in E; subst st'. right. now apply kept_onViewer.
  - apply stage_Ok_inj in E; subst st'. right. now apply kept_onViewer.
Qed.

(** The list is rebuilt, or it is the page's and there are no walls. *)
Lemma list_run (evs : list Viewer.Event) (wallList : option (list ListItem))
    (st : Stage.t) :
  listed st
  \/ (Stage.wallListElement st = wallList /\ Viewer.walls (Stage.viewer st) = []) ->
  listed (Stage.run evs st)
  \/ (Stage.wallListElement (Stage.run evs st) = wallList
      /\ Viewer.walls (Stage.viewer (Stage.run evs st)) = []).
Proof.
  revert st. induction evs as [|ev evs IH]; intros st I; [assumption|].
  cbn [Stage.run fold_left]. apply IH.
  destruct (Stage.handle ev st) as [st'|] eqn:E; [|assumption].
  destruct (list_handle ev st st' E) as [L|K]; [now left|].
  destruct I as [I|(L & W)].
  - left. exact (kept_listed st st' K I).
  - right. destruct K as (L' & _ & N). split; [congruence|auto].
Qed.

End StageList.

Module StageTracked.
Import JSMapFacts StageFacts StageSteps StageCreate StageLoops StageRun StageInv.

Lemma set_last {V : Type} (k : string) (v v' : V) (m : list (string * V)) :
  ~ In k (map fst m) -> JSMap.set k v' (m ++ [(k, v)]) = m ++ [(k, v')].
Proof.
  induction m as [|[k' x] m IH]; cbn [map fst In JSMap.set List.app].
  - intros _. now rewrite String.eqb_refl.
  - intro N. destruct (String.eqb_spec k' k) as [->|X]; [tauto|].
    f_equal. apply IH. tauto.
Qed.

Lemma tracked_same (st st' : Stage.t) :
  Stage.wallMeshes st' = Stage.wallMeshes st ->
  Stage.scene3D st' = Stage.scene3D st ->
  tracked st -> tracked st'.
Proof. unfold tracked. now intros -> ->. Qed.

Lemma tracked_updateWallList (st : Stage.t) :
  tracked st -> tracked (Stage.updateWallList st).
Proof. unfold Stage.updateWallList. destruct (Stage.wallListElement st); auto. Qed.

Lemma meshes_removeDimensionLine (k : string) (st : Stage.t) :
  Stage.wallMeshes (Stage.removeDimensionLine k st) = Stage.wallMeshes st
  /\ Stage.scene3D (Stage.removeDimensionLine k st) = Stage.scene3D st.
Proof. unfold Stage.removeDimensionLine. destruct (JSMap.get k _); auto. Qed.

Lemma meshes_createDimensionLine (w : Wall.t) (st : Stage.t) :
  Stage.wallMeshes (Stage.createDimensionLine w st) = Stage.wallMeshes st
  /\ Stage.scene3D (Stage.createDimensionLine w st) = Stage.scene3D st.
Proof. unfold Stage.createDimensionLine. cbn. apply meshes_removeDimensionLine. Qed.

(** [createWallMesh2D] for a wall that has no mesh yet: its box goes last in
    the map. *)
Lemma createWallMesh2D_fresh (w : Wall.t) (st : Stage.t) :
  ~ In (Wall.id w) (map fst (Stage.wallMeshes st)) ->
  exists box,
    isKind Stage.WallBlock box = false
    /\ Stage.wallMeshes (Stage.createWallMesh2D w st)
       = Stage.wallMeshes st ++ [(Wall.id w, box)]
    /\ Stage.scene3D (Stage.createWallMesh2D w st) = Stage.scene3D st.
Proof.
  intro N. unfold Stage.createWallMesh2D.
  exists (Stage.Build_Object3D (S (Stage.nextId st)) Stage.WallBox (Some (Wall.id w))).
  split; [reflexivity|].
  rewrite (proj1 (meshes_createDimensionLine _ _)),
    (proj2 (meshes_createDimensionLine _ _)). cbn.
  now rewrite set_fresh.
Qed.

Lemma tracked_grown (st st' : Stage.t) (k : string) (box : Stage.Object3D) :
  isKind Stage.WallBlock box = false ->
  Stage.wallMeshes st' = Stage.wallMeshes st ++ [(k, box)] ->
  Stage.scene3D st' = Stage.scene3D st ->
  tracked st -> tracked st'.
Proof.
  unfold tracked. intros B -> -> T. rewrite map_app, filter_app.
  cbn [map snd filter]. now rewrite B, app_nil_r.
Qed.

Lemma tracked_createWallMesh3D (w : Wall.t) (st : Stage.t) :
  ~ In (Wall.id w) (map fst (Stage.wallMeshes st)) ->
  tracked st -> tracked (Stage.createWallMesh3D w st).
Proof.
  unfold tracked, Stage.createWallMesh3D. intros N T. cbn.
  rewrite set_fresh by assumption. rewrite map_app, filter_app, T. reflexivity.
Qed.

(** [createWallMesh3D] after [createWallMesh2D]: the block takes the place
    of the box. *)
Lemma tracked_createWallMesh3D_last (w : Wall.t) (st0 st : Stage.t)
    (box : Stage.Object3D) :
  ~ In (Wall.id w) (map fst (Stage.wallMeshes st0)) ->
  isKind Stage.WallBlock box = false ->
  Stage.wallMeshes st = Stage.wallMeshes st0 ++ [(Wall.id w, box)] ->
  Stage.scene3D st = Stage.scene3D st0 ->
  tracked st0 -> tracked (Stage.createWallMesh3D w st).
Proof.
  unfold tracked, Stage.createWallMesh3D. intros N B Em E3 T. cbn.
  rewrite Em, set_last by assumption. rewrite map_app, filter_app, E3, T. reflexivity.
Qed.

Lemma tracked_addWall (a b : Vector3.t) (st : Stage.t) :
  registry_inv (Stage.viewer st) -> stage_inv st -> tracked st ->
  tracked (snd (Stage.addWall a b st)).
Proof.
  intros R (_ & _ & [Km _ _]) T. unfold Stage.addWall. cbn [snd].
  apply tracked_updateWallList.
  set (v := Stage.viewer st) in *.
  set (wall := fst (Viewer.addWall a b v)).
  set (st1 := Stage.onViewer (fun v => snd (Viewer.addWall a b v)) st).
  assert (Ei : Wall.id wall = wallId (Viewer.wallCounter v)) by reflexivity.
  assert (Fresh : ~ In (Wall.id wall) (map fst (Stage.wallMeshes st1))).
  { change (Stage.wallMeshes st1) with (Stage.wallMeshes st). rewrite Km, Ei.
    apply minted_fresh. apply (ok_minted R). }
  assert (T1 : tracked st1) by exact T.
  destruct (createWallMesh2D_fresh wall st1 Fresh) as (box & B & Em & E3).
  destruct (negb (Viewer.is2D _)).
  - exact (tracked_createWallMesh3D_last wall st1 _ box Fresh B Em E3 T1).
  - exact (tracked_grown st1 _ _ box B Em E3 T1).
Qed.

(** *** [update3DView] *)

Lemma removeAll3_nil (ms : list (string * Stage.Object3D)) (sc3 : list Stage.Object3D) :
  (forall o, In o sc3 -> In o (map snd ms)) ->
  fold_left (fun children kv => Stage.remove (snd kv) children) ms sc3 = [].
Proof.
  revert sc3. induction ms as [|km ms IH]; intros sc3 S; cbn [fold_left].
  - destruct sc3 as [|o sc3]; [reflexivity|]. destruct (S o (or_introl eq_refl)).
  - apply IH. intros o I. apply remove_In in I. destruct I as (I & N).
    destruct (S o I) as [E|J]; [|assumption]. now subst o.
Qed.

Lemma tracked_in (st : Stage.t) (o : Stage.Object3D) :
  tracked st -> In o (Stage.scene3D st) -> In o (map snd (Stage.wallMeshes st)).
Proof. unfold tracked. intros -> I. apply filter_In in I. tauto. Qed.

Lemma tracked_createAll3D (ws : list Wall.t) (st : Stage.t) :
  NoDup (map fst (Stage.wallMeshes st) ++ map Wall.id ws) ->
  tracked st ->
  tracked (fold_left (fun st wall => Stage.createWallMesh3D wall st) ws st).
Proof.
  revert st. induction ws as [|w ws IH]; intros st N T; [assumption|].
  cbn [fold_left].
  assert (Fresh : ~ In (Wall.id w) (map fst (Stage.wallMeshes st))).
  { apply NoDup_app_parts in N. destruct N as (_ & _ & D). intro I.
    apply (D _ I). now left. }
  apply IH; [|now apply tracked_createWallMesh3D].
  unfold Stage.createWallMesh3D. cbn [Stage.wallMeshes Stage.set_wallMeshes].
  rewrite set_keys_fresh by assumption. rewrite <- app_assoc. exact N.
Qed.

Lemma tracked_update3DView (st : Stage.t) :
  NoDup (map Wall.id (Viewer.walls (Stage.viewer st))) ->
  tracked st -> tracked (Stage.update3DView st).
Proof.
  intros N T. unfold Stage.update3DView. apply tracked_createAll3D; [exact N|].
  unfold tracked. cbn. apply removeAll3_nil. intro o. now apply tracked_in.
Qed.

(** *** [clearAllWalls] *)

Lemma meshes_removeAllDimensions (todo : list (string * Stage.Dimension))
    (st : Stage.t) :
  Stage.wallMeshes
    (fold_left (fun st kv => Stage.removeDimensionLine (fst kv) st) todo st)
  = Stage.wallMeshes st
  /\ Stage.scene3D
       (fold_left (fun st kv => Stage.removeDimensionLine (fst kv) st) todo st)
     = Stage.scene3D st.
Proof.
  revert st. induction todo as [|kd todo IH]; intro st; [auto|].
  cbn [fold_left]. destruct (IH (Stage.removeDimensionLine (fst kd) st)) as (-> & ->).
  apply meshes_removeDimensionLine.
Qed.

Lemma scene3D_removeAllMeshes (todo : list (string * Stage.Object3D)) (st : Stage.t) :
  Stage.scene3D (fold_left (fun st kv => Stage.removeMesh (snd kv) st) todo st)
  = fold_left (fun children kv => Stage.remove (snd kv) children) todo (Stage.scene3D st).
Proof.
  revert st. induction todo as [|km todo IH]; intro st; [reflexivity|].
  cbn [fold_left]. now rewrite IH.
Qed.

Lemma tracked_clearAllWalls (st : Stage.t) :
  tracked st -> tracked (Stage.clearAllWalls st).
Proof.
  intro T. unfold Stage.clearAllWalls. apply tracked_updateWallList.
  destruct (meshes_removeAllDimensions (Stage.dimensionLines st) st) as (Em & E3).
  set (st1 := fold_left _ (Stage.dimensionLines st) st) in *.
  unfold tracked. cbn. rewrite scene3D_removeAllMeshes.
  apply removeAll3_nil. intro o. apply tracked_in. revert T. now apply tracked_same.
Qed.

(** *** [deleteSelectedWalls] *)

Lemma tracked_deleteOne (w : Wall.t) (st : Stage.t) :
  scene_ok st -> meshes_ok st -> tracked st -> tracked (deleteOne w st).
Proof.
  intros H M T. unfold deleteOne.
  destruct (removeDimensionLine_ok (Wall.id w) st H M)
    as (H1 & M1 & _ & Em & E3 & _).
  assert (T1 : tracked (Stage.removeDimensionLine (Wall.id w) st))
    by (revert T; now apply tracked_same).
  set (st1 := Stage.removeDimensionLine (Wall.id w) st) in *.
  destruct (JSMap.get (Wall.id w) (Stage.wallMeshes st1)) as [mesh|] eqn:G;
    [|assumption].
  apply get_Some in G. unfold tracked in *. cbn. rewrite T1.
  unfold JSMap.delete, Stage.remove.
  rewrite (filter_map_swap snd (isKind Stage.WallBlock)
             (fun km => isKind Stage.WallBlock (snd km))) by reflexivity.
  rewrite (filter_map_swap snd (isKind Stage.WallBlock)
             (fun km => isKind Stage.WallBlock (snd km))) by reflexivity.
  rewrite (filter_map_swap snd
             (fun o => negb (Stage.uuid o =? Stage.uuid mesh))
             (fun km => negb (fst km =? Wall.id w)%string)).
  - f_equal. apply filter_comm.
  - intros km I. apply filter_In in I. destruct I as (I & _). f_equal.
    pose proof (ok_entries st1 M1) as F. rewrite Forall_forall in F.
    pose proof (F km I) as (U & S). pose proof (F _ G) as (Um & Sm).
    cbn [fst snd] in Um, Sm.
    destruct (String.eqb_spec (fst km) (Wall.id w)) as [E|E].
    + assert (km = (Wall.id w, mesh))
        by (apply (NoDup_map_inj fst (Stage.wallMeshes st1)); auto; apply M1).
      subst km. apply Nat.eqb_refl.
    + apply Nat.eqb_neq. intro X. apply E.
      assert (snd km = mesh).
      { apply (scenes_same_object _ _ _ (snd km) mesh (ok_scenes st1 H1)); auto;
          apply in_app_iff; tauto. }
      congruence.
Qed.

Lemma tracked_deleteSelectedWalls (st : Stage.t) :
  registry_inv (Stage.viewer st) -> stage_inv st -> tracked st ->
  tracked (Stage.deleteSelectedWalls st).
Proof.
  intros R (H & M & _) T. unfold Stage.deleteSelectedWalls.
  apply tracked_updateWallList.
  destruct (selected_walls _ (ok_selected R)) as [S|(w & S)]; rewrite S; cbn [fold_left].
  - exact T.
  - exact (tracked_deleteOne w st H M T).
Qed.

(** *** The handlers *)

Lemma tracked_flags (st : Stage.t) :
  tracked st ->
  (forall i, tracked (Stage.highlightWall i st))
  /\ (forall i, tracked (Stage.selectWall i st))
  /\ tracked (Stage.clearWallStates st).
Proof.
  intro T. unfold Stage.highlightWall, Stage.selectWall, Stage.clearWallStates.
  repeat split; intros; now apply tracked_updateWallList.
Qed.

Lemma tracked_onMouseDown (e : MouseEvent) (p : Pick) (st st' : Stage.t) :
  registry_inv (Stage.viewer st) -> stage_inv st -> tracked st ->
  Stage.onMouseDown e p st = Stage.Ok st' -> tracked st'.
Proof.
  intros R I T E. destruct (tracked_flags st T) as (Fh & Fs & Fc).
  unfold Stage.onMouseDown in E.
  destruct (negb (Viewer.is2D (Stage.viewer st))).
  { destruct (wallHits p); apply stage_Ok_inj in E; subst st'; auto. }
  destruct (Viewer.isDrawingMode (Stage.viewer st)).
  2:{ destruct (button e =? 0)%Z; [destruct (wallHits p)|];
        apply stage_Ok_inj in E; subst st'; auto. }
  destruct (negb (button e =? 0)%Z); [apply stage_Ok_inj in E; subst st'; assumption|].
  destruct (Viewer.getIntersectionPoint (Stage.viewer st) p) as [q|];
    [|apply stage_Ok_inj in E; subst st'; assumption].
  destruct (negb (Viewer.isDrawing (Stage.viewer st))).
  { apply stage_Ok_inj in E; subst st'. exact T. }
  destruct (Viewer.startPoint (Stage.viewer st)) as [a|]; [|discriminate].
  pose proof (tracked_addWall a q st R I T) as T1.
  generalize dependent (snd (Stage.addWall a q st)). intros st1 E T1.
  destruct (shiftKey e); apply stage_Ok_inj in E; subst st'; exact T1.
Qed.

Lemma tracked_onMouseMove (p : Pick) (st : Stage.t) :
  tracked st -> tracked (Stage.onMouseMove p st).
Proof.
  intro T. destruct (tracked_flags st T) as (Fh & Fs & Fc).
  unfold Stage.onMouseMove.
  set (hovered := if Viewer.is2D (Stage.viewer st) then _ else st).
  assert (Th : tracked hovered).
  { unfold hovered. destruct (Viewer.is2D (Stage.viewer st)); [|assumption].
    destruct (wallHits p); [|auto].
    destruct (negb (Viewer.isDrawing (Stage.viewer st))); assumption. }
  exact Th.
Qed.

Lemma tracked_handle (ev : Viewer.Event) (st st' : Stage.t) :
  registry_inv (Stage.viewer st) -> stage_inv st -> tracked st ->
  Stage.handle ev st = Stage.Ok st' -> tracked st'.
Proof.
  intros R I T E. destruct (tracked_flags st T) as (Fh & Fs & Fc).
  destruct ev; cbn [Stage.handle] in E.
  - apply stage_Ok_inj in E; subst st'. now apply tracked_addWall.
  - apply stage_Ok_inj in E; subst st'. unfold Stage.setView.
    destruct is2D; [exact T|]. apply tracked_update3DView; [|exact T].
    exact (ok_distinct R).
  - apply stage_Ok_inj in E; subst st'. exact T.
  - apply stage_Ok_inj in E; subst st'. now apply tracked_clearAllWalls.
  - apply stage_Ok_inj in E; subst st'. now apply tracked_deleteSelectedWalls.
  - apply stage_Ok_inj in E; subst st'. exact T.
  - apply stage_Ok_inj in E; subst st'. apply Fh.
  - apply stage_Ok_inj in E; subst st'. apply Fs.
  - apply stage_Ok_inj in E; subst st'. exact Fc.
  - apply stage_Ok_inj in E; subst st'. exact T.
  - exact (tracked_onMouseDown e p st st' R I T E).
  - apply stage_Ok_inj in E; subst st'. now apply tracked_onMouseMove.
  - apply stage_Ok_inj in E; subst st'. assumption.
  - apply stage_Ok_inj in E; subst st'. unfold Stage.onWallListItemMouseOver.
    destruct (listItemWallId target); [apply Fh|assumption].
  - unfold Stage.onWallListItemMouseOut in E.
    destruct (listItemWallId target) as [id|]; [|apply stage_Ok_inj in E; subst st'; assumption].
    destruct (negb _); [|apply stage_Ok_inj in E; subst st'; assumption].
    destruct (find _ _); [|discriminate]. apply stage_Ok_inj in E; subst st'.
    now apply tracked_updateWallList.
  - apply stage_Ok_inj in E; subst st'. unfold Stage.onWallListItemClick.
    destruct (listItemWallId target); [apply Fs|assumption].
  - apply stage_Ok_inj in E; subst st'. exact T.
  - apply stage_Ok_inj in E; subst st'. exact T.
Qed.

Lemma reachable_tracked (st : Stage.t) : Stage.reachable st -> tracked st.
Proof.
  induction 1 as [w h wl|ev st st' R T E]; [reflexivity|].
  destruct (reachable_stage st R) as (RV & I).
  eapply tracked_handle; eauto. now apply ViewerFacts.reachable_registry.
Qed.

End StageTracked.

Module StageView.
Import JSMapFacts StageFacts StageSteps StageCreate StageLoops StageRun StageInv
  StageTracked.

(** *** The view under the steps of the viewer *)

Lemma view_zoomExtend (v : Viewer.t) : Viewer.is2D (Viewer.zoomExtend v) = Viewer.is2D v.
Proof.
  destruct (ViewerFacts.zoomExtend_frame v) as [->|(c & tg & ->)]; reflexivity.
Qed.

Lemma view_removePreviewLine (v : Viewer.t) :
  Viewer.is2D (Viewer.removePreviewLine v) = Viewer.is2D v.
Proof. unfold Viewer.removePreviewLine. destruct (Viewer.previewLine v); reflexivity. Qed.

Lemma view_toggleDrawingMode (v : Viewer.t) :
  Viewer.is2D (Viewer.toggleDrawingMode v) = Viewer.is2D v.
Proof.
  unfold Viewer.toggleDrawingMode, Viewer.cleanupDrawing. cbn.
  destruct (negb (negb (Viewer.isDrawingMode v))); [|reflexivity].
  cbn [Viewer.is2D Viewer.set_startPoint Viewer.set_isDrawing].
  now rewrite view_removePreviewLine.
Qed.

Lemma view_clearAllWalls (v : Viewer.t) :
  Viewer.is2D (Viewer.clearAllWalls v) = Viewer.is2D v.
Proof. unfold Viewer.clearAllWalls. now rewrite view_zoomExtend. Qed.

Lemma view_deleteSelectedWalls (v : Viewer.t) :
  Viewer.is2D (Viewer.deleteSelectedWalls v) = Viewer.is2D v.
Proof. unfold Viewer.deleteSelectedWalls. now rewrite view_zoomExtend. Qed.

Lemma view_onMouseMove (p : Pick) (v : Viewer.t) :
  Viewer.is2D (Viewer.onMouseMove p v) = Viewer.is2D v.
Proof.
  unfold Viewer.onMouseMove, Viewer.onMouseMoveAt.
  set (hovered := if Viewer.is2D v then _ else v).
  assert (E : Viewer.is2D hovered = Viewer.is2D v).
  { unfold hovered. destruct (Viewer.is2D v) eqn:V; [|exact V].
    destruct (wallHits p); [|exact V].
    destruct (negb (Viewer.isDrawing v)); exact V. }
  rewrite <- E.
  repeat match goal with |- context [match ?c with _ => _ end] => destruct c end;
    reflexivity.
Qed.

(** *** The meshes of the map *)

Lemma blocks_same (st st' : Stage.t) :
  Stage.wallMeshes st' = Stage.wallMeshes st ->
  Viewer.is2D (Stage.viewer st') = Viewer.is2D (Stage.viewer st) ->
  blocks st -> blocks st'.
Proof. unfold blocks. now intros -> ->. Qed.

Lemma blocks_updateWallList (st : Stage.t) :
  blocks st -> blocks (Stage.updateWallList st).
Proof. unfold Stage.updateWallList. destruct (Stage.wallListElement st); auto. Qed.

Lemma blocks_onViewer (f : Viewer.t -> Viewer.t) (st : Stage.t) :
  Viewer.is2D (f (Stage.viewer st)) = Viewer.is2D (Stage.viewer st) ->
  blocks st -> blocks (Stage.onViewer f st).
Proof. intro V. now apply blocks_same. Qed.

Lemma blocks_addWall (a b : Vector3.t) (st : Stage.t) :
  registry_inv (Stage.viewer st) -> stage_inv st -> blocks st ->
  blocks (snd (Stage.addWall a b st)).
Proof.
  intros R (_ & _ & [Km _ _]) B. unfold Stage.addWall. cbn [snd].
  apply blocks_updateWallList.
  set (v := Stage.viewer st) in *.
  set (wall := fst (Viewer.addWall a b v)).
  set (st1 := Stage.onViewer (fun v => snd (Viewer.addWall a b v)) st).
  assert (Ei : Wall.id wall = wallId (Viewer.wallCounter v)) by reflexivity.
  assert (Fresh : ~ In (Wall.id wall) (map fst (Stage.wallMeshes st1))).
  { change (Stage.wallMeshes st1) with (Stage.wallMeshes st). rewrite Km, Ei.
    apply minted_fresh. apply (ok_minted R). }
  destruct (createWallMesh2D_fresh wall st1 Fresh) as (box & _ & Em & _).
  assert (V : Viewer.is2D (Stage.viewer (Stage.createWallMesh2D wall st1))
              = Viewer.is2D v) by now rewrite viewer_createWallMesh2D.
  rewrite V. destruct (Viewer.is2D v) eqn:D; cbn [negb].
  - intro X. rewrite V in X. discriminate.
  - intros _. unfold Stage.createWallMesh3D. cbn [Stage.wallMeshes Stage.set_wallMeshes].
    rewrite Em, set_last by assumption. apply Forall_app. split.
    + apply B. exact D.
    + repeat constructor.
Qed.

Lemma blocks_createAll3D (ws : list Wall.t) (st : Stage.t) :
  Forall (fun km => isKind Stage.WallBlock (snd km) = true) (Stage.wallMeshes st) ->
  Forall (fun km => isKind Stage.WallBlock (snd km) = true)
    (Stage.wallMeshes (fold_left (fun st wall => Stage.createWallMesh3D wall st) ws st)).
Proof.
  revert st. induction ws as [|w ws IH]; intros st F; [assumption|].
  cbn [fold_left]. apply IH. unfold Stage.createWallMesh3D.
  cbn [Stage.wallMeshes Stage.set_wallMeshes]. now apply set_Forall.
Qed.

Lemma blocks_setView (b : bool) (st : Stage.t) : blocks st -> blocks (Stage.setView b st).
Proof.
  intro B. unfold Stage.setView. destruct b.
  - intro X. discriminate X.
  - intros _. unfold Stage.update3DView. apply blocks_createAll3D. constructor.
Qed.

Lemma blocks_clearAllWalls (st : Stage.t) : blocks (Stage.clearAllWalls st).
Proof.
  unfold Stage.clearAllWalls. apply blocks_updateWallList. intros _. constructor.
Qed.

Lemma blocks_deleteSelectedWalls (st : Stage.t) :
  registry_inv (Stage.viewer st) -> blocks st -> blocks (Stage.deleteSelectedWalls st).
Proof.
  intros R B. unfold Stage.deleteSelectedWalls. apply blocks_updateWallList.
  intro V. cbn [Stage.viewer Stage.onViewer] in V.
  rewrite view_deleteSelectedWalls in V. cbn [Stage.wallMeshes Stage.onViewer].
  destruct (selected_walls _ (ok_selected R)) as [S|(w & S)]; rewrite S in *;
    cbn [fold_left] in *.
  - now apply B.
  - fold (deleteOne w st) in *. rewrite viewer_deleteOne in V. specialize (B V).
    unfold deleteOne.
    rewrite (proj1 (meshes_removeDimensionLine (Wall.id w) st)).
    destruct (JSMap.get _ _); cbn;
      rewrite ?(proj1 (meshes_removeDimensionLine (Wall.id w) st)); [|assumption].
    now apply delete_Forall.
Qed.

Lemma blocks_flags (st : Stage.t) :
  blocks st ->
  (forall i, blocks (Stage.highlightWall i st))
  /\ (forall i, blocks (Stage.selectWall i st))
  /\ blocks (Stage.clearWallStates st).
Proof.
  intro T. unfold Stage.highlightWall, Stage.selectWall, Stage.clearWallStates.
  repeat split; intros; apply blocks_updateWallList; now apply blocks_onViewer.
Qed.

Lemma blocks_onMouseDown (e : MouseEvent) (p : Pick) (st st' : Stage.t) :
  registry_inv (Stage.viewer st) -> stage_inv st -> blocks st ->
  Stage.onMouseDown e p st = Stage.Ok st' -> blocks st'.
Proof.
  intros R I T E. destruct (blocks_flags st T) as (Fh & Fs & Fc).
  unfold Stage.onMouseDown in E.
  destruct (negb (Viewer.is2D (Stage.viewer st))).
  { destruct (wallHits p); apply stage_Ok_inj in E; subst st'; auto. }
  destruct (Viewer.isDrawingMode (Stage.viewer st)).
  2:{ destruct (button e =? 0)%Z; [destruct (wallHits p)|];
        apply stage_Ok_inj in E; subst st'; auto. }
  destruct (negb (button e =? 0)%Z); [apply stage_Ok_inj in E; subst st'; assumption|].
  destruct (Viewer.getIntersectionPoint (Stage.viewer st) p) as [q|];
    [|apply stage_Ok_inj in E; subst st'; assumption].
  destruct (negb (Viewer.isDrawing (Stage.viewer st))).
  { apply stage_Ok_inj in E; subst st'. now apply blocks_onViewer. }
  destruct (Viewer.startPoint (Stage.viewer st)) as [a|]; [|discriminate].
  pose proof (blocks_addWall a q st R I T) as T1.
  generalize dependent (snd (Stage.addWall a q st)). intros st1 E T1.
  assert (T2 : blocks (Stage.onViewer Viewer.removePreviewLine st1))
    by (apply blocks_onViewer; [apply view_removePreviewLine|assumption]).
  generalize dependent (Stage.onViewer Viewer.removePreviewLine st1). intros st2 E T2.
  destruct (shiftKey e); apply stage_Ok_inj in E; subst st'; now apply blocks_onViewer.
Qed.

Lemma blocks_onMouseMove (p : Pick) (st : Stage.t) :
  blocks st -> blocks (Stage.onMouseMove p st).
Proof.
  intro T. unfold Stage.onMouseMove.
  set (hovered := if Viewer.is2D (Stage.viewer st) then _ else st).
  assert (Eh : Stage.wallMeshes hovered = Stage.wallMeshes st).
  { unfold hovered. destruct (Viewer.is2D (Stage.viewer st)); [|reflexivity].
    destruct (wallHits p).
    - destruct (negb (Viewer.isDrawing (Stage.viewer st))); reflexivity.
    - unfold Stage.highlightWall, Stage.updateWallList.
      destruct (Stage.wallListElement _); reflexivity. }
  revert T. apply blocks_same; [exact Eh|]. cbn [Stage.viewer]. apply view_onMouseMove.
Qed.

Lemma blocks_handle (ev : Viewer.Event) (st st' : Stage.t) :
  registry_inv (Stage.viewer st) -> stage_inv st -> blocks st ->
  Stage.handle ev st = Stage.Ok st' -> blocks st'.
Proof.
  intros R I T E. destruct (blocks_flags st T) as (Fh & Fs & Fc).
  destruct ev; cbn [Stage.handle] in E.
  - apply stage_Ok_inj in E; subst st'. now apply blocks_addWall.
  - apply stage_Ok_inj in E; subst st'. now apply blocks_setView.
  - apply stage_Ok_inj in E; subst st'. apply blocks_onViewer; [apply view_zoomExtend|exact T].
  - apply stage_Ok_inj in E; subst st'. apply blocks_clearAllWalls.
  - apply stage_Ok_inj in E; subst st'. now apply blocks_deleteSelectedWalls.
  - apply stage_Ok_inj in E; subst st'.
    apply blocks_onViewer; [apply view_toggleDrawingMode|exact T].
  - apply stage_Ok_inj in E; subst st'. apply Fh.
  - apply stage_Ok_inj in E; subst st'. apply Fs.
  - apply stage_Ok_inj in E; subst st'. exact Fc.
  - apply stage_Ok_inj in E; subst st'. now apply blocks_onViewer.
  - exact (blocks_onMouseDown e p st st' R I T E).
  - apply stage_Ok_inj in E; subst st'. now apply blocks_onMouseMove.
  - apply stage_Ok_inj in E; subst st'. assumption.
  - apply stage_Ok_inj in E; subst st'. unfold Stage.onWallListItemMouseOver.
    destruct (listItemWallId target); [apply Fh|assumption].
  - unfold Stage.onWallListItemMouseOut in E.
    destruct (listItemWallId target) as [id|]; [|apply stage_Ok_inj in E; subst st'; assumption].
    destruct (negb _); [|apply stage_Ok_inj in E; subst st'; assumption].
    destruct (find _ _); [|discriminate]. apply stage_Ok_inj in E; subst st'.
    apply blocks_updateWallList. now apply blocks_onViewer.
  - apply stage_Ok_inj in E; subst st'. unfold Stage.onWallListItemClick.
    destruct (listItemWallId target); [apply Fs|assumption].
  - apply stage_Ok_inj in E; subst st'. now apply blocks_onViewer.
  - apply stage_Ok_inj in E; subst st'. now apply blocks_onViewer.
Qed.

Lemma reachable_blocks (st : Stage.t) : Stage.reachable st -> blocks st.
Proof.
  induction 1 as [w h wl|ev st st' R T E]; [intros _; constructor|].
  destruct (reachable_stage st R) as (RV & I).
  eapply blocks_handle; eauto. now apply ViewerFacts.reachable_registry.
Qed.

End StageView.

Module StageSessions.
Import StageInv.

Lemma registry_size (ws : list Wall.t) (c : nat) :
  registry_ok ws c -> List.length ws <= c.
Proof.
  intro R. rewrite <- (length_map Wall.id ws).
  apply Nat.le_trans with (List.length (map wallId (seq 0 c)));
    [|now rewrite length_map, length_seq].
  apply NoDup_incl_length; [apply (ok_distinct R)|].
  intros i I. apply in_map_iff in I. destruct I as (w & <- & I).
  pose proof (ok_minted R) as M. rewrite Forall_forall in M.
  destruct (M w I) as (k & K & ->). apply in_map, in_seq. lia.
Qed.

Lemma stageDrawn_reachable : Stage.reachable stageDrawn.
Proof. apply stage_reachable_run. constructor. Qed.

Lemma stageIn3D_reachable : Stage.reachable stageIn3D.
Proof. apply stage_reachable_run, stageDrawn_reachable. Qed.

Lemma stageCleared_reachable : Stage.reachable stageCleared.
Proof. apply stage_reachable_run, stageIn3D_reachable. Qed.

End StageSessions.

(** X22. In every reachable state of the viewer the two maps are keyed by the
    registry: the keys of [wallMeshes] and the keys of [dimensionLines] are
    the ids of the walls, in the order of the walls and without repetition.
    Every mesh of [wallMeshes] carries its key as [userData.wallId] and is a
    child of a scene, the box of [createWallMesh2D] of the 2D scene or the
    mesh of [createWallMesh3D] of the 3D scene; so a pick, which tests the
    values of [wallMeshes], can only name a wall of the registry.  The
    dimension lines in the 2D scene and the labels in the container are
    those of [dimensionLines], in order, and no object is in a scene
    twice. *)
Theorem wall_objects_are_keyed_by_the_registry (st : Stage.t) :
  Stage.reachable st ->
  let ids := map Wall.id (Viewer.walls (Stage.viewer st)) in
  map fst (Stage.wallMeshes st) = ids
  /\ map fst (Stage.dimensionLines st) = ids
  /\ NoDup ids
  /\ Forall (entry_ok st) (Stage.wallMeshes st)
  /\ Forall (fun km => In (Stage.userData_wallId (snd km)) (map Some ids))
       (Stage.wallMeshes st)
  /\ filter (isKind Stage.DimensionLine) (Stage.scene2D st)
     = map (fun kd => Stage.line (snd kd)) (Stage.dimensionLines st)
  /\ Stage.labels st = map (fun kd => Stage.label (snd kd)) (Stage.dimensionLines st)
  /\ NoDup (map Stage.uuid (Stage.scene2D st ++ Stage.scene3D st))
  /\ NoDup (Stage.labels st).
Proof.
  intro R. destruct (StageInv.reachable_stage st R) as (RV & H & M & [Km Kd Kl]).
  pose proof (ViewerFacts.reachable_registry _ RV) as G. cbv zeta.
  repeat split; try assumption; try apply H.
  - apply (ok_distinct G).
  - apply M.
  - pose proof (ok_entries st M) as F. rewrite Forall_forall in *.
    intros km I. destruct (F km I) as (-> & _). apply in_map. rewrite <- Km.
    now apply in_map.
Qed.

Lemma wall_objects_are_keyed_by_the_registry_witness :
  map fst (Stage.wallMeshes stageDrawn)
  = map Wall.id (Viewer.walls (Stage.viewer stageDrawn)).
Proof.
  exact (proj1 (wall_objects_are_keyed_by_the_registry stageDrawn
                  StageSessions.stageDrawn_reachable)).
Defined.

(** X23. The line that [createWallMesh2D] adds to the 2D scene for a wall is
    never removed: in every reachable state the wall lines of the 2D scene
    are, in order, one for each id ever minted, [wall_0] up to the counter.
    [deleteSelectedWalls] and [clearAllWalls] take the mesh of [wallMeshes]
    and the dimension line out of the scenes and leave the line, so the 2D
    scene has at least as many wall lines as the registry has walls. *)
Theorem wall_lines_are_never_removed (st : Stage.t) :
  Stage.reachable st ->
  map Stage.userData_wallId (filter (isKind Stage.WallLine) (Stage.scene2D st))
  = map (fun k => Some (wallId k)) (seq 0 (Viewer.wallCounter (Stage.viewer st)))
  /\ List.length (Viewer.walls (Stage.viewer st))
     <= List.length (filter (isKind Stage.WallLine) (Stage.scene2D st)).
Proof.
  intro R. destruct (StageInv.reachable_stage st R) as (RV & _ & _ & [_ _ Kl]).
  split; [exact Kl|].
  rewrite <- (length_map Stage.userData_wallId), Kl, length_map, length_seq.
  apply StageSessions.registry_size. now apply ViewerFacts.reachable_registry.
Qed.

Lemma wall_lines_are_never_removed_witness :
  map Stage.userData_wallId
    (filter (isKind Stage.WallLine) (Stage.scene2D stageCleared))
  = map (fun k => Some (wallId k))
      (seq 0 (Viewer.wallCounter (Stage.viewer stageCleared))).
Proof.
  exact (proj1 (wall_lines_are_never_removed stageCleared
                  StageSessions.stageCleared_reachable)).
Defined.

(** X24. The wall list of the page shows the registry.  After any events on
    a new viewer, if the page has a wall list then its items are exactly
    what [updateWallList] builds from the walls now: one item per wall, in
    order, with the wall's number, length, id and selection.  The one
    exception is a list that has not been rebuilt yet: then it still has
    the children the page gave it, and the registry is empty. *)
Theorem wall_list_shows_the_registry (evs : list Viewer.Event) (w h : float)
    (wallList : option (list ListItem)) (items : list ListItem) :
  let st := Stage.run evs (Stage.create w h wallList) in
  Stage.wallListElement st = Some items ->
  items = updateWallList (Stage.viewer st)
  \/ (wallList = Some items /\ Viewer.walls (Stage.viewer st) = []).
Proof.
  cbv zeta. intro E.
  destruct (StageList.list_run evs wallList (Stage.create w h wallList))
    as [L|(L & W)].
  - right. split; [reflexivity|].
    unfold Stage.create. cbn [Stage.viewer]. unfold Viewer.create.
    now rewrite zoomExtend_keeps_walls.
  - left. now apply L.
  - right. split; [congruence|assumption].
Qed.

Lemma wall_list_shows_the_registry_witness :
  Stage.wallListElement stageDrawn
  = Some [Build_ListItem (Some "0"%string) 5 "wall_0" true;
          Build_ListItem (Some "1"%string) 5 "wall_1" false]
  /\ ([Build_ListItem (Some "0"%string) 5 "wall_0" true;
       Build_ListItem (Some "1"%string) 5 "wall_1" false]
      = updateWallList (Stage.viewer stageDrawn)
      \/ (Some [Build_ListItem None 0 "wall_9" false]
          = Some [Build_ListItem (Some "0"%string) 5 "wall_0" true;
                  Build_ListItem (Some "1"%string) 5 "wall_1" false]
          /\ Viewer.walls (Stage.viewer stageDrawn) = [])).
Proof.
  assert (E : Stage.wallListElement stageDrawn
              = Some [Build_ListItem (Some "0"%string) 5 "wall_0" true;
                      Build_ListItem (Some "1"%string) 5 "wall_1" false])
    by (vm_compute; reflexivity).
  split; [exact E|]. revert E. unfold stageDrawn.
  exact (wall_list_shows_the_registry _ 800 600 _ _).
Defined.

(** X25. The 3D scene holds the 3D meshes of [wallMeshes] and no other wall
    object: [update3DView], [deleteSelectedWalls] and [clearAllWalls] take
    out of it every mesh they drop from the map.  In the 3D view every mesh
    of the map is a 3D mesh, so the 3D scene shows one mesh per wall of the
    registry, in the order of the walls, each carrying its wall's id. *)
Theorem scene3D_shows_one_mesh_per_wall (st : Stage.t) :
  Stage.reachable st ->
  Stage.scene3D st = filter (isKind Stage.WallBlock) (map snd (Stage.wallMeshes st))
  /\ (Viewer.is2D (Stage.viewer st) = false ->
      Stage.scene3D st = map snd (Stage.wallMeshes st)
      /\ map Stage.userData_wallId (Stage.scene3D st)
         = map (fun wall => Some (Wall.id wall)) (Viewer.walls (Stage.viewer st))).
Proof.
  intro R. pose proof (StageTracked.reachable_tracked st R) as T.
  split; [exact T|]. intro V.
  pose proof (StageView.reachable_blocks st R V) as B.
  destruct (StageInv.reachable_stage st R) as (_ & _ & M & [Km _ _]).
  assert (E : Stage.scene3D st = map snd (Stage.wallMeshes st)).
  { rewrite T. apply StageFacts.filter_all. intros o I.
    apply in_map_iff in I. destruct I as (km & <- & I).
    rewrite Forall_forall in B. now apply B. }
  split; [exact E|].
  rewrite E, <- (map_map Wall.id Some), <- Km, !map_map. apply map_ext_in.
  intros km I. pose proof (ok_entries st M) as F. rewrite Forall_forall in F.
  now destruct (F km I).
Qed.

Lemma scene3D_shows_one_mesh_per_wall_witness :
  Viewer.is2D (Stage.viewer stageIn3D) = false
  /\ Stage.scene3D stageIn3D = map snd (Stage.wallMeshes stageIn3D).
Proof.
  assert (V : Viewer.is2D (Stage.viewer stageIn3D) = false)
    by (vm_compute; reflexivity).
  split; [exact V|].
  exact (proj1 (proj2 (scene3D_shows_one_mesh_per_wall stageIn3D
                         StageSessions.stageIn3D_reachable) V)).
Defined.
